(* ===== verification/_CoqProject ===== *)
-Q . S2P
Prelude.v
Text.v
Numbers.v
SseFormat.v
SseParser.v
SseParserProofs.v
SseRoundTrip.v
SseTheorems.v
PathPattern.v
PathPatternProofs.v
Http.v
HttpContext.v
HttpContextTheorems.v
TypedRoute.v
TypedRouteTheorems.v
HttpRouter.v
HttpRouterTheorems.v
HttpDispatch.v
TypedOverloads.v
Websocket.v
WebsocketTheorems.v
WebsocketRouting.v
SseSession.v
SseSessionTheorems.v
StaticFiles.v
HttpSession.v
HttpSessionTheorems.v
HttpConnection.v
ServerExchange.v
Controllers.v
RouterScript.v
ExampleApp.v
HostPool.v
DiContainer.v
HttpProxySession.v
HttpClient.v
HttpClientTheorems.v
HttpClientCalls.v
ApiCall.v
ApiEndToEnd.v
HttpClientStream.v
ProxyStreams.v
SseClient.v
SseClientTheorems.v
SseStream.v
SseDemo.v
OpenApiAssets.v
OpenApi.v
OpenApiPage.v
OpenApiTheorems.v
TagInvoke.v
TagInvokeTheorems.v
TypedCalls.v
OpenApiPageTheorems.v
WebsocketClient.v
WebsocketClientTheorems.v
WebsocketClientTls.v
Calendar.v
Cron.v
CronTheorems.v
CronText.v
CronNext.v
CronNextSteps.v
CronNextTheorems.v
CronJob.v
Server.v
