(* ===== verification/Prelude.v ===== *)
(** * khttpd: a verification development

    khttpd is an HTTP and WebSocket server and client framework in C++ on Boost.Asio
    and Boost.Beast ([src/framework/]). This library models its code and states what
    makes it correct. Every definition is written after the code named here; code of
    other libraries is a parameter with its documented behaviour as named laws.

    ** The program and its model

    A request enters through [Server] (Server.v: [server.cpp], [io_context_pool.hpp]),
    which hands every accepted socket to a session. The session (HttpConnection.v,
    HttpSession.v: [session/http_session.cpp]) reads a head, lets the interceptors
    see it, reads the body under a limit, asks the router, writes the answer and
    goes on with the next request; HttpConnection.v is its life, HttpSession.v what
    it does with one request, ServerExchange.v both together. The router (HttpRouter.v: [router/http_router.*])
    selects a route by its pattern (PathPattern.v: the regular expressions the two
    routers build) and runs the handler on a context (HttpContext.v:
    [context/http_context.*]). Handlers may be typed (TypedRoute.v:
    [router/typed_route.hpp], [route_parameter.hpp], [http_result.hpp],
    [exception/]; TypedOverloads.v: the forty registration templates) and declared by
    controllers (Controllers.v: [controller/http_controller.hpp]), with
    arguments converted by the data transfer objects (TagInvoke.v:
    [dto/TagInvoke.hpp]). What no route serves may be a file (StaticFiles.v). A
    request can leave the HTTP path for a WebSocket session (Websocket.v,
    WebsocketRouting.v: [websocket/], [router/websocket_router.*],
    [context/websocket_context.*]), for
    a stream of events (SseSession.v, SseFormat.v: [sse/]) or for the reverse proxy
    (HttpProxySession.v: [client/http_proxy_session.cpp]). The routes document
    themselves (OpenApi.v, OpenApiPage.v, OpenApiAssets.v: [router/openapi*]).

    The clients are a buffered HTTP client (HttpClient.v, HttpClientCalls.v,
    HostPool.v: [client/http_client.*], [host_pool.*], [client_timeouts.hpp]) with
    the macros that declare its methods (ApiCall.v: [client/macros.hpp],
    [api_macros.hpp]), a streaming one (HttpClientStream.v), an SSE client
    (SseClient.v over SseParser.v) and a WebSocket client (WebsocketClient.v, over TLS
    WebsocketClientTls.v: [client/websocket_client.*]).
    Beside them stand the dependency injection container (DiContainer.v: [di/]) and
    the cron jobs (Cron.v, CronText.v, CronNext.v, CronJob.v over Calendar.v:
    [cron/]).

    The example program ([src/example/]) uses them together: ExampleApp.v has its
    handlers, controllers and registration script ([main.cpp],
    [HelloController.hpp] and its siblings) on the router above, SseDemo.v its
    stream of events ([SseDemo.hpp]) on the session of SseSession.v. RouterScript.v
    computes the table a script of registrations leaves, for any [std::sort].

    ** How it is modelled

    - Data: byte strings are lists of 8-bit characters (Text.v, Numbers.v hold the
      string operations of C++); integers are [Z] or [N], reduced modulo their width
      where the code relies on it ([u64], [Cron.u8], the checked [int] of HostPool.v).
    - Errors: a C++ call that may throw is an [outcome]; a handler is [M F A], a
      function from the context to the context and an outcome (HttpContext.v). Beast's
      [prepare_payload()] throws for the bodies [payload_refused] names (a body that is
      not empty under an informational, 204 or 304 status), so setting a body and
      sending a response may throw, inside a [try] or in its [catch] clause as the
      source has it.
    - Asynchronous objects are machines: the state is the members of the class, an
      event is a completion of Asio or Beast, a timer or a call, and an effect is an
      operation started or a callback invoked. A relation [..._step] lets every
      possible event happen in any order; properties hold of every reachable state.
      Code under one lock, or between two suspensions of a strand, is one step; the
      WebSocket client's owner may act within a handler as well, when its handlers are copied
      and in each of them (WebsocketClient.v), and [stop] of a cron job may fall
      between the test of its handler and the task (CronJob.v).
    - Interfaces are classes. Code outside the sources: [HttpFields] with
      [HttpFieldsLaws] (Beast's header container; [FieldList] is an instance),
      [Platform] (Boost.URL on the server, Boost.JSON, the version), [Verbs], [FileSystem],
      [BoostUrl] with [BoostUrlLaws] ([PercentUrl] is an instance), [StdSort]
      (the contract of [std::sort]; [merge_std_sort] is an instance). Between components:
      [PathCompiler], which states what the routers need of a pattern compiler.
    - Bounds and fuel: string loops carry the length of their text plus one; the
      8-bit loop of a cron field takes at most 256 rounds before it returns to a state it
      was in ([fill_fuel]); the search for a date has 2048 rounds ([find_fuel]), and
      [CronNextTheorems] proves that it ends within them; the 366 days of
      [find_next_day_maximum] are the code's. [None] or [loop_bound] is never the
      answer: each loop has a theorem that says so ([replace_all_spec],
      [make_cron_spec], [cron_next_spec], [feed_bounded]).

    ** What is proved

    - Patterns and routing: an expression matches exactly what its pattern denotes
      (PathPatternProofs.v); registration is insertion into a map from kind, path
      and method (HttpRouterTheorems.v); dispatch serves the most specific
      applicable route, 405 or the fallback, error pages do not depend on a
      half-written response, and only two kinds of exceptions leave
      [handle_exception] (HttpDispatch.v). The WebSocket router implements an abstract
      map from patterns to handlers (WebsocketRouting.v), and a controller
      registers exactly its methods under both base paths (Controllers.v).
    - One request: every request is answered whatever handlers throw, unless the
      handler for unknown exceptions throws or the response has a body its status
      forbids; the body reaches the handler whole or is answered 413, chunked coding reads
      back (HttpSessionTheorems.v); on a connection, heads,
      requests and responses alternate and the next head is read only when a response was
      completed without an error (HttpConnection.v); the canonical path of a
      file is below the web root (StaticFiles.v); contexts parse lazily without a visible effect, and
      multipart bodies and cookies are read exactly (HttpContextTheorems.v).
    - Types: parameters, headers and media types (TypedRouteTheorems.v), typed
      overloads, data transfer objects and their published schema (TagInvokeTheorems.v).
    - Documentation: the document and the page (OpenApiTheorems.v, OpenApiPageTheorems.v).
    - Streams: the SSE parser does not depend on chunk boundaries and reads back what the
      formatter writes (SseTheorems.v); SSE and WebSocket sessions keep one write in
      flight, their order and their bounds and report their end once (SseSessionTheorems.v,
      WebsocketTheorems.v; after a write error the chunked writer may report twice,
      [error_restarts_writer]); likewise the clients (SseClientTheorems.v,
      WebsocketClientTheorems.v, HttpClientStream.v, HttpClientTheorems.v); a
      blocking request always gets its answer (HttpClientCalls.v).
    - Composition: what a connection writes is the answers of the request path to its
      requests, one after the other (ServerExchange.v). Events that the server's session
      accepts reach the callback of the SSE client, however the network cuts them
      (SseStream.v). The proxy with both its connections refines the three
      machines (ProxyStreams.v). A call declared with [API_CALL] reaches the handler of
      the route of the same template with all its arguments (ApiEndToEnd.v), and a described
      struct in its body reaches the typed handler as the same value (TypedCalls.v).
      The example's registration always succeeds, and path and verb alone decide which
      of its handlers answers (ExampleApp.v).
    - The TLS session of the WebSocket client reaches the states of the plain one and no
      others, its extra handshake apart (WebsocketClientTls.v).
    - Cron: parsing is total and exact on the usual syntax (CronTheorems.v), the search ends
      and finds a match, the earliest one for the usual expressions, when one of the two
      day fields is unrestricted (CronNextTheorems.v); jobs run only when due (CronJob.v).
    - The container resolves exactly the types whose dependencies are finite and
      registered (DiContainer.v); a running server keeps one accept in flight (Server.v).

    Where the code does not do what it means to, a lemma shows it on an input
    (for instance [path_prefix_clobbers], [second_not_reset], [duplicate_anchors],
    [no_content_exception_escapes], [message_after_destruction], [task_begins_after_stop]).

    ** What is not modelled

    - Beast, Asio, OpenSSL, Boost.URL, Boost.JSON, Boost.Filesystem, spdlog and the C
      library: parameters. Floating point values, locales and log messages do not occur.
    - Time zones other than UTC; leap seconds; reading and printing of dates by
      [std::get_time] and [std::put_time]; the search under the Oracle and Quartz traits
      (nothing uses it).
    - The memory model: handlers on one strand are atomic, and so is a region under
      a lock. Lifetimes of objects are modelled only where a callback can outlive them
      (WebsocketClient.v); so the buffer of a message in flight is not
      (Websocket.v, WebsocketClient.v). A WebSocket client that connects again in a
      callback, and callbacks that throw, are left out.
    - The stream interfaces ([context/http_request_stream.hpp],
      [http_response_stream.hpp]) have no code; constructors that only pass members
      on; tests and build files; of the example, what [main] prints, the
      OpenAPI file it writes and the texts of its pages that are only markup. *)
From Stdlib Require Export ZArith NArith Lia Ascii.
From stdpp Require Export base list strings gmap relations sorting.
From stdpp Require Export options.

(** ** Byte strings

    [std::string] and [std::string_view] hold arbitrary bytes (embedded NUL,
    invalid UTF-8, ...), so they are lists of 8-bit characters. *)
Abbreviation bytes := (list ascii).

Definition str (s : string) : bytes := String.list_ascii_of_string s.
Arguments str s%_string : simpl never.

Definition chr (n : N) : ascii := ascii_of_N n.
Arguments chr : simpl never.
Definition code (c : ascii) : N := N_of_ascii c.

Definition NUL : ascii := Ascii false false false false false false false false.
Definition HT : ascii := Ascii true false false true false false false false.
Definition LF : ascii := Ascii false true false true false false false false.
Definition CR : ascii := Ascii true false true true false false false false.
Definition SP : ascii := Ascii false false false false false true false false.
Definition DQ : ascii := Ascii false true false false false true false false.

(** Markup literals: a literal of the source that contains double quotes is
    written with single quotes and read back with [htm]. *)
Definition htm (s : string) : bytes :=
  (λ c, if decide (c = "'"%char) then DQ else c) <$> str s.
Arguments htm s%_string : simpl never.

(** ** Machine integers *)
Definition size_max : Z := 2 ^ 64 - 1.
(** Reduction modulo [2^64], the arithmetic of [std::size_t]/[std::uint64_t]. *)
Definition u64 (z : Z) : Z := z mod 2 ^ 64.
Definition zlen {A} (l : list A) : Z := Z.of_nat (length l).

Lemma u64_id z : (0 ≤ z ≤ size_max)%Z → u64 z = z.
Proof. unfold u64, size_max. intros. apply Z.mod_small. lia. Qed.
Lemma u64_bound z : (0 ≤ u64 z ≤ size_max)%Z.
Proof. unfold u64, size_max. pose proof (Z.mod_pos_bound z (2 ^ 64)). lia. Qed.
Lemma zlen_app {A} (l k : list A) : zlen (l ++ k) = (zlen l + zlen k)%Z.
Proof. unfold zlen. rewrite length_app. lia. Qed.
Lemma zlen_cons {A} (x : A) l : zlen (x :: l) = (1 + zlen l)%Z.
Proof. unfold zlen. simpl. lia. Qed.
Lemma zlen_nil {A} : zlen (@nil A) = 0%Z.
Proof. done. Qed.
Lemma zlen_nonneg {A} (l : list A) : (0 ≤ zlen l)%Z.
Proof. unfold zlen. lia. Qed.

(** ** Exceptions: a C++ call returns a value or throws *)
Inductive outcome (E A : Type) : Type :=
| Ret (a : A)
| Throw (e : E).
Arguments Ret {E A} a.
Arguments Throw {E A} e.

#[export] Instance outcome_ret E : MRet (outcome E) := λ A a, Ret a.
#[export] Instance outcome_bind E : MBind (outcome E) := λ A B f m,
  match m with Ret a => f a | Throw e => Throw e end.
#[export] Instance outcome_fmap E : FMap (outcome E) := λ A B f m,
  match m with Ret a => Ret (f a) | Throw e => Throw e end.

Lemma bind_Ret {E A B} (a : A) (f : A → outcome E B) : (Ret a ≫= f) = f a.
Proof. done. Qed.
Lemma bind_Throw {E A B} (e : E) (f : A → outcome E B) : (Throw e ≫= f) = Throw e.
Proof. done. Qed.
Lemma bind_Ret_inv {E A B} (m : outcome E A) (f : A → outcome E B) b :
  (m ≫= f) = Ret b → ∃ a, m = Ret a ∧ f a = Ret b.
Proof. destruct m; simpl; [eauto|done]. Qed.
Lemma bind_assoc {E A B C} (m : outcome E A) (f : A → outcome E B) (g : B → outcome E C) :
  ((m ≫= f) ≫= g) = (m ≫= λ a, f a ≫= g).
Proof. by destruct m. Qed.

(** ** Event-driven components

    A component that reacts to events (calls, posted closures, completions of
    asynchronous operations) is a step relation; [rtc_invariant] is the
    induction principle its safety theorems use. *)
Lemma rtc_invariant {A} (R : relation A) (I : A → Prop) :
  (∀ x y, I x → R x y → I y) → ∀ x y, rtc R x y → I x → I y.
Proof. intros HR x y. induction 1; eauto. Qed.

(** Deterministic machines with observable effects: [run] folds the handlers
    over an event sequence and concatenates the effects they emit. *)
Section machine.
Context {St Ev Ef : Type} (handle : St → Ev → St * list Ef).

Fixpoint run (s : St) (evs : list Ev) : St * list Ef :=
  match evs with
  | [] => (s, [])
  | e :: evs =>
      let '(s1, out1) := handle s e in
      let '(s2, out2) := run s1 evs in (s2, out1 ++ out2)
  end.

Lemma run_app s evs1 evs2 :
  run s (evs1 ++ evs2) =
    let '(s1, o1) := run s evs1 in
    let '(s2, o2) := run s1 evs2 in (s2, o1 ++ o2).
Proof.
  revert s. induction evs1 as [|e evs1 IH]; intros s; simpl.
  - by destruct (run s evs2).
  - destruct (handle s e) as [s1 o1]. rewrite IH.
    destruct (run s1 evs1) as [s2 o2]. destruct (run s2 evs2). by rewrite (assoc_L (++)).
Qed.

Lemma run_invariant (I : St → Prop) :
  (∀ s e, I s → I (handle s e).1) → ∀ s evs, I s → I (run s evs).1.
Proof.
  intros HI s evs. revert s. induction evs as [|e evs IH]; intros s Hs; simpl; [done|].
  specialize (HI s e Hs). destruct (handle s e) as [s1 o1]. specialize (IH s1 HI).
  by destruct (run s1 evs).
Qed.

(** An invariant that also counts what has been emitted so far. *)
Lemma run_trace_invariant (I : St → list Ef → Prop) :
  (∀ s out e, I s out → I (handle s e).1 (out ++ (handle s e).2)) →
  ∀ evs s out, I s out → I (run s evs).1 (out ++ (run s evs).2).
Proof.
  intros HI evs. induction evs as [|e evs IH]; intros s out Hs; simpl.
  { by rewrite (right_id_L [] (++)). }
  specialize (HI s out e Hs). destruct (handle s e) as [s1 o1]. specialize (IH s1 _ HI).
  destruct (run s1 evs) as [s2 o2]. simpl in *. by rewrite (assoc_L (++)).
Qed.
End machine.

(** ** The contract of [std::sort]

    [std::sort] rearranges the range so that no element compares before an
    earlier one; the order of equivalent elements is unspecified, so clients
    are proved correct for every conforming implementation. *)
Class StdSort {A : Type} (before : A → A → bool) (sort : list A → list A) : Prop := {
  std_sort_perm l : sort l ≡ₚ l;
  std_sort_sorted l : StronglySorted (λ x y, before y x = false) (sort l);
}.

(** Merge sort conforms for every strict weak order. *)
Section merge.
Context {A : Type} (before : A → A → bool).
Definition not_after (x y : A) : Prop := before y x = false.
#[local] Instance not_after_dec : RelDecision not_after := λ x y, decide (before y x = false).
Definition merge_std_sort (l : list A) : list A := merge_sort not_after l.
Lemma merge_std_sort_conforms :
  (∀ x y, before x y = true → before y x = false) →
  (∀ x y z, before y x = false → before z y = false → before z x = false) →
  StdSort before merge_std_sort.
Proof.
  intros Hasym Htrans. split.
  - intros l. apply merge_sort_Permutation.
  - intros l. assert (Transitive not_after) by (intros x y z; apply Htrans).
    assert (Total not_after) by (intros x y; unfold not_after; destruct (before x y) eqn:?; auto).
    by apply (StronglySorted_merge_sort not_after).
Qed.
End merge.

(** ** Lists *)
Lemma forallb_Forall {A} (p : A → bool) l : forallb p l = true ↔ Forall (λ x, p x = true) l.
Proof. rewrite forallb_forall, Forall_forall. by setoid_rewrite list_elem_of_In. Qed.

(** ** Tactics and hints *)
Create HintDb khttpd.
Create Rewrite HintDb outcome.
Create Rewrite HintDb zlen.
#[export] Hint Rewrite @bind_Ret @bind_Throw : outcome.
#[export] Hint Rewrite @zlen_app @zlen_cons @zlen_nil : zlen.

(** Destruct the innermost scrutinee of a match, keeping the equation. *)
Ltac destr_match :=
  match goal with
  | |- context [match ?x with _ => _ end] =>
      lazymatch x with context [match _ with _ => _ end] => fail | _ => destruct x eqn:? end
  | H : context [match ?x with _ => _ end] |- _ =>
      lazymatch x with context [match _ with _ => _ end] => fail | _ => destruct x eqn:? end
  end.
(** Push list lengths to [Z] atoms and finish with [lia]. *)
Ltac zlen_lia :=
  autorewrite with zlen in *; rewrite ?zlen_app, ?zlen_cons in *;
  repeat match goal with
  | |- context [zlen ?l] => lazymatch goal with H : (0 ≤ zlen l)%Z |- _ => fail | _ => pose proof (zlen_nonneg l) end
  end; try lia.
(** Re-associate appends to the right and compare. *)
Ltac app_norm := repeat (progress simpl || rewrite <-!app_assoc); reflexivity.

Lemma filter_ext_elem {A} (P Q : A → Prop) `{∀ x, Decision (P x), ∀ x, Decision (Q x)} (l : list A) :
  (∀ x, x ∈ l → P x ↔ Q x) → filter P l = filter Q l.
Proof.
  induction l as [|x l IH]; intros Hl; [done|]. rewrite !filter_cons, IH by (intros; apply Hl; by right).
  assert (P x ↔ Q x) as Hx by (apply Hl; by left). by repeat case_decide; try tauto.
Qed.
