(* ===== verification/Text.v ===== *)
(** * The C++ string and character operations the sources call

    [std::string] members ([find], [find_first_of], [substr], ...), the
    [<cctype>] predicates in the "C" locale, and decimal/hexadecimal
    conversion ([std::to_string], [std::stoull], [std::hex], [from_chars]).
    Positions are [nat], [std::string::npos] is [None]. *)
From S2P Require Import Prelude.

(** ** <cctype>, "C" locale *)
Section ctype.
Implicit Types c : ascii.
Local Open Scope N_scope.
Definition in_range (lo hi : N) c : bool := (lo <=? code c) && (code c <=? hi).
Definition isdigit c : bool := in_range 48 57 c.
Definition isupper c : bool := in_range 65 90 c.
Definition islower c : bool := in_range 97 122 c.
Definition isalpha c : bool := isupper c || islower c.
Definition isalnum c : bool := isalpha c || isdigit c.
Definition isspace c : bool := (code c =? 32) || in_range 9 13 c.
Definition tolower c : ascii := if isupper c then chr (code c + 32) else c.
Definition toupper c : ascii := if islower c then chr (code c - 32) else c.
End ctype.

(** A Boolean property of characters is decided by enumerating the 256 bytes. *)
Definition all_bytes : list ascii := chr ∘ N.of_nat <$> seq 0 256.
Lemma forall_bytes (P : ascii → bool) : forallb P all_bytes = true → ∀ c, P c = true.
Proof.
  intros H c. rewrite forallb_forall in H. apply H.
  unfold all_bytes. apply list_elem_of_In, list_elem_of_fmap.
  exists (N.to_nat (code c)). unfold code, chr. split.
  - unfold compose. by rewrite N2Nat.id, ascii_N_embedding.
  - apply elem_of_seq. pose proof (N_ascii_bounded c). lia.
Qed.

(** ** Searching and slicing *)
Fixpoint find_index {A} (p : A → bool) (s : list A) : option nat :=
  match s with
  | [] => None
  | c :: s => if p c then Some 0 else S <$> find_index p s
  end.
(** [find_first_of]/[find] of a character from a position on. *)
Definition find_if_from (p : ascii → bool) (s : bytes) (pos : nat) : option nat :=
  Nat.add pos <$> find_index p (drop pos s).
Definition find_char (c : ascii) (s : bytes) (pos : nat) : option nat :=
  find_if_from (λ x, bool_decide (x = c)) s pos.
Definition is_eol (c : ascii) : bool := bool_decide (c = CR) || bool_decide (c = LF).
Definition find_eol (s : bytes) (pos : nat) : option nat := find_if_from is_eol s pos.

Fixpoint starts_with (p s : bytes) : bool :=
  match p, s with
  | [], _ => true
  | a :: p, b :: s => bool_decide (a = b) && starts_with p s
  | _ :: _, [] => false
  end.
(** [find] of a string: the first position at which it occurs. *)
Fixpoint find_str_aux (p s : bytes) : option nat :=
  if starts_with p s then Some 0
  else match s with [] => None | _ :: s => S <$> find_str_aux p s end.
Definition find_str (p s : bytes) (pos : nat) : option nat :=
  if bool_decide (pos ≤ length s) then Nat.add pos <$> find_str_aux p (drop pos s) else None.

Definition substr (s : bytes) (pos len : nat) : bytes := take len (drop pos s).
Definition substr_from (s : bytes) (pos : nat) : bytes := drop pos s.
(** [substr(pos, end == npos ? npos : end - pos)]. *)
Definition substr_to (s : bytes) (pos : nat) (e : option nat) : bytes :=
  match e with None => drop pos s | Some e => take (e - pos) (drop pos s) end.

Fixpoint drop_while (p : ascii → bool) (s : bytes) : bytes :=
  match s with [] => [] | c :: t => if p c then drop_while p t else s end.
Definition drop_while_end (p : ascii → bool) (s : bytes) : bytes :=
  rev (drop_while p (rev s)).
Definition trim_by (p : ascii → bool) (s : bytes) : bytes :=
  drop_while_end p (drop_while p s).
(** What a [const char*] constructor sees of the text. *)
Definition c_str (s : bytes) : bytes := take (default (length s) (find_char NUL s 0)) s.

(** The pieces between the occurrences of a separator. *)
Fixpoint split_on (c : ascii) (s : bytes) : list bytes :=
  match s with
  | [] => [[]]
  | x :: s =>
      if bool_decide (x = c) then [] :: split_on c s
      else match split_on c s with p :: ps => (x :: p) :: ps | [] => [[x]] end
  end.

(** *** Facts *)
Lemma find_index_None {A} (p : A → bool) s :
  find_index p s = None ↔ Forall (λ c, p c = false) s.
Proof.
  induction s as [|c s IH]; simpl; [by split; auto|].
  destruct (p c) eqn:Hc.
  - split; [done|]. inversion 1; congruence.
  - rewrite fmap_None, IH. split; [by constructor|by inversion 1].
Qed.
Lemma find_index_Some {A} (p : A → bool) s n :
  find_index p s = Some n →
  ∃ c, s = take n s ++ c :: drop (S n) s ∧ p c = true ∧ Forall (λ c, p c = false) (take n s).
Proof.
  revert n. induction s as [|a s IH]; intros n; simpl; [done|].
  destruct (p a) eqn:Ha; intros [= <-] || intros H.
  - exists a. by rewrite drop_0.
  - destruct (find_index p s) as [m|] eqn:Hm; simplify_eq/=.
    destruct (IH m eq_refl) as (c & Hs & Hc & Hf).
    exists c. split_and!; [by f_equal|done|by constructor].
Qed.
Lemma find_index_app_None {A} (p : A → bool) s t :
  Forall (λ c, p c = false) s → find_index p (s ++ t) = Nat.add (length s) <$> find_index p t.
Proof.
  induction 1 as [|c s Hc Hs IH]; simpl.
  - by destruct (find_index p t).
  - rewrite Hc, IH. by destruct (find_index p t).
Qed.
Lemma find_index_lt {A} (p : A → bool) s n : find_index p s = Some n → n < length s.
Proof.
  intros H. apply find_index_Some in H as (c & Hs & _).
  apply (f_equal length) in Hs. rewrite length_app, length_cons, length_take, length_drop in Hs. lia.
Qed.
Lemma find_index_here {A} (p : A → bool) s c t :
  Forall (λ c, p c = false) s → p c = true → find_index p (s ++ c :: t) = Some (length s).
Proof. intros Hs Hc. rewrite find_index_app_None by done. simpl. rewrite Hc. simpl. f_equal. lia. Qed.

Lemma find_char_None c s : find_char c s 0 = None ↔ c ∉ s.
Proof.
  unfold find_char, find_if_from. rewrite drop_0, fmap_None, find_index_None, Forall_forall.
  split.
  - intros H Hc. specialize (H c Hc). by rewrite bool_decide_eq_false in H.
  - intros H x Hx. apply bool_decide_eq_false. by intros ->.
Qed.

Lemma starts_with_spec p s : starts_with p s = true ↔ ∃ t, s = p ++ t.
Proof.
  revert s. induction p as [|a p IH]; intros s; simpl.
  - split; [by exists s|done].
  - destruct s as [|b s]; [split; [done|by intros [??]]|].
    rewrite andb_true_iff, bool_decide_eq_true, IH. split.
    + intros [-> [t ->]]. by exists t.
    + intros [t [= -> ->]]. eauto.
Qed.
Lemma starts_with_app p t : starts_with p (p ++ t) = true.
Proof. apply starts_with_spec. eauto. Qed.

Lemma find_str_aux_Some p s n :
  find_str_aux p s = Some n →
  s = take n s ++ p ++ drop (n + length p) s ∧ (∀ m, m < n → starts_with p (drop m s) = false).
Proof.
  revert n. induction s as [|c s IH]; intros n; simpl.
  - destruct (starts_with p []) eqn:Hp; [|done]. intros [= <-].
    apply starts_with_spec in Hp as [t Ht]. symmetry in Ht. apply app_eq_nil in Ht as [-> ->].
    split; [done|lia].
  - destruct (starts_with p (c :: s)) eqn:Hp.
    + intros [= <-]. apply starts_with_spec in Hp as [t Ht]. rewrite Ht. simpl.
      rewrite drop_app_length. split; [done|lia].
    + destruct (find_str_aux p s) as [m|] eqn:Hm; simpl; [|done]. intros [= <-].
      destruct (IH m eq_refl) as [Hs Hlt]. split; [by rewrite Hs at 1|].
      intros [|k] Hk; simpl; [done|]. apply Hlt. lia.
Qed.
Lemma find_str_aux_None p s :
  find_str_aux p s = None → ∀ m, starts_with p (drop m s) = false.
Proof.
  induction s as [|c s IH]; simpl.
  - intros H m. rewrite drop_nil. by destruct (starts_with p []).
  - destruct (starts_with p (c :: s)) eqn:Hp; [done|].
    destruct (find_str_aux p s) eqn:Hf; [done|]. intros _ [|m]; simpl; auto.
Qed.
Lemma find_str_aux_length p s n : find_str_aux p s = Some n → n + length p ≤ length s.
Proof.
  assert (∀ t, starts_with p t = true → length p ≤ length t) as Hl.
  { intros t [u ->]%starts_with_spec. rewrite length_app. lia. }
  revert n. induction s as [|c s IH]; intros n; simpl; destruct (starts_with _ _) eqn:Hp.
  - intros [= <-]. by apply Hl in Hp.
  - done.
  - intros [= <-]. by apply Hl in Hp.
  - destruct (find_str_aux p s) as [m|] eqn:Hm; simpl; [|done]. intros [= <-].
    specialize (IH m eq_refl). lia.
Qed.
Lemma find_str_Some p s pos n :
  find_str p s pos = Some n → pos ≤ n ∧ n + length p ≤ length s.
Proof.
  unfold find_str. case_bool_decide; [|done]. intros Hf.
  destruct (find_str_aux p (drop pos s)) as [m|] eqn:Hm; simplify_eq/=.
  apply find_str_aux_length in Hm. rewrite length_drop in Hm. lia.
Qed.

Lemma drop_while_suffix p s : ∃ t, s = t ++ drop_while p s ∧ Forall (λ c, p c = true) t.
Proof.
  induction s as [|c s IH]; simpl; [by exists []|].
  destruct (p c) eqn:Hc; [|by exists []].
  destruct IH as (t & Ht & Hf). exists (c :: t). split; [by simpl; f_equal|by constructor].
Qed.
Lemma drop_while_head p s c t : drop_while p s = c :: t → p c = false.
Proof. induction s as [|a s IH]; simpl; [done|]. destruct (p a) eqn:Ha; [done|]. by intros [= -> _]. Qed.
Lemma drop_while_id p s : (∀ c, head s = Some c → p c = false) → drop_while p s = s.
Proof. destruct s as [|c s]; simpl; [done|]. intros H. by rewrite (H c). Qed.

Lemma split_on_word c a : c ∉ a → split_on c a = [a].
Proof.
  induction a as [|x a IH]; simpl; [done|]. intros Hc. rewrite bool_decide_eq_false_2 by set_solver.
  rewrite IH by set_solver. done.
Qed.
Lemma split_on_app c a t : c ∉ a → split_on c (a ++ c :: t) = a :: split_on c t.
Proof.
  induction a as [|x a IH]; simpl; intros Hc; [by rewrite bool_decide_eq_true_2|].
  rewrite bool_decide_eq_false_2 by set_solver. rewrite IH by set_solver. done.
Qed.

(** What [find] of a character from a position on returns. *)
Lemma find_char_Some c s pos n :
  find_char c s pos = Some n →
  pos ≤ n < length s ∧ drop pos s = take (n - pos) (drop pos s) ++ c :: drop (n + 1) s ∧
  c ∉ take (n - pos) (drop pos s).
Proof.
  unfold find_char, find_if_from. intros Hf.
  destruct (find_index _ (drop pos s)) as [m|] eqn:Hm; simplify_eq/=.
  pose proof (find_index_lt _ _ _ Hm) as Hlt. rewrite length_drop in Hlt.
  apply find_index_Some in Hm as (x & Hs & Hx & Hno). apply bool_decide_eq_true in Hx as ->.
  replace (pos + m - pos) with m by lia. split_and!; [lia..| |].
  - rewrite Hs at 1. rewrite drop_drop. do 3 f_equal. lia.
  - intros Hc. rewrite Forall_forall in Hno. specialize (Hno c Hc). simpl in Hno.
    by rewrite bool_decide_eq_false in Hno.
Qed.
Lemma find_char_None_from c s pos : find_char c s pos = None → c ∉ drop pos s.
Proof.
  unfold find_char, find_if_from. rewrite fmap_None, find_index_None, Forall_forall.
  intros H Hc. specialize (H c Hc). by rewrite bool_decide_eq_false in H.
Qed.

(** A search string whose first character does not recur in it cannot overlap
    itself: its first occurrence is where it was put. *)
Lemma find_str_aux_here c q a t :
  c ∉ q → find_str_aux (c :: q) a = None → find_str_aux (c :: q) (a ++ (c :: q) ++ t) = Some (length a).
Proof.
  intros Hq. induction a as [|x a IH]; intros Hn.
  - simpl. rewrite bool_decide_eq_true_2 by done. by rewrite starts_with_app.
  - cbn [find_str_aux] in Hn. destruct (starts_with (c :: q) (x :: a)) eqn:Hs; [done|].
    destruct (find_str_aux (c :: q) a) eqn:Ha; [done|].
    change ((x :: a) ++ (c :: q) ++ t) with (x :: (a ++ (c :: q) ++ t)). cbn [find_str_aux].
    replace (starts_with (c :: q) (x :: (a ++ (c :: q) ++ t))) with false; [by rewrite IH|].
    symmetry. apply not_true_is_false. intros [u Hu]%starts_with_spec.
    destruct (decide (length (c :: q) ≤ length (x :: a))) as [Hle|Hgt].
    + apply not_true_iff_false in Hs. apply Hs, starts_with_spec. exists (drop (length (c :: q)) (x :: a)).
      apply (f_equal (take (length (c :: q)))) in Hu. rewrite take_app_length in Hu.
      change (x :: (a ++ (c :: q) ++ t)) with ((x :: a) ++ (c :: q) ++ t) in Hu.
      rewrite take_app_le in Hu by done. transitivity (take (length (c :: q)) (x :: a) ++ drop (length (c :: q)) (x :: a)).
      * by rewrite take_drop.
      * by rewrite Hu.
    + apply Hq. apply (f_equal (.!! length (x :: a))) in Hu.
      change (x :: (a ++ (c :: q) ++ t)) with ((x :: a) ++ (c :: q) ++ t) in Hu.
      rewrite lookup_app_r, Nat.sub_diag in Hu by done.
      rewrite (lookup_app_l (c :: q) u) in Hu by lia. cbn in Hu. symmetry in Hu. by apply list_elem_of_lookup_2 in Hu.
Qed.
Lemma find_str_here c q s a t :
  c ∉ q → find_str_aux (c :: q) a = None →
  find_str (c :: q) (s ++ a ++ (c :: q) ++ t) (length s) = Some (length s + length a).
Proof.
  intros Hq Ha. unfold find_str. rewrite bool_decide_eq_true_2 by (rewrite length_app; lia).
  rewrite drop_app_length, find_str_aux_here by done. done.
Qed.
Lemma find_str_aux_absent c q a : c ∉ a → find_str_aux (c :: q) a = None.
Proof.
  induction a as [|x a IH]; simpl; [done|]. intros Hc.
  rewrite bool_decide_eq_false_2 by set_solver. simpl. rewrite IH by set_solver. done.
Qed.
Lemma find_str_aux_word c q w s :
  c ∉ w → find_str_aux (c :: q) (w ++ s) = Nat.add (length w) <$> find_str_aux (c :: q) s.
Proof.
  induction w as [|x w IH]; intros Hc.
  - simpl. by destruct (find_str_aux _ s).
  - cbn [app find_str_aux starts_with]. rewrite bool_decide_eq_false_2 by set_solver.
    cbn [andb]. rewrite IH by set_solver. by destruct (find_str_aux _ s).
Qed.
Lemma find_str_at p s t : find_str p (s ++ t) (length s) = Nat.add (length s) <$> find_str_aux p t.
Proof. unfold find_str. rewrite bool_decide_eq_true_2 by (rewrite length_app; lia). by rewrite drop_app_length. Qed.
Lemma find_str_0 p s : find_str p s 0 = find_str_aux p s.
Proof. unfold find_str. rewrite bool_decide_eq_true_2 by lia. rewrite drop_0. by destruct (find_str_aux p s). Qed.
Lemma find_str_aux_skip p c s :
  starts_with p (c :: s) = false → find_str_aux p (c :: s) = S <$> find_str_aux p s.
Proof. intros Hs. cbn [find_str_aux]. by rewrite Hs. Qed.
Lemma find_str_aux_app p t : find_str_aux p (p ++ t) = Some 0.
Proof.
  assert (∀ s, find_str_aux p s = if starts_with p s then Some 0
    else match s with [] => None | _ :: s => S <$> find_str_aux p s end) as Hs by by intros [|].
  by rewrite Hs, starts_with_app.
Qed.

(** ** [std::map<std::string, A>], as the list of its entries

    [operator[]=] keeps the entries sorted by key. *)
Fixpoint bytes_lt (a b : bytes) : bool :=
  match a, b with
  | _, [] => false
  | [], _ :: _ => true
  | x :: a, y :: b => (code x <? code y)%N || (bool_decide (x = y) && bytes_lt a b)
  end.
Fixpoint map_assign {A} (key : bytes) (value : A) (m : list (bytes * A)) : list (bytes * A) :=
  match m with
  | [] => [(key, value)]
  | h :: m => if bool_decide (h.1 = key) then (key, value) :: m
              else if bytes_lt key h.1 then (key, value) :: h :: m else h :: map_assign key value m
  end.
Fixpoint map_get {A} (key : bytes) (m : list (bytes * A)) : option A :=
  match m with
  | [] => None
  | h :: m => if bool_decide (h.1 = key) then Some h.2 else map_get key m
  end.
Lemma bytes_lt_irrefl a : bytes_lt a a = false.
Proof. induction a as [|x a IH]; cbn; [done|]. by rewrite N.ltb_irrefl, bool_decide_eq_true_2, IH. Qed.
Lemma bytes_lt_trans a b c : bytes_lt a b = true → bytes_lt b c = true → bytes_lt a c = true.
Proof.
  revert b c. induction a as [|x a IH]; intros [|y b] [|z c]; cbn; try done.
  rewrite !orb_true_iff, !andb_true_iff, !bool_decide_eq_true, !N.ltb_lt. intros [H1|[-> H1]] [H2|[-> H2]]; [left; lia|by left..|].
  right. split; [done|by eapply IH].
Qed.
Section string_map.
Context {A : Type}.
Implicit Types (m : list (bytes * A)) (h : bytes * A).
Definition key_lt h (k : bytes * A) : Prop := bytes_lt h.1 k.1 = true.
Lemma keys_above m h key :
  Forall (key_lt h) m → h.1 = key ∨ bytes_lt key h.1 = true → Forall (λ k, k.1 ≠ key) m.
Proof.
  intros Hf Hh. eapply Forall_impl; [exact Hf|]. intros k Hlt He. unfold key_lt in Hlt. rewrite He in Hlt.
  destruct Hh as [<-|Hh]; [|pose proof (bytes_lt_trans _ _ _ Hh Hlt) as Hk]; by rewrite bytes_lt_irrefl in *.
Qed.
Lemma map_get_assign key value k m : map_get k (map_assign key value m) = if bool_decide (key = k) then Some value else map_get k m.
Proof.
  induction m as [|h m IH]; cbn [map_assign]; [done|]. destruct (decide (h.1 = key)) as [H1|H1].
  - rewrite (bool_decide_eq_true_2 (h.1 = key)) by done. cbn [map_get fst snd]. repeat case_bool_decide; congruence.
  - rewrite (bool_decide_eq_false_2 (h.1 = key)) by done. destruct (bytes_lt key h.1); cbn [map_get fst snd]; [done|].
    rewrite IH. repeat case_bool_decide; congruence.
Qed.
Lemma map_assign_elem key value m h : h ∈ map_assign key value m → h = (key, value) ∨ h ∈ m.
Proof.
  induction m as [|k m IH]; cbn [map_assign]; [set_solver|]. case_bool_decide; [set_solver|]. destruct (bytes_lt key k.1); set_solver.
Qed.
Lemma bytes_lt_total a b : a ≠ b → bytes_lt a b = false → bytes_lt b a = true.
Proof.
  revert b. induction a as [|x a IH]; intros [|y b]; cbn; try done. rewrite orb_false_iff, andb_false_iff, N.ltb_ge, bool_decide_eq_false.
  intros Hne [Hle Hor]. destruct (decide (x = y)) as [->|Hxy].
  - destruct Hor as [?|Hab]; [done|]. rewrite (IH b) by (done || congruence). rewrite (bool_decide_eq_true_2 (y = y)) by done. apply orb_true_r.
  - assert (code x ≠ code y) by (intros Hc; apply Hxy; unfold code in Hc; by rewrite <-(ascii_N_embedding x), Hc, ascii_N_embedding).
    apply orb_true_iff. left. apply N.ltb_lt. lia.
Qed.
Lemma map_assign_sorted key value m : StronglySorted key_lt m → StronglySorted key_lt (map_assign key value m).
Proof.
  induction 1 as [|h m Hs IH Hf]; cbn [map_assign]; [by repeat constructor|]. case_bool_decide as Hk.
  - constructor; [done|]. eapply Forall_impl; [exact Hf|]. intros k. unfold key_lt. cbn. by rewrite Hk.
  - destruct (bytes_lt key h.1) eqn:Hlt.
    + constructor; [by constructor|]. constructor; [done|]. eapply Forall_impl; [exact Hf|]. intros k Hkk. by eapply bytes_lt_trans.
    + constructor; [done|]. rewrite Forall_forall in *. intros k [->|Hin]%map_assign_elem; [|by apply Hf].
      apply (bytes_lt_total key h.1); [by intros Hx; apply Hk|done].
Qed.
Lemma map_get_elem m k v : StronglySorted key_lt m → (k, v) ∈ m ↔ map_get k m = Some v.
Proof.
  induction 1 as [|h m Hs IH Hf]; cbn [map_get]; [split; [by intros ?%not_elem_of_nil|done]|]. rewrite elem_of_cons. case_bool_decide as Hk.
  - assert ((k, v) ∉ m) as Hn.
    { pose proof (keys_above m h k Hf (or_introl Hk)) as Ha. rewrite Forall_forall in Ha. intros Hin. by apply (Ha _ Hin). }
    destruct h as [k' v']. cbn in *. subst. split; [intros [?|?]; naive_solver|intros [= ->]; by left].
  - rewrite IH. destruct h as [k' v']. cbn in *. split; [intros [?|?]; naive_solver|by right].
Qed.
Lemma map_keys_nodup m : StronglySorted key_lt m → NoDup m.*1.
Proof.
  induction 1 as [|h m Hs IH Hf]; cbn; constructor; [|done]. intros ((k & v) & Hk & Hin)%list_elem_of_fmap. cbn in Hk.
  pose proof (keys_above m h h.1 Hf (or_introl eq_refl)) as Ha. rewrite Forall_forall in Ha. by apply (Ha _ Hin).
Qed.
(** The one entry of a key that was just assigned. *)
Lemma map_assign_lookup key value m :
  StronglySorted key_lt m → filter (λ h, h.1 = key) (map_assign key value m) = [(key, value)].
Proof.
  assert (∀ m, Forall (λ k, k.1 ≠ key) m → filter (λ h, h.1 = key) m = []) as Hno.
  { induction 1 as [|k m' Hk _ IH]; [done|]. by rewrite filter_cons, decide_False. }
  induction 1 as [|h m Hs IH Hf]; cbn [map_assign]; [by rewrite filter_cons, decide_True|].
  case_bool_decide as Hk; [rewrite filter_cons, decide_True by done; by rewrite Hno by (eapply keys_above; eauto)|].
  destruct (bytes_lt key h.1) eqn:Hlt; [|by rewrite filter_cons, decide_False].
  rewrite filter_cons, decide_True, filter_cons, decide_False by done. by rewrite Hno by (eapply keys_above; eauto).
Qed.
End string_map.
