(* ===== verification/Numbers.v ===== *)
(** * Decimal and hexadecimal conversion

    [std::to_string], the [std::hex] manipulator, and the digit loops of
    [std::stoull]/[std::from_chars], over an arbitrary base between 2 and 16,
    with the round trip between printing and reading. *)
From S2P Require Import Prelude Text.

Section base.
Local Open Scope N_scope.
Definition digit_char (d : N) : ascii :=
  if d <? 10 then chr (48 + d) else chr (87 + d).
Definition digit_val (c : ascii) : N :=
  if isdigit c then code c - 48
  else if islower c then code c - 87
  else if isupper c then code c - 55 else 255.
Definition is_base_digit (b : N) (c : ascii) : bool := digit_val c <? b.

Fixpoint print_go (b : N) (fuel : nat) (n : N) (acc : bytes) : bytes :=
  match fuel with
  | O => acc
  | S fuel =>
      let acc := digit_char (n mod b) :: acc in
      if n / b =? 0 then acc else print_go b fuel (n / b) acc
  end.
(** One digit per bit is more than any base needs. *)
Definition print_base (b n : N) : bytes := print_go b (S (N.to_nat (N.log2 n))) n [].
Definition value_go (b : N) (acc : N) (s : bytes) : N :=
  fold_left (λ acc c, acc * b + digit_val c) s acc.
Definition value_base (b : N) (s : bytes) : N := value_go b 0 s.
End base.

Definition to_dec (n : N) : bytes := print_base 10 n.
Definition to_hex (n : N) : bytes := print_base 16 n.
(** The digits of a negative number follow a minus sign. *)
Definition to_dec_Z (z : Z) : bytes :=
  if bool_decide (z < 0)%Z then "-"%char :: to_dec (Z.to_N (- z)) else to_dec (Z.to_N z).

(** [std::stoull] on a string of digits: [std::out_of_range] past 64 bits. *)
Definition stoull_digits (s : bytes) : option N :=
  let v := value_base 10 s in
  if bool_decide (v < 2 ^ 64)%N then Some v else None.

Lemma digit_val_char d : (d < 16)%N → digit_val (digit_char d) = d.
Proof.
  intros Hd. rewrite <-(N2Nat.id d).
  assert (Hn : N.to_nat d < 16) by lia. revert Hn. generalize (N.to_nat d) as n.
  intros n Hn. do 16 (destruct n as [|n]; [reflexivity|]). lia.
Qed.
Lemma digit_char_digit d : (d < 10)%N → isdigit (digit_char d) = true.
Proof.
  intros Hd. rewrite <-(N2Nat.id d).
  assert (Hn : N.to_nat d < 10) by lia. revert Hn. generalize (N.to_nat d) as n.
  intros n Hn. do 10 (destruct n as [|n]; [reflexivity|]). lia.
Qed.

Section print.
Context (b : N) (Hb : (2 ≤ b ≤ 16)%N).
Local Open Scope N_scope.

Lemma value_go_app acc s t : value_go b acc (s ++ t) = value_go b (value_go b acc s) t.
Proof using Type. unfold value_go. by rewrite fold_left_app. Qed.

Lemma print_go_spec fuel n acc :
  n < 2 ^ N.of_nat fuel →
  ∃ ds, print_go b fuel n acc = ds ++ acc ∧ value_base b ds = n ∧
    Forall (λ c, ∃ d, c = digit_char d ∧ d < b) ds ∧ (fuel ≠ 0%nat → ds ≠ []).
Proof using Hb.
  revert n acc. induction fuel as [|fuel IH]; intros n acc Hn.
  { exists []. simpl in Hn. split_and!; [done| |done|done]. unfold value_base, value_go. simpl. lia. }
  cbn [print_go]. pose proof (N.mod_lt n b) as Hm. pose proof (N.div_mod' n b) as Hdm.
  destruct (N.eqb_spec (n / b) 0) as [H0|H0].
  - exists [digit_char (n mod b)]. split_and!; [done| | |done].
    + unfold value_base, value_go. simpl. rewrite digit_val_char; lia.
    + constructor; [|done]. exists (n mod b). split; [done|lia].
  - destruct (IH (n / b) (digit_char (n mod b) :: acc)) as (ds & -> & Hv & Hf & _).
    { apply N.Div0.div_lt_upper_bound. rewrite Nat2N.inj_succ, N.pow_succ_r' in Hn. nia. }
    exists (ds ++ [digit_char (n mod b)]). split_and!.
    + by rewrite <-(assoc_L (++)).
    + unfold value_base in *. rewrite value_go_app, Hv. unfold value_go. simpl.
      rewrite digit_val_char; lia.
    + apply Forall_app. split; [done|]. constructor; [|done].
      exists (n mod b). split; [done|lia].
    + intros _. by destruct ds.
Qed.

Lemma print_base_spec n :
  value_base b (print_base b n) = n ∧ print_base b n ≠ [] ∧
  Forall (λ c, ∃ d, c = digit_char d ∧ d < b) (print_base b n).
Proof using Hb.
  unfold print_base. destruct (print_go_spec (S (N.to_nat (N.log2 n))) n []) as (ds & -> & Hv & Hf & Hne).
  - rewrite Nat2N.inj_succ, N2Nat.id. destruct (N.eq_dec n 0) as [->|]; [done|].
    apply N.log2_spec. lia.
  - rewrite (right_id_L [] (++)). split_and!; auto.
Qed.
End print.

Lemma to_dec_value n : value_base 10 (to_dec n) = n.
Proof. by apply print_base_spec. Qed.
Lemma to_dec_nonempty n : to_dec n ≠ [].
Proof. by apply print_base_spec. Qed.
Lemma to_dec_digits n : Forall (λ c, isdigit c = true) (to_dec n).
Proof.
  destruct (print_base_spec 10) with (n := n) as (_ & _ & H); [done|].
  eapply Forall_impl; [exact H|]. intros c (d & -> & Hd). by apply digit_char_digit.
Qed.
Lemma to_hex_value n : value_base 16 (to_hex n) = n.
Proof. by apply print_base_spec. Qed.
Lemma to_hex_digits n : Forall (λ c, is_base_digit 16 c = true) (to_hex n).
Proof.
  destruct (print_base_spec 16) with (n := n) as (_ & _ & H); [done|].
  eapply Forall_impl; [exact H|]. intros c (d & -> & Hd). unfold is_base_digit.
  rewrite digit_val_char by lia. by apply N.ltb_lt.
Qed.

#[export] Hint Rewrite to_dec_value to_hex_value : outcome.
