(* ===== verification/SseFormat.v ===== *)
(** * Server-sent events: the wire format (sse/sse_event.hpp, sse/sse_parser.cpp)

    [format_sse_event] and [format_sse_comment], and the reference definition of
    "the lines of a data string" that both the formatter and the parser
    realise: lines are separated by CR, LF or CRLF. *)
From S2P Require Import Prelude Text Numbers.

Module SseEvent.
Record t := mk {
  event : bytes;
  data : bytes;
  id : bytes;
  retry : option N;
}.
End SseEvent.
Abbreviation SseEvent := SseEvent.t.

Definition single_line (value : bytes) : bytes := filter (λ c, is_eol c = false) value.

(** The loop of [append_data_lines]; [begin] is the loop variable. *)
Fixpoint append_data_lines_from (fuel : nat) (output data : bytes) (begin : nat) : bytes :=
  match fuel with
  | O => output
  | S fuel =>
      let e := find_eol data begin in
      let output := output ++ str "data: " ++ substr_to data begin e ++ [LF] in
      match e with
      | None => output
      | Some e =>
          let crlf := bool_decide (data !! e = Some CR) && bool_decide (e + 1 < length data)
                        && bool_decide (data !! (e + 1) = Some LF) in
          append_data_lines_from fuel output data (e + if crlf then 2 else 1)
      end
  end.
(** Every iteration consumes at least one character of [data]. *)
Definition append_data_lines (output data : bytes) : bytes :=
  append_data_lines_from (S (length data)) output data 0.

Definition format_sse_event (e : SseEvent) : bytes :=
  let output := [] in
  let output := if bool_decide (SseEvent.event e = []) then output
                else output ++ str "event: " ++ single_line (SseEvent.event e) ++ [LF] in
  let output := if bool_decide (SseEvent.id e = []) then output
                else output ++ str "id: " ++ single_line (SseEvent.id e) ++ [LF] in
  let output := match SseEvent.retry e with
                | None => output
                | Some r => output ++ str "retry: " ++ to_dec r ++ [LF] end in
  let output := append_data_lines output (SseEvent.data e) in
  output ++ [LF].

Definition format_sse_comment (comment : bytes) : bytes :=
  str ": " ++ single_line comment ++ [LF; LF].

(** ** Reference: the lines of a string *)
Fixpoint split_lines (s : bytes) : list bytes :=
  match s with
  | [] => [[]]
  | c :: s' =>
      if is_eol c then
        [] :: match s' with
              | c' :: s'' => if bool_decide (c = CR) && bool_decide (c' = LF)
                             then split_lines s'' else split_lines s'
              | [] => split_lines s'
              end
      else match split_lines s' with l :: ls => (c :: l) :: ls | [] => [[c]] end
  end.

Lemma split_lines_cons_plain c s :
  is_eol c = false → ∃ l ls, split_lines s = l :: ls ∧ split_lines (c :: s) = (c :: l) :: ls.
Proof.
  intros Hc. simpl. rewrite Hc. destruct s as [|a s]; simpl; [by eexists _, _|].
  destruct (is_eol a); [by eexists _, _|]. destruct (split_lines s); by eexists _, _.
Qed.
Lemma split_lines_line l s :
  Forall (λ c, is_eol c = false) l →
  ∃ l' ls, split_lines s = l' :: ls ∧ split_lines (l ++ s) = (l ++ l') :: ls.
Proof.
  induction 1 as [|c l Hc Hl IH].
  - destruct s as [|a s]; [by eexists _, _|].
    destruct (is_eol a) eqn:Ha; [simpl; rewrite Ha; by eexists _, _|].
    destruct (split_lines_cons_plain a s Ha) as (? & ? & ? & ?). eauto.
  - destruct IH as (l' & ls & H1 & H2).
    destruct (split_lines_cons_plain c (l ++ s) Hc) as (l2 & ls2 & H3 & H4).
    rewrite H2 in H3. injection H3 as <- <-. eexists _, _. split; [done|]. exact H4.
Qed.
Lemma split_lines_plain l : Forall (λ c, is_eol c = false) l → split_lines l = [l].
Proof.
  intros Hl. destruct (split_lines_line l [] Hl) as (l' & ls & H1 & H2).
  rewrite (right_id_L [] (++)) in H2. injection H1 as <- <-.
  by rewrite H2, (right_id_L [] (++)).
Qed.
Lemma split_lines_eol_free s : Forall (Forall (λ c, is_eol c = false)) (split_lines s).
Proof.
  induction s as [s IH] using (induction_ltof1 _ length). unfold ltof in IH.
  destruct s as [|c s]; [repeat constructor|]. destruct (is_eol c) eqn:Hc.
  - simpl. rewrite Hc. constructor; [constructor|].
    destruct s as [|c' s]; [apply IH; simpl; lia|].
    destruct (_ && _); apply IH; simpl; lia.
  - destruct (split_lines_cons_plain c s Hc) as (l & ls & H1 & ->).
    assert (Forall (Forall (λ c, is_eol c = false)) (split_lines s)) as H by (apply IH; simpl; lia).
    rewrite H1 in H. inversion H; subst. repeat constructor; auto.
Qed.

Lemma split_lines_cons s : ∃ l ls, split_lines s = l :: ls.
Proof. destruct (split_lines_line [] s) as (l & ls & H & _); [constructor|eauto]. Qed.

(** One "data:" line on the wire. *)
Definition data_line (l : bytes) : bytes := str "data: " ++ l ++ [LF].

(** Splitting at the first end of line, the shape of one loop iteration. *)
Lemma split_lines_eol l c s :
  Forall (λ c, is_eol c = false) l → is_eol c = true →
  split_lines (l ++ c :: s) =
    l :: (match s with
          | c' :: s'' => if bool_decide (c = CR) && bool_decide (c' = LF)
                         then split_lines s'' else split_lines s
          | [] => split_lines s
          end).
Proof.
  intros Hl Hc. destruct (split_lines_line l (c :: s) Hl) as (l' & ls & H1 & ->).
  simpl in H1. rewrite Hc in H1. injection H1 as <- <-. by rewrite (right_id_L [] (++)).
Qed.

Lemma append_data_lines_from_spec fuel out data begin :
  length data - begin < fuel → begin ≤ length data →
  append_data_lines_from fuel out data begin =
    out ++ concat (data_line <$> split_lines (drop begin data)).
Proof.
  revert out begin. induction fuel as [|fuel IH]; intros out begin Hf Hb; [lia|].
  cbn [append_data_lines_from]. unfold find_eol, find_if_from.
  destruct (find_index is_eol (drop begin data)) as [n|] eqn:Hn; cbn [fmap option_fmap option_map].
  - pose proof (find_index_lt _ _ _ Hn) as Hlt. rewrite length_drop in Hlt.
    destruct (find_index_Some _ _ _ Hn) as (c & Hs & Hc & Hl).
    rewrite drop_drop in Hs. remember (drop (begin + S n) data) as rest eqn:Er.
    assert (length rest = length data - (begin + S n)) as Hr by (by rewrite Er, length_drop).
    assert (data !! (begin + n) = Some c) as Hlk.
    { rewrite <-lookup_drop, Hs, lookup_app_r by (rewrite length_take; lia).
      rewrite length_take, length_drop. by replace (n - _) with 0 by lia. }
    assert (data !! (begin + n + 1) = head rest) as Hlk'.
    { rewrite Er, head_lookup, lookup_drop. f_equal. lia. }
    rewrite Hs at 1. rewrite split_lines_eol by done.
    rewrite Hlk, Hlk'. unfold substr_to. replace (begin + n - begin) with n by lia.
    rewrite (bool_decide_ext (Some c = Some CR) (c = CR)) by naive_solver.
    assert (drop (begin + n + 1) data = rest) as Hd1 by (rewrite Er; f_equal; lia).
    destruct rest as [|c' rest'] eqn:Hrest; simpl in Hr.
    + rewrite (bool_decide_eq_false_2 (_ < _)), andb_false_r by lia. simpl.
      rewrite IH, Hd1 by lia. unfold data_line. app_norm.
    + rewrite (bool_decide_eq_true_2 (_ < _)), andb_true_r by lia. cbn [head].
      rewrite (bool_decide_ext (Some c' = Some LF) (c' = LF)) by naive_solver.
      assert (drop (begin + n + 2) data = rest') as Hd2.
      { replace (begin + n + 2) with ((begin + n + 1) + 1) by lia. by rewrite <-drop_drop, Hd1. }
      destruct (_ && _); rewrite IH by lia; rewrite ?Hd1, ?Hd2; unfold data_line; app_norm.
  - apply find_index_None in Hn. rewrite split_lines_plain by done. unfold substr_to. simpl.
    unfold data_line. rewrite app_nil_r. app_norm.
Qed.
Lemma append_data_lines_spec out data :
  append_data_lines out data = out ++ concat (data_line <$> split_lines data).
Proof. unfold append_data_lines. rewrite append_data_lines_from_spec; [by rewrite drop_0|lia..]. Qed.

Lemma single_line_eol_free v : Forall (λ c, is_eol c = false) (single_line v).
Proof. apply Forall_forall. intros c Hc. by apply list_elem_of_filter in Hc as [? _]. Qed.
Lemma single_line_id v : Forall (λ c, is_eol c = false) v → single_line v = v.
Proof.
  induction 1 as [|c v Hc Hv IH]; [done|]. unfold single_line in *.
  rewrite filter_cons_True by done. by rewrite IH.
Qed.
#[export] Hint Resolve single_line_eol_free split_lines_eol_free : khttpd.
