(* ===== verification/SseParser.v ===== *)
(** * The incremental SSE parser (sse/sse_parser.hpp, sse/sse_parser.cpp)

    [feed] consumes an arbitrary chunk of the byte stream, keeping the
    unfinished line in [buffer_]. The reference machine [step_byte] consumes one
    byte at a time; [feed_is_fold] shows the buffered loop implements it, so the
    events do not depend on how the transport splits the stream. *)
From S2P Require Import Prelude Text Numbers SseFormat.

Inductive sse_error := line_limit | field_limit | data_limit | out_of_fuel.

Module SseParser.
Record t := mk {
  buffer_ : bytes;
  event_ : bytes;
  data_ : bytes;
  last_event_id_ : bytes;
  retry_ : option N;
  at_stream_start_ : bool;
  skip_leading_lf_ : bool;
  max_event_bytes_ : Z;
}.
Definition init (max_event_bytes : Z) : t := mk [] [] [] [] None true false max_event_bytes.
Definition set_buffer (b : bytes) (p : t) : t :=
  mk b (event_ p) (data_ p) (last_event_id_ p) (retry_ p) (at_stream_start_ p)
     (skip_leading_lf_ p) (max_event_bytes_ p).
Definition set_event (e : bytes) (p : t) : t :=
  mk (buffer_ p) e (data_ p) (last_event_id_ p) (retry_ p) (at_stream_start_ p)
     (skip_leading_lf_ p) (max_event_bytes_ p).
Definition set_data (d : bytes) (p : t) : t :=
  mk (buffer_ p) (event_ p) d (last_event_id_ p) (retry_ p) (at_stream_start_ p)
     (skip_leading_lf_ p) (max_event_bytes_ p).
Definition set_last_event_id (i : bytes) (p : t) : t :=
  mk (buffer_ p) (event_ p) (data_ p) i (retry_ p) (at_stream_start_ p)
     (skip_leading_lf_ p) (max_event_bytes_ p).
Definition set_retry (r : option N) (p : t) : t :=
  mk (buffer_ p) (event_ p) (data_ p) (last_event_id_ p) r (at_stream_start_ p)
     (skip_leading_lf_ p) (max_event_bytes_ p).
Definition set_start (b : bool) (p : t) : t :=
  mk (buffer_ p) (event_ p) (data_ p) (last_event_id_ p) (retry_ p) b
     (skip_leading_lf_ p) (max_event_bytes_ p).
Definition set_skip (b : bool) (p : t) : t :=
  mk (buffer_ p) (event_ p) (data_ p) (last_event_id_ p) (retry_ p) (at_stream_start_ p)
     b (max_event_bytes_ p).

Definition default_max_event_bytes : Z := 1024 * 1024.

Definition reset (p : t) : t := mk [] [] [] [] None true false (max_event_bytes_ p).

(** The events pushed by one call are returned in order. *)
Definition process_line (p : t) (line : bytes) : outcome sse_error (t * list SseEvent) :=
  match line with
  | [] =>
      let events :=
        if bool_decide (data_ p = []) then []
        else [SseEvent.mk (if bool_decide (event_ p = []) then str "message" else event_ p)
                (removelast (data_ p)) (last_event_id_ p) (retry_ p)] in
      Ret (set_retry None (set_data [] (set_event [] p)), events)
  | first :: _ =>
      if bool_decide (first = ":"%char) then Ret (p, [])
      else
        let colon := find_char ":"%char line 0 in
        let field := substr_to line 0 colon in
        let value := match colon with None => [] | Some colon => drop (colon + 1) line end in
        let value := match value with
                     | c :: v => if bool_decide (c = SP) then v else value
                     | [] => value end in
        if bool_decide (max_event_bytes_ p < zlen value)%Z then Throw field_limit
        else if bool_decide (field = str "event") then Ret (set_event value p, [])
        else if bool_decide (field = str "data") then
          if bool_decide (max_event_bytes_ p ≤ zlen value)%Z
             || bool_decide (u64 (u64 (max_event_bytes_ p - zlen value) - 1) < zlen (data_ p))%Z
          then Throw data_limit
          else Ret (set_data (data_ p ++ value ++ [LF]) p, [])
        else if bool_decide (field = str "id") && bool_decide (find_char NUL value 0 = None) then
          Ret (set_last_event_id value p, [])
        else if bool_decide (field = str "retry") && negb (bool_decide (value = []))
                && forallb isdigit value then
          Ret (set_retry (stoull_digits value) p, [])
        else Ret (p, [])
  end.

(** The loop over the complete lines of [buffer_]. *)
Fixpoint scan_lines (fuel : nat) (p : t) (consumed : nat) (events : list SseEvent) :
    outcome sse_error (t * nat * list SseEvent) :=
  match fuel with
  | O => Throw out_of_fuel
  | S fuel =>
      if bool_decide (consumed < length (buffer_ p)) then
        match find_eol (buffer_ p) consumed with
        | None => Ret (p, consumed, events)
        | Some newline =>
            if bool_decide (max_event_bytes_ p < Z.of_nat (newline - consumed))%Z
            then Throw line_limit
            else
              let line := substr (buffer_ p) consumed (newline - consumed) in
              '(p, pushed) ← process_line p line;
              let events := events ++ pushed in
              let size := length (buffer_ p) in
              let cr := bool_decide (buffer_ p !! newline = Some CR) in
              if cr && bool_decide (newline + 1 < size)
                    && bool_decide (buffer_ p !! (newline + 1) = Some LF)
              then scan_lines fuel p (newline + 2) events
              else
                let consumed := newline + 1 in
                let p := if cr && bool_decide (consumed = size) then set_skip true p else p in
                scan_lines fuel p consumed events
        end
      else Ret (p, consumed, events)
  end.

(** From [std::size_t consumed = 0] to the end of the loop body. *)
Definition scan_buffer (p : t) (events : list SseEvent) : outcome sse_error (t * list SseEvent) :=
  '(p, consumed, events) ← scan_lines (S (length (buffer_ p))) p 0 events;
  let p := set_buffer (drop consumed (buffer_ p)) p in
  if negb (at_stream_start_ p) && bool_decide (max_event_bytes_ p < zlen (buffer_ p))%Z
  then Throw line_limit
  else Ret (p, events).

Definition utf8_bom : bytes := [chr 239; chr 187; chr 191].

(** One iteration of the outer loop, from the append of the chunk on. *)
Definition feed_chunk (p : t) (chunk : bytes) (events : list SseEvent) :
    outcome sse_error (t * list SseEvent) :=
  let p := set_buffer (buffer_ p ++ chunk) p in
  let p := if skip_leading_lf_ p && negb (bool_decide (buffer_ p = [])) then
             let p := if bool_decide (head (buffer_ p) = Some LF)
                      then set_buffer (drop 1 (buffer_ p)) p else p in
             set_skip false p
           else p in
  let prefix_size := length (buffer_ p) `min` length utf8_bom in
  if at_stream_start_ p
     && bool_decide (take prefix_size (buffer_ p) = take prefix_size utf8_bom)
     && bool_decide (length (buffer_ p) < length utf8_bom)
  then Ret (p, events)
  else
    let p := if at_stream_start_ p then
               let p := if bool_decide (take (length utf8_bom) (buffer_ p) = utf8_bom)
                        then set_buffer (drop (length utf8_bom) (buffer_ p)) p else p in
               set_start false p
             else p in
    scan_buffer p events.

Definition chunk_limit (p : t) : Z :=
  Z.max (if bool_decide (max_event_bytes_ p = size_max) then max_event_bytes_ p
         else u64 (max_event_bytes_ p + 1)) 3.

Fixpoint feed_loop (fuel : nat) (limit : Z) (p : t) (input : bytes) (offset : nat)
    (events : list SseEvent) : outcome sse_error (t * list SseEvent) :=
  match fuel with
  | O => Throw out_of_fuel
  | S fuel =>
      if bool_decide (offset < length input) then
        let available := u64 (limit - zlen (buffer_ p)) in
        let chunk_size := Z.to_nat (Z.min available (Z.of_nat (length input - offset))) in
        '(p, events) ← feed_chunk p (substr input offset chunk_size) events;
        feed_loop fuel limit p input (offset + chunk_size) events
      else Ret (p, events)
  end.

Definition feed (p : t) (input : bytes) : outcome sse_error (t * list SseEvent) :=
  feed_loop (S (length input)) (chunk_limit p) p input 0 [].

(** ** The reference: one byte at a time *)
Definition step_line (p : t) (c : ascii) : outcome sse_error (t * list SseEvent) :=
  if skip_leading_lf_ p && bool_decide (c = LF) then Ret (set_skip false p, [])
  else if is_eol c then
    '(p, pushed) ← process_line p (buffer_ p);
    Ret (set_skip (bool_decide (c = CR)) (set_buffer [] p), pushed)
  else
    let p := set_skip false (set_buffer (buffer_ p ++ [c]) p) in
    if bool_decide (max_event_bytes_ p < zlen (buffer_ p))%Z then Throw line_limit
    else Ret (p, []).

Fixpoint fold_bytes (step : t → ascii → outcome sse_error (t * list SseEvent))
    (p : t) (s : bytes) : outcome sse_error (t * list SseEvent) :=
  match s with
  | [] => Ret (p, [])
  | c :: s =>
      '(p, ev1) ← step p c;
      '(p, ev2) ← fold_bytes step p s;
      Ret (p, ev1 ++ ev2)
  end.

Definition step_byte (p : t) (c : ascii) : outcome sse_error (t * list SseEvent) :=
  if at_stream_start_ p then
    let b := buffer_ p ++ [c] in
    if bool_decide (length b < 3) && bool_decide (b = take (length b) utf8_bom)
    then Ret (set_buffer b p, [])
    else
      let p := set_buffer [] (set_start false p) in
      if bool_decide (b = utf8_bom) then Ret (p, []) else fold_bytes step_line p b
  else step_line p c.

(** ** Well-formed parser states *)
Record wf (p : t) : Prop := {
  wf_max : (0 ≤ max_event_bytes_ p < size_max)%Z;
  wf_start : at_stream_start_ p = true →
    length (buffer_ p) < 3 ∧ buffer_ p = take (length (buffer_ p)) utf8_bom ∧ skip_leading_lf_ p = false;
  wf_line : at_stream_start_ p = false →
    Forall (λ c, is_eol c = false) (buffer_ p) ∧ (zlen (buffer_ p) ≤ max_event_bytes_ p)%Z ∧
    (skip_leading_lf_ p = true → buffer_ p = []);
  wf_data : (zlen (data_ p) ≤ max_event_bytes_ p)%Z;
}.
End SseParser.
