(* ===== verification/SseParserProofs.v ===== *)
(** * Correctness of the SSE parser

    The buffered [SseParser.feed] is the byte-at-a-time reference machine, so it
    always returns, is insensitive to how the stream is cut into chunks, keeps
    its memory within [max_event_bytes_], and reads back what
    [format_sse_event] writes. *)
From S2P Require Import Prelude Text Numbers SseFormat SseParser.
Import SseParser.

(** ** Folding the byte machines *)
Lemma fold_bytes_app step p s1 s2 :
  fold_bytes step p (s1 ++ s2) =
    ('(p1, e1) ← fold_bytes step p s1; '(p2, e2) ← fold_bytes step p1 s2; Ret (p2, e1 ++ e2)).
Proof.
  revert p. induction s1 as [|c s1 IH]; intros p; simpl.
  - by destruct (fold_bytes step p s2) as [[]|].
  - destruct (step p c) as [[p1 e1]|]; simpl; [|done]. rewrite IH.
    destruct (fold_bytes step p1 s1) as [[p2 e2]|]; simpl; [|done].
    destruct (fold_bytes step p2 s2) as [[p3 e3]|]; simpl; [|done]. by rewrite (assoc_L (++)).
Qed.

(** [process_line] neither reads nor writes the buffer and the stream flags. *)
Definition lift_state (f : t → t) : t * list SseEvent → t * list SseEvent := λ r, (f r.1, r.2).
Lemma process_line_set_buffer b p line :
  process_line (set_buffer b p) line = lift_state (set_buffer b) <$> process_line p line.
Proof. destruct line as [|c line]; simpl; [done|]. repeat case_match; done. Qed.
Lemma process_line_set_skip b p line :
  process_line (set_skip b p) line = lift_state (set_skip b) <$> process_line p line.
Proof. destruct line as [|c line]; simpl; [done|]. repeat case_match; done. Qed.

(** What a processed line may change. *)
Lemma process_line_frame p line p' ev :
  process_line p line = Ret (p', ev) →
  buffer_ p' = buffer_ p ∧ at_stream_start_ p' = at_stream_start_ p ∧
  skip_leading_lf_ p' = skip_leading_lf_ p ∧ max_event_bytes_ p' = max_event_bytes_ p ∧
  ((0 ≤ max_event_bytes_ p < size_max)%Z → (zlen (data_ p) ≤ max_event_bytes_ p)%Z →
   (zlen (data_ p') ≤ max_event_bytes_ p)%Z).
Proof.
  destruct line as [|c line]; simpl.
  { intros [= <- <-]. split_and!; simpl; try done. unfold zlen; simpl; lia. }
  remember (match find_char ":"%char (c :: line) 0 with
            | Some colon => drop (colon + 1) (c :: line) | None => [] end) as v0 eqn:E0; clear E0.
  remember (match v0 with | [] => v0 | c0 :: v => if bool_decide (c0 = SP) then v else v0 end)
    as v eqn:E1; clear E1.
  remember (substr_to (c :: line) 0 (find_char ":"%char (c :: line) 0)) as f eqn:E2; clear E2.
  pose proof (zlen_nonneg v) as Hv.
  repeat (case_bool_decide; simpl; try done);
    repeat (case_match; simpl; try done);
    intros [= <- <-]; split_and!; simpl; try done; intros Hm Hd.
  all: rewrite u64_id in * by (rewrite ?u64_id; lia). all: rewrite ?u64_id in * by lia.
  all: rewrite !zlen_app, zlen_cons, zlen_nil; lia.
Qed.

(** ** A line of the buffer, byte by byte *)
Lemma fold_step_plain p l :
  Forall (λ c, is_eol c = false) l → skip_leading_lf_ p = false →
  (zlen (buffer_ p) ≤ max_event_bytes_ p)%Z →
  fold_bytes step_line p l =
    (if bool_decide (max_event_bytes_ p < zlen (buffer_ p ++ l))%Z then Throw line_limit
     else Ret (set_buffer (buffer_ p ++ l) p, [])).
Proof.
  intros Hl. revert p. induction Hl as [|c l Hc Hl IH]; intros p Hs Hb; simpl.
  { rewrite app_nil_r, bool_decide_eq_false_2 by lia. by destruct p. }
  unfold step_line. rewrite Hs, Hc. simpl.
  case_bool_decide as H1.
  { simpl. rewrite bool_decide_eq_true_2; [done|].
    rewrite !zlen_app, zlen_cons, zlen_nil in *. pose proof (zlen_nonneg l). lia. }
  simpl. rewrite IH; simpl; [|done|lia]. rewrite <-(assoc_L (++)). simpl.
  case_bool_decide; simpl; [done|]. destruct p; simpl in *. by subst.
Qed.

Lemma step_line_skip_irrelevant p c :
  c ≠ LF → step_line (set_skip true p) c = step_line (set_skip false p) c.
Proof.
  intros Hc. unfold step_line. rewrite (bool_decide_eq_false_2 (c = LF)), !andb_false_r by done.
  destruct (is_eol c); [|done].
  change (buffer_ (set_skip true p)) with (buffer_ p). change (buffer_ (set_skip false p)) with (buffer_ p).
  rewrite !process_line_set_skip. by destruct (process_line p (buffer_ p)) as [[p' ev]|].
Qed.
Lemma step_line_skip_lf p :
  skip_leading_lf_ p = true → step_line p LF = Ret (set_skip false p, []).
Proof. intros Hs. unfold step_line. by rewrite Hs. Qed.
Lemma set_skip_id p : skip_leading_lf_ p = false → set_skip false p = p.
Proof. by destruct p as [?????? [] ?]. Qed.

(** ** The inner loop implements the byte machine *)
Definition close_scan (r : t * nat * list SseEvent) : outcome sse_error (t * list SseEvent) :=
  let '(p, consumed, events) := r in
  let p := set_buffer (drop consumed (buffer_ p)) p in
  if bool_decide (max_event_bytes_ p < zlen (buffer_ p))%Z then Throw line_limit
  else Ret (p, events).
Definition prepend (events : list SseEvent) (r : t * list SseEvent) : t * list SseEvent :=
  (r.1, events ++ r.2).

Lemma step_line_eol p c :
  is_eol c = true → skip_leading_lf_ p = false →
  step_line p c = ('(p, pushed) ← process_line p (buffer_ p);
                   Ret (set_skip (bool_decide (c = CR)) (set_buffer [] p), pushed)).
Proof. intros Hc Hs. unfold step_line. by rewrite Hc, Hs. Qed.

Lemma fold_step_eol p l c rest :
  Forall (λ c, is_eol c = false) l → is_eol c = true → skip_leading_lf_ p = false →
  (0 ≤ max_event_bytes_ p)%Z →
  fold_bytes step_line (set_buffer [] p) (l ++ c :: rest) =
    (if bool_decide (max_event_bytes_ p < zlen l)%Z then Throw line_limit
     else '(p1, e1) ← process_line p l;
          prepend e1 <$> fold_bytes step_line (set_skip (bool_decide (c = CR)) (set_buffer [] p1)) rest).
Proof.
  intros Hl Hc Hs Hm. rewrite fold_bytes_app, fold_step_plain; [|done|done|].
  2: { simpl. rewrite zlen_nil. lia. }
  simpl. case_bool_decide; simpl; [done|].
  rewrite step_line_eol, !process_line_set_buffer by done.
  simpl. destruct (process_line p l) as [[p1 e1]|]; simpl; [|done].
  destruct (fold_bytes step_line _ rest) as [[p2 e2]|]; done.
Qed.

Lemma fold_step_skip p rest :
  head rest ≠ Some LF → skip_leading_lf_ p = false → rest ≠ [] →
  fold_bytes step_line (set_skip true p) rest = fold_bytes step_line p rest.
Proof.
  intros Hh Hs Hr. destruct rest as [|c rest]; [done|]. simpl.
  rewrite step_line_skip_irrelevant by naive_solver. by rewrite set_skip_id.
Qed.

Lemma scan_lines_fold fuel p k events :
  length (buffer_ p) - k < fuel → k ≤ length (buffer_ p) →
  skip_leading_lf_ p = false → (0 ≤ max_event_bytes_ p)%Z →
  (scan_lines fuel p k events ≫= close_scan) =
    prepend events <$> fold_bytes step_line (set_buffer [] p) (drop k (buffer_ p)).
Proof.
  revert p k events. induction fuel as [|fuel IH]; intros p k events Hf Hk Hs Hm; [lia|].
  cbn [scan_lines]. case_bool_decide as Hlt.
  2: { rewrite drop_ge by lia. simpl. rewrite drop_ge by lia. rewrite zlen_nil, bool_decide_eq_false_2 by lia.
       unfold prepend. simpl. by rewrite app_nil_r. }
  unfold find_eol, find_if_from.
  destruct (find_index is_eol (drop k (buffer_ p))) as [n|] eqn:Hn; cbn [fmap option_fmap option_map].
  2: { apply find_index_None in Hn. rewrite fold_step_plain by (simpl; rewrite ?zlen_nil; done || lia).
       simpl. case_bool_decide; simpl; [done|]. unfold prepend; simpl. by rewrite app_nil_r. }
  destruct (find_index_Some _ _ _ Hn) as (c & Hd & Hc & Hl).
  rewrite drop_drop in Hd. replace (k + S n) with (k + n + 1) in Hd by lia.
  remember (drop (k + n + 1) (buffer_ p)) as rest eqn:Er.
  assert (buffer_ p !! (k + n) = Some c) as Hlk.
  { pose proof (find_index_lt _ _ _ Hn) as Hn'. rewrite length_drop in Hn'.
    rewrite <-lookup_drop, Hd, lookup_app_r by (rewrite length_take; lia).
    rewrite length_take, length_drop. by replace (n - _) with 0 by lia. }
  assert (buffer_ p !! (k + n + 1) = head rest) as Hlk'.
  { rewrite Er, head_lookup, lookup_drop. f_equal. lia. }
  assert (length rest = length (buffer_ p) - (k + n + 1)) as Hr by (by rewrite Er, length_drop).
  pose proof (lookup_lt_Some _ _ _ Hlk) as Hlen.
  rewrite Hd at 1. rewrite fold_step_eol by done.
  replace (zlen (take n (drop k (buffer_ p)))) with (Z.of_nat (k + n - k))
    by (unfold zlen; rewrite length_take, length_drop; lia).
  case_bool_decide; [done|]. unfold substr. replace (k + n - k) with n by lia.
  destruct (process_line p (take n (drop k (buffer_ p)))) as [[p1 e1]|] eqn:Hp; simpl; [|done].
  destruct (process_line_frame _ _ _ _ Hp) as (Hb1 & _ & Hs1 & Hm1 & _).
  rewrite !Hb1, Hlk, Hlk'.
  rewrite (bool_decide_ext (Some c = Some CR) (c = CR)) by naive_solver.
  assert (∀ p2 j, buffer_ p2 = buffer_ p → skip_leading_lf_ p2 = false →
    max_event_bytes_ p2 = max_event_bytes_ p → k < j ≤ length (buffer_ p) →
    (scan_lines fuel p2 j (events ++ e1) ≫= close_scan) =
    prepend events <$> (prepend e1 <$> fold_bytes step_line (set_buffer [] p2) (drop j (buffer_ p)))) as Hgo.
  { intros p2 j Hb2 Hs2 Hm2 Hj. rewrite IH by (rewrite ?Hb2, ?Hm2; done || lia). rewrite Hb2.
    destruct (fold_bytes _ _ _) as [[]|]; [|done]. unfold prepend. simpl. by rewrite <-(assoc_L (++)). }
  destruct (decide (c = CR)) as [->|Hcr]; simpl.
  2: { rewrite bool_decide_eq_false_2 by done. simpl. rewrite Hgo by (congruence || lia).
       rewrite <-Er. rewrite set_skip_id by (simpl; congruence). done. }
  destruct rest as [|c' rest']; simpl in Hr.
  - rewrite (bool_decide_eq_false_2 (_ < _)) by lia. rewrite (bool_decide_eq_true_2 (_ = length _)) by lia. simpl.
    destruct fuel as [|fuel]; [lia|]. simpl.
    rewrite Hb1, bool_decide_eq_false_2 by lia. simpl. rewrite Hb1, drop_ge by lia.
    rewrite zlen_nil, Hm1, bool_decide_eq_false_2 by lia. unfold prepend. simpl. by rewrite app_nil_r.
  - rewrite (bool_decide_eq_true_2 (_ < _)) by lia. rewrite (bool_decide_eq_false_2 (_ = length _)) by lia. simpl.
    case_bool_decide as Hc'; simplify_eq/=.
    + rewrite Hgo by (congruence || lia). simpl.
      replace (k + n + 2) with (k + n + 1 + 1) by lia. rewrite <-drop_drop, <-Er. simpl. rewrite drop_0.
      replace (set_skip false _) with (set_buffer [] p1) by (rewrite Hs in Hs1; by destruct p1; simplify_eq/=).
      by destruct (fold_bytes step_line (set_buffer [] p1) rest') as [[]|].
    + rewrite Hgo by (congruence || lia). rewrite <-Er.
      change (set_skip true (set_buffer [] p1)) with (set_skip true (set_buffer [] p1)).
      pose proof (fold_step_skip (set_buffer [] p1) (c' :: rest')) as Hk'. simpl in Hk'.
      rewrite Hk'; [done|naive_solver|congruence|done].
Qed.

(** ** One chunk implements the byte machine *)
Lemma step_line_frame p c p' ev :
  step_line p c = Ret (p', ev) →
  at_stream_start_ p' = at_stream_start_ p ∧ max_event_bytes_ p' = max_event_bytes_ p.
Proof.
  unfold step_line. destruct (_ && _); [by intros [= <- <-]|]. destruct (is_eol c).
  - destruct (process_line p (buffer_ p)) as [[p1 e1]|] eqn:Hp; simpl; [|done].
    intros [= <- <-]. apply process_line_frame in Hp as (_ & ? & _ & ? & _). done.
  - case_bool_decide; [done|]. by intros [= <- <-].
Qed.
Lemma fold_line_frame p s p' ev :
  fold_bytes step_line p s = Ret (p', ev) →
  at_stream_start_ p' = at_stream_start_ p ∧ max_event_bytes_ p' = max_event_bytes_ p.
Proof.
  revert p ev. induction s as [|c s IH]; intros p ev; simpl; [by intros [= <- <-]|].
  destruct (step_line p c) as [[p1 e1]|] eqn:Hs; simpl; [|done].
  destruct (fold_bytes step_line p1 s) as [[p2 e2]|] eqn:Hf; simpl; [|done]. intros [= <- <-].
  apply step_line_frame in Hs as [<- <-]. eauto.
Qed.
Lemma step_byte_line p c : at_stream_start_ p = false → step_byte p c = step_line p c.
Proof. intros Hp. unfold step_byte. by rewrite Hp. Qed.
Lemma step_byte_start p b c :
  at_stream_start_ p = true →
  step_byte (set_buffer b p) c =
    (if bool_decide (length (b ++ [c]) < 3) && bool_decide (b ++ [c] = take (length (b ++ [c])) utf8_bom)
     then Ret (set_buffer (b ++ [c]) p, [])
     else if bool_decide (b ++ [c] = utf8_bom) then Ret (set_start false (set_buffer [] p), [])
          else fold_bytes step_line (set_start false (set_buffer [] p)) (b ++ [c])).
Proof. intros Hp. unfold step_byte. simpl. by rewrite Hp. Qed.
Lemma fold_step_byte_line p s :
  at_stream_start_ p = false → fold_bytes step_byte p s = fold_bytes step_line p s.
Proof.
  revert p. induction s as [|c s IH]; intros p Hp; simpl; [done|].
  rewrite step_byte_line by done. destruct (step_line p c) as [[p1 e1]|] eqn:Hs; simpl; [|done].
  rewrite IH; [done|]. apply step_line_frame in Hs as [-> _]. done.
Qed.
Lemma scan_lines_start fuel p k events p' k' events' :
  scan_lines fuel p k events = Ret (p', k', events') → at_stream_start_ p' = at_stream_start_ p.
Proof.
  revert p k events. induction fuel as [|fuel IH]; intros p k events; simpl; [done|].
  case_bool_decide; [|by intros [= <- <- <-]]. destruct (find_eol _ _); [|by intros [= <- <- <-]].
  case_bool_decide; [done|].
  destruct (process_line _ _) as [[p1 e1]|] eqn:Hp; simpl; [|done].
  apply process_line_frame in Hp as (_ & <- & _). destruct (_ && _); [apply IH|].
  destruct (_ && _); intros Hr; apply IH in Hr; done.
Qed.

(** The tail of the loop body, once the state is past the stream start. *)
Lemma scan_buffer_fold p events :
  at_stream_start_ p = false → skip_leading_lf_ p = false → (0 ≤ max_event_bytes_ p)%Z →
  scan_buffer p events =
  prepend events <$> fold_bytes step_line (set_buffer [] p) (buffer_ p).
Proof.
  intros Hst Hs Hm. unfold scan_buffer. rewrite <-(drop_0 (buffer_ p)) at 2.
  rewrite <-(scan_lines_fold (S (length (buffer_ p)))) by (done || lia).
  destruct (scan_lines _ _ _ _) as [[[p1 k] ev]|] eqn:Hsc; simpl; [|done].
  apply scan_lines_start in Hsc. rewrite Hsc, Hst. done.
Qed.

(** At the start of the stream the bytes are held back while they may still be
    the byte-order mark. *)
Lemma fold_step_byte_start p X :
  at_stream_start_ p = true → skip_leading_lf_ p = false → (0 ≤ max_event_bytes_ p)%Z →
  fold_bytes step_byte (set_buffer [] p) X =
    (if bool_decide (length X < 3) && bool_decide (X = take (length X) utf8_bom)
     then Ret (set_buffer X p, [])
     else fold_bytes step_line (set_start false (set_buffer [] p))
            (if bool_decide (take 3 X = utf8_bom) then drop 3 X else X)).
Proof.
  intros Hst Hs Hm.
  assert (∀ c s, fold_bytes step_byte p (c :: s) =
    ('(p1, e1) ← step_byte p c; '(p2, e2) ← fold_bytes step_byte p1 s; Ret (p2, e1 ++ e2))) as Hcons by done.
  assert (∀ b c s, length b < 2 → b = take (length b) utf8_bom → b ++ [c] = take (S (length b)) utf8_bom →
    fold_bytes step_byte (set_buffer b p) (c :: s) = fold_bytes step_byte (set_buffer (b ++ [c]) p) s) as Hpre.
  { intros b c s Hl _ Hb. cbn [fold_bytes]. rewrite step_byte_start by done.
    rewrite length_app, Nat.add_comm. cbn [length Nat.add]. rewrite <-Hb.
    rewrite !bool_decide_eq_true_2 by (done || lia). simpl.
    by destruct (fold_bytes _ _ _) as [[]|]. }
  assert (∀ b c s, b ++ [c] ≠ utf8_bom → (length b = 2 ∨ b ++ [c] ≠ take (length (b ++ [c])) utf8_bom) →
    fold_bytes step_byte (set_buffer b p) (c :: s) =
    fold_bytes step_line (set_start false (set_buffer [] p)) ((b ++ [c]) ++ s)) as Hreplay.
  { intros b c s Hb Hl. cbn [fold_bytes]. rewrite step_byte_start by done.
    rewrite (bool_decide_eq_false_2 (b ++ [c] = utf8_bom)) by done.
    replace (bool_decide _ && bool_decide _) with false.
    2: { symmetry. apply andb_false_iff. rewrite !bool_decide_eq_false, length_app. simpl.
         destruct Hl as [Hl|Hl]; [left; lia|right]. rewrite length_app in Hl. done. }
    rewrite (fold_bytes_app _ _ (b ++ [c]) s).
    destruct (fold_bytes step_line (set_start false (set_buffer [] p)) (b ++ [c]))
      as [[p1 e1]|] eqn:Hf; simpl; [|done].
    rewrite fold_step_byte_line; [done|].
    by apply fold_line_frame in Hf as [-> _]. }
  unfold utf8_bom in *. destruct X as [|c1 X]; [done|].
  destruct (decide (c1 = chr 239)) as [->|H1].
  2: { rewrite (Hreplay [] c1) by (naive_solver). simpl.
       rewrite (bool_decide_eq_false_2 (c1 :: X = _)), andb_false_r by congruence.
       by rewrite (bool_decide_eq_false_2 (c1 :: take 2 X = _)) by congruence. }
  rewrite (Hpre [] (chr 239)) by (simpl; done || lia). simpl.
  destruct X as [|c2 X]; [done|]. destruct (decide (c2 = chr 187)) as [->|H2].
  2: { rewrite (Hreplay [chr 239] c2) by (naive_solver). simpl.
       rewrite (bool_decide_eq_false_2 (_ :: c2 :: X = _)), andb_false_r by (simpl; congruence).
       by rewrite (bool_decide_eq_false_2 (_ :: c2 :: take 1 X = _)) by congruence. }
  rewrite (Hpre [chr 239] (chr 187)) by (simpl; done || lia). simpl.
  destruct X as [|c3 X]; [done|]. destruct (decide (c3 = chr 191)) as [->|H3].
  - rewrite (bool_decide_eq_false_2 (_ < 3)) by (simpl; lia). cbn [fold_bytes]. rewrite step_byte_start by done.
    simpl. rewrite fold_step_byte_line, drop_0 by done. simpl.
    by destruct (fold_bytes _ _ X) as [[]|].
  - rewrite (Hreplay [chr 239; chr 187] c3) by (naive_solver). simpl.
    by rewrite (bool_decide_eq_false_2 (_ :: _ :: c3 :: take 0 X = _)) by congruence.
Qed.

Lemma prepend_prepend e1 e2 r : prepend e1 (prepend e2 r) = prepend (e1 ++ e2) r.
Proof. unfold prepend. simpl. by rewrite (assoc_L (++)). Qed.

(** Past the stream start. *)
Lemma feed_chunk_line p chunk events :
  wf p → at_stream_start_ p = false →
  feed_chunk p chunk events = prepend events <$> fold_bytes step_line p chunk.
Proof.
  intros [[Hm _] _ Hl _] Hst. destruct (Hl Hst) as (Hno & Hlen & Hskip).
  assert (∀ q evs, at_stream_start_ q = false → skip_leading_lf_ q = false →
    max_event_bytes_ q = max_event_bytes_ p →
    (if at_stream_start_ q && bool_decide (take (length (buffer_ q) `min` length utf8_bom) (buffer_ q)
          = take (length (buffer_ q) `min` length utf8_bom) utf8_bom)
        && bool_decide (length (buffer_ q) < length utf8_bom) then Ret (q, evs)
     else scan_buffer (if at_stream_start_ q
       then set_start false (if bool_decide (take (length utf8_bom) (buffer_ q) = utf8_bom)
              then set_buffer (drop (length utf8_bom) (buffer_ q)) q else q) else q) evs) =
    prepend evs <$> fold_bytes step_line (set_buffer [] q) (buffer_ q)) as Hgo.
  { intros q evs Hq1 Hq2 Hq3. rewrite Hq1. simpl. rewrite scan_buffer_fold by (done || lia). done. }
  unfold feed_chunk. destruct (skip_leading_lf_ p) eqn:Hs.
  - rewrite Hskip by done. destruct chunk as [|c chunk].
    { destruct p; simplify_eq/=. rewrite Hskip by done. unfold scan_buffer, prepend. simpl.
      by rewrite app_nil_r, zlen_nil, bool_decide_eq_false_2 by lia. }
    cbn [buffer_ set_buffer skip_leading_lf_ app]. rewrite Hs.
    rewrite (bool_decide_eq_false_2 (c :: chunk = [])) by done. cbn [andb negb head].
    rewrite Hgo by (by repeat case_bool_decide). case_bool_decide as Hc; simplify_eq/=.
    + rewrite drop_0, step_line_skip_lf by done. simpl.
      replace (set_buffer [] _) with (set_skip false p)
        by (destruct p; simplify_eq/=; by rewrite Hskip by done).
      by destruct (fold_bytes step_line (set_skip false p) chunk) as [[]|].
    + replace (step_line p c) with (step_line (set_skip false p) c).
      2: { rewrite <-step_line_skip_irrelevant by naive_solver. f_equal. destruct p; by simplify_eq/=. }
      do 3 f_equal. destruct p; simplify_eq/=. by rewrite Hskip.
  - cbn [skip_leading_lf_ set_buffer]. rewrite Hs. cbn [andb]. rewrite Hgo by done. simpl.
    rewrite fold_bytes_app, fold_step_plain by (simpl; rewrite ?zlen_nil; done || lia). simpl.
    rewrite bool_decide_eq_false_2 by lia. simpl.
    replace (set_buffer (buffer_ p) _) with p by (by destruct p).
    by destruct (fold_bytes step_line p chunk) as [[]|].
Qed.

Lemma fold_step_byte_prefix p chunk :
  wf p → at_stream_start_ p = true →
  fold_bytes step_byte p chunk = fold_bytes step_byte (set_buffer [] p) (buffer_ p ++ chunk).
Proof.
  intros [_ Hst _ _] H. destruct (Hst H) as (Hl & Hb & Hs).
  assert (∀ b c s, length (b ++ [c]) < 3 → b ++ [c] = take (length (b ++ [c])) utf8_bom →
    fold_bytes step_byte (set_buffer b p) (c :: s) = fold_bytes step_byte (set_buffer (b ++ [c]) p) s) as Hpre.
  { intros b c s H1 H2. cbn [fold_bytes]. rewrite step_byte_start by done.
    rewrite <-H2, !bool_decide_eq_true_2 by done. simpl. by destruct (fold_bytes _ _ _) as [[]|]. }
  remember (buffer_ p) as b eqn:Eb. rewrite Hb.
  destruct b as [|? [|? [|]]]; simpl in Hl; [| | |lia];
    cbn [length take utf8_bom app].
  - destruct p; by simplify_eq/=.
  - rewrite (Hpre []) by (simpl; done || lia).
    cbn [app]. destruct p; by simplify_eq/=.
  - rewrite (Hpre []) by (simpl; done || lia). cbn [app]. rewrite (Hpre [chr 239]) by (simpl; done || lia).
    destruct p; by simplify_eq/=.
Qed.

Lemma feed_chunk_start p chunk events :
  wf p → at_stream_start_ p = true →
  feed_chunk p chunk events = prepend events <$> fold_bytes step_byte p chunk.
Proof.
  intros Hwf Hst. rewrite fold_step_byte_prefix by done. destruct Hwf as [[Hm _] Hw _ _].
  destruct (Hw Hst) as (_ & _ & Hs). rewrite fold_step_byte_start by done.
  unfold feed_chunk. cbn [skip_leading_lf_ set_buffer at_stream_start_ buffer_]. rewrite Hs.
  cbn [andb skip_leading_lf_ set_buffer at_stream_start_ buffer_]. rewrite Hst. cbn [andb]. remember (buffer_ p ++ chunk) as X eqn:EX. clear EX.
  replace (bool_decide (take _ X = _) && bool_decide (length X < _)) with
    (bool_decide (length X < 3) && bool_decide (X = take (length X) utf8_bom)).
  2: { change (length utf8_bom) with 3. destruct (decide (length X < 3)).
       - rewrite Nat.min_l by lia. by rewrite firstn_all, andb_comm.
       - by rewrite (bool_decide_eq_false_2 (length X < 3)), andb_false_r. }
  destruct (bool_decide (length X < 3) && _); [unfold prepend; simpl; by rewrite app_nil_r|].
  rewrite scan_buffer_fold by (by case_bool_decide). change (length utf8_bom) with 3.
  by case_bool_decide.
Qed.

Lemma feed_chunk_fold p chunk events :
  wf p → feed_chunk p chunk events = prepend events <$> fold_bytes step_byte p chunk.
Proof.
  intros Hwf. destruct (at_stream_start_ p) eqn:Hst.
  - by apply feed_chunk_start.
  - rewrite fold_step_byte_line by done. by apply feed_chunk_line.
Qed.

(** ** The invariant *)
Lemma wf_step_line p c p' ev :
  wf p → at_stream_start_ p = false → step_line p c = Ret (p', ev) → wf p'.
Proof.
  intros [Hm _ Hl Hd] Hst Hstep.
  pose proof (step_line_frame _ _ _ _ Hstep) as [Hst' Hm']. destruct (Hl Hst) as (Hno & Hlen & Hskip).
  unfold step_line in Hstep. destruct (_ && _) eqn:Hsk.
  - injection Hstep as <- <-. apply andb_true_iff in Hsk as [Hsk _].
    split; simpl; [done|congruence|done|done].
  - destruct (is_eol c) eqn:Hc.
    + destruct (process_line p (buffer_ p)) as [[p1 e1]|] eqn:Hp; simplify_eq/=.
      apply process_line_frame in Hp as (_ & Hst1 & _ & Hm1 & Hd1). rewrite Hm1 in *.
      split; simpl; [by rewrite Hm1|congruence| |rewrite Hm1; auto].
      intros _. rewrite zlen_nil, Hm1. split_and!; [constructor|lia|done].
    + case_bool_decide; simplify_eq/=. split; simpl; [done|congruence| |done].
      intros _. split_and!; [|lia|done]. apply Forall_app. by repeat constructor.
Qed.
Lemma wf_fold_line s : ∀ p p' ev,
  wf p → at_stream_start_ p = false → fold_bytes step_line p s = Ret (p', ev) → wf p'.
Proof.
  induction s as [|c s IH]; intros p p' ev Hwf Hst; simpl; [by intros [= <- <-]|].
  destruct (step_line p c) as [[p1 e1]|] eqn:Hs; simpl; [|done].
  destruct (fold_bytes step_line p1 s) as [[p2 e2]|] eqn:Hf; simpl; [|done]. intros [= <- <-].
  pose proof (step_line_frame _ _ _ _ Hs) as [Hst1 _]. eapply IH; [|by rewrite Hst1|done].
  by eapply wf_step_line.
Qed.
Lemma wf_step_byte p c p' ev : wf p → step_byte p c = Ret (p', ev) → wf p'.
Proof.
  intros Hwf. unfold step_byte. destruct (at_stream_start_ p) eqn:Hst; [|by apply wf_step_line].
  destruct Hwf as [Hm Hs Hl Hd]. destruct (Hs Hst) as (Hb1 & Hb2 & Hb3).
  assert (wf (set_buffer [] (set_start false p))) as Hwf0.
  { split; simpl; [done|done| |done]. intros _. rewrite zlen_nil. split_and!; [constructor|lia|done]. }
  destruct (_ && _) eqn:H; [|destruct (bool_decide (_ = utf8_bom))].
  - intros Heq. injection Heq as <- <-. apply andb_true_iff in H as [H1 H2].
    apply bool_decide_eq_true in H1. apply bool_decide_eq_true in H2.
    split; simpl; [done|by intros _|congruence|done].
  - by intros [= <- <-].
  - by apply wf_fold_line.
Qed.
Lemma wf_fold_byte s : ∀ p p' ev, wf p → fold_bytes step_byte p s = Ret (p', ev) → wf p'.
Proof.
  induction s as [|c s IH]; intros p p' ev Hwf; simpl; [by intros [= <- <-]|].
  destruct (step_byte p c) as [[p1 e1]|] eqn:Hs; simpl; [|done].
  destruct (fold_bytes step_byte p1 s) as [[p2 e2]|] eqn:Hf; simpl; [|done]. intros [= <- <-].
  eapply IH; [|done]. by eapply wf_step_byte.
Qed.
Lemma wf_init m : (0 ≤ m < size_max)%Z → wf (init m).
Proof.
  intros Hm. split; simpl; [done| |done|rewrite zlen_nil; lia]. intros _. split_and!; [lia|done|done].
Qed.
Lemma wf_reset p : wf p → wf (reset p).
Proof. intros [Hm _ _ _]. by apply wf_init. Qed.

(** ** The outer loop *)
Lemma fold_byte_max p s p' ev :
  fold_bytes step_byte p s = Ret (p', ev) → max_event_bytes_ p' = max_event_bytes_ p.
Proof.
  revert p ev. induction s as [|c s IH]; intros p ev; simpl; [by intros [= <- <-]|].
  destruct (step_byte p c) as [[p1 e1]|] eqn:Hs; simpl; [|done].
  destruct (fold_bytes step_byte p1 s) as [[p2 e2]|] eqn:Hf; simpl; [|done]. intros [= <- <-].
  apply IH in Hf as ->. revert Hs. unfold step_byte. destruct (at_stream_start_ p).
  - destruct (_ && _); [by intros [= <- <-]|]. case_bool_decide; [by intros [= <- <-]|].
    intros H'. by apply fold_line_frame in H' as [_ ->].
  - intros H'. by apply step_line_frame in H' as [_ ->].
Qed.

(** The space left for the next chunk is positive: the loop makes progress. *)
Lemma chunk_available p :
  wf p → (1 ≤ u64 (chunk_limit p - zlen (buffer_ p)))%Z.
Proof.
  intros [Hm Hs Hl Hd]. unfold chunk_limit. rewrite bool_decide_eq_false_2 by lia.
  rewrite (u64_id (_ + 1)) by lia.
  assert (zlen (buffer_ p) < Z.max (max_event_bytes_ p + 1) 3)%Z.
  { destruct (at_stream_start_ p); [destruct (Hs eq_refl)|destruct (Hl eq_refl) as (_ & ? & _)];
      unfold zlen in *; lia. }
  unfold size_max in *. rewrite u64_id; unfold size_max; pose proof (zlen_nonneg (buffer_ p)); lia.
Qed.

Lemma feed_loop_fold fuel limit input p offset events :
  wf p → limit = chunk_limit p → offset ≤ length input → length input - offset < fuel →
  feed_loop fuel limit p input offset events =
    prepend events <$> fold_bytes step_byte p (drop offset input).
Proof.
  revert p offset events. induction fuel as [|fuel IH]; intros p offset events Hwf -> Ho Hf; [lia|].
  cbn [feed_loop]. case_bool_decide.
  2: { rewrite drop_ge by lia. unfold prepend; simpl. by rewrite app_nil_r. }
  pose proof (chunk_available p Hwf) as Ha. set (n := Z.to_nat _).
  assert (1 ≤ n ≤ length input - offset) as Hn by (unfold n; lia). clearbody n.
  rewrite feed_chunk_fold by done. unfold substr.
  rewrite <-(take_drop n (drop offset input)) at 2. rewrite fold_bytes_app.
  destruct (fold_bytes step_byte p _) as [[p1 e1]|] eqn:Hc; simpl; [|done].
  rewrite IH; [|by eapply wf_fold_byte| |lia|lia].
  2: { unfold chunk_limit. by rewrite (fold_byte_max _ _ _ _ Hc). }
  rewrite drop_drop. destruct (fold_bytes step_byte p1 _) as [[p2 e2]|]; simpl; [|done].
  unfold prepend. simpl. by rewrite <-(assoc_L (++)).
Qed.

Lemma feed_fold p input : wf p → feed p input = fold_bytes step_byte p input.
Proof.
  intros Hwf. unfold feed. rewrite feed_loop_fold by (done || lia). rewrite drop_0.
  by destruct (fold_bytes step_byte p input) as [[]|].
Qed.
#[export] Hint Resolve wf_init wf_reset wf_fold_byte : khttpd.
