(* ===== verification/SseRoundTrip.v ===== *)
(** * The parser reads back what the formatter writes

    Lemmas that follow one formatted event through the byte machine, line by
    line; the properties themselves are in [SseTheorems]. *)
From S2P Require Import Prelude Text Numbers SseFormat SseParser SseParserProofs.
Import SseParser.

(** What the receiver sees: names and identifiers lose their line breaks, every
    line break of the data becomes a line feed, an absent name is "message" and
    an absent (or NUL-carrying) identifier is the last one received. *)
Definition join_lines (ls : list bytes) : bytes := removelast (concat ((λ l, l ++ [LF]) <$> ls)).
Definition received_id (last id : bytes) : bytes :=
  if bool_decide (id = []) then last
  else if bool_decide (NUL ∈ single_line id) then last else single_line id.
Definition received (last : bytes) (e : SseEvent) : SseEvent :=
  SseEvent.mk
    (if bool_decide (single_line (SseEvent.event e) = []) then str "message"
     else single_line (SseEvent.event e))
    (join_lines (split_lines (SseEvent.data e)))
    (received_id last (SseEvent.id e))
    (SseEvent.retry e).

(** A "name: value" line whose name holds no colon. *)
Definition field_line (name : string) (v : bytes) : bytes := str name ++ str ": " ++ v ++ [LF].

Lemma process_field p name v :
  Forall (λ c, bool_decide (c = ":"%char) = false) name → name ≠ [] →
  process_line p (name ++ ":"%char :: SP :: v) =
    (if bool_decide (max_event_bytes_ p < zlen v)%Z then Throw field_limit
     else if bool_decide (name = str "event") then Ret (set_event v p, [])
     else if bool_decide (name = str "data") then
       if bool_decide (max_event_bytes_ p ≤ zlen v)%Z
          || bool_decide (u64 (u64 (max_event_bytes_ p - zlen v) - 1) < zlen (data_ p))%Z
       then Throw data_limit else Ret (set_data (data_ p ++ v ++ [LF]) p, [])
     else if bool_decide (name = str "id") && bool_decide (find_char NUL v 0 = None) then
       Ret (set_last_event_id v p, [])
     else if bool_decide (name = str "retry") && negb (bool_decide (v = [])) && forallb isdigit v
     then Ret (set_retry (stoull_digits v) p, [])
     else Ret (p, [])).
Proof.
  intros Hn Hne. assert (∃ c n, name = c :: n) as (c & n & En) by (destruct name; naive_solver).
  assert (bool_decide (c = ":"%char) = false) as Hc by (subst; by inversion Hn).
  unfold process_line. rewrite En at 1. cbn [app]. rewrite Hc.
  unfold find_char, find_if_from. rewrite drop_0, find_index_here by done. cbn [fmap option_fmap option_map].
    unfold substr_to. rewrite Nat.add_0_l, Nat.sub_0_r, drop_0, take_app_length.
    rewrite <-drop_drop, drop_app_length. cbn [drop]. by rewrite (bool_decide_eq_true_2 (SP = SP)).
  Qed.

Lemma format_layout e :
  format_sse_event e =
    (if bool_decide (SseEvent.event e = []) then [] else field_line "event" (single_line (SseEvent.event e))) ++
    (if bool_decide (SseEvent.id e = []) then [] else field_line "id" (single_line (SseEvent.id e))) ++
    (match SseEvent.retry e with Some n => field_line "retry" (to_dec n) | None => [] end) ++
    concat (data_line <$> split_lines (SseEvent.data e)) ++ [LF].
Proof.
  unfold format_sse_event. rewrite append_data_lines_spec. unfold field_line.
  change (str "event: ") with (str "event" ++ str ": "). change (str "id: ") with (str "id" ++ str ": ").
  change (str "retry: ") with (str "retry" ++ str ": ").
  by repeat case_bool_decide; destruct (SseEvent.retry e); rewrite <-?(assoc_L (++)).
Qed.

Section reading.
Context (m : Z) (Hm : (0 ≤ m < size_max)%Z).

(** A parser between lines, with the given fields pending. *)
Definition pending (ev d i : bytes) (r : option N) : t := mk [] ev d i r false false m.

Lemma fold_line ev d i r l :
  Forall (λ c, is_eol c = false) l → (zlen l ≤ m)%Z →
  fold_bytes step_line (pending ev d i r) (l ++ [LF]) =
    ('(p1, e1) ← process_line (pending ev d i r) l; Ret (set_skip false (set_buffer [] p1), e1)).
Proof using Hm.
  intros Hl Hlen. change (pending ev d i r) with (set_buffer [] (pending ev d i r)).
  rewrite fold_step_eol by (done || simpl; lia). simpl. rewrite bool_decide_eq_false_2 by lia.
  destruct (process_line _ l) as [[p1 e1]|]; simpl; [|done]. unfold prepend. simpl. by rewrite app_nil_r.
Qed.

(** One field line, given what processing it does. *)
Lemma fold_field ev d i r (name : string) v res :
  Forall (λ c, bool_decide (c = ":"%char) = false) (str name) → str name ≠ [] →
  Forall (λ c, is_eol c = false) (str name) → Forall (λ c, is_eol c = false) v →
  (zlen (field_line name v) ≤ m)%Z →
  process_line (pending ev d i r) (str name ++ ":"%char :: SP :: v) = Ret (res, []) →
  fold_bytes step_line (pending ev d i r) (field_line name v) =
    Ret (set_skip false (set_buffer [] res), []).
Proof using Hm.
  intros H1 H2 H3 Hv Hlen Hp. unfold field_line in *.
  replace (str name ++ str ": " ++ v ++ [LF]) with ((str name ++ ":"%char :: SP :: v) ++ [LF]) in *
    by (by rewrite <-(assoc_L (++))).
  rewrite zlen_app, zlen_cons, zlen_nil in Hlen. rewrite fold_line; [|..|lia].
  - by rewrite Hp.
  - apply Forall_app; split; [done|]. by repeat constructor.
Qed.

Lemma field_line_len name v : (zlen (field_line name v) ≤ m)%Z → (zlen v + 3 ≤ m)%Z.
Proof using Type.
  unfold field_line. rewrite !zlen_app. change (zlen (str ": ")) with 2%Z.
  change (zlen [LF]) with 1%Z. pose proof (zlen_nonneg (str name)). lia.
Qed.
Lemma fold_event ev d i r v :
  Forall (λ c, is_eol c = false) v → (zlen (field_line "event" v) ≤ m)%Z →
  fold_bytes step_line (pending ev d i r) (field_line "event" v) = Ret (pending v d i r, []).
Proof using Hm.
  intros Hv Hlen. rewrite (fold_field _ _ _ _ "event" _ (pending v d i r));
    try done; [by repeat constructor..|].
  apply field_line_len in Hlen. rewrite process_field by (done || by repeat constructor).
  simpl. by rewrite bool_decide_eq_false_2 by lia.
Qed.
Lemma fold_id ev d i r v :
  Forall (λ c, is_eol c = false) v → (zlen (field_line "id" v) ≤ m)%Z →
  fold_bytes step_line (pending ev d i r) (field_line "id" v) =
    Ret (pending ev d (if bool_decide (NUL ∈ v) then i else v) r, []).
Proof using Hm.
  intros Hv Hlen.
  rewrite (fold_field _ _ _ _ "id" _ (pending ev d (if bool_decide (NUL ∈ v) then i else v) r));
    try done; [by repeat constructor..|].
  apply field_line_len in Hlen. rewrite process_field by (done || by repeat constructor).
  simpl. rewrite bool_decide_eq_false_2 by lia. cbn [andb].
  rewrite (bool_decide_ext _ (NUL ∉ v)) by apply find_char_None.
  case_bool_decide as H1; case_bool_decide as H2; done.
Qed.
Lemma fold_retry ev d i r n :
  (n < 2 ^ 64)%N → (zlen (field_line "retry" (to_dec n)) ≤ m)%Z →
  fold_bytes step_line (pending ev d i r) (field_line "retry" (to_dec n)) =
    Ret (pending ev d i (Some n), []).
Proof using Hm.
  intros Hn Hlen. pose proof (to_dec_digits n) as Hd.
  rewrite (fold_field _ _ _ _ "retry" _ (pending ev d i (Some n))); try done; [by repeat constructor..| |].
  - eapply Forall_impl; [exact Hd|]. intros c.
    pose proof (forall_bytes (λ c, implb (isdigit c) (negb (is_eol c))) eq_refl c) as Hc.
    simpl in Hc. intros H. rewrite H in Hc. by apply negb_true_iff in Hc.
  - apply field_line_len in Hlen. rewrite process_field by (done || by repeat constructor).
    simpl. rewrite bool_decide_eq_false_2 by lia. cbn [andb].
    rewrite (bool_decide_eq_false_2 (to_dec n = [])) by apply to_dec_nonempty.
    replace (forallb isdigit (to_dec n)) with true.
    + simpl. unfold stoull_digits. by rewrite to_dec_value, bool_decide_eq_true_2 by done.
    + symmetry. apply forallb_forall. intros c Hc%list_elem_of_In. rewrite Forall_forall in Hd. auto.
Qed.
Lemma fold_data ev d i r v :
  Forall (λ c, is_eol c = false) v → (zlen d + zlen (data_line v) ≤ m)%Z →
  fold_bytes step_line (pending ev d i r) (data_line v) = Ret (pending ev (d ++ v ++ [LF]) i r, []).
Proof using Hm.
  intros Hv Hlen. change (data_line v) with (field_line "data" v) in *.
  pose proof (zlen_nonneg d). assert (zlen (field_line "data" v) ≤ m)%Z as Hl by lia.
  rewrite (fold_field _ _ _ _ "data" _ (pending ev (d ++ v ++ [LF]) i r)); try done; [by repeat constructor..|].
  apply field_line_len in Hl. rewrite process_field by (done || by repeat constructor).
  unfold field_line in Hlen. rewrite !zlen_app in Hlen. change (zlen (str "data")) with 4%Z in Hlen.
  change (zlen (str ": ")) with 2%Z in Hlen. change (zlen [LF]) with 1%Z in Hlen.
  pose proof (zlen_nonneg v). simpl.
  by rewrite !bool_decide_eq_false_2 by (rewrite ?u64_id; rewrite ?u64_id; lia).
Qed.
Lemma fold_data_lines ev d i r ls :
  Forall (Forall (λ c, is_eol c = false)) ls → (zlen d + zlen (concat (data_line <$> ls)) ≤ m)%Z →
  fold_bytes step_line (pending ev d i r) (concat (data_line <$> ls)) =
    Ret (pending ev (d ++ concat ((λ l, l ++ [LF]) <$> ls)) i r, []).
Proof using Hm.
  intros Hls. revert d. induction Hls as [|l ls Hl Hls IH]; intros d Hlen.
  { simpl. by rewrite app_nil_r. }
  rewrite fmap_cons in *. cbn [concat] in *.
  rewrite zlen_app in Hlen. pose proof (zlen_nonneg (concat (data_line <$> ls))).
  rewrite fold_bytes_app, fold_data by (done || lia). simpl. rewrite IH.
  - simpl. by rewrite <-!(assoc_L (++)).
  - unfold data_line at 1 in Hlen. rewrite !zlen_app in *. pose proof (zlen_nonneg (str "data: ")). lia.
Qed.

(** The whole event: optional lines, data lines, blank line. *)
Lemma fold_opt_event i v :
  (zlen (if bool_decide (v = []) then [] else field_line "event" (single_line v)) ≤ m)%Z →
  fold_bytes step_line (pending [] [] i None)
    (if bool_decide (v = []) then [] else field_line "event" (single_line v)) =
    Ret (pending (single_line v) [] i None, []).
Proof using Hm. case_bool_decide as H; [by subst|]. intros Hl. apply fold_event; auto with khttpd. Qed.
Lemma fold_opt_id ev i v :
  (zlen (if bool_decide (v = []) then [] else field_line "id" (single_line v)) ≤ m)%Z →
  fold_bytes step_line (pending ev [] i None)
    (if bool_decide (v = []) then [] else field_line "id" (single_line v)) =
    Ret (pending ev [] (received_id i v) None, []).
Proof using Hm.
  unfold received_id. case_bool_decide as H; [done|]. intros Hl. apply fold_id; auto with khttpd.
Qed.
Lemma fold_opt_retry ev i r :
  (∀ n, r = Some n → n < 2 ^ 64)%N →
  (zlen (match r with Some n => field_line "retry" (to_dec n) | None => [] end) ≤ m)%Z →
  fold_bytes step_line (pending ev [] i None)
    (match r with Some n => field_line "retry" (to_dec n) | None => [] end) =
    Ret (pending ev [] i r, []).
Proof using Hm. destruct r as [n|]; [|done]. intros Hn Hl. apply fold_retry; auto. Qed.
Lemma fold_blank ev d i r :
  d ≠ [] →
  fold_bytes step_line (pending ev d i r) [LF] =
    Ret (pending [] [] i None,
         [SseEvent.mk (if bool_decide (ev = []) then str "message" else ev) (removelast d) i r]).
Proof using Type. intros Hd. simpl. unfold step_line. simpl. by rewrite bool_decide_eq_false_2 by done. Qed.

Lemma fold_event_lines i e :
  (∀ n, SseEvent.retry e = Some n → n < 2 ^ 64)%N → (zlen (format_sse_event e) ≤ m)%Z →
  fold_bytes step_line (pending [] [] i None) (format_sse_event e) =
    Ret (pending [] [] (received_id i (SseEvent.id e)) None, [received i e]).
Proof using Hm.
  intros Hr. rewrite format_layout, !zlen_app. intros Hlen.
  repeat match type of Hlen with context [zlen ?l] =>
    lazymatch goal with H : (0 ≤ zlen l)%Z |- _ => fail | _ => pose proof (zlen_nonneg l) end end.
  rewrite fold_bytes_app, fold_opt_event by lia. simpl.
  rewrite fold_bytes_app, fold_opt_id by lia. simpl.
  rewrite fold_bytes_app, fold_opt_retry by (done || lia). simpl.
  rewrite fold_bytes_app, fold_data_lines by (auto with khttpd; rewrite zlen_nil; lia).
  rewrite bind_Ret, fold_blank.
  - done.
  - destruct (split_lines_cons (SseEvent.data e)) as (l & ls & ->). by destruct l.
Qed.
End reading.
