(* ===== verification/SseTheorems.v ===== *)
(** * Properties of the SSE formatter and parser *)
From S2P Require Import Prelude Text Numbers SseFormat SseParser SseParserProofs SseRoundTrip.
Import SseParser.

(** Feeding a list of chunks one after the other, as the client does. *)
Fixpoint feed_all (p : t) (chunks : list bytes) : outcome sse_error (t * list SseEvent) :=
  match chunks with
  | [] => Ret (p, [])
  | c :: chunks =>
      '(p1, e1) ← feed p c;
      '(p2, e2) ← feed_all p1 chunks;
      Ret (p2, e1 ++ e2)
  end.

(** A parser between two events. *)
Record idle (p : t) : Prop := {
  idle_wf : wf p;
  idle_buffer : buffer_ p = [];
  idle_event : event_ p = [];
  idle_data : data_ p = [];
  idle_retry : retry_ p = None;
}.

Lemma feed_all_fold p chunks : wf p → feed_all p chunks = fold_bytes step_byte p (concat chunks).
Proof.
  revert p. induction chunks as [|c chunks IH]; intros p Hwf; simpl; [done|].
  rewrite fold_bytes_app, feed_fold by done.
  destruct (fold_bytes step_byte p c) as [[p1 e1]|] eqn:Hc; simpl; [|done].
  rewrite IH; [done|]. by eapply wf_fold_byte.
Qed.

Lemma format_head e : ∃ c s, format_sse_event e = c :: s ∧ c ≠ LF ∧ c ≠ chr 239.
Proof.
  rewrite format_layout. destruct (split_lines_cons (SseEvent.data e)) as (l & ls & ->).
  repeat case_bool_decide; destruct (SseEvent.retry e); by eexists _, _.
Qed.

Lemma idle_pending p :
  idle p → p = mk [] [] [] (last_event_id_ p) None (at_stream_start_ p) (skip_leading_lf_ p) (max_event_bytes_ p).
Proof. intros [_ ? ? ? ?]. destruct p; by simplify_eq/=. Qed.

(** The first byte of a text settles both stream flags. *)
Lemma fold_idle_text p c s :
  idle p → c ≠ LF → c ≠ chr 239 →
  fold_bytes step_byte p (c :: s) =
    fold_bytes step_line (pending (max_event_bytes_ p) [] [] (last_event_id_ p) None) (c :: s).
Proof.
  intros Hi Hlf Hbom. rewrite (idle_pending p) at 1 by done. destruct (idle_wf _ Hi) as [[Hm _] Hst _ _].
  destruct (at_stream_start_ p) eqn:Hs.
  - destruct (Hst eq_refl) as (_ & _ & ->).
    etransitivity.
    { exact (fold_step_byte_start (mk [] [] [] (last_event_id_ p) None true false (max_event_bytes_ p))
               (c :: s) eq_refl eq_refl Hm). }
    rewrite (bool_decide_eq_false_2 (c :: s = _)), andb_false_r by (unfold utf8_bom; simpl; congruence).
    by rewrite (bool_decide_eq_false_2 (take 3 (c :: s) = _)) by (unfold utf8_bom; simpl; congruence).
  - rewrite fold_step_byte_line by done. destruct (skip_leading_lf_ p); [|done].
    apply (fold_step_skip (pending (max_event_bytes_ p) [] [] (last_event_id_ p) None)); naive_solver.
Qed.
Lemma fold_idle_event p e :
  idle p →
  fold_bytes step_byte p (format_sse_event e) =
    fold_bytes step_line (pending (max_event_bytes_ p) [] [] (last_event_id_ p) None) (format_sse_event e).
Proof. intros Hi. destruct (format_head e) as (c & s & -> & Hlf & Hbom). by apply fold_idle_text. Qed.
(** A parser that has just read a blank line. *)
Lemma pending_idle m i : (0 ≤ m < size_max)%Z → idle (pending m [] [] i None).
Proof.
  intros Hm. split; try done. split; simpl; [done|done| |rewrite zlen_nil; lia].
  intros _. rewrite zlen_nil. split_and!; [constructor|lia|done].
Qed.

(** One formatted event, from a parser between two events to the next. *)
Lemma fold_formatted p e :
  idle p → (∀ n, SseEvent.retry e = Some n → n < 2 ^ 64)%N →
  (zlen (format_sse_event e) ≤ max_event_bytes_ p)%Z →
  ∃ p', fold_bytes step_byte p (format_sse_event e) = Ret (p', [received (last_event_id_ p) e]) ∧ idle p' ∧
        last_event_id_ p' = received_id (last_event_id_ p) (SseEvent.id e) ∧ max_event_bytes_ p' = max_event_bytes_ p.
Proof.
  intros Hi Hr Hlen. pose proof (idle_wf _ Hi) as [Hm _ _ _]. eexists. split_and!.
  - rewrite fold_idle_event by done. by apply fold_event_lines.
  - by apply pending_idle.
  - done.
  - done.
Qed.
(** A formatted comment gives no event and changes nothing. *)
Lemma fold_comment p c :
  idle p → (zlen (format_sse_comment c) ≤ max_event_bytes_ p)%Z →
  ∃ p', fold_bytes step_byte p (format_sse_comment c) = Ret (p', []) ∧ idle p' ∧
        last_event_id_ p' = last_event_id_ p ∧ max_event_bytes_ p' = max_event_bytes_ p.
Proof.
  intros Hi Hlen. pose proof (idle_wf _ Hi) as [Hm _ _ _].
  exists (pending (max_event_bytes_ p) [] [] (last_event_id_ p) None). split_and!; [|by apply pending_idle|done|done].
  change (format_sse_comment c) with (":"%char :: SP :: single_line c ++ [LF; LF]). rewrite fold_idle_text by done.
  change (":"%char :: SP :: single_line c ++ [LF; LF]) with ((":"%char :: SP :: single_line c) ++ LF :: [LF]).
  rewrite (fold_step_eol (pending (max_event_bytes_ p) [] [] (last_event_id_ p) None)); [|by repeat constructor; auto with khttpd|done|done|simpl; lia].
  rewrite bool_decide_eq_false_2; [done|]. unfold format_sse_comment in Hlen. rewrite !zlen_app in Hlen. simpl.
  change (zlen (str ": ")) with 2%Z in Hlen. change (zlen [LF; LF]) with 2%Z in Hlen. rewrite !zlen_cons. lia.
Qed.
(** A sequence of events: each is read with the identifier left by the ones before. *)
Fixpoint received_all (last : bytes) (es : list SseEvent) : list SseEvent :=
  match es with
  | [] => []
  | e :: es => received last e :: received_all (received_id last (SseEvent.id e)) es
  end.
Lemma fold_formatted_all p es :
  idle p → Forall (λ e, (∀ n, SseEvent.retry e = Some n → n < 2 ^ 64)%N ∧ (zlen (format_sse_event e) ≤ max_event_bytes_ p)%Z) es →
  ∃ p', fold_bytes step_byte p (concat (format_sse_event <$> es)) = Ret (p', received_all (last_event_id_ p) es) ∧ idle p'.
Proof.
  intros Hi Hes. revert p Hi Hes. induction es as [|e es IH]; intros p Hi Hes; [by exists p|].
  apply Forall_cons in Hes as [[Hr Hlen] Hes].
  destruct (fold_formatted p e Hi Hr Hlen) as (p1 & H1 & Hi1 & Hid & Hmx).
  destruct (IH p1 Hi1) as (p2 & H2 & Hi2); [by rewrite Hmx|].
  exists p2. split; [|done]. rewrite fmap_cons. cbn [concat received_all]. rewrite fold_bytes_app, H1. cbn [mbind outcome_bind].
  by rewrite H2, Hid.
Qed.

(** C5: chunk independence. However the transport splits the byte stream,
    feeding the pieces one after the other yields the same events, the same
    exception and the same final parser state as feeding it in one call. *)
Theorem feed_all_concat p chunks :
  wf p → feed_all p chunks = feed p (concat chunks).
Proof. intros Hwf. by rewrite feed_all_fold, feed_fold. Qed.
Definition sample_parser : t := init 64.
Theorem feed_all_concat_witness :
  wf sample_parser ∧
  feed_all sample_parser [str "data: a"; [CR]; [LF]; [LF; "x"%char]] =
    feed sample_parser (concat [str "data: a"; [CR]; [LF]; [LF; "x"%char]]).
Proof. assert (wf sample_parser) by (by apply wf_init). split; [done|by apply feed_all_concat]. Defined.

(** The buffered loop of [feed] is the byte-at-a-time reference machine. *)
Theorem feed_is_fold p input : wf p → feed p input = fold_bytes step_byte p input.
Proof. apply feed_fold. Qed.
Theorem feed_is_fold_witness :
  wf sample_parser ∧ feed sample_parser (str "id: 7") = fold_bytes step_byte sample_parser (str "id: 7").
Proof. assert (wf sample_parser) by (by apply wf_init). split; [done|by apply feed_is_fold]. Defined.

Lemma step_line_fuel p c : step_line p c ≠ Throw out_of_fuel.
Proof.
  assert (∀ l, process_line p l ≠ Throw out_of_fuel) as Hp.
  { intros [|a l]; simpl; [done|]. repeat (case_bool_decide || case_match; simpl; try done). }
  unfold step_line. destruct (_ && _); [done|]. destruct (is_eol c).
  - specialize (Hp (buffer_ p)). by destruct (process_line p (buffer_ p)) as [[]|].
  - by case_bool_decide.
Qed.
Lemma fold_line_fuel p s : fold_bytes step_line p s ≠ Throw out_of_fuel.
Proof.
  revert p. induction s as [|c s IH]; intros p; simpl; [done|].
  pose proof (step_line_fuel p c). destruct (step_line p c) as [[p1 e1]|]; simpl; [|congruence].
  specialize (IH p1). destruct (fold_bytes step_line p1 s) as [[]|]; simpl; congruence.
Qed.
Lemma fold_byte_fuel p s : fold_bytes step_byte p s ≠ Throw out_of_fuel.
Proof.
  assert (∀ p c, step_byte p c ≠ Throw out_of_fuel) as Hs.
  { intros q c. unfold step_byte. destruct (at_stream_start_ q); [|apply step_line_fuel].
    destruct (_ && _); [done|]. destruct (bool_decide (_ = utf8_bom)); [done|apply fold_line_fuel]. }
  revert p. induction s as [|c s IH]; intros p; simpl; [done|].
  specialize (Hs p c). destruct (step_byte p c) as [[p1 e1]|]; simpl; [|congruence].
  specialize (IH p1). destruct (fold_bytes step_byte p1 s) as [[]|]; simpl; congruence.
Qed.

(** [feed] terminates on every input with the fuel of its loops, and a
    successful call leaves a well-formed parser that holds at most
    [max_event_bytes_] bytes of an unfinished line (or two bytes of a byte-order
    mark) and at most [max_event_bytes_] bytes of pending data. *)
Theorem feed_bounded p input :
  wf p →
  feed p input ≠ Throw out_of_fuel ∧
  ∀ p' events, feed p input = Ret (p', events) →
    wf p' ∧ max_event_bytes_ p' = max_event_bytes_ p ∧
    (zlen (buffer_ p') ≤ Z.max (max_event_bytes_ p) 2)%Z ∧ (zlen (data_ p') ≤ max_event_bytes_ p)%Z.
Proof.
  intros Hwf. rewrite feed_fold by done. split; [apply fold_byte_fuel|]. intros p' ev Hf.
  pose proof (fold_byte_max _ _ _ _ Hf) as Hm. pose proof (wf_fold_byte _ _ _ _ Hwf Hf) as Hwf'.
  split_and!; [done|done| |by destruct Hwf' as [_ _ _ Hd]; rewrite <-Hm].
  destruct Hwf' as [_ Hs Hl _]. destruct (at_stream_start_ p').
  - destruct (Hs eq_refl). unfold zlen. lia.
  - destruct (Hl eq_refl) as (_ & ? & _). lia.
Qed.
Theorem feed_bounded_witness :
  wf sample_parser ∧ feed sample_parser (str "data: abc") ≠ Throw out_of_fuel.
Proof.
  assert (wf sample_parser) by (by apply wf_init). split; [done|].
  by apply (proj1 (feed_bounded sample_parser (str "data: abc") ltac:(done))).
Defined.

(** Round trip. Whatever the pieces in which the bytes of a formatted event
    arrive, a parser between two events reports exactly that event (in its
    normal form [received]), is again between two events, and remembers its
    identifier for the events that carry none. *)
Theorem format_feed_roundtrip p e chunks :
  idle p →
  (∀ n, SseEvent.retry e = Some n → n < 2 ^ 64)%N →
  (zlen (format_sse_event e) ≤ max_event_bytes_ p)%Z →
  concat chunks = format_sse_event e →
  ∃ p', feed_all p chunks = Ret (p', [received (last_event_id_ p) e]) ∧ idle p' ∧
        last_event_id_ p' = received_id (last_event_id_ p) (SseEvent.id e).
Proof.
  intros Hi Hr Hlen Hc. destruct (fold_formatted p e Hi Hr Hlen) as (p' & Hf & ? & ? & _).
  exists p'. rewrite feed_all_fold, Hc by auto using idle_wf. by split_and!.
Qed.
Definition sample_event : SseEvent := SseEvent.mk (str "tick") (str "a" ++ [CR; LF] ++ str "b") (str "9") (Some 5%N).
Theorem format_feed_roundtrip_witness :
  idle sample_parser ∧
  ∃ p', feed_all sample_parser [take 20 (format_sse_event sample_event); drop 20 (format_sse_event sample_event)]
        = Ret (p', [SseEvent.mk (str "tick") (str "a" ++ [LF] ++ str "b") (str "9") (Some 5%N)]).
Proof.
  assert (idle sample_parser) as Hi by (by split; [apply wf_init|..]). split; [done|].
  destruct (format_feed_roundtrip sample_parser sample_event
    [take 20 (format_sse_event sample_event); drop 20 (format_sse_event sample_event)]) as (p' & H & _).
  - done.
  - intros n [= <-]. done.
  - vm_compute. discriminate.
  - reflexivity.
  - exists p'. rewrite H. reflexivity.
Defined.
