(* ===== verification/PathPattern.v ===== *)
(** * Route patterns and the regular expressions they compile to

    [HttpRouter::parse_path_pattern] and [WebsocketRouter::parse_path_pattern]
    turn a route pattern into a regular expression *string*; [std::regex]
    compiles that string, and [std::regex_match] matches request paths against
    it with ECMAScript backtracking. The fragment of the regular-expression
    language the sources produce is modelled here: anchors, literal and escaped
    characters, the one-segment group and the greedy any-character group. *)
From S2P Require Import Prelude Text.

(** ** Parameter tokens ([std::sregex_iterator] over the parameter regex) *)
Definition ident_start (c : ascii) : bool := isalpha c || bool_decide (c = "_"%char).
Definition ident_char (c : ascii) : bool := isalnum c || bool_decide (c = "_"%char).
Fixpoint take_while (p : ascii → bool) (s : bytes) : bytes :=
  match s with [] => [] | c :: s => if p c then c :: take_while p s else [] end.

(** [:name] *)
Definition match_colon_param (s : bytes) : option (bytes * bytes) :=
  match s with
  | c0 :: c :: t =>
      if bool_decide (c0 = ":"%char) && ident_start c
      then Some (c :: take_while ident_char t, drop_while ident_char t) else None
  | _ => None
  end.
(** [{name}] *)
Definition match_brace_param (s : bytes) : option (bytes * bytes) :=
  match s with
  | c0 :: c :: t =>
      if bool_decide (c0 = "{"%char) && ident_start c
      then match drop_while ident_char t with
           | c1 :: r => if bool_decide (c1 = "}"%char)
                        then Some (c :: take_while ident_char t, r) else None
           | [] => None
           end
      else None
  | _ => None
  end.
Definition match_http_param (s : bytes) : option (bytes * bytes) :=
  match match_colon_param s with Some r => Some r | None => match_brace_param s end.

(** The successive leftmost matches: for each one the literal text before it
    ([prefix()]) and the parameter name, then the text after the last match. *)
Fixpoint scan_params (mp : bytes → option (bytes * bytes)) (fuel : nat) (s : bytes) :
    list (bytes * bytes) * bytes :=
  match fuel, s with
  | O, _ | _, [] => ([], s)
  | S fuel, c :: t =>
      match mp s with
      | Some (name, rest) =>
          let '(l, tail) := scan_params mp fuel rest in (([], name) :: l, tail)
      | None =>
          match scan_params mp fuel t with
          | ((p, name) :: l, tail) => ((c :: p, name) :: l, tail)
          | ([], tail) => ([], c :: tail)
          end
      end
  end.
Definition params_of (mp : bytes → option (bytes * bytes)) (s : bytes) :=
  scan_params mp (length s) s.

(** ** Building the expression *)
Definition regex_special (c : ascii) : bool :=
  bool_decide (c ∈ str "\.+*?|()[]{}^$").
(** [std::regex_replace] putting a backslash before every special character. *)
Definition escape_literal (s : bytes) : bytes :=
  s ≫= λ c, if regex_special c then ["\"%char; c] else [c].

(** The counting loop over the '/'-separated segments of a literal part. *)
Fixpoint count_segments_from (fuel : nat) (s : bytes) (start : nat) (count : Z) : Z :=
  match fuel with
  | O => count
  | S fuel =>
      match find_char "/"%char s start with
      | Some found =>
          count_segments_from fuel s (found + 1)
            (if bool_decide (start < found) then (count + 1)%Z else count)
      | None => if bool_decide (start < length s) then (count + 1)%Z else count
      end
  end.
Definition count_segments (s : bytes) : Z :=
  if bool_decide (s = []) then 0%Z else count_segments_from (S (length s)) s 0 0.
Definition count_slashes (s : bytes) : Z := Z.of_nat (length (filter (λ c, c = "/"%char) s)).

Definition seg_group : bytes := str "([^/]+)".
Definition any_group : bytes := str "(.*)".

(** The body shared by both [parse_path_pattern]s: every parameter but the last
    becomes a one-segment group, the last one a greedy group. *)
Fixpoint pattern_body (l : list (bytes * bytes)) (tail : bytes) : bytes :=
  match l with
  | [] => escape_literal tail
  | (literal, _) :: l =>
      escape_literal literal ++ (if bool_decide (l = []) then any_group else seg_group)
        ++ pattern_body l tail
  end.
Definition pattern_regex (l : list (bytes * bytes)) (tail : bytes) : bytes :=
  str "^" ++ pattern_body l tail ++ str "$".

(** ** [std::regex]: compilation of the fragment *)
Inductive atom := RLit (c : ascii) | RSeg | RAny.
Abbreviation regex := (list atom).

Fixpoint compile_atoms (fuel : nat) (s : bytes) : option regex :=
  match fuel with
  | O => None
  | S fuel =>
      match s with
      | [] => None
      | c :: t =>
          if bool_decide (s = str "$") then Some []
          else if starts_with seg_group s then cons RSeg <$> compile_atoms fuel (drop 7 s)
          else if starts_with any_group s then cons RAny <$> compile_atoms fuel (drop 4 s)
          else if bool_decide (c = "\"%char) then
            match t with e :: t => cons (RLit e) <$> compile_atoms fuel t | [] => None end
          else if regex_special c then None
          else cons (RLit c) <$> compile_atoms fuel t
      end
  end.
(** [None] is a [std::regex_error] (or an expression outside the fragment). *)
Definition compile_regex (s : bytes) : option regex :=
  match s with
  | c :: t => if bool_decide (c = "^"%char) then compile_atoms (length s) t else None
  | [] => None
  end.

(** ** [std::regex_match] *)
Definition any_char (c : ascii) : bool := negb (is_eol c).
Definition not_slash (c : ascii) : bool := negb (bool_decide (c = "/"%char)).

(** Greedy repetition: the longest run first, then one character less. *)
Fixpoint try_down {A} (f : nat → option A) (min n : nat) : option A :=
  if bool_decide (n < min) then None
  else match f n with
       | Some r => Some r
       | None => match n with O => None | S n => try_down f min n end
       end.
Fixpoint regex_match (r : regex) (s : bytes) : option (list bytes) :=
  match r with
  | [] => if bool_decide (s = []) then Some [] else None
  | RLit c :: r => match s with x :: s => if bool_decide (x = c) then regex_match r s else None | [] => None end
  | RSeg :: r => try_down (λ n, cons (take n s) <$> regex_match r (drop n s)) 1 (length (take_while not_slash s))
  | RAny :: r => try_down (λ n, cons (take n s) <$> regex_match r (drop n s)) 0 (length (take_while any_char s))
  end.

(** ** The two pattern parsers *)
Record parsed_pattern := {
  pp_regex_str : bytes;
  pp_param_names : list bytes;
  pp_literal_segments : Z;
  pp_dynamic_segments : Z;
}.
Definition sum_counts (count : bytes → Z) (l : list (bytes * bytes)) (tail : bytes) : Z :=
  (foldr Z.add 0 ((count ∘ fst) <$> l) + count tail)%Z.

Definition http_parse_path_pattern (path_pattern : bytes) : parsed_pattern :=
  let '(l, tail) := params_of match_http_param path_pattern in
  {| pp_regex_str := pattern_regex l tail;
     pp_param_names := l.*2;
     pp_literal_segments := sum_counts count_segments l tail;
     pp_dynamic_segments := zlen l |}.

Definition ws_parse_path_pattern (pattern : bytes) : parsed_pattern :=
  let '(l, tail) := params_of match_colon_param pattern in
  {| pp_regex_str := pattern_regex l tail;
     pp_param_names := l.*2;
     pp_literal_segments := sum_counts count_slashes l tail;
     pp_dynamic_segments := zlen l |}.

(** [compare_specificity]: more literal segments first, then fewer parameters. *)
Definition compare_specificity (a b : Z * Z) : bool :=
  if bool_decide (a.1 = b.1) then bool_decide (a.2 < b.2)%Z else bool_decide (b.1 < a.1)%Z.

(** ** The interface routers rely on *)
Class PathCompiler := {
  compile_path : bytes → parsed_pattern;
  compile_path_regex (p : bytes) :
    ∃ r, compile_regex (pp_regex_str (compile_path p)) = Some r ∧
         ∀ path caps, regex_match r path = Some caps → length caps = length (pp_param_names (compile_path p));
}.

(** ** Reference semantics of a pattern

    A path matches when it is the literals interleaved with parameter values:
    every value but the last is a non-empty string without '/', the last one is
    any string without line terminators. *)
Inductive pattern_matches : list (bytes * bytes) → bytes → bytes → list bytes → Prop :=
| pm_tail tail : pattern_matches [] tail tail []
| pm_last literal name tail v rest :
    Forall (λ c, any_char c = true) v →
    pattern_matches [] tail rest [] →
    pattern_matches [(literal, name)] tail (literal ++ v ++ rest) [v]
| pm_seg literal name l tail v rest vs :
    l ≠ [] → v ≠ [] → Forall (λ c, not_slash c = true) v →
    pattern_matches l tail rest vs →
    pattern_matches ((literal, name) :: l) tail (literal ++ v ++ rest) (v :: vs).

Inductive denotes : regex → bytes → list bytes → Prop :=
| den_nil : denotes [] [] []
| den_lit c r s caps : denotes r s caps → denotes (RLit c :: r) (c :: s) caps
| den_seg r v s caps : v ≠ [] → Forall (λ c, not_slash c = true) v →
    denotes r s caps → denotes (RSeg :: r) (v ++ s) (v :: caps)
| den_any r v s caps : Forall (λ c, any_char c = true) v →
    denotes r s caps → denotes (RAny :: r) (v ++ s) (v :: caps).

(** Left-to-right comparison of capture lengths: ECMAScript's greedy choice. *)
Inductive longer_eq : list bytes → list bytes → Prop :=
| le_nil : longer_eq [] []
| le_longer v w vs ws : length w < length v → longer_eq (v :: vs) (w :: ws)
| le_same v vs ws : longer_eq vs ws → longer_eq (v :: vs) (v :: ws).
