(* ===== verification/PathPatternProofs.v ===== *)
(** * Route patterns: the compiled expression is the pattern

    [compile_pattern] shows that escaping is right (the expression string always
    compiles, to the intended atoms), [regex_match_spec] that the backtracking
    matcher decides the declarative semantics and picks the greedy captures. *)
From S2P Require Import Prelude Text PathPattern.

(** The atoms a pattern is meant to compile to. *)
Fixpoint atoms_of (l : list (bytes * bytes)) (tail : bytes) : regex :=
  match l with
  | [] => RLit <$> tail
  | (literal, _) :: l =>
      (RLit <$> literal) ++ (if bool_decide (l = []) then RAny else RSeg) :: atoms_of l tail
  end.

(** ** Compilation *)
Lemma regex_special_heads c :
  regex_special c = false → c ≠ "$"%char ∧ c ≠ "("%char ∧ c ≠ "\"%char.
Proof. intros H. split_and!; intros ->; vm_compute in H; discriminate. Qed.

Lemma escape_literal_cons c l :
  escape_literal (c :: l) = (if regex_special c then ["\"%char; c] else [c]) ++ escape_literal l.
Proof. reflexivity. Qed.

(** How the compiler reads the head of an expression. *)
Lemma compile_atoms_escape fuel e t :
  compile_atoms (S fuel) ("\"%char :: e :: t) = cons (RLit e) <$> compile_atoms fuel t.
Proof. reflexivity. Qed.
Lemma compile_atoms_plain fuel c t :
  regex_special c = false →
  compile_atoms (S fuel) (c :: t) = cons (RLit c) <$> compile_atoms fuel t.
Proof.
  intros Hc. destruct (regex_special_heads c Hc) as (H1 & H2 & H3). cbn [compile_atoms].
  rewrite (bool_decide_eq_false_2 (c :: t = _)) by (unfold str; simpl; congruence).
  assert (∀ p, starts_with ("("%char :: p) (c :: t) = false) as Hs.
  { intros p. simpl. by rewrite bool_decide_eq_false_2 by congruence. }
  unfold seg_group, any_group, str. cbn [String.list_ascii_of_string]. rewrite !Hs.
  rewrite bool_decide_eq_false_2 by done. by rewrite Hc.
Qed.
Lemma compile_atoms_seg fuel t :
  compile_atoms (S fuel) (seg_group ++ t) = cons RSeg <$> compile_atoms fuel t.
Proof. cbn [compile_atoms]. unfold seg_group, str. simpl. by rewrite drop_0. Qed.
Lemma compile_atoms_any fuel t :
  compile_atoms (S fuel) (any_group ++ t) = cons RAny <$> compile_atoms fuel t.
Proof. unfold any_group, str. simpl. by rewrite drop_0. Qed.

Lemma compile_escaped lit k r :
  (∀ fuel, length k < fuel → compile_atoms fuel k = Some r) →
  ∀ fuel, length (escape_literal lit ++ k) < fuel →
    compile_atoms fuel (escape_literal lit ++ k) = Some ((RLit <$> lit) ++ r).
Proof.
  intros Hk. induction lit as [|c lit IH]; intros fuel Hf; [by apply Hk|].
  rewrite escape_literal_cons in *. destruct (regex_special c) eqn:Hc; cbn [app] in *;
    (destruct fuel as [|fuel]; [simpl in Hf; lia|]); simpl in Hf.
  - rewrite compile_atoms_escape, IH by lia. done.
  - rewrite compile_atoms_plain, IH by (done || lia). done.
Qed.

Lemma compile_body l tail fuel :
  length (pattern_body l tail ++ str "$") < fuel →
  compile_atoms fuel (pattern_body l tail ++ str "$") = Some (atoms_of l tail).
Proof.
  revert fuel. induction l as [|[lit name] l IH]; cbn [pattern_body atoms_of].
  - rewrite <-(right_id_L [] (++) (RLit <$> tail)). apply compile_escaped.
    intros [|fuel]; [simpl; lia|done].
  - rewrite <-!(assoc_L (++)). apply compile_escaped. intros [|fuel] Hf; [simpl in Hf; lia|].
    case_bool_decide; rewrite length_app in Hf; simpl in Hf.
    + rewrite compile_atoms_any, IH by lia. done.
    + rewrite compile_atoms_seg, IH by lia. done.
Qed.
Lemma compile_pattern l tail : compile_regex (pattern_regex l tail) = Some (atoms_of l tail).
Proof.
  change (pattern_regex l tail) with ("^"%char :: (pattern_body l tail ++ str "$")).
  unfold compile_regex. rewrite bool_decide_eq_true_2 by done. apply compile_body. simpl. lia.
Qed.

(** ** Matching *)
Lemma take_while_spec p s : ∃ t, s = take_while p s ++ t ∧ Forall (λ c, p c = true) (take_while p s) ∧
  (∀ c u, t = c :: u → p c = false).
Proof.
  induction s as [|c s IH]; simpl; [by exists []|]. destruct (p c) eqn:Hc; simpl.
  - destruct IH as (t & Ht & Hf & Hn). exists t. split_and!; [by rewrite <-Ht|by constructor|done].
  - exists (c :: s). split_and!; [done|done|]. by intros ? ? [= -> ->].
Qed.
Lemma take_while_longest p v s :
  Forall (λ c, p c = true) v → length v ≤ length (take_while p (v ++ s)).
Proof. induction 1 as [|c v Hc Hv IH]; simpl; [lia|]. rewrite Hc. simpl. lia. Qed.
Lemma take_within_while p s n :
  n ≤ length (take_while p s) → Forall (λ c, p c = true) (take n s) ∧ length (take n s) = n.
Proof.
  intros Hn. destruct (take_while_spec p s) as (t & Ht & Hf & _). rewrite Ht.
  rewrite take_app_le by done. split; [by apply Forall_take|]. rewrite length_take. lia.
Qed.

Lemma try_down_Some {A} (f : nat → option A) min n r :
  try_down f min n = Some r →
  ∃ k, min ≤ k ≤ n ∧ f k = Some r ∧ ∀ j, k < j ≤ n → f j = None.
Proof.
  induction n as [|n IH]; simpl; case_bool_decide; try done.
  - destruct (f 0) eqn:Hf; [|done]. intros [= <-]. exists 0. split_and!; [lia|lia|done|lia].
  - destruct (f (S n)) eqn:Hf.
    + intros [= <-]. exists (S n). split_and!; [lia|lia|done|lia].
    + intros (k & Hk & Hr & Hj)%IH. exists k. split_and!; [lia|lia|done|].
      intros j Hj'. destruct (decide (j = S n)) as [->|]; [done|]. apply Hj. lia.
Qed.
Lemma try_down_None {A} (f : nat → option A) min n :
  try_down f min n = None → ∀ k, min ≤ k ≤ n → f k = None.
Proof.
  induction n as [|n IH]; simpl; case_bool_decide; intros H0 k Hk; try lia.
  - replace k with 0 by lia. by destruct (f 0).
  - destruct (f (S n)) eqn:Hf; [done|]. destruct (decide (k = S n)) as [->|]; [done|]. apply IH; [done|lia].
Qed.

Lemma regex_match_sound r : ∀ s caps, regex_match r s = Some caps → denotes r s caps.
Proof.
  induction r as [|[c| |] r IH]; intros s caps; simpl.
  - case_bool_decide; [|done]. intros [= <-]. subst. constructor.
  - destruct s as [|x s]; [done|]. case_bool_decide; [|done]. subst. intros. constructor. auto.
  - intros (k & Hk & Hr & _)%try_down_Some. destruct (regex_match r (drop k s)) as [cs|] eqn:Hm; simplify_eq/=.
    destruct (take_within_while not_slash s k) as [Hf Hl]; [lia|].
    rewrite <-(take_drop k s) at 1. constructor; [|done|by apply IH]. intros Hn. rewrite Hn in Hl. simpl in Hl. lia.
  - intros (k & Hk & Hr & _)%try_down_Some. destruct (regex_match r (drop k s)) as [cs|] eqn:Hm; simplify_eq/=.
    destruct (take_within_while any_char s k) as [Hf Hl]; [lia|].
    rewrite <-(take_drop k s) at 1. constructor; [done|by apply IH].
Qed.
Lemma regex_match_complete r s caps :
  denotes r s caps → ∃ greedy, regex_match r s = Some greedy ∧ longer_eq greedy caps.
Proof.
  assert (∀ r p m v s g caps', m ≤ length v → Forall (λ c, p c = true) v →
    regex_match r s = Some g → longer_eq g caps' →
    ∃ greedy, try_down (λ n, cons (take n (v ++ s)) <$> regex_match r (drop n (v ++ s))) m
        (length (take_while p (v ++ s))) = Some greedy ∧ longer_eq greedy (v :: caps')) as Hrep.
  { intros r' p m v s' g caps' Hm Hv Hg Hle. pose proof (take_while_longest p v s' Hv) as Hlen.
    destruct (try_down _ m _) as [gr|] eqn:Ht.
    - apply try_down_Some in Ht as (k & Hk & Hr & Hj). exists gr. split; [done|].
      destruct (decide (length v < k)) as [Hlt|Hge].
      + destruct (regex_match r' (drop k _)) as [cs|]; [|done]. injection Hr as <-. apply le_longer.
        destruct (take_within_while p (v ++ s') k) as [_ ->]; [lia|done].
      + assert (k = length v) as ->.
        { destruct (decide (k = length v)); [done|]. specialize (Hj (length v)).
          rewrite drop_app_length, Hg in Hj. discriminate Hj. lia. }
        rewrite take_app_length, drop_app_length, Hg in Hr. simplify_eq/=. by apply le_same.
    - eapply try_down_None with (k := length v) in Ht; [|lia].
      rewrite drop_app_length, Hg in Ht. discriminate. }
  induction 1 as [|c r s caps H (g & Hg & Hle)|r v s caps Hne Hv H (g & Hg & Hle)
    |r v s caps Hv H (g & Hg & Hle)]; cbn [regex_match].
  - exists []. split; [done|constructor].
  - exists g. by rewrite bool_decide_eq_true_2.
  - apply (Hrep r not_slash 1 v s g); try done. destruct v; simpl; [done|lia].
  - apply (Hrep r any_char 0 v s g); try done. lia.
Qed.

(** ** The declarative semantics of a pattern *)
Lemma denotes_lits lit r s caps :
  denotes ((RLit <$> lit) ++ r) s caps ↔ ∃ t, s = lit ++ t ∧ denotes r t caps.
Proof.
  revert s. induction lit as [|c lit IH]; intros s; cbn.
  - split; [eauto|by intros (t & -> & ?)].
  - split.
    + inversion 1 as [|? ? ? ? Hd| |]; subst. apply IH in Hd as (t & -> & Ht). by exists t.
    + intros (t & -> & Ht). constructor. apply IH. eauto.
Qed.
Lemma denotes_atoms l tail s caps :
  denotes (atoms_of l tail) s caps ↔ pattern_matches l tail s caps.
Proof.
  revert s caps. induction l as [|[lit name] l IH]; intros s caps; cbn [atoms_of].
  - rewrite <-(right_id_L [] (++) (RLit <$> tail)), denotes_lits. split.
    + intros (t & -> & Ht). inversion Ht; subst. rewrite (right_id_L [] (++)). constructor.
    + inversion 1; subst. exists []. rewrite (right_id_L [] (++)). split; [done|constructor].
  - rewrite denotes_lits. split.
    + intros (t & -> & Ht). case_bool_decide as Hl; inversion Ht as [| |? ? ? ? ? ? Hd|? ? ? ? ? Hd]; subst.
      * apply IH in Hd. inversion Hd; subst. constructor; [done|constructor].
      * constructor; [done..|]. by apply IH.
    + inversion 1 as [|? ? ? v rest Hv Hr|? ? ? ? v rest vs Hne Hv0 Hv Hr]; subst;
        eexists; (split; [done|]).
      * rewrite bool_decide_eq_true_2 by done. constructor; [done|]. by apply IH.
      * rewrite bool_decide_eq_false_2 by done. constructor; [done..|]. by apply IH.
Qed.

(** The matcher decides the semantics and returns its greedy captures. *)
Lemma regex_match_spec l tail path :
  match regex_match (atoms_of l tail) path with
  | Some caps => pattern_matches l tail path caps ∧
      ∀ caps', pattern_matches l tail path caps' → longer_eq caps caps'
  | None => ∀ caps, ~ pattern_matches l tail path caps
  end.
Proof.
  destruct (regex_match _ _) as [caps|] eqn:Hm.
  - split; [by apply denotes_atoms, regex_match_sound|].
    intros caps' (g & Hg & Hle)%denotes_atoms%regex_match_complete. congruence.
  - intros caps (g & Hg & _)%denotes_atoms%regex_match_complete. congruence.
Qed.
Lemma pattern_matches_length l tail path caps :
  pattern_matches l tail path caps → length caps = length l.
Proof. induction 1; simpl; congruence. Qed.

(** ** Scanning is lossless *)
Definition colon_token (name : bytes) : bytes := ":"%char :: name.
Definition brace_token (name : bytes) : bytes := "{"%char :: name ++ str "}".
Definition is_ident (name : bytes) : Prop :=
  match name with [] => False | c :: t => ident_start c = true ∧ Forall (λ c, ident_char c = true) t end.

(** [tok] relates a token's text to the name it captures. The literal text
    before a token has no match of its own: the scan takes leftmost tokens. *)
Definition token_of (mp : bytes → option (bytes * bytes)) (tok : bytes → bytes → Prop) : Prop :=
  ∀ s name rest, mp s = Some (name, rest) → ∃ t, s = t ++ rest ∧ t ≠ [] ∧ tok t name.
Inductive scanned (mp : bytes → option (bytes * bytes)) (tok : bytes → bytes → Prop) :
    list (bytes * bytes) → bytes → bytes → Prop :=
| scanned_tail tail : (∀ n, n < length tail → mp (drop n tail) = None) → scanned mp tok [] tail tail
| scanned_tok literal t name l tail s : tok t name → scanned mp tok l tail s →
    (∀ n, n < length literal → mp (drop n (literal ++ t ++ s)) = None) →
    scanned mp tok ((literal, name) :: l) tail (literal ++ t ++ s).

Lemma take_drop_while p s : s = take_while p s ++ drop_while p s.
Proof. induction s as [|c s IH]; simpl; [done|]. destruct (p c); simpl; congruence. Qed.
Lemma take_while_Forall p s : Forall (λ c, p c = true) (take_while p s).
Proof. induction s as [|c s IH]; simpl; [done|]. destruct (p c) eqn:?; by constructor. Qed.
Lemma colon_token_of : token_of match_colon_param (λ t name, t = colon_token name ∧ is_ident name).
Proof.
  intros [|c0 [|c s]] name rest; simpl; try done. case_bool_decide; [|done]. simpl.
  destruct (ident_start c) eqn:Hc; [|done]. intros [= <- <-]. subst.
  exists (colon_token (c :: take_while ident_char s)). unfold colon_token. simpl.
  rewrite <-take_drop_while. split_and!; try done; apply take_while_Forall.
Qed.
Lemma brace_token_of : token_of match_brace_param (λ t name, t = brace_token name ∧ is_ident name).
Proof.
  intros [|c0 [|c s]] name rest; simpl; try done. case_bool_decide; [|done]. simpl.
  destruct (ident_start c) eqn:Hc; [|done].
  destruct (drop_while ident_char s) as [|c1 r] eqn:Hd; [done|]. case_bool_decide; [|done].
  intros [= <- <-]. subst. exists (brace_token (c :: take_while ident_char s)).
  unfold brace_token, str. simpl. rewrite <-(assoc_L (++)). cbn [app].
  rewrite <-Hd, <-take_drop_while. split_and!; try done; apply take_while_Forall.
Qed.
Lemma http_token_of : token_of match_http_param
  (λ t name, (t = colon_token name ∨ t = brace_token name) ∧ is_ident name).
Proof.
  intros s name rest. unfold match_http_param. destruct (match_colon_param s) as [[n r]|] eqn:Hm.
  - intros [= <- <-]. destruct (colon_token_of _ _ _ Hm) as (t & ? & ? & ? & ?). eauto 8.
  - intros Hb. destruct (brace_token_of _ _ _ Hb) as (t & ? & ? & ? & ?). eauto 8.
Qed.

Lemma scan_params_scanned mp tok fuel s :
  token_of mp tok → length s ≤ fuel →
  let '(l, tail) := scan_params mp fuel s in scanned mp tok l tail s.
Proof.
  intros Htok. revert s. induction fuel as [|fuel IH]; intros [|c s] Hf; cbn [scan_params];
    simpl in Hf; try (constructor; simpl; lia).
  destruct (mp (c :: s)) as [[name rest]|] eqn:Hm.
  - destruct (Htok _ _ _ Hm) as (t & Ht & Hne & Htk).
    assert (length rest ≤ fuel) as Hr.
    { apply (f_equal length) in Ht. rewrite length_app in Ht. destruct t; [done|]. simpl in *. lia. }
    specialize (IH rest Hr). destruct (scan_params mp fuel rest) as [l tail]. rewrite Ht.
    apply (scanned_tok mp tok []); [done..|simpl; lia].
  - specialize (IH s ltac:(lia)). destruct (scan_params mp fuel s) as [[|[lit name] l] tail];
      inversion IH as [? Hn|? t ? ? ? s' Ht Hs Hn]; subst.
    + constructor. intros [|n] Hlt; [done|]. apply Hn. simpl in Hlt. lia.
    + apply (scanned_tok mp tok (c :: lit)); [done..|].
      intros [|n] Hlt; [done|]. apply Hn. simpl in Hlt. lia.
Qed.
Lemma params_of_scanned mp tok s :
  token_of mp tok → let '(l, tail) := params_of mp s in scanned mp tok l tail s.
Proof. intros. by apply scan_params_scanned. Qed.

(** ** The segment counter *)
Fixpoint segment_starts (inside : bool) (s : bytes) : Z :=
  match s with
  | [] => 0
  | c :: s => if not_slash c then (if inside then 0 else 1) + segment_starts true s
              else segment_starts false s
  end%Z.
Lemma segment_starts_run s t :
  Forall (λ c, not_slash c = true) s → segment_starts true (s ++ t) = segment_starts true t.
Proof. induction 1 as [|c s Hc Hs IH]; simpl; [done|]. rewrite Hc, IH. lia. Qed.
Lemma segment_starts_word s t : s ≠ [] →
  Forall (λ c, not_slash c = true) s → segment_starts false (s ++ t) = (1 + segment_starts true t)%Z.
Proof. intros Hne. inversion 1; subst; [done|]. simpl. rewrite H0, segment_starts_run by done. lia. Qed.

Lemma count_segments_from_spec fuel s start count :
  length s < fuel + start →
  count_segments_from fuel s start count = (count + segment_starts false (drop start s))%Z.
Proof.
  revert start count. induction fuel as [|fuel IH]; intros start count Hf; cbn [count_segments_from].
  { rewrite drop_ge by lia. simpl. lia. }
  unfold find_char, find_if_from.
  destruct (find_index _ (drop start s)) as [n|] eqn:Hn; cbn [fmap option_fmap option_map].
  - pose proof (find_index_lt _ _ _ Hn) as Hlt. rewrite length_drop in Hlt.
    apply find_index_Some in Hn as (c & Hs & Hc & Hno). apply bool_decide_eq_true in Hc as ->.
    rewrite IH by lia. rewrite drop_drop in Hs.
    rewrite Hs. replace (start + n + 1) with (start + S n) by lia.
    assert (Forall (λ c, not_slash c = true) (take n (drop start s))) as Hw.
    { eapply Forall_impl; [exact Hno|]. intros c Hc. unfold not_slash. cbn in Hc. by rewrite Hc. }
    destruct (decide (n = 0)) as [->|Hn0].
    + rewrite bool_decide_eq_false_2 by lia. done.
    + rewrite bool_decide_eq_true_2 by lia. rewrite segment_starts_word; [|intros Hw0|done].
      * cbn [segment_starts]. change (not_slash "/"%char) with false. cbv iota. lia.
      * apply (f_equal length) in Hw0. rewrite length_take, length_drop in Hw0. simpl in Hw0. lia.
  - apply find_index_None in Hn.
    assert (Forall (λ c, not_slash c = true) (drop start s)) as Hw.
    { eapply Forall_impl; [exact Hn|]. intros c Hc. unfold not_slash. cbn in Hc. by rewrite Hc. }
    case_bool_decide as Hst.
    + rewrite <-(right_id_L [] (++) (drop start s)), segment_starts_word; [simpl; lia| |done].
      intros Hd. apply (f_equal length) in Hd. rewrite length_drop in Hd. simpl in Hd. lia.
    + rewrite drop_ge by lia. simpl. lia.
Qed.
Lemma count_segments_spec s : count_segments s = segment_starts false s.
Proof.
  unfold count_segments. case_bool_decide; [by subst|]. rewrite count_segments_from_spec by lia.
  by rewrite drop_0.
Qed.

(** ** The two parsers implement the routers' interface *)
Lemma compile_length (count : bytes → Z) mp p :
  let '(l, tail) := params_of mp p in
  ∃ r, compile_regex (pattern_regex l tail) = Some r ∧
    ∀ path caps, regex_match r path = Some caps → length caps = length l.*2.
Proof.
  destruct (params_of mp p) as [l tail]. exists (atoms_of l tail). split; [apply compile_pattern|].
  intros path caps Hm. pose proof (regex_match_spec l tail path) as Hs. rewrite Hm in Hs.
  rewrite length_fmap. eapply pattern_matches_length. apply Hs.
Qed.
#[export, refine] Instance http_path_compiler : PathCompiler :=
  {| compile_path := http_parse_path_pattern |}.
Proof.
  intros p. pose proof (compile_length count_segments match_http_param p) as H.
  unfold http_parse_path_pattern. by destruct (params_of match_http_param p).
Defined.
#[refine] Instance ws_path_compiler : PathCompiler := {| compile_path := ws_parse_path_pattern |}.
Proof.
  intros p. pose proof (compile_length count_slashes match_colon_param p) as H.
  unfold ws_parse_path_pattern. by destruct (params_of match_colon_param p).
Defined.

(** ** Specificity is a strict weak order *)
Lemma compare_specificity_irrefl a : compare_specificity a a = false.
Proof. unfold compare_specificity. rewrite bool_decide_eq_true_2 by done. apply bool_decide_eq_false_2. lia. Qed.
Lemma compare_specificity_spec a b :
  compare_specificity a b = true ↔ (b.1 < a.1 ∨ (a.1 = b.1 ∧ a.2 < b.2))%Z.
Proof. unfold compare_specificity. repeat case_bool_decide; split; intros; try done; lia. Qed.
Lemma compare_specificity_false a b :
  compare_specificity a b = false ↔ (a.1 < b.1 ∨ (a.1 = b.1 ∧ b.2 ≤ a.2))%Z.
Proof. unfold compare_specificity. repeat case_bool_decide; split; intros; try done; lia. Qed.

(** ** What a registered pattern means *)

(** C17: for every route pattern, the expression string
    [HttpRouter::parse_path_pattern] builds is a valid regular expression (no
    [std::regex_error]) whose matcher accepts exactly the paths the pattern
    denotes: the pattern splits leftmost-first into literals and [:name]/[{name}]
    tokens; a path matches iff it is the literals interleaved with values; the
    captures are the parameters' values, in order, and the greedy choice among
    all possible ones. *)
Theorem http_pattern_spec pattern :
  let '(l, tail) := params_of match_http_param pattern in
  let pp := http_parse_path_pattern pattern in
  scanned match_http_param
    (λ t name, (t = colon_token name ∨ t = brace_token name) ∧ is_ident name) l tail pattern ∧
  pp_param_names pp = l.*2 ∧ pp_dynamic_segments pp = zlen l ∧
  ∃ r, compile_regex (pp_regex_str pp) = Some r ∧
    ∀ path, match regex_match r path with
            | Some caps => pattern_matches l tail path caps ∧
                (∀ caps', pattern_matches l tail path caps' → longer_eq caps caps')
            | None => ∀ caps, ~ pattern_matches l tail path caps
            end.
Proof.
  pose proof (params_of_scanned match_http_param _ pattern http_token_of) as Hs.
  unfold http_parse_path_pattern. destruct (params_of match_http_param pattern) as [l tail].
  split_and!; [done..|]. exists (atoms_of l tail). split; [apply compile_pattern|].
  intros path. apply regex_match_spec.
Qed.

(** The WebSocket router's parser has the same guarantee for its [:name]
    tokens: the expression always compiles and matches exactly the paths the
    pattern denotes, with the greedy captures. *)
Theorem ws_pattern_spec pattern :
  let '(l, tail) := params_of match_colon_param pattern in
  let pp := ws_parse_path_pattern pattern in
  scanned match_colon_param (λ t name, t = colon_token name ∧ is_ident name) l tail pattern ∧
  pp_param_names pp = l.*2 ∧
  ∃ r, compile_regex (pp_regex_str pp) = Some r ∧
    ∀ path, match regex_match r path with
            | Some caps => pattern_matches l tail path caps ∧
                (∀ caps', pattern_matches l tail path caps' → longer_eq caps caps')
            | None => ∀ caps, ~ pattern_matches l tail path caps
            end.
Proof.
  pose proof (params_of_scanned match_colon_param _ pattern colon_token_of) as Hs.
  unfold ws_parse_path_pattern. destruct (params_of match_colon_param pattern) as [l tail].
  split_and!; [done..|]. exists (atoms_of l tail). split; [apply compile_pattern|].
  intros path. apply regex_match_spec.
Qed.
