(* ===== verification/Http.v ===== *)
(** * HTTP messages as the framework sees them

    Boost.Beast's messages are not part of the sources: the header container
    is a type class, [HttpFields], with the documented behaviour of its members
    as laws ([HttpFieldsLaws]); [FieldList] is a concrete container that
    satisfies them. Boost.JSON values are a tree; serialising and parsing them
    are parameters of the operations that call them. *)
From S2P Require Import Prelude Text.
Set Default Proof Using "Type*".

(** ** Verbs and statuses *)
(** The verbs the sources name; every other verb of the enumeration is
    [verb_other]. The order of [std::map<verb, ...>] and [to_string] are
    parameters where they matter. *)
Inductive verb :=
| verb_get | verb_head | verb_post | verb_put | verb_delete | verb_options | verb_other (n : N).
#[export] Instance verb_eq_dec : EqDecision verb.
Proof. solve_decision. Defined.

Abbreviation status := N.
Definition status_ok : status := 200%N.
Definition status_no_content : status := 204%N.
Definition status_bad_request : status := 400%N.
Definition status_not_found : status := 404%N.
Definition status_method_not_allowed : status := 405%N.
Definition status_payload_too_large : status := 413%N.
Definition status_internal_server_error : status := 500%N.

(** ** JSON values ([boost::json::value]; doubles do not occur) *)
#[warnings="-register-all"]
Inductive json :=
| JNull
| JBool (b : bool)
| JInt (z : Z)
| JString (s : bytes)
| JArray (l : list json)
| JObject (l : list (bytes * json)).

(** ** Exceptions *)
(** The exception classes the sources distinguish; [what()] is the text. *)
Inductive exn :=
| HttpException (st : status) (body : json) (headers : list (bytes * bytes))
| TypedRequestValidationError
| TypedParameterValidationError (what : bytes)
| InvalidArgument (what : bytes)
| StdException (what : bytes)
| DerivedException (type : N) (what : bytes)    (** a class of the application below [std::exception] *)
| NonStdException (tag : N).
(** [catch (const std::exception&)] *)
Definition is_std_exception (e : exn) : bool :=
  match e with NonStdException _ => false | _ => true end.

(** ** Header fields *)
Definition ieq (a b : bytes) : bool := bool_decide (tolower <$> a = tolower <$> b).

Class HttpFields (F : Type) := {
  fields_empty : F;
  (** [equal_range(name)]: the values of a name, in order. *)
  field_all : bytes → F → list bytes;
  (** [set]: replaces every field of that name. *)
  field_set : bytes → bytes → F → F;
  (** [insert]: adds one more field. *)
  field_insert : bytes → bytes → F → F;
  field_erase : bytes → F → F;
  (** [message::keep_alive]: the HTTP version (10 or 11) and the flag. *)
  get_keep_alive : N → F → bool;
  set_keep_alive : N → bool → F → F;
  (** [message::chunked] *)
  get_chunked : F → bool;
  set_chunked : bool → F → F;
  (** [message::prepare_payload] of a string body: it throws when the status
      allows no body, otherwise it sets the framing fields. *)
  payload_refused : status → bytes → bool;
  prepare_payload : status → bytes → F → F;
}.

Definition field_find {F} `{HttpFields F} (name : bytes) (f : F) : option bytes :=
  head (field_all name f).
Definition is_framing (name : bytes) : bool :=
  ieq name (str "Connection") || ieq name (str "Content-Length") || ieq name (str "Transfer-Encoding").

Class HttpFieldsLaws (F : Type) `{HttpFields F} : Prop := {
  field_all_empty name : field_all name fields_empty = [];
  field_all_set name n v f : field_all name (field_set n v f) = if ieq name n then [v] else field_all name f;
  field_all_insert name n v f :
    field_all name (field_insert n v f) = if ieq name n then field_all name f ++ [v] else field_all name f;
  field_all_erase name n f : field_all name (field_erase n f) = if ieq name n then [] else field_all name f;
  field_all_keep_alive name ver b f : is_framing name = false → field_all name (set_keep_alive ver b f) = field_all name f;
  field_all_chunked name b f : is_framing name = false → field_all name (set_chunked b f) = field_all name f;
  field_all_payload name st body f : is_framing name = false → field_all name (prepare_payload st body f) = field_all name f;
  (** Only a body of an informational, 204 or 304 response is refused, and of
      those that Beast knows every one. *)
  payload_refused_only st body : payload_refused st body = true → body ≠ [] ∧ ((100 ≤ st < 200)%N ∨ st = 204%N ∨ st = 304%N);
  payload_refused_body st body : st ∈ [100%N; 101%N; 102%N; 204%N; 304%N] → body ≠ [] → payload_refused st body = true;
}.

Lemma ieq_refl a : ieq a a = true.
Proof. unfold ieq. by rewrite bool_decide_eq_true_2. Qed.
Lemma ieq_sym a b : ieq a b = ieq b a.
Proof. unfold ieq. by apply bool_decide_ext. Qed.

Section fields.
Context {F : Type} `{HttpFieldsLaws F}.
Lemma field_find_set n v (f : F) : field_find n (field_set n v f) = Some v.
Proof. unfold field_find. by rewrite field_all_set, ieq_refl. Qed.
Lemma field_find_set_ne n m v (f : F) : ieq n m = false → field_find n (field_set m v f) = field_find n f.
Proof. unfold field_find. rewrite field_all_set. by intros ->. Qed.
Lemma field_find_payload n st b (f : F) :
  is_framing n = false → field_find n (prepare_payload st b f) = field_find n f.
Proof. unfold field_find. intros. by rewrite field_all_payload. Qed.
End fields.

(** ** Messages *)
Record request (F : Type) := mk_request {
  rq_method : verb; rq_target : bytes; rq_version : N; rq_fields : F; rq_body : bytes }.
Arguments mk_request {F}. Arguments rq_method {F}. Arguments rq_target {F}.
Arguments rq_version {F}. Arguments rq_fields {F}. Arguments rq_body {F}.

Record response (F : Type) := mk_response {
  rs_status : status; rs_version : N; rs_fields : F; rs_body : bytes }.
Arguments mk_response {F}. Arguments rs_status {F}. Arguments rs_version {F}.
Arguments rs_fields {F}. Arguments rs_body {F}.

Section messages.
Context {F : Type} `{HttpFields F}.
Definition response_empty : response F := mk_response status_ok 11 fields_empty [].
Definition rq_keep_alive (r : request F) : bool := get_keep_alive (rq_version r) (rq_fields r).
Definition rq_chunked (r : request F) : bool := get_chunked (rq_fields r).
Definition rs_set_result (s : status) (r : response F) :=
  mk_response s (rs_version r) (rs_fields r) (rs_body r).
Definition rs_set_version (v : N) (r : response F) :=
  mk_response (rs_status r) v (rs_fields r) (rs_body r).
Definition rs_on_fields (g : F → F) (r : response F) :=
  mk_response (rs_status r) (rs_version r) (g (rs_fields r)) (rs_body r).
Definition rs_set (n v : bytes) (r : response F) := rs_on_fields (field_set n v) r.
Definition rs_keep_alive (b : bool) (r : response F) :=
  rs_on_fields (set_keep_alive (rs_version r) b) r.
Definition rs_set_body (b : bytes) (r : response F) :=
  mk_response (rs_status r) (rs_version r) (rs_fields r) b.
(** [prepare_payload()], where it returns. *)
Definition rs_prepared (r : response F) : response F :=
  rs_on_fields (prepare_payload (rs_status r) (rs_body r)) r.
Definition invalid_response_body : exn := InvalidArgument (str "invalid response body").
Definition rs_prepare_payload (r : response F) : outcome exn (response F) :=
  if payload_refused (rs_status r) (rs_body r) then Throw invalid_response_body else Ret (rs_prepared r).
End messages.

Section payload.
Context {F : Type} `{HttpFieldsLaws F}.
(** An empty body and an ordinary status are never refused. *)
Lemma payload_accepted st b :
  b = [] ∨ ((200 ≤ st)%N ∧ st ≠ 204%N ∧ st ≠ 304%N) → payload_refused st b = false.
Proof.
  intros Hst. destruct (payload_refused st b) eqn:Hr; [|done]. apply payload_refused_only in Hr as [Hb Hr].
  destruct Hst as [->|(? & ? & ?)]; [done|]. lia.
Qed.
Lemma rs_prepare_accepted r : payload_refused (rs_status r) (rs_body r) = false → rs_prepare_payload r = Ret (rs_prepared r).
Proof. unfold rs_prepare_payload. by intros ->. Qed.
End payload.

(** ** A concrete container, for the witnesses *)
Module FieldList.
Abbreviation t := (list (bytes * bytes)).
Definition all (name : bytes) (f : t) : list bytes := (filter (λ p, ieq name p.1 = true) f).*2.
Definition erase (name : bytes) (f : t) : t := filter (λ p, ieq name p.1 = false) f.
Definition set (name v : bytes) (f : t) : t := erase name f ++ [(name, v)].
Definition keep_alive (ver : N) (b : bool) (f : t) : t :=
  if b then erase (str "Connection") f else set (str "Connection") (str "close") f.
Definition write_chunked (b : bool) (f : t) : t :=
  let f := erase (str "Content-Length") f in
  if b then set (str "Transfer-Encoding") (str "chunked") f else erase (str "Transfer-Encoding") f.
#[global] Instance fields : HttpFields t := {
  fields_empty := [];
  field_all := all;
  field_set := set;
  field_insert n v f := f ++ [(n, v)];
  field_erase := erase;
  get_keep_alive ver f := negb (existsb (ieq (str "close")) (all (str "Connection") f));
  set_keep_alive := keep_alive;
  get_chunked f := existsb (ieq (str "chunked")) (all (str "Transfer-Encoding") f);
  set_chunked := write_chunked;
  payload_refused st b := bool_decide (b ≠ []) && bool_decide (st ∈ [100%N; 101%N; 102%N; 204%N; 304%N]);
  prepare_payload st b f := f;
}.

Lemma ieq_cong a b c : ieq b c = true → ieq a b = ieq a c.
Proof. unfold ieq. intros H%bool_decide_eq_true. apply bool_decide_ext. by rewrite H. Qed.
Lemma all_erase name n f : all name (erase n f) = if ieq name n then [] else all name f.
Proof.
  unfold all, erase. induction f as [|[m v] f IH]; [by destruct (ieq name n)|].
  rewrite !filter_cons. cbn [fst]. destruct (ieq n m) eqn:Hnm; cbn [decide].
  - rewrite decide_False by done. rewrite IH, (ieq_cong name n m) by done.
    destruct (ieq name m); [done|]. by rewrite decide_False.
  - rewrite decide_True by done. rewrite filter_cons. cbn [fst].
    destruct (ieq name m) eqn:Hm.
    + rewrite decide_True, fmap_cons, IH by done. destruct (ieq name n) eqn:Hn; [|done].
      exfalso. rewrite <-(ieq_cong n name m), ieq_sym, Hn in Hnm by done. done.
    + rewrite decide_False, IH by done. destruct (ieq name n); [done|]. by rewrite decide_False.
Qed.
Lemma all_set name n v f : all name (set n v f) = if ieq name n then [v] else all name f.
Proof.
  unfold set, all. rewrite filter_app, fmap_app. fold (all name (erase n f)). rewrite all_erase.
  rewrite filter_cons, filter_nil. cbn [fst]. destruct (ieq name n).
  - by rewrite decide_True.
  - rewrite decide_False by done. apply app_nil_r.
Qed.
Lemma all_app name f g : all name (f ++ g) = all name f ++ all name g.
Proof. unfold all. by rewrite filter_app, fmap_app. Qed.

#[global] Instance laws : HttpFieldsLaws t.
Proof.
  split; unfold field_all, field_set, field_insert, field_erase, set_keep_alive, set_chunked,
    prepare_payload, fields; intros.
  - done.
  - apply all_set.
  - rewrite all_app. unfold all at 2. rewrite filter_cons, filter_nil. cbn [fst]. destruct (ieq name n).
    + by rewrite decide_True.
    + rewrite decide_False by done. apply app_nil_r.
  - apply all_erase.
  - unfold is_framing in *. destruct b; simpl; rewrite ?all_set, ?all_erase; by destruct (ieq name _).
  - unfold is_framing in *. apply orb_false_elim in H as [[H1 H2]%orb_false_elim H3].
    destruct b; simpl; rewrite ?all_set, ?all_erase, H3, ?all_erase, H2; done.
  - done.
  - unfold payload_refused in *. apply andb_prop in H as [Hb%bool_decide_eq_true Hs%bool_decide_eq_true]. split; [done|].
    apply list_elem_of_In in Hs. cbn in Hs. lia.
  - unfold payload_refused. by rewrite !bool_decide_eq_true_2.
Qed.
End FieldList.
