(* ===== verification/HttpContext.v ===== *)
(** * The request context ([context/http_context.hpp], [http_context.cpp])

    [HttpContext] wraps one request and its response. Its getters parse parts
    of the request lazily and cache the result in [mutable] members, so they
    are state-passing functions here: every accessor returns the (possibly
    updated) context. *)
From S2P Require Import Prelude Text Numbers Http.
Set Default Proof Using "Type*".

(** What the context calls outside the sources: Boost.URL (decoded path and
    query parameters of a relative reference), Boost.JSON, Beast's version. *)
Class Platform := {
  parse_relative_ref : bytes → option (bytes * list (bytes * bytes));
  json_parse : bytes → option json;
  json_serialize : json → bytes;
  beast_version : bytes;
}.

Record MultipartFile := mk_file { mf_filename : bytes; mf_content_type : bytes; mf_data : bytes }.
Record CookieOptions := mk_cookie_options {
  co_max_age : Z; co_path : bytes; co_domain : bytes; co_secure : bool; co_http_only : bool; co_same_site : bytes }.
Definition default_cookie_options : CookieOptions :=
  mk_cookie_options (-1) (str "/") [] false true (str "Lax").
(** [std::any]: a type identity and a value. *)
Record any := mk_any { any_type : N; any_value : bytes }.

(** ** Header helpers *)
Definition is_trimmed_ws (c : ascii) : bool := bool_decide (c ∈ [SP; HT; LF; CR]).
Definition trim (s : bytes) : bytes := trim_by is_trimmed_ws s.

Definition crlf : bytes := [CR; LF].
Definition extract_header_value (headers header_name : bytes) : bytes :=
  let search_str := crlf ++ header_name ++ str ":" in
  let pos :=
    match find_str search_str headers 0 with
    | Some p => Some (p + length search_str)
    | None => if starts_with (header_name ++ str ":") headers then Some 0 else None
    end in
  match pos with
  | None => []
  | Some pos => trim (substr_to headers pos (find_str crlf headers pos))
  end.

(** ** Multipart bodies *)
Definition not_quote (c : ascii) : bool := negb (bool_decide (c = DQ)).
(** A quoted value, one or more characters other than a double quote, after
    [prefix]; returns the value and what follows the closing quote. *)
Definition match_quoted (prefix s : bytes) : option (bytes * bytes) :=
  if starts_with prefix s then
    match find_index (λ c, bool_decide (c = DQ)) (drop (length prefix) s) with
    | Some (S n) => Some (take (S n) (drop (length prefix) s), drop (S (S n)) (drop (length prefix) s))
    | _ => None
    end
  else None.
Definition name_prefix : bytes := htm "name='".
Definition filename_prefix : bytes := htm "filename='".
(** The optional group of the disposition expression. *)
Definition match_filename (s : bytes) : option bytes :=
  match s with
  | c :: s => if bool_decide (c = ";"%char)
              then fst <$> match_quoted filename_prefix (drop_while isspace s) else None
  | [] => None
  end.
(** [std::regex_search] of the disposition expression: the leftmost match. *)
Fixpoint search_disposition (s : bytes) : option (bytes * option bytes) :=
  match match_quoted name_prefix s with
  | Some (name, rest) => Some (name, match_filename rest)
  | None => match s with [] => None | _ :: s => search_disposition s end
  end.

Record multipart := mk_multipart {
  mp_fields : gmap bytes bytes; mp_files : gmap bytes (list MultipartFile) }.
Definition multipart_empty : multipart := mk_multipart ∅ ∅.

Definition add_part (disposition part_headers part_data : bytes) (m : multipart) : multipart :=
  let '(name_str, filename_str) :=
    match search_disposition disposition with
    | Some (n, Some f) => (n, f) | Some (n, None) => (n, []) | None => ([], []) end in
  if bool_decide (name_str = []) then m
  else if bool_decide (filename_str = []) then mk_multipart (<[name_str := part_data]> (mp_fields m)) (mp_files m)
  else
    let file := mk_file filename_str (extract_header_value part_headers (str "Content-Type")) part_data in
    mk_multipart (mp_fields m) (<[name_str := default [] (mp_files m !! name_str) ++ [file]]> (mp_files m)).

Definition strip_crlf (s : bytes) : bytes := if starts_with crlf s then drop 2 s else s.

Fixpoint multipart_loop (full_boundary body : bytes) (fuel : nat) (pos : nat) (m : multipart) : multipart :=
  match fuel with
  | O => m
  | S fuel =>
      if bool_decide (length body ≤ pos) then m else
      match find_str (crlf ++ crlf) body pos with
      | None => m
      | Some header_end =>
          let part_headers := strip_crlf (substr body pos (header_end - pos)) in
          let data_start := header_end + 4 in
          match find_str (crlf ++ full_boundary) body data_start with
          | None => m
          | Some marker =>
              let next_boundary := marker + 2 in
              let part_data := substr body data_start (marker - data_start) in
              let disposition := extract_header_value part_headers (str "Content-Disposition") in
              let next := next_boundary + length full_boundary in
              if bool_decide (disposition = []) then multipart_loop full_boundary body fuel next m
              else
                let m := add_part disposition part_headers part_data m in
                if bool_decide (substr body next_boundary (length full_boundary + 2) = full_boundary ++ str "--")
                then m else multipart_loop full_boundary body fuel next m
          end
      end
  end.

Definition unquote_boundary (b : bytes) : bytes :=
  match b with
  | c :: t => if bool_decide (2 ≤ length b) && bool_decide (c = DQ) && bool_decide (last b = Some DQ)
              then take (length b - 2) t else b
  | [] => b
  end.
Definition multipart_boundary (content_type : bytes) : option bytes :=
  match find_str (str "boundary=") content_type 0 with
  | None => None
  | Some p => Some (unquote_boundary (trim (drop (p + 9) content_type)))
  end.
Definition contains (p s : bytes) : bool := bool_decide (is_Some (find_str p s 0)).
Definition multipart_parse (content_type : option bytes) (body : bytes) : multipart :=
  match content_type with
  | None => multipart_empty
  | Some ct =>
      if contains (str "multipart/form-data") ct then
        match multipart_boundary ct with
        | None => multipart_empty
        | Some boundary =>
            let full_boundary := str "--" ++ boundary in
            match find_str full_boundary body 0 with
            | None => multipart_empty
            | Some p => multipart_loop full_boundary body (S (length body)) (p + length full_boundary) multipart_empty
            end
        end
      else multipart_empty
  end.

(** ** Cookies *)
Definition add_cookie (pair : bytes) (m : gmap bytes (list bytes)) : gmap bytes (list bytes) :=
  match find_char "="%char pair 0 with
  | None => m
  | Some eq_pos =>
      let key := trim (take eq_pos pair) in
      let value := trim (drop (eq_pos + 1) pair) in
      <[key := default [] (m !! key) ++ [value]]> m
  end.
Fixpoint cookie_loop (header : bytes) (fuel : nat) (pos : nat) (m : gmap bytes (list bytes)) :=
  match fuel with
  | O => m
  | S fuel =>
      if bool_decide (length header ≤ pos) then m else
      let end_pos := default (length header) (find_char ";"%char header pos) in
      cookie_loop header fuel (end_pos + 1) (add_cookie (substr header pos (end_pos - pos)) m)
  end.
Definition cookies_parse (headers : list bytes) : gmap bytes (list bytes) :=
  fold_left (λ m h, cookie_loop h (S (length h)) 0 m) headers ∅.

Definition cookie_forbidden (c : ascii) : bool := bool_decide (c ∈ [";"%char; ","%char; CR; LF]).
Definition cookie_string (key value : bytes) (o : CookieOptions) : bytes :=
  key ++ str "=" ++ value
  ++ (if bool_decide (0 ≤ co_max_age o)%Z then str "; Max-Age=" ++ to_dec_Z (co_max_age o) else [])
  ++ (if bool_decide (co_domain o = []) then [] else str "; Domain=" ++ co_domain o)
  ++ (if bool_decide (co_path o = []) then [] else str "; Path=" ++ co_path o)
  ++ (if co_secure o then str "; Secure" else [])
  ++ (if co_http_only o then str "; HttpOnly" else [])
  ++ (if bool_decide (co_same_site o = []) then [] else str "; SameSite=" ++ co_same_site o).
(** [None]: rejected, nothing is set. *)
Definition make_cookie (key value : bytes) (o : CookieOptions) : option bytes :=
  if existsb (λ c, cookie_forbidden c || bool_decide (c = "="%char)) key then None
  else if existsb cookie_forbidden value then None
  else Some (cookie_string key value o).

(** ** The context object *)
Record ctx (F : Type) := mk_ctx {
  cx_req : request F;
  cx_res : response F;
  cx_url : option (bytes * list (bytes * bytes));    (** [cached_path_], [parsed_url_.params()] *)
  cx_path_params : gmap bytes bytes;
  cx_json : option json;
  cx_form : option (gmap bytes bytes);
  cx_multipart : option multipart;
  cx_cookies : option (gmap bytes (list bytes));
  cx_attributes : gmap bytes any;
  cx_stream_handler : option N;                       (** the identity of [do_stream_chunk] *)
}.
Arguments mk_ctx {F}. Arguments cx_req {F}. Arguments cx_res {F}. Arguments cx_url {F}.
Arguments cx_path_params {F}. Arguments cx_json {F}. Arguments cx_form {F}.
Arguments cx_multipart {F}. Arguments cx_cookies {F}. Arguments cx_attributes {F}.
Arguments cx_stream_handler {F}.

(** ** Handlers

    A handler mutates the context and may throw: it is a computation [M F A],
    from the context to the context and a value or an exception. *)
Definition M (F A : Type) : Type := ctx F → ctx F * outcome exn A.
#[export] Instance M_ret F : MRet (M F) := λ A a x, (x, Ret a).
#[export] Instance M_bind F : MBind (M F) := λ A B f m x,
  match m x with (x, Ret a) => f a x | (x, Throw e) => (x, Throw e) end.
Definition throwM {F A} (e : exn) : M F A := λ x, (x, Throw e).
Definition liftM {F A} (o : outcome exn A) : M F A := λ x, (x, o).
Definition getM {F A} (g : ctx F → A * ctx F) : M F A := λ x, let '(a, x) := g x in (x, Ret a).
Definition doM {F} (g : ctx F → ctx F) : M F unit := λ x, (g x, Ret tt).
(** [try m catch (e) k e] *)
Definition tryM {F A} (m : M F A) (k : exn → M F A) : M F A := λ x,
  match m x with (x, Ret a) => (x, Ret a) | (x, Throw e) => k e x end.

Section context.
Context {F : Type} `{HttpFields F} `{Platform}.
Implicit Types (x : ctx F) (r : request F).

Definition with_res (g : response F → response F) x : ctx F :=
  mk_ctx (cx_req x) (g (cx_res x)) (cx_url x) (cx_path_params x) (cx_json x) (cx_form x)
    (cx_multipart x) (cx_cookies x) (cx_attributes x) (cx_stream_handler x).
Definition with_url u x : ctx F :=
  mk_ctx (cx_req x) (cx_res x) u (cx_path_params x) (cx_json x) (cx_form x)
    (cx_multipart x) (cx_cookies x) (cx_attributes x) (cx_stream_handler x).
Definition set_path_params (params : gmap bytes bytes) x : ctx F :=
  mk_ctx (cx_req x) (cx_res x) (cx_url x) params (cx_json x) (cx_form x)
    (cx_multipart x) (cx_cookies x) (cx_attributes x) (cx_stream_handler x).
Definition with_json j x : ctx F :=
  mk_ctx (cx_req x) (cx_res x) (cx_url x) (cx_path_params x) j (cx_form x)
    (cx_multipart x) (cx_cookies x) (cx_attributes x) (cx_stream_handler x).
Definition with_form m x : ctx F :=
  mk_ctx (cx_req x) (cx_res x) (cx_url x) (cx_path_params x) (cx_json x) m
    (cx_multipart x) (cx_cookies x) (cx_attributes x) (cx_stream_handler x).
Definition with_multipart m x : ctx F :=
  mk_ctx (cx_req x) (cx_res x) (cx_url x) (cx_path_params x) (cx_json x) (cx_form x)
    m (cx_cookies x) (cx_attributes x) (cx_stream_handler x).
Definition with_cookies m x : ctx F :=
  mk_ctx (cx_req x) (cx_res x) (cx_url x) (cx_path_params x) (cx_json x) (cx_form x)
    (cx_multipart x) m (cx_attributes x) (cx_stream_handler x).
Definition with_attributes m x : ctx F :=
  mk_ctx (cx_req x) (cx_res x) (cx_url x) (cx_path_params x) (cx_json x) (cx_form x)
    (cx_multipart x) (cx_cookies x) m (cx_stream_handler x).

(** The constructor also initialises the response. *)
Definition context_init r (res : response F) : ctx F :=
  let res := rs_keep_alive (rq_keep_alive r) (rs_set_version (rq_version r) res) in
  let res := rs_set (str "Content-Type") (str "text/plain") (rs_set (str "Server") beast_version res) in
  mk_ctx r res None ∅ None None None None ∅ None.

(** *** The request target *)
Definition url_of (target : bytes) : bytes * list (bytes * bytes) :=
  match parse_relative_ref target with
  | Some u => u
  | None => (target, [])
  end.
Definition parse_url_components x : ctx F :=
  match cx_url x with Some _ => x | None => with_url (Some (url_of (rq_target (cx_req x)))) x end.
Definition url_parts x : bytes * list (bytes * bytes) := default ([], []) (cx_url x).
Definition path x : bytes * ctx F := let x := parse_url_components x in ((url_parts x).1, x).
Definition method x : verb := rq_method (cx_req x).
Definition body x : bytes := rq_body (cx_req x).
Definition assoc_find (key : bytes) (l : list (bytes * bytes)) : option bytes :=
  snd <$> List.find (λ p, bool_decide (p.1 = key)) l.
Definition get_query_param (key : bytes) x : option bytes * ctx F :=
  let x := parse_url_components x in (assoc_find key (url_parts x).2, x).
Definition get_path_param (key : bytes) x : option bytes := cx_path_params x !! key.

(** *** Headers *)
Definition get_header (name : bytes) x : option bytes := field_find name (rq_fields (cx_req x)).
Definition get_headers (name : bytes) x : option (list bytes) := Some (field_all name (rq_fields (cx_req x))).

(** *** JSON bodies *)
Definition json_of r : option json :=
  match field_find (str "Content-Type") (rq_fields r) with
  | Some ct => if contains (str "application/json") ct then json_parse (rq_body r) else None
  | None => None
  end.
Definition get_json x : option json * ctx F :=
  match cx_json x with
  | Some j => (Some j, x)
  | None => let j := json_of (cx_req x) in (j, with_json j x)
  end.

(** *** Forms *)
Definition form_of r : gmap bytes bytes :=
  match field_find (str "Content-Type") (rq_fields r) with
  | Some ct =>
      if contains (str "application/x-www-form-urlencoded") ct then
        match parse_relative_ref (str "?" ++ rq_body r) with
        | Some (_, params) => fold_left (λ m p, <[p.1 := p.2]> m) params ∅
        | None => ∅
        end
      else ∅
  | None => ∅
  end.
Definition parse_form_params x : ctx F :=
  match cx_form x with Some _ => x | None => with_form (Some (form_of (cx_req x))) x end.
Definition get_form_param (key : bytes) x : option bytes * ctx F :=
  let x := parse_form_params x in (default ∅ (cx_form x) !! key, x).

(** *** Multipart bodies *)
Definition multipart_of r : multipart :=
  multipart_parse (field_find (str "Content-Type") (rq_fields r)) (rq_body r).
Definition parse_multipart_data x : ctx F :=
  match cx_multipart x with Some _ => x | None => with_multipart (Some (multipart_of (cx_req x))) x end.
Definition get_multipart_field (key : bytes) x : option bytes * ctx F :=
  let x := parse_multipart_data x in (mp_fields (default multipart_empty (cx_multipart x)) !! key, x).
Definition get_uploaded_files (field_name : bytes) x : option (list MultipartFile) * ctx F :=
  let x := parse_multipart_data x in (mp_files (default multipart_empty (cx_multipart x)) !! field_name, x).

(** *** Cookies *)
Definition cookies_of r : gmap bytes (list bytes) := cookies_parse (field_all (str "Cookie") (rq_fields r)).
Definition parse_cookies x : ctx F :=
  match cx_cookies x with Some _ => x | None => with_cookies (Some (cookies_of (cx_req x))) x end.
Definition get_cookie (key : bytes) x : option bytes * ctx F :=
  let x := parse_cookies x in (default ∅ (cx_cookies x) !! key ≫= head, x).
Definition get_cookies (key : bytes) x : list bytes * ctx F :=
  let x := parse_cookies x in (default [] (default ∅ (cx_cookies x) !! key), x).
Definition set_cookie (key value : bytes) (options : CookieOptions) x : ctx F :=
  match make_cookie key value options with
  | None => x
  | Some cookie_str => with_res (rs_on_fields (field_insert (str "Set-Cookie") cookie_str)) x
  end.

(** *** The response *)
Definition set_status (s : status) x : ctx F := with_res (rs_set_result s) x.
(** The body is stored before [prepare_payload()] may throw. *)
Definition set_body (b : bytes) : M F unit := λ x,
  let x := with_res (rs_set_body b) x in
  match rs_prepare_payload (cx_res x) with
  | Throw e => (x, Throw e)
  | Ret res => (with_res (λ _, res) x, Ret tt)
  end.
Definition set_header (name value : bytes) x : ctx F := with_res (rs_set name value) x.
Definition set_content_type (type : bytes) x : ctx F := set_header (str "Content-Type") type x.
Definition set_body_json (j : json) : M F unit :=
  _ ← doM (set_content_type (str "application/json")); set_body (json_serialize j).
(** [chunked(handler)]; [None] is a null handler. *)
Definition chunked (handler : option N) x : ctx F :=
  let x := with_res (rs_on_fields (set_chunked (bool_decide (is_Some handler)))) x in
  mk_ctx (cx_req x) (cx_res x) (cx_url x) (cx_path_params x) (cx_json x) (cx_form x)
    (cx_multipart x) (cx_cookies x) (cx_attributes x) handler.

(** *** Attributes *)
Definition set_attribute (key : bytes) (v : any) x : ctx F :=
  with_attributes (<[key := v]> (cx_attributes x)) x.
Definition get_attribute (key : bytes) x : option any := cx_attributes x !! key.
(** [get_attribute_as<T>]: [std::nullopt] when the stored type is not [T]. *)
Definition get_attribute_as (T : N) (key : bytes) x : option bytes :=
  match cx_attributes x !! key with
  | Some v => if bool_decide (any_type v = T) then Some (any_value v) else None
  | None => None
  end.
End context.

(** ** Bodies that a status refuses *)
Section set_body.
Context {F : Type} `{HttpFields F} `{Platform}.
Implicit Types (x y : ctx F).
(** The response holds a body which its status does not allow. *)
Definition refused x : Prop := payload_refused (rs_status (cx_res x)) (rs_body (cx_res x)) = true.
Lemma set_body_accepted b x :
  payload_refused (rs_status (cx_res x)) b = false →
  set_body b x = (with_res (λ res, rs_prepared (rs_set_body b res)) x, Ret tt).
Proof. intros Hb. unfold set_body, rs_prepare_payload. cbn. by rewrite Hb. Qed.
Lemma set_body_refused b x :
  payload_refused (rs_status (cx_res x)) b = true → set_body b x = (with_res (rs_set_body b) x, Throw invalid_response_body).
Proof. intros Hb. unfold set_body, rs_prepare_payload. cbn. by rewrite Hb. Qed.
Lemma set_body_throws b x y e : set_body b x = (y, Throw e) → e = invalid_response_body ∧ refused y.
Proof.
  destruct (payload_refused (rs_status (cx_res x)) b) eqn:Hb; [rewrite set_body_refused by done|by rewrite set_body_accepted].
  by intros [= <- <-].
Qed.
Lemma set_body_json_throws j x y e : set_body_json j x = (y, Throw e) → e = invalid_response_body ∧ refused y.
Proof. apply set_body_throws. Qed.
End set_body.
