(* ===== verification/HttpContextTheorems.v ===== *)
(** * The request context: properties

    Lazy parsing is invisible ([accessors_pure]), the cookie parser is the
    split of every [Cookie] header at its semicolons ([get_cookies_spec]), an
    accepted cookie cannot break out of its header ([set_cookie_no_injection]),
    and a well-formed multipart body is read back part by part
    ([multipart_roundtrip]). *)
From S2P Require Import Prelude Text Numbers Http HttpContext.
Set Default Proof Using "Type*".

(** ** Lazily parsed members *)
Inductive ctx_op :=
| OpPath | OpQuery (key : bytes) | OpJson | OpForm (key : bytes) | OpField (key : bytes)
| OpFiles (key : bytes) | OpCookie (key : bytes) | OpCookies (key : bytes)
| OpSetCookie (key value : bytes) (o : CookieOptions) | OpStatus (s : status) | OpBody (b : bytes)
| OpBodyJson (j : json) | OpHeader (n v : bytes) | OpContentType (t : bytes)
| OpChunked (h : option N) | OpPathParams (m : gmap bytes bytes) | OpAttribute (k : bytes) (v : any).

Section accessors.
Context {F : Type} `{HttpFields F} `{Platform}.
Implicit Types (x : ctx F).

Definition do_op (o : ctx_op) x : ctx F :=
  match o with
  | OpPath => (path x).2 | OpQuery k => (get_query_param k x).2 | OpJson => (get_json x).2
  | OpForm k => (get_form_param k x).2 | OpField k => (get_multipart_field k x).2
  | OpFiles k => (get_uploaded_files k x).2 | OpCookie k => (get_cookie k x).2
  | OpCookies k => (get_cookies k x).2 | OpSetCookie k v o => set_cookie k v o x
  | OpStatus s => set_status s x | OpBody b => (set_body b x).1 | OpBodyJson j => (set_body_json j x).1
  | OpHeader n v => set_header n v x | OpContentType t => set_content_type t x
  | OpChunked h => chunked h x | OpPathParams m => set_path_params m x
  | OpAttribute k v => set_attribute k v x
  end.

(** Every cache is empty or holds what parsing the request gives. *)
Definition cached {A} (v : A) (c : option A) : Prop := c = None ∨ c = Some v.
Definition coherent (r : request F) x : Prop :=
  cx_req x = r ∧ cached (url_of (rq_target r)) (cx_url x) ∧
  (cx_json x = None ∨ cx_json x = json_of r) ∧ cached (form_of r) (cx_form x) ∧
  cached (multipart_of r) (cx_multipart x) ∧ cached (cookies_of r) (cx_cookies x).

Lemma coherent_init r res : coherent r (context_init r res).
Proof. unfold coherent, cached. split_and!; by auto. Qed.
Lemma coherent_op r o x : coherent r x → coherent r (do_op o x).
Proof.
  unfold coherent, cached. intros (<- & Hu & Hj & Hf & Hm & Hc).
  assert (∀ b y, cx_req (set_body b y).1 = cx_req y ∧ cx_url (set_body b y).1 = cx_url y ∧ cx_json (set_body b y).1 = cx_json y ∧
    cx_form (set_body b y).1 = cx_form y ∧ cx_multipart (set_body b y).1 = cx_multipart y ∧ cx_cookies (set_body b y).1 = cx_cookies y) as Hbody.
  { intros b y. unfold set_body. by destruct (rs_prepare_payload _). }
  destruct o as [| | | | | | | | | |b|j| | | | |]; cbn [do_op];
    [| | | | | | | | | |destruct (Hbody b x) as (-> & -> & -> & -> & -> & ->); by auto
     |destruct (Hbody (json_serialize j) (set_content_type (str "application/json") x)) as (E1 & E2 & E3 & E4 & E5 & E6);
      unfold set_body_json, mbind, M_bind, doM; rewrite E1, E2, E3, E4, E5, E6; by auto| | | | |];
    unfold path, get_query_param, get_json, get_form_param, get_multipart_field,
    get_uploaded_files, get_cookie, get_cookies, set_cookie, parse_url_components, parse_form_params,
    parse_multipart_data, parse_cookies; cbn; repeat case_match; cbn; split_and!; auto;
    destruct Hj; simplify_eq; first [solve [auto] | congruence | left; congruence | right; congruence].
Qed.
Lemma coherent_ops r ops x : coherent r x → coherent r (fold_left (flip do_op) ops x).
Proof. revert x. induction ops; simpl; auto using coherent_op. Qed.
End accessors.

(** Whatever accessors and setters ran before on the context, in any order,
    the value an accessor returns is the one the request determines: the lazy
    caches are never stale and never shared between different questions. *)
Theorem accessors_pure {F} `{HttpFields F} `{Platform} (r : request F) res ops :
  let x := fold_left (flip do_op) ops (context_init r res) in
  (path x).1 = (url_of (rq_target r)).1 ∧
  (∀ k, (get_query_param k x).1 = assoc_find k (url_of (rq_target r)).2) ∧
  (get_json x).1 = json_of r ∧
  (∀ k, (get_form_param k x).1 = form_of r !! k) ∧
  (∀ k, (get_multipart_field k x).1 = mp_fields (multipart_of r) !! k) ∧
  (∀ k, (get_uploaded_files k x).1 = mp_files (multipart_of r) !! k) ∧
  (∀ k, (get_cookies k x).1 = default [] (cookies_of r !! k)) ∧
  (∀ k, (get_cookie k x).1 = cookies_of r !! k ≫= head).
Proof.
  intros x. assert (coherent r x) as (Hr & Hu & Hj & Hf & Hm & Hc).
  { apply coherent_ops, coherent_init. }
  clearbody x. subst r.
  unfold path, get_query_param, get_json, get_form_param, get_multipart_field, get_uploaded_files,
    get_cookie, get_cookies, parse_url_components, parse_form_params, parse_multipart_data, parse_cookies.
  split_and!; try intros k;
    [destruct Hu as [E|E]..|destruct Hj as [E|E]|destruct Hf as [E|E]|destruct Hm as [E|E]
    |destruct Hm as [E|E]|destruct Hc as [E|E]|destruct Hc as [E|E]];
    rewrite E; cbn; unfold url_parts; rewrite ?E; try done.
  by destruct (json_of (cx_req x)).
Qed.

(** ** Cookies *)
(** The value of a [key=value] piece, when its trimmed key is the one asked for. *)
Definition cookie_value (key pair : bytes) : option bytes :=
  match find_char "="%char pair 0 with
  | Some eq_pos => if bool_decide (trim (take eq_pos pair) = key) then Some (trim (drop (eq_pos + 1) pair)) else None
  | None => None
  end.

Lemma cookie_loop_split h fuel pos m :
  length h < fuel + pos →
  cookie_loop h fuel pos m = fold_left (flip add_cookie) (split_on ";"%char (drop pos h)) m.
Proof.
  revert pos m. induction fuel as [|fuel IH]; intros pos m Hf; cbn [cookie_loop].
  { by rewrite drop_ge by lia. }
  case_bool_decide; [by rewrite drop_ge by lia|].
  destruct (find_char ";"%char h pos) as [e|] eqn:He; cbn [from_option id].
  - apply find_char_Some in He as (Hlt & Hs & Hc). rewrite IH by lia. rewrite Hs, split_on_app by done. done.
  - apply find_char_None_from in He. rewrite IH by lia.
    rewrite (drop_ge h (length h + 1)) by lia. rewrite (split_on_word _ _ He). cbn.
    unfold substr. by rewrite take_ge by (rewrite length_drop; lia).
Qed.
Lemma add_cookies_lookup ps m key :
  default [] (fold_left (flip add_cookie) ps m !! key) = default [] (m !! key) ++ omap (cookie_value key) ps.
Proof.
  revert m. induction ps as [|p ps IH]; intros m; cbn [fold_left]; [symmetry; apply app_nil_r|].
  rewrite IH. cbn [omap list_omap]. unfold flip, add_cookie, cookie_value.
  destruct (find_char "="%char p 0) as [e|]; [|done]. case_bool_decide as Hk.
  - subst key. rewrite lookup_insert_eq. cbn. by rewrite <-(assoc_L (++)).
  - by rewrite lookup_insert_ne.
Qed.

Lemma cookies_parse_lookup hs key :
  default [] (cookies_parse hs !! key) = omap (cookie_value key) (hs ≫= split_on ";"%char).
Proof.
  unfold cookies_parse.
  assert (∀ m, default [] (fold_left (λ m h, cookie_loop h (S (length h)) 0 m) hs m !! key) =
    default [] (m !! key) ++ omap (cookie_value key) (hs ≫= split_on ";"%char)) as Hg.
  { induction hs as [|h hs IH]; intros m; cbn [fold_left mbind list_bind]; [symmetry; apply app_nil_r|].
    rewrite IH, cookie_loop_split by lia. rewrite drop_0, add_cookies_lookup, omap_app.
    by rewrite (assoc_L (++)). }
  by rewrite Hg, lookup_empty.
Qed.

(** [get_cookies(key)] is exactly the values of the pieces between the
    semicolons of every [Cookie] header, in order, whose trimmed text before the
    first '=' is [key]; [get_cookie] is the first of them. *)
Theorem get_cookies_spec {F} `{HttpFields F} `{Platform} (r : request F) res key :
  let x := context_init r res in
  let values := omap (cookie_value key) (field_all (str "Cookie") (rq_fields r) ≫= split_on ";"%char) in
  (get_cookies key x).1 = values ∧ (get_cookie key x).1 = head values.
Proof.
  intros x values. pose proof (cookies_parse_lookup (field_all (str "Cookie") (rq_fields r)) key) as Hv.
  cbn -[cookies_parse]. unfold cookies_of. fold values in Hv. rewrite <-Hv. split; [done|].
  by destruct (cookies_parse _ !! key).
Qed.

(** ** Setting cookies *)
Definition line_safe (s : bytes) : Prop := CR ∉ s ∧ LF ∉ s.
Lemma line_safe_app s t : line_safe (s ++ t) ↔ line_safe s ∧ line_safe t.
Proof. unfold line_safe. rewrite !not_elem_of_app. tauto. Qed.
Lemma line_safe_if (b : bool) s : line_safe s → line_safe (if b then s else []).
Proof. destruct b; [done|]. unfold line_safe. set_solver. Qed.
Lemma line_safe_dec s : forallb (λ c, negb (bool_decide (c = CR)) && negb (bool_decide (c = LF))) s = true → line_safe s.
Proof.
  rewrite forallb_forall. intros H. split; intros Hc%list_elem_of_In%H; by vm_compute in Hc.
Qed.
Lemma line_safe_to_dec_Z z : line_safe (to_dec_Z z).
Proof.
  assert (∀ n, line_safe (to_dec n)) as Hn.
  { intros n. pose proof (to_dec_digits n) as Hd. rewrite Forall_forall in Hd.
    split; intros Hc%Hd; by vm_compute in Hc. }
  unfold to_dec_Z. case_bool_decide; [|done]. apply (line_safe_app ["-"%char]). split; [|done].
  by apply line_safe_dec.
Qed.
Lemma existsb_cookie_safe s : existsb cookie_forbidden s = false → line_safe s ∧ ";"%char ∉ s.
Proof.
  intros H. assert (∀ c, c ∈ s → cookie_forbidden c = false) as Hc.
  { intros c Hc. apply not_true_is_false. intros Ht. apply not_true_iff_false in H. apply H.
    apply existsb_exists. exists c. split; [by apply list_elem_of_In|done]. }
  split_and!; [split|]; intros Hx%Hc; by vm_compute in Hx.
Qed.
(** Text that is empty or starts a new attribute. *)
Definition attribute (s : bytes) : Prop := s = [] ∨ ∃ t, s = ";"%char :: t.
Lemma attribute_app s t : attribute s → attribute t → attribute (s ++ t).
Proof. intros [->|[u ->]] Ht; [done|]. right. by exists (u ++ t). Qed.
Lemma split_on_attribute a t : ";"%char ∉ a → attribute t → head (split_on ";"%char (a ++ t)) = Some a.
Proof.
  intros Ha [->|[u ->]]; [by rewrite app_nil_r, split_on_word|by rewrite split_on_app].
Qed.
Lemma cookie_string_pair key value o :
  ∃ t, cookie_string key value o = (key ++ str "=" ++ value) ++ t ∧ attribute t.
Proof.
  unfold cookie_string. eexists. rewrite <-!(assoc_L (++)). split; [reflexivity|].
  repeat apply attribute_app; repeat case_match; try (by left); right; eexists; reflexivity.
Qed.

Lemma cookie_string_safe key value o :
  line_safe key → line_safe value → line_safe (co_path o) → line_safe (co_domain o) →
  line_safe (co_same_site o) → line_safe (cookie_string key value o).
Proof.
  intros. unfold cookie_string.
  repeat (apply line_safe_app; split); try done; try (by apply line_safe_dec);
    first [by apply line_safe_if, line_safe_dec | idtac]; case_bool_decide;
    try (by apply line_safe_dec); apply line_safe_app; (split; [by apply line_safe_dec|]);
    auto using line_safe_to_dec_Z.
Qed.

(** [set_cookie] rejects (and changes nothing) or adds exactly one
    [Set-Cookie] field, keeping the earlier ones. With attributes free of line
    breaks the added text has none either, so no accepted key or value can
    start another header line, and what a client reads before the first ';' is
    [key=value]. *)
Theorem set_cookie_no_injection {F} `{HttpFieldsLaws F} `{Platform} key value o (x : ctx F) :
  let all y := field_all (str "Set-Cookie") (rs_fields (cx_res y)) in
  match make_cookie key value o with
  | None => set_cookie key value o x = x ∧
      ∃ c, (c ∈ key ∨ c ∈ value) ∧ c ∈ [";"%char; ","%char; CR; LF; "="%char]
  | Some text =>
      all (set_cookie key value o x) = all x ++ [text] ∧
      cx_req (set_cookie key value o x) = cx_req x ∧
      (line_safe (co_path o) → line_safe (co_domain o) → line_safe (co_same_site o) → line_safe text) ∧
      head (split_on ";"%char text) = Some (key ++ str "=" ++ value)
  end.
Proof.
  cbv zeta. unfold set_cookie. destruct (make_cookie key value o) as [text|] eqn:Hm; unfold make_cookie in Hm.
  - destruct (existsb _ key) eqn:Hk; [done|]. destruct (existsb cookie_forbidden value) eqn:Hv; [done|].
    injection Hm as <-. apply existsb_cookie_safe in Hv as [Hv Hvs].
    assert (line_safe key ∧ ";"%char ∉ key) as [Hks Hks'].
    { apply existsb_cookie_safe. apply not_true_is_false. rewrite existsb_exists.
      intros (c & Hc & Hf). apply not_true_iff_false in Hk. apply Hk, existsb_exists.
      exists c. split; [done|]. by rewrite Hf. }
    split_and!; [|done|intros; by apply cookie_string_safe|].
    + cbn. rewrite field_all_insert, ieq_refl. done.
    + destruct (cookie_string_pair key value o) as (t & -> & Ht). apply split_on_attribute; [|done].
      unfold str. cbn. set_solver.
  - split; [done|]. destruct (existsb _ key) eqn:Hk.
    + apply existsb_exists in Hk as (c & Hc%list_elem_of_In & Hf). exists c. split; [by left|].
      unfold cookie_forbidden in Hf. apply orb_true_iff in Hf as [Hf|Hf];
        apply bool_decide_eq_true in Hf; set_solver.
    + destruct (existsb cookie_forbidden value) eqn:Hv; [|done].
      apply existsb_exists in Hv as (c & Hc%list_elem_of_In & Hf). exists c. split; [by right|].
      apply bool_decide_eq_true in Hf. set_solver.
Qed.

Definition ctype_platform : Platform := {|
  parse_relative_ref t := Some (t, []); json_parse _ := None; json_serialize _ := []; beast_version := str "beast" |}.
Definition get_request (cookies : FieldList.t) : request FieldList.t :=
  mk_request verb_get (str "/") 11 cookies [].

Theorem set_cookie_no_injection_witness :
  let x := context_init (get_request []) response_empty (H0 := ctype_platform) in
  field_all (str "Set-Cookie") (rs_fields (cx_res (set_cookie (str "sid") (str "42") default_cookie_options x)))
    = [str "sid=42; Path=/; HttpOnly; SameSite=Lax"].
Proof.
  intros x. pose proof (set_cookie_no_injection (H1 := ctype_platform) (str "sid") (str "42") default_cookie_options x) as Hs.
  destruct Hs as (Hall & _). exact Hall.
Defined.

(** The attributes of [CookieOptions] are not checked the way key and value are. *)
Theorem set_cookie_option_unchecked :
  ∃ text, make_cookie (str "k") (str "v")
      (mk_cookie_options (-1) (str "/") (str "a" ++ [CR; LF] ++ str "X-Injected: 1") false false []) = Some text ∧
    find_str [CR; LF] text 0 ≠ None.
Proof. eexists. split; [reflexivity|]. by vm_compute. Qed.

(** ** Part headers *)
(** A header that opens the block is returned with its own name. *)
Theorem extract_first_header_keeps_name :
  extract_header_value (str "Content-Type: text/plain") (str "Content-Type") = str "Content-Type: text/plain" ∧
  extract_header_value (crlf ++ str "Content-Type: text/plain") (str "Content-Type") = str "text/plain".
Proof. by vm_compute. Qed.

(** ** Multipart bodies *)
Record part := mk_part { pt_name : bytes; pt_file : option (bytes * bytes); pt_data : bytes }.
Definition disposition_line (p : part) : bytes :=
  str "Content-Disposition: form-data; " ++ name_prefix ++ pt_name p ++ [DQ] ++
  match pt_file p with None => [] | Some (fn, _) => str "; " ++ filename_prefix ++ fn ++ [DQ] end.
Definition type_line (p : part) : bytes :=
  match pt_file p with None => [] | Some (_, ct) => crlf ++ str "Content-Type: " ++ ct end.
Definition part_header (p : part) : bytes := disposition_line p ++ type_line p.
Definition encode_part (full_boundary : bytes) (p : part) : bytes :=
  crlf ++ part_header p ++ crlf ++ crlf ++ pt_data p ++ crlf ++ full_boundary.
Definition encode_multipart (boundary : bytes) (ps : list part) : bytes :=
  let full := str "--" ++ boundary in full ++ concat (encode_part full <$> ps) ++ str "--".

(** What a client may put into a part: quoted names and file names without
    quotes or carriage returns, contents that do not contain the delimiter. *)
Definition quotable (s : bytes) : Prop := s ≠ [] ∧ DQ ∉ s ∧ CR ∉ s.
Definition valid_part (full_boundary : bytes) (p : part) : Prop :=
  quotable (pt_name p) ∧
  match pt_file p with None => True | Some (fn, ct) => quotable fn ∧ CR ∉ ct end ∧
  find_str_aux (crlf ++ full_boundary) (pt_data p) = None.
Definition store_part (m : multipart) (p : part) : multipart :=
  match pt_file p with
  | None => mk_multipart (<[pt_name p := pt_data p]> (mp_fields m)) (mp_files m)
  | Some (fn, ct) =>
      mk_multipart (mp_fields m)
        (<[pt_name p := default [] (mp_files m !! pt_name p) ++ [mk_file fn (trim ct) (pt_data p)]]> (mp_files m))
  end.

Lemma match_quoted_here prefix v t : quotable v → match_quoted prefix (prefix ++ v ++ DQ :: t) = Some (v, t).
Proof.
  intros (Hne & Hq & _). unfold match_quoted. rewrite starts_with_app, drop_app_length.
  rewrite find_index_here; [|apply Forall_forall; intros c Hc; apply bool_decide_eq_false; by intros ->|done].
  destruct v as [|c v]; [done|]. cbn [length take drop app]. rewrite take_app_length.
  do 2 f_equal. change (DQ :: t) with ([DQ] ++ t). rewrite (assoc_L (++)).
  apply drop_app_length'. rewrite length_app. simpl. lia.
Qed.
Lemma search_disposition_skip c s :
  starts_with name_prefix (c :: s) = false → search_disposition (c :: s) = search_disposition s.
Proof. intros Hs. cbn [search_disposition]. unfold match_quoted. by rewrite Hs. Qed.

Lemma search_disposition_line p : quotable (pt_name p) →
  match pt_file p with None => True | Some (fn, _) => quotable fn end →
  search_disposition (disposition_line p) = Some (pt_name p, fst <$> pt_file p).
Proof.
  intros Hn Hf. unfold disposition_line. generalize (pt_name p) Hn. intros name Hname.
  assert (∀ s, search_disposition (str "Content-Disposition: form-data; " ++ s) = search_disposition s) as ->.
  { intros s. unfold str. cbn [String.list_ascii_of_string app].
    by repeat (rewrite search_disposition_skip by reflexivity). }
  destruct (pt_file p) as [[fn ct]|].
  - cbn [app]. assert (∀ u, search_disposition (name_prefix ++ name ++ DQ :: u) = Some (name, match_filename u)) as ->.
    { intros u. destruct (name_prefix ++ name ++ DQ :: u) as [|c s] eqn:E; [done|]. cbn [search_disposition].
      rewrite <-E, match_quoted_here by done. done. }
    unfold str. cbn [String.list_ascii_of_string app match_filename]. rewrite bool_decide_eq_true_2 by done.
    change (drop_while isspace (" "%char :: filename_prefix ++ fn ++ [DQ])) with (filename_prefix ++ fn ++ [DQ]).
    by rewrite match_quoted_here.
  - destruct (name_prefix ++ name ++ [DQ] ++ []) as [|c s] eqn:E; [done|]. cbn [search_disposition].
    rewrite <-E. cbn [app]. by rewrite match_quoted_here.
Qed.

(** The lines of a part contain no carriage return of their own. *)
Lemma disposition_line_no_CR p : quotable (pt_name p) →
  match pt_file p with None => True | Some (fn, _) => quotable fn end → CR ∉ disposition_line p.
Proof.
  intros (_ & _ & Hn) Hf. unfold disposition_line. rewrite !not_elem_of_app. split_and!; try done.
  1-3: by apply line_safe_dec.
  destruct (pt_file p) as [[fn ct]|]; [|set_solver]. destruct Hf as (_ & _ & Hf).
  rewrite !not_elem_of_app. split_and!; try done; by apply line_safe_dec.
Qed.
Lemma disposition_line_trim p : trim (disposition_line p) = disposition_line p.
Proof.
  unfold trim, trim_by, disposition_line. rewrite drop_while_id by (cbn; intros c [= <-]; done).
  set (s := _ ++ _). assert (∃ u, s = u ++ [DQ]) as [u ->].
  { subst s. destruct (pt_file p) as [[fn ct]|]; [|rewrite app_nil_r];
      rewrite !(assoc_L (++)); eexists; reflexivity. }
  unfold drop_while_end. rewrite rev_app_distr, drop_while_id by (cbn; intros c [= <-]; done).
  by rewrite <-rev_app_distr, rev_involutive.
Qed.

Section part_header.
Context (p : part) (Hn : quotable (pt_name p))
  (Hf : match pt_file p with None => True | Some (fn, ct) => quotable fn ∧ CR ∉ ct end).
Lemma part_header_filename : match pt_file p with None => True | Some (fn, _) => quotable fn end.
Proof using Hf. destruct (pt_file p) as [[]|]; naive_solver. Qed.

Lemma extract_disposition : extract_header_value (part_header p) (str "Content-Disposition") = disposition_line p.
Proof using Hn Hf.
  pose proof (disposition_line_no_CR p Hn part_header_filename) as Hcr. unfold extract_header_value, part_header.
  rewrite find_str_0.
  assert (find_str_aux (crlf ++ str "Content-Disposition" ++ str ":") (disposition_line p ++ type_line p) = None) as ->.
  { unfold crlf. cbn [app]. rewrite find_str_aux_word by done. apply fmap_None. unfold type_line.
    destruct (pt_file p) as [[fn ct]|]; [|done]. destruct Hf as [_ Hct].
    cbn [app crlf]. rewrite find_str_aux_skip by reflexivity. apply fmap_None, find_str_aux_absent.
    apply not_elem_of_cons. split; [done|]. apply not_elem_of_app. split; [by apply line_safe_dec|done]. }
  rewrite (proj2 (starts_with_spec _ _)) by (eexists; unfold disposition_line; rewrite <-(assoc_L (++)); reflexivity).
  rewrite find_str_0, <-(disposition_line_trim p) at 1. rewrite (disposition_line_trim p).
  assert (find_str_aux crlf (disposition_line p ++ type_line p) =
    if bool_decide (type_line p = []) then None else Some (length (disposition_line p))) as ->.
  { unfold crlf at 1. rewrite find_str_aux_word by done. unfold type_line.
    destruct (pt_file p) as [[fn ct]|]; [|done].
    replace (find_str_aux [CR; LF] (crlf ++ str "Content-Type: " ++ ct)) with (Some 0) by reflexivity.
    rewrite bool_decide_eq_false_2 by done. cbn. f_equal. lia. }
  unfold substr_to. case_bool_decide as Ht.
  - rewrite drop_0, Ht, app_nil_r. apply disposition_line_trim.
  - rewrite drop_0, Nat.sub_0_r, take_app_length. apply disposition_line_trim.
Qed.

Lemma extract_type : extract_header_value (part_header p) (str "Content-Type") =
  match pt_file p with None => [] | Some (_, ct) => trim ct end.
Proof using Hn Hf.
  pose proof (disposition_line_no_CR p Hn part_header_filename) as Hcr. unfold extract_header_value, part_header.
  rewrite find_str_0. unfold crlf at 1. cbn [app].
  rewrite find_str_aux_word by done. unfold type_line. destruct (pt_file p) as [[fn ct]|] eqn:Hp.
  - destruct Hf as [_ Hct]. rewrite (assoc_L (++) (disposition_line p)).
    replace (find_str_aux (CR :: LF :: str "Content-Type" ++ str ":") (crlf ++ str "Content-Type: " ++ ct)) with (Some 0)
      by (unfold str; cbn; reflexivity). cbn [fmap option_fmap option_map]. rewrite Nat.add_0_r.
    replace (length (disposition_line p) + _) with (length (disposition_line p ++ crlf ++ str "Content-Type:"))
      by (rewrite length_app; done).
    replace (_ ++ _ ++ ct) with ((disposition_line p ++ crlf ++ str "Content-Type:") ++ SP :: ct)
      by (rewrite <-!(assoc_L (++)); reflexivity).
    rewrite find_str_at. change (find_str_aux crlf) with (find_str_aux [CR; LF]). rewrite (find_str_aux_absent CR [LF] (SP :: ct)) by set_solver.
    cbn. rewrite drop_app_length. reflexivity.
  - rewrite app_nil_r. cbn [find_str_aux starts_with fmap option_fmap option_map].
    unfold disposition_line, str. reflexivity.
Qed.
End part_header.

(** The end of a part's headers is the blank line it was given. *)
Lemma find_header_end p t : quotable (pt_name p) →
  match pt_file p with None => True | Some (fn, ct) => quotable fn ∧ CR ∉ ct end →
  find_str_aux (crlf ++ crlf) (crlf ++ part_header p ++ crlf ++ crlf ++ t) = Some (2 + length (part_header p)).
Proof.
  intros Hn Hf. pose proof (disposition_line_no_CR p Hn (part_header_filename p Hf)) as Hcr.
  assert (∀ w u, CR ∉ w → find_str_aux (crlf ++ crlf) (w ++ u) = Nat.add (length w) <$> find_str_aux (crlf ++ crlf) u) as Hword.
  { intros w u Hw. by apply (find_str_aux_word CR). }
  assert (find_str_aux (crlf ++ crlf) (crlf ++ crlf ++ t) = Some 0) as Hend by reflexivity.
  assert (∀ c w u, c ≠ CR → find_str_aux (crlf ++ crlf) (crlf ++ (c :: w) ++ u) =
    Nat.add 2 <$> find_str_aux (crlf ++ crlf) ((c :: w) ++ u)) as Hline.
  { intros c w u Hc. cbn [app crlf]. rewrite find_str_aux_skip.
    - rewrite find_str_aux_skip by reflexivity. by destruct (find_str_aux (CR :: LF :: crlf) (c :: w ++ u)).
    - cbn. rewrite (bool_decide_eq_false_2 (CR = c)) by done. by rewrite !andb_false_r. }
  assert (∃ w, disposition_line p = "C"%char :: w) as [w Hw] by (eexists; reflexivity).
  unfold part_header. rewrite Hw, <-(assoc_L (++)), Hline, <-Hw, Hword by done.
  unfold type_line. destruct (pt_file p) as [[fn ct]|].
  - destruct Hf as [_ Hct]. rewrite <-!(assoc_L (++)).
    assert (CR ∉ str "Content-Type: " ++ ct) as Hct'.
    { apply not_elem_of_app. split; [by apply line_safe_dec|done]. }
    rewrite (assoc_L (++) (str "Content-Type: ")).
    destruct (str "Content-Type: " ++ ct) as [|c v] eqn:E; [done|].
    rewrite Hline by (intros ->; set_solver). rewrite Hword, Hend by done. cbn. f_equal. rewrite length_app. simpl. lia.
  - cbn [app]. rewrite Hend. cbn. f_equal. rewrite app_nil_r. lia.
Qed.

Lemma add_part_store p m full : valid_part full p →
  add_part (disposition_line p) (part_header p) (pt_data p) m = store_part m p.
Proof.
  intros (Hn & Hf & _). unfold add_part, store_part.
  rewrite search_disposition_line by (done || by apply part_header_filename). rewrite extract_type by done.
  destruct Hn as (Hne & _). destruct (pt_file p) as [[fn ct]|]; cbn.
  - destruct Hf as [(Hfn & _) _]. by rewrite !bool_decide_eq_false_2.
  - by rewrite (bool_decide_eq_false_2 (pt_name p = [])).
Qed.

(** One iteration of the loop, at the start of an encoded part. *)
Lemma multipart_loop_part full p pre rest fuel m :
  CR ∉ full → valid_part full p →
  multipart_loop full (pre ++ encode_part full p ++ rest) (S fuel) (length pre) m =
    if bool_decide (take 2 rest = str "--") then store_part m p
    else multipart_loop full (pre ++ encode_part full p ++ rest) fuel (length (pre ++ encode_part full p)) (store_part m p).
Proof.
  intros Hfull Hv. destruct (Hv) as (Hn & Hf & Hd). cbn [multipart_loop].
  rewrite bool_decide_eq_false_2 by (rewrite !length_app; simpl; lia).
  set (B := pre ++ encode_part full p ++ rest).
  assert (B = pre ++ crlf ++ part_header p ++ crlf ++ crlf ++ (pt_data p ++ crlf ++ full ++ rest)) as HB1.
  { unfold B, encode_part. by rewrite <-!(assoc_L (++)). }
  assert (B = (pre ++ crlf ++ part_header p ++ crlf ++ crlf) ++ pt_data p ++ (crlf ++ full) ++ rest) as HB2.
  { rewrite HB1. by rewrite <-!(assoc_L (++)). }
  assert (B = (pre ++ crlf ++ part_header p ++ crlf ++ crlf ++ pt_data p ++ crlf) ++ full ++ rest) as HB3.
  { rewrite HB1. by rewrite <-!(assoc_L (++)). }
  rewrite HB1 at 1. rewrite find_str_at, find_header_end by done. cbn [fmap option_fmap option_map].
  replace (length pre + (2 + length (part_header p)) + 4) with
    (length (pre ++ crlf ++ part_header p ++ crlf ++ crlf)) by (rewrite !length_app; simpl; lia).
  rewrite HB2 at 1. change (crlf ++ full) with (CR :: (LF :: full)). rewrite find_str_here by (done || set_solver).
  replace (substr B (length pre) _) with (crlf ++ part_header p).
  2:{ unfold substr. rewrite HB1, drop_app_length, (assoc_L (++) crlf).
      rewrite take_app_length' by (rewrite length_app; simpl; lia). done. }
  change (strip_crlf (crlf ++ part_header p)) with (part_header p). rewrite extract_disposition by done.
  rewrite bool_decide_eq_false_2 by done.
  replace (substr B (length (pre ++ _)) _) with (pt_data p).
  2:{ unfold substr. rewrite HB2, drop_app_length. symmetry. apply take_app_length'. lia. }
  rewrite (add_part_store p m full) by done.
  replace (length (pre ++ crlf ++ part_header p ++ crlf ++ crlf) + length (pt_data p) + 2) with
    (length (pre ++ crlf ++ part_header p ++ crlf ++ crlf ++ pt_data p ++ crlf)) by (rewrite !length_app; simpl; lia).
  replace (substr B _ (length full + 2)) with (full ++ take 2 rest).
  2:{ unfold substr. rewrite HB3, drop_app_length, take_app_add. done. }
  rewrite (bool_decide_ext (full ++ take 2 rest = full ++ str "--") (take 2 rest = str "--"))
    by (split; [apply (app_inj_1 full full); done|by intros ->]).
  case_bool_decide; [done|]. f_equal. unfold encode_part. rewrite !length_app. simpl. lia.
Qed.

Lemma multipart_loop_parts full ps pre fuel m :
  CR ∉ full → Forall (valid_part full) ps → length ps < fuel →
  multipart_loop full (pre ++ concat (encode_part full <$> ps) ++ str "--") fuel (length pre) m =
    fold_left store_part ps m.
Proof.
  intros Hb Hv. revert pre fuel m. induction Hv as [|p ps Hp Hv IH]; intros pre [|fuel] m Hf; simpl in Hf; try lia.
  - cbn [fmap list_fmap concat app multipart_loop fold_left].
    case_bool_decide; [done|]. by rewrite find_str_at.
  - cbn [fmap list_fmap concat fold_left]. rewrite <-!(assoc_L (++)), multipart_loop_part by done.
    destruct ps as [|q ps].
    + cbn [fmap list_fmap concat app fold_left]. by rewrite bool_decide_eq_true_2.
    + rewrite bool_decide_eq_false_2 by done. rewrite (assoc_L (++) pre). apply IH. lia.
Qed.

Lemma encoded_parts_length full ps : length ps ≤ length (concat (encode_part full <$> ps)).
Proof.
  induction ps as [|p ps IH]; cbn [length fmap list_fmap concat]; [lia|].
  unfold encode_part at 1. rewrite !length_app. cbn [length crlf]. lia.
Qed.

(** C16: a multipart body built from any list of well-formed parts, under any
    boundary without carriage returns or quotes, is parsed back to exactly those
    fields and files (a repeated field keeps its last value, repeated files
    accumulate in order), for parts of any size and any binary content that
    does not contain the delimiter. *)
Theorem multipart_roundtrip boundary ps ct :
  CR ∉ boundary → Forall (valid_part (str "--" ++ boundary)) ps →
  contains (str "multipart/form-data") ct = true → multipart_boundary ct = Some boundary →
  multipart_parse (Some ct) (encode_multipart boundary ps) = fold_left store_part ps multipart_empty.
Proof.
  intros Hb Hv Hct Hbd. unfold multipart_parse. rewrite Hct, Hbd. unfold encode_multipart.
  rewrite find_str_0. set (full := str "--" ++ boundary).
  rewrite find_str_aux_app.
  cbn [Nat.add]. apply (multipart_loop_parts full ps full); [|done|].
  { apply not_elem_of_app. split; [by apply line_safe_dec|done]. }
  pose proof (encoded_parts_length full ps). rewrite !length_app. lia.
Qed.

Theorem multipart_roundtrip_witness :
  let ps := [mk_part (str "note") None (str "hello"); mk_part (str "doc") (Some (str "a.txt", str "text/plain")) (str "line1" ++ crlf ++ str "--line2")] in
  multipart_parse (Some (htm "multipart/form-data; boundary='xYz'")) (encode_multipart (str "xYz") ps)
    = fold_left store_part ps multipart_empty.
Proof.
  intros ps. apply multipart_roundtrip.
  - by apply line_safe_dec.
  - repeat constructor; try done; try (by apply line_safe_dec); try (intros Hx; by apply (bool_decide_eq_true_2 _) in Hx).
  - reflexivity.
  - reflexivity.
Defined.

(** The part loop terminates on every body, well formed or not: each
    iteration moves past a delimiter, so more iterations than the body has
    bytes never change the result. *)
Theorem multipart_loop_terminates full_boundary body extra pos m :
  multipart_loop full_boundary body (S (length body) + extra) pos m =
  multipart_loop full_boundary body (S (length body)) pos m.
Proof.
  assert (∀ fuel pos m, length body < fuel + pos →
    multipart_loop full_boundary body (fuel + extra) pos m = multipart_loop full_boundary body fuel pos m) as Hgen;
    [|apply Hgen; lia].
  induction fuel as [|fuel IH]; intros q w Hf; cbn [Nat.add].
  { destruct extra; cbn [multipart_loop]; [done|]. by rewrite bool_decide_eq_true_2 by lia. }
  cbn [multipart_loop]. case_bool_decide; [done|].
  destruct (find_str (crlf ++ crlf) body q) as [he|] eqn:Hhe; [|done].
  destruct (find_str (crlf ++ full_boundary) body (he + 4)) as [mk|] eqn:Hmk; [|done].
  apply find_str_Some in Hhe as [? _]. apply find_str_Some in Hmk as [? _].
  case_bool_decide; [apply IH; lia|]. case_bool_decide; [done|apply IH; lia].
Qed.
