(* ===== verification/TypedRoute.v ===== *)
(** * Handlers, exceptions and typed routes

    [exception/http_exception.hpp], [exception/exception_handler.hpp],
    [router/http_result.hpp], [router/route_parameter.hpp] and
    [router/typed_route.hpp]. Handlers are computations [M F A] on the context. *)
From S2P Require Import Prelude Text Numbers Http HttpContext.
Set Default Proof Using "Type*".

Definition ascii_lower (value : bytes) : bytes := tolower <$> value.

(** ** Response headers *)
Definition is_header_token_character (c : ascii) : bool :=
  isalnum c || bool_decide (c ∈ str "!#$%&'*+-.^_`|~").
Definition managed_headers : list bytes :=
  [str "content-length"; str "transfer-encoding"; str "connection"; str "keep-alive";
   str "proxy-connection"; str "te"; str "trailer"; str "upgrade"].
Definition forbidden_value_character (c : ascii) : bool :=
  ((code c <? 32)%N && negb (bool_decide (c = HT))) || (code c =? 127)%N.
Definition validate_response_header (name value : bytes) : outcome exn unit :=
  if bool_decide (name = []) || negb (forallb is_header_token_character name) then
    Throw (InvalidArgument (str "invalid HTTP response header name"))
  else if existsb forbidden_value_character value then
    Throw (InvalidArgument (str "invalid HTTP response header value"))
  else if bool_decide (ascii_lower name ∈ managed_headers) then
    Throw (InvalidArgument (str "HTTP framing and hop-by-hop headers are managed by khttpd"))
  else Ret tt.

(** [HttpResult<T>], its body already converted with [value_from]; [None] is
    [HttpResult<void>]. *)
Record HttpResult := mk_result {
  hr_status : status; hr_body : option json; hr_headers : list (bytes * bytes) }.
Definition result_header (name value : bytes) (r : HttpResult) : outcome exn HttpResult :=
  match validate_response_header name value with
  | Throw e => Throw e
  | Ret _ => Ret (mk_result (hr_status r) (hr_body r) (hr_headers r ++ [(name, value)]))
  end.
(** What a typed handler returns: a plain body or a result. *)
Inductive typed_response := PlainBody (body : json) | Result (r : HttpResult).

Section responses.
Context {F : Type} `{HttpFields F} `{Platform}.
Definition apply_headers (headers : list (bytes * bytes)) (x : ctx F) : ctx F :=
  fold_left (λ x h, set_header h.1 h.2 x) headers x.
Definition apply_typed_response (r : typed_response) : M F unit :=
  match r with
  | PlainBody body => _ ← doM (set_status status_ok); set_body_json body
  | Result (mk_result st (Some body) headers) =>
      _ ← doM (set_status st); _ ← set_body_json body; doM (apply_headers headers)
  | Result (mk_result st None headers) =>
      _ ← doM (set_status st); _ ← set_body [];
      _ ← doM (with_res (rs_on_fields (field_erase (str "Content-Type")))); doM (apply_headers headers)
  end.
(** [HttpException::apply] *)
Definition http_exception_apply (st : status) (body : json) (headers : list (bytes * bytes)) : M F unit :=
  _ ← doM (set_status st); _ ← set_body_json body; doM (apply_headers headers).
Definition write_error (st : status) (err_code message : bytes) : M F unit :=
  _ ← doM (set_status st);
  set_body_json (JObject [(str "code", JString err_code); (str "message", JString message)]).
Definition write_invalid_request_body : M F unit :=
  write_error status_bad_request (str "INVALID_REQUEST_BODY")
    (str "Request body must be valid JSON matching the expected schema").
Definition write_invalid_request_parameter (message : bytes) : M F unit :=
  write_error status_bad_request (str "INVALID_REQUEST_PARAMETER") message.
Definition write_internal_server_error : M F unit :=
  write_error status_internal_server_error (str "INTERNAL_SERVER_ERROR") (str "Internal server error").

(** ** Exception handlers

    [try_handle] rethrows the exception in a [try] whose [catch] clause selects
    the type; an exception thrown by the handler itself leaves the [try]. *)
Definition catch_handler (matches : exn → bool) (handle : exn → M F unit) (e : exn) : M F bool :=
  if matches e then handle e ≫= λ _, mret true else mret false.
Fixpoint dispatcher_try_handle (handlers : list (exn → M F bool)) (e : exn) : M F bool :=
  match handlers with
  | [] => mret false
  | h :: handlers => h e ≫= λ (handled : bool), if handled then mret true else dispatcher_try_handle handlers e
  end.
Definition typed_exception_mapper (matches : exn → bool) (mapper : exn → outcome exn typed_response)
    : exn → M F bool :=
  catch_handler matches (λ e, liftM (mapper e) ≫= apply_typed_response).
End responses.

(** ** Media types *)
Definition starts_at (pos : nat) (p s : bytes) : bool := bool_decide (substr s pos (length p) = p).
Definition is_json_media_type (content_type : bytes) : bool :=
  let content_type := match find_char ";"%char content_type 0 with
                      | Some semicolon => take semicolon content_type | None => content_type end in
  let media_type := ascii_lower (trim_by isspace content_type) in
  if bool_decide (trim_by isspace content_type = []) then false
  else
    let prefix := str "application/" in let suffix := str "+json" in
    bool_decide (media_type = str "application/json") ||
    (bool_decide (length prefix + length suffix < length media_type) &&
     starts_at 0 prefix media_type && starts_at (length media_type - length suffix) suffix media_type).

(** ** Parameter values *)
Inductive ptype := TString | TBool | TInt (signed : bool) (bits : N) | TOptional (t : ptype).
Inductive pvalue := VString (s : bytes) | VBool (b : bool) | VInt (z : Z) | VOptional (v : option pvalue) | VBody (j : json).

Definition int_min (signed : bool) (bits : N) : Z := if signed then - 2 ^ (Z.of_N bits - 1) else 0.
Definition int_max (signed : bool) (bits : N) : Z :=
  if signed then 2 ^ (Z.of_N bits - 1) - 1 else 2 ^ Z.of_N bits - 1.
(** [std::from_chars], base 10, consuming the whole text: an optional minus
    sign for signed types, digits, and a value that fits. *)
Definition from_chars_digits (signed : bool) (bits : N) (neg : bool) (digits : bytes) : option Z :=
  if bool_decide (digits ≠ []) && forallb isdigit digits then
    let v := Z.of_N (value_base 10 digits) in
    let z := if neg then (- v)%Z else v in
    if bool_decide (int_min signed bits ≤ z ≤ int_max signed bits)%Z then Some z else None
  else None.
Definition from_chars (signed : bool) (bits : N) (value : bytes) : option Z :=
  match value with
  | c :: t => if bool_decide (c = "-"%char) && signed then from_chars_digits signed bits true t
              else from_chars_digits signed bits false value
  | [] => None
  end.

Definition invalid_parameter (location name : bytes) : exn :=
  TypedParameterValidationError (str "Invalid " ++ location ++ str " parameter '" ++ name ++ str "'").
Fixpoint parse_parameter_value (t : ptype) (value location name : bytes) : outcome exn pvalue :=
  match t with
  | TOptional t =>
      match parse_parameter_value t value location name with
      | Ret v => Ret (VOptional (Some v)) | Throw e => Throw e
      end
  | TString => Ret (VString value)
  | TBool =>
      if bool_decide (value = str "true") then Ret (VBool true)
      else if bool_decide (value = str "false") then Ret (VBool false)
      else Throw (invalid_parameter location name)
  | TInt signed bits =>
      match from_chars signed bits value with
      | Some z => Ret (VInt z)
      | None => Throw (invalid_parameter location name)
      end
  end.

(** ** Route parameter descriptors *)
Inductive RouteParameterLocation := loc_path | loc_query.
#[export] Instance location_eq_dec : EqDecision RouteParameterLocation.
Proof. solve_decision. Defined.
Record RouteParameterDocumentation := mk_param_doc {
  pd_name : bytes; pd_location : RouteParameterLocation; pd_required : bool; pd_schema : json }.

(** [value_to] is the conversion of a [Body<T>]; [None] when it throws. *)
Inductive descriptor :=
| PathParam (t : ptype) (name : bytes) (schema : json)
| QueryParam (t : ptype) (name : bytes) (schema : json) (default_value : option pvalue)
| Body (value_to : json → option json) (schema : json).
Definition is_optional (t : ptype) : bool := match t with TOptional _ => true | _ => false end.

Section typed.
Context {F : Type} `{HttpFields F} `{Platform}.

Definition read_body (value_to : json → option json) (x : ctx F) : outcome exn json :=
  match get_header (str "Content-Type") x with
  | None => Throw TypedRequestValidationError
  | Some content_type =>
      if is_json_media_type content_type then
        match json_parse (body x) with
        | None => Throw TypedRequestValidationError
        | Some j => match value_to j with Some v => Ret v | None => Throw TypedRequestValidationError end
        end
      else Throw TypedRequestValidationError
  end.
Definition read_route_parameter (d : descriptor) : M F pvalue :=
  match d with
  | PathParam t name _ => λ x,
      match get_path_param name x with
      | None => (x, Throw (TypedParameterValidationError (str "Missing path parameter '" ++ name ++ str "'")))
      | Some value => (x, parse_parameter_value t value (str "path") name)
      end
  | QueryParam t name _ default_value => λ x,
      let '(value, x) := get_query_param name x in
      match value, default_value with
      | Some value, _ => (x, parse_parameter_value t value (str "query") name)
      | None, Some v => (x, Ret v)
      | None, None =>
          if is_optional t then (x, Ret (VOptional None))
          else (x, Throw (TypedParameterValidationError (str "Missing query parameter '" ++ name ++ str "'")))
      end
  | Body value_to _ => λ x, (x, VBody <$> read_body value_to x)
  end.

(** The descriptors are read as the arguments of one call, so in an order the
    language leaves unspecified; the values arrive in their own positions. *)
Fixpoint read_in_order (order : list nat) (ds : list descriptor) (acc : gmap nat pvalue) : M F (gmap nat pvalue) :=
  match order with
  | [] => mret acc
  | i :: order =>
      match ds !! i with
      | None => read_in_order order ds acc
      | Some d => read_route_parameter d ≫= λ v, read_in_order order ds (<[i := v]> acc)
      end
  end.
Definition collect (n : nat) (vs : gmap nat pvalue) : list pvalue := omap (λ i, vs !! i) (seq 0 n).

Record TypedRouteHandler := mk_typed {
  th_handler : M F unit;
  th_request_schema : option json;
  th_response_schema : option json;
  th_parameters : list RouteParameterDocumentation;
}.

Definition pvalue_json (v : pvalue) : option json :=
  match v with
  | VString s => Some (JString s) | VBool b => Some (JBool b) | VInt z => Some (JInt z)
  | VBody j => Some j | VOptional (Some (VString s)) => Some (JString s)
  | VOptional (Some (VBool b)) => Some (JBool b) | VOptional (Some (VInt z)) => Some (JInt z)
  | VOptional _ => None
  end.
(** [object::emplace]: an existing key keeps its value. *)
Definition json_emplace (key : bytes) (v : json) (j : json) : json :=
  match j with
  | JObject l => if bool_decide (key ∈ l.*1) then j else JObject (l ++ [(key, v)])
  | _ => j
  end.
Definition append_parameter_documentation (d : descriptor) : list RouteParameterDocumentation :=
  match d with
  | PathParam _ name schema => [mk_param_doc name loc_path true schema]
  | QueryParam t name schema default_value =>
      let schema := match default_value ≫= pvalue_json with
                    | Some v => json_emplace (str "default") v schema | None => schema end in
      [mk_param_doc name loc_query (negb (bool_decide (is_Some default_value)) && negb (is_optional t)) schema]
  | Body _ _ => []
  end.
Definition set_request_schema (schema : option json) (d : descriptor) : option json :=
  match d with Body _ s => Some s | _ => schema end.

Definition make_parameterized_typed_handler (order : list nat) (ds : list descriptor)
    (handler : list pvalue → M F typed_response) (response_schema : option json) : TypedRouteHandler :=
  mk_typed
    (read_in_order order ds ∅ ≫= λ vs,
     handler (collect (length ds) vs) ≫= λ r, apply_typed_response r)
    (fold_left set_request_schema ds None) response_schema (ds ≫= append_parameter_documentation).

Definition make_typed_handler (value_to : json → option json) (request_schema : json)
    (handler : json → M F typed_response) (response_schema : option json) : TypedRouteHandler :=
  mk_typed
    (λ x, match read_body value_to x with
          | Throw e => (x, Throw e)
          | Ret request => (handler request ≫= λ r, apply_typed_response r) x
          end)
    (Some request_schema) response_schema [].
End typed.
Arguments TypedRouteHandler : clear implicits.
