(* ===== verification/TypedRouteTheorems.v ===== *)
(** * Typed routes: properties

    Integer parameters are read exactly ([integer_parameter_exact]), a header
    that passes validation cannot break the message ([validated_header_safe]),
    the media type test is the documented one ([is_json_media_type_spec]), and
    binding the parameters does not depend on the order the compiler evaluates
    them in ([binding_order_irrelevant]). *)
From S2P Require Import Prelude Text Numbers Http HttpContext TypedRoute.
Set Default Proof Using "Type*".

(** ** Integers *)
Definition integer_text (signed : bool) (value : bytes) (z : Z) : Prop :=
  ∃ digits, digits ≠ [] ∧ Forall (λ c, isdigit c = true) digits ∧
    ((value = digits ∧ z = Z.of_N (value_base 10 digits)) ∨
     (signed = true ∧ value = "-"%char :: digits ∧ z = (- Z.of_N (value_base 10 digits))%Z)).

Lemma from_chars_digits_spec signed bits neg digits z :
  from_chars_digits signed bits neg digits = Some z ↔
  (digits ≠ [] ∧ Forall (λ c, isdigit c = true) digits) ∧
  z = (if neg then - Z.of_N (value_base 10 digits) else Z.of_N (value_base 10 digits))%Z ∧
  (int_min signed bits ≤ z ≤ int_max signed bits)%Z.
Proof.
  unfold from_chars_digits. rewrite <-forallb_Forall. cbv zeta.
  destruct (forallb isdigit digits); rewrite ?andb_true_r, ?andb_false_r; repeat case_bool_decide; split;
    try done; try naive_solver; intros (_ & -> & ?); done.
Qed.
Lemma from_chars_spec signed bits value z :
  from_chars signed bits value = Some z ↔
  integer_text signed value z ∧ (int_min signed bits ≤ z ≤ int_max signed bits)%Z.
Proof.
  unfold from_chars, integer_text. split.
  - destruct value as [|c t]; [done|]. destruct (bool_decide (c = "-"%char) && signed) eqn:Hc.
    + apply andb_true_iff in Hc as [->%bool_decide_eq_true ->].
      intros ((? & ?) & -> & ?)%from_chars_digits_spec. split; [|done]. exists t. split_and!; auto.
    + intros ((? & ?) & -> & ?)%from_chars_digits_spec. split; [|done]. eexists. split_and!; eauto.
  - intros [(digits & Hne & Hf & [[-> ->]|(-> & -> & ->)]) Hr].
    + destruct digits as [|c t]; [done|].
      assert (bool_decide (c = "-"%char) = false) as ->.
      { inversion Hf as [|?? Hc]; subst. apply bool_decide_eq_false. intros ->. by vm_compute in Hc. }
      cbn [andb]. by apply from_chars_digits_spec.
    + rewrite bool_decide_eq_true_2 by done. cbn [andb]. by apply from_chars_digits_spec.
Qed.

Lemma from_chars_to_dec signed bits z :
  (int_min signed bits ≤ z ≤ int_max signed bits)%Z → from_chars signed bits (to_dec_Z z) = Some z.
Proof.
  intros Hr. apply from_chars_spec. split; [|done]. unfold to_dec_Z. case_bool_decide as Hz.
  - exists (to_dec (Z.to_N (- z))). split_and!; [apply to_dec_nonempty|apply to_dec_digits|].
    right. split_and!; [|done|rewrite to_dec_value; lia].
    destruct signed; [done|]. unfold int_min in Hr. lia.
  - exists (to_dec (Z.to_N z)). split_and!; [apply to_dec_nonempty|apply to_dec_digits|].
    left. split; [done|]. rewrite to_dec_value. lia.
Qed.

(** An integral route parameter of any width and signedness is accepted
    exactly when the whole text is a decimal integer (with a minus sign only
    for signed types) in the range of the type, and then read as that number;
    every representable number survives printing and reading back; anything
    else is a validation error. *)
Theorem integer_parameter_exact signed bits value location name :
  (∀ z, parse_parameter_value (TInt signed bits) value location name = Ret (VInt z) ↔
     integer_text signed value z ∧ (int_min signed bits ≤ z ≤ int_max signed bits)%Z) ∧
  (∀ z, (int_min signed bits ≤ z ≤ int_max signed bits)%Z →
     parse_parameter_value (TInt signed bits) (to_dec_Z z) location name = Ret (VInt z)) ∧
  (∀ e, parse_parameter_value (TInt signed bits) value location name = Throw e →
     e = invalid_parameter location name ∧ ∀ z, ~ (integer_text signed value z ∧ (int_min signed bits ≤ z ≤ int_max signed bits)%Z)).
Proof.
  cbn [parse_parameter_value]. split_and!.
  - intros z. rewrite <-from_chars_spec. destruct (from_chars signed bits value); split; naive_solver.
  - intros z Hz. by rewrite from_chars_to_dec.
  - intros e. destruct (from_chars signed bits value) eqn:Hf; [done|]. intros [= <-].
    split; [done|]. intros z Hz%from_chars_spec. congruence.
Qed.

(** ** Response headers *)
Lemma validate_response_header_Ret name value :
  validate_response_header name value = Ret tt ↔
  name ≠ [] ∧ Forall (λ c, is_header_token_character c = true) name ∧
  Forall (λ c, forbidden_value_character c = false) value ∧ ascii_lower name ∉ managed_headers.
Proof.
  unfold validate_response_header. rewrite <-forallb_Forall.
  destruct (forallb is_header_token_character name); cbn [negb]; rewrite ?orb_true_r, ?orb_false_r;
    [|by split; [|naive_solver]].
  destruct (existsb forbidden_value_character value) eqn:Hv.
  - apply existsb_exists in Hv as (c & Hc%list_elem_of_In & Hf).
    case_bool_decide; split; try done; intros (_ & _ & Hall & _); rewrite Forall_forall in Hall;
      specialize (Hall c Hc); congruence.
  - assert (Forall (λ c, forbidden_value_character c = false) value).
    { apply Forall_forall. intros c Hc. apply not_true_is_false. intros Ht.
      apply not_true_iff_false in Hv. apply Hv, existsb_exists. exists c. split; [by apply list_elem_of_In|done]. }
    repeat case_bool_decide; split; naive_solver.
Qed.

(** C25: a header that [HttpResult::header] or [HttpException::header] accepts
    is a non-empty token name with a value free of CR, LF, NUL and the other
    control characters (tabs excepted), and never one of the framing and
    hop-by-hop headers in any letter case; so applying a result's headers leaves
    the message's framing fields as the framework set them. *)
Theorem validated_header_safe {F} `{HttpFieldsLaws F} name value r r' (x : ctx F) :
  result_header name value r = Ret r' →
  (name ≠ [] ∧ CR ∉ value ∧ LF ∉ value ∧ NUL ∉ value ∧ ":"%char ∉ name ∧ SP ∉ name) ∧
  hr_headers r' = hr_headers r ++ [(name, value)] ∧
  ∀ framing, framing ∈ [str "Connection"; str "Content-Length"; str "Transfer-Encoding"] →
    field_all framing (rs_fields (cx_res (set_header name value x))) = field_all framing (rs_fields (cx_res x)).
Proof.
  unfold result_header. destruct (validate_response_header name value) as [[]|] eqn:Hv; [|done].
  apply validate_response_header_Ret in Hv as (Hne & Hn & Hval & Hm). intros [= <-].
  rewrite Forall_forall in Hn, Hval. split_and!; try done.
  1-3: intros Hc%Hval; by vm_compute in Hc.
  1-2: intros Hc%Hn; by vm_compute in Hc.
  intros framing Hf. cbn. rewrite field_all_set.
  assert (ieq framing name = false) as ->; [|done].
  unfold ieq. apply bool_decide_eq_false. intros Heq. apply Hm. unfold ascii_lower. rewrite <-Heq.
  rewrite !elem_of_cons in Hf. destruct Hf as [->|[->|[->|Hf%elem_of_nil]]]; [..|done];
    apply list_elem_of_In; vm_compute; tauto.
Qed.

Theorem validated_header_safe_witness :
  let r := mk_result status_ok None [] in
  let x := context_init (mk_request verb_get (str "/") 11 [] []) response_empty
             (H0 := {| parse_relative_ref t := None; json_parse _ := None; json_serialize _ := []; beast_version := [] |}) in
  CR ∉ str "abc" ∧ field_all (str "Connection") (rs_fields (cx_res (set_header (str "X-Id") (str "abc") x))) =
    field_all (str "Connection") (rs_fields (cx_res x)).
Proof.
  intros r x.
  destruct (validated_header_safe (str "X-Id") (str "abc") r (mk_result status_ok None [(str "X-Id", str "abc")]) x)
    as (Hc & _ & Hf).
  - reflexivity.
  - split; [apply Hc|]. apply Hf. by left.
Defined.

(** ** Media types *)
(** A content type is accepted as JSON exactly when the part before the
    first ';', without surrounding white space and in lower case, is
    [application/json] or [application/<name>+json] with a non-empty name. *)
Theorem is_json_media_type_spec content_type :
  let media_type := ascii_lower (trim_by isspace (default content_type (head (split_on ";"%char content_type)))) in
  is_json_media_type content_type = true ↔
  media_type = str "application/json" ∨
  ∃ name, name ≠ [] ∧ media_type = str "application/" ++ name ++ str "+json".
Proof.
  intros media_type. unfold is_json_media_type.
  assert (match find_char ";"%char content_type 0 with Some n => take n content_type | None => content_type end
    = default content_type (head (split_on ";"%char content_type))) as ->.
  { destruct (find_char ";"%char content_type 0) as [n|] eqn:Hf.
    - apply find_char_Some in Hf as (_ & Hs & Hc). rewrite !drop_0, Nat.sub_0_r in Hs, Hc.
      rewrite Hs at 3. by rewrite split_on_app.
    - apply find_char_None in Hf. by rewrite split_on_word. }
  fold media_type. set (s := default content_type _) in media_type.
  assert (trim_by isspace s = [] → media_type = []) as Hnil by (unfold media_type, s; by intros ->).
  clearbody media_type. cbv zeta. case_bool_decide as He.
  { rewrite Hnil by done. split; [done|]. intros [?|(n & _ & ?)]; done. }
  rewrite orb_true_iff, !andb_true_iff, !bool_decide_eq_true. unfold starts_at, substr.
  rewrite !bool_decide_eq_true, drop_0. clear. apply or_iff_compat_l. split.
  - intros ((Hl & Hp) & Hs). set (p := str "application/") in *. set (q := str "+json") in *.
    exists (take (length media_type - length q - length p) (drop (length p) media_type)). split.
    + intros Hn. apply (f_equal length) in Hn. rewrite length_take, length_drop in Hn. cbn [length] in Hn. clearbody p q. lia.
    + set (k := length media_type - length q - length p).
      transitivity (take (length p) media_type ++ take k (drop (length p) media_type) ++ drop k (drop (length p) media_type));
        [by rewrite !take_drop|]. rewrite Hp. do 2 f_equal. rewrite drop_drop.
      transitivity (take (length q) (drop (length media_type - length q) media_type)); [|exact Hs].
      replace (length p + k) with (length media_type - length q) by (unfold k; lia).
      rewrite take_ge; [done|]. rewrite length_drop. lia.
  - intros (name & Hne & ->). rewrite !length_app. split_and!.
    + destruct name; [done|]. simpl. lia.
    + apply take_app_length.
    + replace (_ - _) with (length (str "application/" ++ name)) by (rewrite length_app; lia).
      by rewrite (assoc_L (++)), drop_app_length.
Qed.

(** ** Binding parameters *)
Section binding.
Context {F : Type} `{HttpFields F} `{Platform}.

(** What reading a descriptor gives on a request, whatever was read before. *)
Definition read_value (d : descriptor) (x : ctx F) : outcome exn pvalue := (read_route_parameter d x).2.
(** Two contexts that answer every read alike. *)
Definition same_reads (x y : ctx F) : Prop :=
  cx_req x = cx_req y ∧ cx_path_params x = cx_path_params y ∧
  url_parts (parse_url_components x) = url_parts (parse_url_components y).
Lemma read_route_parameter_reads d x :
  same_reads (read_route_parameter d x).1 x ∧
  ∀ y, same_reads x y → read_value d x = read_value d y.
Proof.
  assert (∀ z : ctx F, parse_url_components (parse_url_components z) = parse_url_components z) as Hidem.
  { intros z. unfold parse_url_components. by destruct (cx_url z) eqn:E; rewrite ?E. }
  assert (∀ z, same_reads (parse_url_components z) z) as Hsame.
  { intros z. unfold same_reads. rewrite Hidem. unfold parse_url_components. by destruct (cx_url z). }
  unfold read_value. destruct d as [t n sch|t n sch dv|conv sch]; cbn; unfold get_path_param, get_query_param.
  - split; [by destruct (_ !! _)|]. intros y (? & -> & ?). by destruct (_ !! _).
  - cbv zeta. split.
    + destruct (assoc_find _ _), dv; [apply Hsame..|]. destruct (is_optional t); apply Hsame.
    + intros y (_ & _ & ->). destruct (assoc_find _ _), dv; try done. by destruct (is_optional t).
  - split; [done|]. intros y (Hr & _). unfold read_body, get_header, body. by rewrite Hr.
Qed.
Lemma read_value_same d x y : same_reads x y → read_value d x = read_value d y.
Proof. apply read_route_parameter_reads. Qed.
#[local] Instance same_reads_equiv : Equivalence same_reads.
Proof.
  split.
  - done.
  - intros x y (? & ? & ?). by split_and!.
  - intros x y z (? & ? & ?) (? & ? & ?). split_and!; congruence.
Qed.

Lemma read_in_order_spec order ds acc x :
  match read_in_order order ds acc x with
  | (y, Ret vs) => same_reads y x ∧
      (∀ i d, i ∈ order → ds !! i = Some d → read_value d x = Ret (default (VBool false) (vs !! i)) ∧ is_Some (vs !! i)) ∧
      ∀ i, (i ∉ order ∨ ds !! i = None) → vs !! i = acc !! i
  | (y, Throw e) => same_reads y x ∧ ∃ i d, i ∈ order ∧ ds !! i = Some d ∧ read_value d x = Throw e
  end.
Proof.
  revert acc x. induction order as [|i order IH]; intros acc x; cbn [read_in_order].
  { cbn. split_and!; [done|set_solver|done]. }
  destruct (ds !! i) as [d|] eqn:Hd.
  2:{ specialize (IH acc x). destruct (read_in_order order ds acc x) as [y [vs|e]].
      - destruct IH as (Hs & Hr & Hk). split_and!; [done| |]; intros j.
        + intros d [->|Hj]%elem_of_cons Hdj; [congruence|by apply Hr].
        + rewrite not_elem_of_cons. intros [Hj|Hj]; apply Hk; tauto.
      - destruct IH as (Hs & j & d & ? & ? & ?). split; [done|]. exists j, d. rewrite elem_of_cons. tauto. }
  pose proof (read_route_parameter_reads d x) as [Hx _].
  unfold mbind, M_bind. destruct (read_route_parameter d x) as [x1 [v|e]] eqn:Hrd; cbn in Hx.
  - specialize (IH (<[i:=v]> acc) x1). destruct (read_in_order order ds (<[i:=v]> acc) x1) as [y [vs|e]].
    + destruct IH as (Hs & Hr & Hk). split_and!; [by trans x1| |]; intros j.
      * intros d' Hj Hd'. destruct (decide (j ∈ order)) as [Hin|Hout].
        { rewrite <-(read_value_same d' x1 x) by done. by apply Hr. }
        assert (j = i) as -> by set_solver. assert (d' = d) as -> by congruence.
        rewrite Hk, lookup_insert_eq by (by left). unfold read_value. by rewrite Hrd.
      * intros Hj. rewrite Hk by set_solver. apply lookup_insert_ne. set_solver.
    + destruct IH as (Hs & j & d' & ? & ? & He). split; [by trans x1|]. exists j, d'.
      split_and!; [set_solver|done|]. by rewrite <-(read_value_same d' x1 x).
  - split; [done|]. exists i, d. split_and!; [set_solver|done|]. unfold read_value. by rewrite Hrd.
Qed.
End binding.

Lemma omap_seq_map {A} (f : nat → option A) (l : list A) n :
  (∀ i v, l !! i = Some v → f (n + i) = Some v) → omap f (seq n (length l)) = l.
Proof.
  revert n. induction l as [|v l IH]; intros n Hf; [done|]. cbn [length seq omap list_omap].
  pose proof (Hf 0 v eq_refl) as Hv. rewrite Nat.add_0_r in Hv. rewrite Hv. f_equal.
  apply IH. intros i w Hi. rewrite <-(Hf (S i) w Hi). f_equal. lia.
Qed.

(** The parameters of a typed route are the arguments of one call, which
    C++ evaluates in any order: whatever order [order] the compiler picks, the
    handler runs iff every parameter reads successfully, and then on the same
    values in declaration order; otherwise the exception is that of one of the
    failing parameters and the handler does not run. *)
Theorem binding_order_irrelevant {F} `{HttpFields F} `{Platform} order ds (x : ctx F) :
  order ≡ₚ seq 0 (length ds) →
  match read_in_order order ds ∅ x with
  | (y, Ret vs) => same_reads y x ∧
      mapM (λ d, match read_value d x with Ret v => Some v | Throw _ => None end) ds = Some (collect (length ds) vs)
  | (y, Throw e) => same_reads y x ∧ ∃ d, d ∈ ds ∧ read_value d x = Throw e
  end.
Proof.
  intros Ho. pose proof (read_in_order_spec order ds ∅ x) as Hr.
  destruct (read_in_order order ds ∅ x) as [y [vs|e]].
  - destruct Hr as (Hs & Hv & _). split; [done|].
    assert (∀ i d, ds !! i = Some d → read_value d x = Ret (default (VBool false) (vs !! i)) ∧ is_Some (vs !! i)) as Hall.
    { intros i d Hd. apply Hv; [|done]. rewrite Ho, elem_of_seq. apply lookup_lt_Some in Hd. lia. }
    set (values := imap (λ i _, default (VBool false) (vs !! i)) ds).
    assert (collect (length ds) vs = values) as ->.
    { unfold collect. replace (seq 0 (length ds)) with (seq 0 (length values)) by (f_equal; apply length_imap).
      apply omap_seq_map. intros i v Hi. unfold values in Hi. rewrite list_lookup_imap in Hi.
      destruct (ds !! i) as [d|] eqn:Hd; simplify_eq/=. destruct (Hall i d Hd) as [_ [w ->]]. done. }
    apply mapM_Some, Forall2_same_length_lookup. split; [symmetry; apply length_imap|].
    intros i d v Hd Hi. unfold values in Hi. rewrite list_lookup_imap, Hd in Hi. simplify_eq/=.
    by rewrite (proj1 (Hall i d Hd)).
  - destruct Hr as (Hs & i & d & Hi & Hd & He). split; [done|]. exists d. split; [|done].
    by apply list_elem_of_lookup_2 in Hd.
Qed.

Theorem binding_order_irrelevant_witness :
  let ds := [QueryParam (TInt true 32) (str "page") JNull (Some (VInt 1)); QueryParam TBool (str "all") JNull None] in
  let p : Platform := {| parse_relative_ref t := Some (str "/", [(str "all", str "true")]);
    json_parse _ := None; json_serialize _ := []; beast_version := [] |} in
  let x := context_init (mk_request verb_get (str "/?all=true") 11 [] []) response_empty (H0 := p) in
  ∃ vs, (read_in_order [1; 0] ds ∅ x).2 = Ret vs ∧ collect 2 vs = [VInt 1; VBool true].
Proof.
  intros ds p x.
  assert ([1; 0] ≡ₚ seq 0 (length ds)) as Ho by (cbn; apply perm_swap).
  pose proof (binding_order_irrelevant [1; 0] ds x Ho) as Hb.
  destruct (read_in_order [1; 0] ds ∅ x) as [y [vs|e]] eqn:Hr.
  - exists vs. split; [done|]. destruct Hb as [_ Hb]. change (length ds) with 2 in Hb.
    assert (Some (collect 2 vs) = Some [VInt 1; VBool true]) as [= Hc] by (rewrite <-Hb; reflexivity). exact Hc.
  - vm_compute in Hr. discriminate.
Defined.
