(* ===== verification/HttpRouter.v ===== *)
(** * The HTTP router ([router/http_router.hpp], [router/http_router.cpp])

    The route table, its documentation records, interceptors and exception
    handlers are fields of one record; every member function is a definition
    on it. The table is kept sorted by [std::sort], of which only the contract
    [StdSort] is used. *)
From S2P Require Import Prelude Text Numbers PathPattern Http HttpContext TypedRoute.
Set Default Proof Using "Type*".

(** What the router calls outside the sources: the order of the verbs in a
    [std::map], and their names. *)
Class Verbs := {
  verb_rank : verb → N;
  verb_to_string : verb → bytes;
}.

(** ** [std::map<verb, H>] *)
Section verb_map.
Context `{Verbs} {A : Type}.
Fixpoint map_set (k : verb) (v : A) (m : list (verb * A)) : list (verb * A) :=
  match m with
  | [] => [(k, v)]
  | (k', v') :: t =>
      if bool_decide (k = k') then (k, v) :: t
      else if (verb_rank k <? verb_rank k')%N then (k, v) :: m
      else (k', v') :: map_set k v t
  end.
Fixpoint map_find (k : verb) (m : list (verb * A)) : option A :=
  match m with
  | [] => None
  | (k', v) :: t => if bool_decide (k = k') then Some v else map_find k t
  end.
End verb_map.

(** ** Records *)
Record RouteHeader := mk_route_header { rh_name : bytes; rh_description : bytes; rh_required : bool }.
Record RouteDocumentation := mk_doc {
  rd_summary : bytes; rd_description : bytes; rd_headers : list RouteHeader;
  rd_request_schema : option json; rd_response_schema : option json }.
Definition empty_doc : RouteDocumentation := mk_doc [] [] [] None None.
Record RouteDescriptor := mk_descriptor {
  de_path : bytes; de_method : verb; de_request_schema : option json; de_response_schema : option json;
  de_documentation : RouteDocumentation; de_parameters : list RouteParameterDocumentation }.

Section router.
Context {F : Type} `{HttpFields F} `{Platform} `{Verbs}.
Abbreviation handler := (M F unit).

Record RouteEntry := mk_entry {
  re_path : bytes;
  re_regex : regex;
  re_params : list bytes;
  re_handlers : list (verb * handler);
  re_async : list (verb * handler);
  re_stream : list (verb * handler);
  re_literals : Z;
  re_dynamics : Z;
}.
Definition specificity (e : RouteEntry) : Z * Z := (re_literals e, re_dynamics e).
Definition more_specific (a b : RouteEntry) : bool := compare_specificity (specificity a) (specificity b).

Inductive InterceptorResult := Continue | Stop.
(** [async_handle_request] either completes with a result or throws before it. *)
Record Interceptor := mk_interceptor {
  ic_request : M F InterceptorResult;
  ic_async_request : M F InterceptorResult;
  ic_response : handler;
}.
(** The default of [Interceptor::async_handle_request]. *)
Definition sync_interceptor (req : M F InterceptorResult) (res : handler) : Interceptor :=
  mk_interceptor req req res.

Record HttpRouter := mk_router {
  rt_routes : list RouteEntry;
  rt_descriptors : list RouteDescriptor;
  rt_base_path : bytes;
  rt_interceptors : list Interceptor;
  rt_exception_handlers : list (exn → M F bool);
  rt_unknown : option handler;
  rt_not_found : option handler;
  rt_method_not_allowed : option handler;
}.
Definition router_init : HttpRouter := mk_router [] [] [] [] [] None None None.
Definition with_table (routes : list RouteEntry) (ds : list RouteDescriptor) (r : HttpRouter) : HttpRouter :=
  mk_router routes ds (rt_base_path r) (rt_interceptors r) (rt_exception_handlers r) (rt_unknown r)
    (rt_not_found r) (rt_method_not_allowed r).

(** ** Base path *)
Definition set_base_path (path : bytes) (r : HttpRouter) : outcome exn HttpRouter :=
  if match path with [] => false | c :: _ => negb (bool_decide (c = "/"%char)) end then
    Throw (InvalidArgument (str "router base path must start with '/'"))
  else
    let path := match path with
                | [] => []
                | c :: t => c :: drop_while_end (λ c, bool_decide (c = "/"%char)) t
                end in
    let base := if bool_decide (path = str "/") then [] else path in
    Ret (mk_router (rt_routes r) (rt_descriptors r) base (rt_interceptors r) (rt_exception_handlers r)
           (rt_unknown r) (rt_not_found r) (rt_method_not_allowed r)).
Definition apply_base_path (r : HttpRouter) (path : bytes) : outcome exn bytes :=
  if bool_decide (rt_base_path r = []) then Ret path
  else match path with
       | c :: _ =>
           if bool_decide (c = "/"%char)
           then Ret (rt_base_path r ++ (if bool_decide (path = str "/") then [] else path))
           else Throw (InvalidArgument (str "route path must start with '/'"))
       | [] => Throw (InvalidArgument (str "route path must start with '/'"))
       end.

(** ** Documentation records *)
Definition same_route (path : bytes) (method : verb) (d : RouteDescriptor) : bool :=
  bool_decide (de_path d = path) && bool_decide (de_method d = method).
Definition has_content (doc : RouteDocumentation) : bool :=
  bool_decide (rd_summary doc ≠ []) || bool_decide (rd_description doc ≠ []) || bool_decide (rd_headers doc ≠ [])
  || bool_decide (is_Some (rd_request_schema doc)) || bool_decide (is_Some (rd_response_schema doc)).
Fixpoint update_descriptor (path : bytes) (method : verb) (g : RouteDescriptor → RouteDescriptor)
    (ds : list RouteDescriptor) : option (list RouteDescriptor) :=
  match ds with
  | [] => None
  | d :: ds => if same_route path method d then Some (g d :: ds)
               else cons d <$> update_descriptor path method g ds
  end.
Definition record_route_descriptor (path : bytes) (method : verb) (request_schema response_schema : option json)
    (doc : RouteDocumentation) (parameters : list RouteParameterDocumentation) (ds : list RouteDescriptor) :=
  let request_schema := match rd_request_schema doc with Some s => Some s | None => request_schema end in
  let response_schema := match rd_response_schema doc with Some s => Some s | None => response_schema end in
  let refresh d := mk_descriptor (de_path d) (de_method d) request_schema response_schema
                     (if has_content doc then doc else de_documentation d) parameters in
  match update_descriptor path method refresh ds with
  | Some ds => ds
  | None => ds ++ [mk_descriptor path method request_schema response_schema doc parameters]
  end.
Definition erase_descriptor (path : bytes) (method : verb) (ds : list RouteDescriptor) : list RouteDescriptor :=
  filter (λ d, same_route path method d = false) ds.
Definition document_route (path : bytes) (method : verb) (doc : RouteDocumentation) (r : HttpRouter) : outcome exn HttpRouter :=
  match update_descriptor path method (λ d, mk_descriptor (de_path d) (de_method d) (de_request_schema d)
      (de_response_schema d) doc (de_parameters d)) (rt_descriptors r) with
  | Some ds => Ret (with_table (rt_routes r) ds r)
  | None => Throw (InvalidArgument (str "Cannot document an unregistered route: " ++ path))
  end.

(** ** Registration *)
Fixpoint update_entry (path : bytes) (g : RouteEntry → RouteEntry) (es : list RouteEntry) : option (list RouteEntry) :=
  match es with
  | [] => None
  | e :: es => if bool_decide (re_path e = path) then Some (g e :: es) else cons e <$> update_entry path g es
  end.
Definition new_entry (path : bytes) : outcome exn RouteEntry :=
  let pp := http_parse_path_pattern path in
  match compile_regex (pp_regex_str pp) with
  | None => Throw (StdException (str "regex_error"))
  | Some re => Ret (mk_entry path re (pp_param_names pp) [] [] [] (pp_literal_segments pp) (pp_dynamic_segments pp))
  end.
Definition set_handler (m : verb) (h : handler) (e : RouteEntry) : RouteEntry :=
  mk_entry (re_path e) (re_regex e) (re_params e) (map_set m h (re_handlers e)) (re_async e) (re_stream e) (re_literals e) (re_dynamics e).
Definition set_async (m : verb) (h : handler) (e : RouteEntry) : RouteEntry :=
  mk_entry (re_path e) (re_regex e) (re_params e) (re_handlers e) (map_set m h (re_async e)) (re_stream e) (re_literals e) (re_dynamics e).
Definition set_stream (m : verb) (h : handler) (e : RouteEntry) : RouteEntry :=
  mk_entry (re_path e) (re_regex e) (re_params e) (re_handlers e) (re_async e) (map_set m h (re_stream e)) (re_literals e) (re_dynamics e).

Section registration.
Context (sort : list RouteEntry → list RouteEntry).
(** The loop over the table and the insertion of a new entry. *)
Definition install (path : bytes) (g : RouteEntry → RouteEntry) (es : list RouteEntry) : outcome exn (list RouteEntry) :=
  match update_entry path g es with
  | Some es => Ret es
  | None => e ← new_entry path; Ret (sort (es ++ [g e]))
  end.
Definition add_route (path_pattern : bytes) (method : verb) (h : handler) (request_schema response_schema : option json)
    (documented : bool) (doc : RouteDocumentation) (parameters : list RouteParameterDocumentation) (r : HttpRouter)
    : outcome exn HttpRouter :=
  registered_path ← apply_base_path r path_pattern;
  let ds := if documented
            then record_route_descriptor registered_path method request_schema response_schema doc parameters (rt_descriptors r)
            else erase_descriptor registered_path method (rt_descriptors r) in
  routes ← install registered_path (set_handler method h) (rt_routes r);
  Ret (with_table routes ds r).
Definition stream (path_pattern : bytes) (method : verb) (h : handler) (r : HttpRouter) : outcome exn HttpRouter :=
  registered_path ← apply_base_path r path_pattern;
  let ds := record_route_descriptor registered_path method None None empty_doc [] (rt_descriptors r) in
  routes ← install registered_path (set_stream method h) (rt_routes r);
  Ret (with_table routes ds r).
Definition async_route (path_pattern : bytes) (method : verb) (h : handler) (r : HttpRouter) : outcome exn HttpRouter :=
  registered_path ← apply_base_path r path_pattern;
  let ds := record_route_descriptor registered_path method None None empty_doc [] (rt_descriptors r) in
  routes ← install registered_path (set_async method h) (rt_routes r);
  Ret (with_table routes ds r).

(** The checks of the typed overloads, parameter by parameter. *)
Fixpoint check_parameters (path_pattern : bytes) (names : list bytes)
    (previous : list RouteParameterDocumentation) (ps : list RouteParameterDocumentation) : outcome exn unit :=
  match ps with
  | [] => Ret tt
  | p :: ps =>
      if bool_decide (pd_name p = []) then Throw (InvalidArgument (str "Typed route parameter names cannot be empty"))
      else if bool_decide (pd_location p = loc_path) && negb (bool_decide (pd_name p ∈ names)) then
        Throw (InvalidArgument (str "Path parameter '" ++ pd_name p ++ str "' is not present in route " ++ path_pattern))
      else if existsb (λ q, bool_decide (pd_location q = pd_location p) && bool_decide (pd_name q = pd_name p)) previous then
        Throw (InvalidArgument (str "Duplicate typed route parameter '" ++ pd_name p ++ str "'"))
      else check_parameters path_pattern names (previous ++ [p]) ps
  end.
Definition add_typed_route (path_pattern : bytes) (method : verb) (h : TypedRouteHandler F) (doc : RouteDocumentation)
    (r : HttpRouter) : outcome exn HttpRouter :=
  let pp := http_parse_path_pattern path_pattern in
  match compile_regex (pp_regex_str pp) with
  | None => Throw (StdException (str "regex_error"))
  | Some _ =>
      check_parameters path_pattern (pp_param_names pp) [] (th_parameters h) ≫= λ _,
      add_route path_pattern method (th_handler h) (th_request_schema h) (th_response_schema h) true doc (th_parameters h) r
  end.

(** The overloads of [get]/[post]/[put]/[del]/[options]. *)
Definition register (method : verb) (path : bytes) (h : handler) (doc : RouteDocumentation) (r : HttpRouter) :=
  add_route path method h None None true doc [] r.
Definition get (path : bytes) (h : handler) (r : HttpRouter) := add_route path verb_get h None None true empty_doc [] r.
Definition post (path : bytes) (h : handler) (r : HttpRouter) := add_route path verb_post h None None true empty_doc [] r.
Definition put (path : bytes) (h : handler) (r : HttpRouter) := add_route path verb_put h None None true empty_doc [] r.
Definition del (path : bytes) (h : handler) (r : HttpRouter) := add_route path verb_delete h None None true empty_doc [] r.
Definition options (path : bytes) (h : handler) (r : HttpRouter) := add_route path verb_options h None None true empty_doc [] r.
End registration.

(** ** Handlers and hooks of the router *)
Definition with_hooks (ics : list Interceptor) (ehs : list (exn → M F bool)) (u nf mna : option handler) (r : HttpRouter) :=
  mk_router (rt_routes r) (rt_descriptors r) (rt_base_path r) ics ehs u nf mna.
Definition add_interceptor (i : Interceptor) (r : HttpRouter) : HttpRouter :=
  with_hooks (rt_interceptors r ++ [i]) (rt_exception_handlers r) (rt_unknown r) (rt_not_found r) (rt_method_not_allowed r) r.
Definition add_exception_handler (h : exn → M F bool) (r : HttpRouter) : HttpRouter :=
  with_hooks (rt_interceptors r) (rt_exception_handlers r ++ [h]) (rt_unknown r) (rt_not_found r) (rt_method_not_allowed r) r.
Definition set_unknown_exception_handler (h : option handler) (r : HttpRouter) : HttpRouter :=
  with_hooks (rt_interceptors r) (rt_exception_handlers r) h (rt_not_found r) (rt_method_not_allowed r) r.
Definition set_not_found_handler (h : option handler) (r : HttpRouter) : HttpRouter :=
  with_hooks (rt_interceptors r) (rt_exception_handlers r) (rt_unknown r) h (rt_method_not_allowed r) r.
Definition set_method_not_allowed_handler (h : option handler) (r : HttpRouter) : HttpRouter :=
  with_hooks (rt_interceptors r) (rt_exception_handlers r) (rt_unknown r) (rt_not_found r) h r.

(** ** Exceptions *)
Definition reset_exception_response (x : ctx F) : ctx F :=
  with_res (λ _, rs_set (str "Server") beast_version
    (rs_keep_alive (rq_keep_alive (cx_req x)) (rs_set_version (rq_version (cx_req x)) response_empty))) x.
Definition handle_unknown_exception (r : HttpRouter) : handler :=
  match rt_unknown r with Some h => h | None => write_internal_server_error end.
(** The registered handlers, in order; a handler that throws gives the 500 page. *)
Fixpoint try_handlers (hs : list (exn → M F bool)) (e : exn) : M F bool :=
  match hs with
  | [] => mret false
  | h :: hs => λ x,
      match h e x with
      | (x, Ret true) => (x, Ret true)
      | (x, Ret false) => try_handlers hs e x
      | (x, Throw _) => (write_internal_server_error ≫= λ _, mret true) x
      end
  end.
Definition default_exception_page (r : HttpRouter) (e : exn) : handler :=
  match e with
  | TypedParameterValidationError what => write_invalid_request_parameter what
  | TypedRequestValidationError => write_invalid_request_body
  | _ => if is_std_exception e then write_internal_server_error else handle_unknown_exception r
  end.
(** [None] is a null [exception_ptr]. *)
Definition handle_exception (r : HttpRouter) (eptr : option exn) : handler := λ x,
  let x := reset_exception_response x in
  match eptr with
  | None => handle_unknown_exception r x
  | Some (HttpException st body headers) => http_exception_apply st body headers x
  | Some e =>
      (try_handlers (rt_exception_handlers r) e ≫= λ (handled : bool),
       if handled then mret tt else default_exception_page r e) x
  end.

(** ** Error pages *)
Definition escape_char (c : ascii) : bytes :=
  if bool_decide (c = "&"%char) then str "&amp;"
  else if bool_decide (c = "<"%char) then str "&lt;"
  else if bool_decide (c = ">"%char) then str "&gt;"
  else if bool_decide (c = DQ) then str "&quot;"
  else if bool_decide (c = "'"%char) then str "&#39;"
  else [c].
Definition escape_html (value : bytes) : bytes := value ≫= escape_char.

(** The page is a fixed template with four holes; its style sheet and markup
    ([page_parts]) carry no logic. *)
Record page_parts := mk_page { pg_1 : bytes; pg_2 : bytes; pg_3 : bytes; pg_4 : bytes; pg_5 : bytes; pg_6 : bytes; pg_7 : bytes; pg_8 : bytes; pg_9 : bytes }.
Context (page : page_parts).
Definition make_html_error_page (st : status) (title message detail : bytes) : bytes :=
  let s := to_dec st in
  pg_1 page ++ s ++ pg_2 page ++ escape_html title ++ pg_3 page ++ s ++ pg_4 page ++ s ++ pg_5 page
  ++ escape_html title ++ pg_6 page ++ escape_html message ++ pg_7 page ++ escape_html detail ++ pg_8 page ++ s ++ pg_9 page.

Definition handle_not_found (r : HttpRouter) : handler := λ x,
  let x := set_status status_not_found x in
  let '(p, x) := path x in
  match rt_not_found r with
  | Some h => h x
  | None =>
      let x := set_content_type (str "text/html") x in
      set_body (make_html_error_page 404 (str "Page not found") (str "The requested resource could not be found.") p) x
  end.
Fixpoint join (sep : bytes) (l : list bytes) : bytes :=
  match l with [] => [] | [w] => w | w :: l => w ++ sep ++ join sep l end.
Definition handle_method_not_allowed (r : HttpRouter) (allowed_methods : list (verb * handler)) : handler := λ x,
  let x := set_status status_method_not_allowed x in
  let x := set_header (str "Allow") (join (str ", ") (verb_to_string <$> allowed_methods.*1)) x in
  let '(p, x) := path x in
  match rt_method_not_allowed r with
  | Some h => h x
  | None =>
      let x := set_content_type (str "text/html") x in
      set_body (make_html_error_page 405 (str "Method Not Allowed")
        (str "The request method is not allowed for this resource.") (verb_to_string (method x) ++ str " " ++ p)) x
  end.

(** ** Dispatch *)
(** [params[names[i]] = matches[i + 1]], for the groups there are. *)
Definition bind_params (names caps : list bytes) : gmap bytes bytes :=
  fold_left (λ m nv, <[nv.1 := nv.2]> m) (zip names caps) ∅.
Definition find_or_get (m : verb) (hs : list (verb * handler)) : option handler :=
  match map_find m hs with
  | Some h => Some h
  | None => if bool_decide (m = verb_head) then map_find verb_get hs else None
  end.

(** [handled] is what the loop returns once a route has answered. *)
Fixpoint dispatch_routes {A} (r : HttpRouter) (es : list RouteEntry) (request_path : bytes) (request_method : verb)
    (handled : A) (fallback : M F A) : M F A :=
  match es with
  | [] => fallback
  | e :: es =>
      match regex_match (re_regex e) request_path with
      | None => dispatch_routes r es request_path request_method handled fallback
      | Some caps =>
          match find_or_get request_method (re_handlers e) with
          | Some h =>
              doM (set_path_params (bind_params (re_params e) caps)) ≫= λ _,
              tryM h (λ ex, handle_exception r (Some ex)) ≫= λ _, mret handled
          | None =>
              if bool_decide (request_method ≠ verb_get) && bool_decide (request_method ≠ verb_head)
              then handle_method_not_allowed r (re_handlers e) ≫= λ _, mret handled
              else dispatch_routes r es request_path request_method handled fallback
          end
      end
  end.
(** [static_file_fun] tells whether it produced a file. *)
Definition dispatch (r : HttpRouter) (static_file_fun : option (M F bool)) : M F bool := λ x,
  let '(request_path, x) := path x in
  let request_method := method x in
  let not_found := handle_not_found r ≫= λ _, mret false in
  let fallback := match static_file_fun with
                  | None => not_found
                  | Some f => f ≫= λ (served : bool), if served then mret true else not_found
                  end in
  dispatch_routes r (rt_routes r) request_path request_method true fallback x.

Fixpoint dispatch_first (pick : RouteEntry → option handler) (es : list RouteEntry) (p : bytes) : M F bool :=
  match es with
  | [] => mret false
  | e :: es =>
      match regex_match (re_regex e) p with
      | None => dispatch_first pick es p
      | Some caps =>
          match pick e with
          | None => mret false
          | Some h => doM (set_path_params (bind_params (re_params e) caps)) ≫= λ _, h ≫= λ _, mret true
          end
      end
  end.
Definition dispatch_async (r : HttpRouter) : M F bool := λ x,
  let '(p, x) := path x in
  dispatch_first (λ e, find_or_get (method x) (re_async e)) (rt_routes r) p x.
Definition dispatch_stream (r : HttpRouter) : M F bool := λ x,
  let '(p, x) := path x in
  dispatch_first (λ e, map_find (method x) (re_stream e)) (rt_routes r) p x.
Fixpoint is_stream_route (es : list RouteEntry) (p : bytes) (m : verb) : bool :=
  match es with
  | [] => false
  | e :: es =>
      match regex_match (re_regex e) p with
      | None => is_stream_route es p m
      | Some _ => bool_decide (is_Some (map_find m (re_stream e)))
      end
  end.

(** ** Interceptors *)
Fixpoint run_pre (ics : list Interceptor) : M F InterceptorResult :=
  match ics with
  | [] => mret Continue
  | i :: ics => ic_request i ≫= λ res, match res with Stop => mret Stop | Continue => run_pre ics end
  end.
Definition run_pre_interceptors (r : HttpRouter) : M F InterceptorResult := run_pre (rt_interceptors r).
Fixpoint run_post (ics : list Interceptor) : handler :=
  match ics with [] => mret tt | i :: ics => ic_response i ≫= λ _, run_post ics end.
Definition run_post_interceptors (r : HttpRouter) : handler := run_post (rev (rt_interceptors r)).
(** [State::advance]: an interceptor that throws is answered with its exception
    page, and the chain stops. *)
Fixpoint advance (r : HttpRouter) (ics : list Interceptor) : M F InterceptorResult :=
  match ics with
  | [] => mret Continue
  | i :: ics => λ x,
      match ic_async_request i x with
      | (x, Ret Stop) => (x, Ret Stop)
      | (x, Ret Continue) => advance r ics x
      | (x, Throw e) => (handle_exception r (Some e) ≫= λ _, mret Stop) x
      end
  end.
Definition async_run_pre_interceptors (r : HttpRouter) : M F InterceptorResult := advance r (rt_interceptors r).
End router.
Arguments RouteEntry : clear implicits.
Arguments HttpRouter : clear implicits.
Arguments Interceptor : clear implicits.
