(* ===== verification/HttpRouterTheorems.v ===== *)
(** * The HTTP router: properties

    The route table stays well formed under every registration and behaves as
    a map from (path, method) to handlers ([registration_is_insertion]). What
    dispatch does with the table is in [HttpDispatch]. *)
From S2P Require Import Prelude Text Numbers PathPattern PathPatternProofs Http HttpContext TypedRoute HttpRouter.
Set Default Proof Using "Type*".

(** ** Sorted verb maps *)
Section verb_map.
Context `{Verbs} {A : Type}.
Implicit Types (m : list (verb * A)).
Lemma map_find_set k v m k' : map_find k' (map_set k v m) = if bool_decide (k' = k) then Some v else map_find k' m.
Proof.
  induction m as [|[k1 v1] m IH]; cbn [map_set map_find].
  - by repeat case_bool_decide.
  - destruct (decide (k = k1)) as [->|Hk].
    + rewrite (bool_decide_eq_true_2 (k1 = k1)) by done. cbn [map_find]. by repeat case_bool_decide.
    + rewrite (bool_decide_eq_false_2 (k = k1)) by done. destruct (_ <? _)%N; cbn [map_find].
      * repeat case_bool_decide; naive_solver.
      * rewrite IH. repeat case_bool_decide; naive_solver.
Qed.
Lemma map_find_keys k m : is_Some (map_find k m) ↔ k ∈ m.*1.
Proof.
  induction m as [|[k1 v1] m IH]; cbn; [by rewrite elem_of_nil; split; [intros []|]|].
  rewrite elem_of_cons. case_bool_decide; naive_solver.
Qed.
End verb_map.

Section router.
Context {F : Type} `{HttpFields F} `{Platform} `{Verbs}.
Implicit Types (e : RouteEntry F) (es : list (RouteEntry F)) (r : HttpRouter F) (x : ctx F).

(** ** Well-formed route tables *)
Definition entry_ok e : Prop :=
  let pp := http_parse_path_pattern (re_path e) in
  compile_regex (pp_regex_str pp) = Some (re_regex e) ∧ re_params e = pp_param_names pp ∧
  re_literals e = pp_literal_segments pp ∧ re_dynamics e = pp_dynamic_segments pp.
(** No entry is placed after a strictly less specific one. *)
Definition table_ok (es : list (RouteEntry F)) : Prop :=
  NoDup (re_path <$> es) ∧ Forall entry_ok es ∧ StronglySorted (λ a b, more_specific b a = false) es.

(** The paths a route pattern stands for, with the parameter values. *)
Definition route_matches (pattern p : bytes) (values : list bytes) : Prop :=
  let '(l, tail) := params_of match_http_param pattern in pattern_matches l tail p values.

Lemma entry_matches e p :
  entry_ok e →
  match regex_match (re_regex e) p with
  | Some caps => route_matches (re_path e) p caps ∧ length caps = length (re_params e) ∧
      ∀ caps', route_matches (re_path e) p caps' → longer_eq caps caps'
  | None => ∀ caps, ~ route_matches (re_path e) p caps
  end.
Proof.
  unfold entry_ok, route_matches, http_parse_path_pattern.
  destruct (params_of match_http_param (re_path e)) as [l tail]. cbn. intros (Hre & Hp & _).
  rewrite compile_pattern in Hre. injection Hre as <-. pose proof (regex_match_spec l tail p) as Hs.
  destruct (regex_match _ p); [|done]. destruct Hs as [Hs Hg]. split_and!; [done| |done].
  rewrite Hp, length_fmap. by eapply pattern_matches_length.
Qed.

Lemma new_entry_ok path : ∃ e, new_entry (F := F) path = Ret e ∧ re_path e = path ∧ entry_ok e ∧
  re_handlers e = [] ∧ re_async e = [] ∧ re_stream e = [].
Proof.
  unfold new_entry, entry_ok. destruct (compile_path_regex (PathCompiler := http_path_compiler) path) as (re & Hre & _).
  cbn in Hre. rewrite Hre. eexists. split; [reflexivity|]. cbn. rewrite Hre. by split_and!.
Qed.

(** An update that leaves path, expression and specificity alone. *)
Definition keeps_route (g : RouteEntry F → RouteEntry F) : Prop :=
  ∀ e, re_path (g e) = re_path e ∧ re_regex (g e) = re_regex e ∧ re_params (g e) = re_params e ∧
    re_literals (g e) = re_literals e ∧ re_dynamics (g e) = re_dynamics e.
Lemma keeps_route_ok g e : keeps_route g → entry_ok e → entry_ok (g e).
Proof. intros Hg. destruct (Hg e) as (Hp & Hr & Hn & Hl & Hd). unfold entry_ok. by rewrite Hp, Hr, Hn, Hl, Hd. Qed.
Lemma keeps_route_spec g e : keeps_route g → specificity (g e) = specificity e.
Proof. intros Hg. destruct (Hg e) as (? & ? & ? & Hl & Hd). unfold specificity. by rewrite Hl, Hd. Qed.

Lemma update_entry_Some path g es es' :
  update_entry path g es = Some es' →
  ∃ l e k, es = l ++ e :: k ∧ es' = l ++ g e :: k ∧ re_path e = path ∧ Forall (λ e, re_path e ≠ path) l.
Proof.
  revert es'. induction es as [|e es IH]; intros es'; cbn [update_entry]; [done|].
  case_bool_decide as Hp; [intros [= <-]; by exists [], e, es|].
  destruct (update_entry path g es) as [es1|]; [|done]. intros [= <-].
  destruct (IH _ eq_refl) as (l & e' & k & -> & -> & Hp' & Hl). exists (e :: l), e', k.
  split_and!; [done..|by constructor].
Qed.
Lemma update_entry_None path g es : update_entry path g es = None → path ∉ re_path <$> es.
Proof.
  induction es as [|e es IH]; cbn [update_entry]; [set_solver|]. case_bool_decide; [done|].
  destruct (update_entry path g es); [done|]. intros _. rewrite fmap_cons, not_elem_of_cons. auto.
Qed.

Lemma sorted_map_spec (l k : list (RouteEntry F)) : specificity <$> l = specificity <$> k →
  StronglySorted (λ a b, more_specific b a = false) l → StronglySorted (λ a b, more_specific b a = false) k.
Proof.
  intros Heq Hs. revert k Heq. induction Hs as [|a l Hs IH Ha]; intros [|b k] Heq; try done; [constructor|].
  cbn in Heq. injection Heq as Hl1 Hl2 Hlk. assert (specificity a = specificity b) as Hab by (unfold specificity; congruence).
  constructor; [by apply IH|].
  rewrite Forall_forall in *. intros c Hc.
  assert (specificity c ∈ specificity <$> l) as (d & Hd & Hdl)%list_elem_of_fmap
    by (rewrite Hlk; by apply list_elem_of_fmap_2).
  specialize (Ha d Hdl). revert Ha. unfold more_specific. by rewrite Hd, Hab.
Qed.

Section install.
Context (sort : list (RouteEntry F) → list (RouteEntry F)) `{!StdSort more_specific sort}.

Lemma install_ok path g es :
  keeps_route g → table_ok es →
  ∃ es' e e0, install sort path g es = Ret es' ∧ table_ok es' ∧ e ∈ es' ∧ re_path e = path ∧ e = g e0 ∧
    (e0 ∈ es ∨ (path ∉ re_path <$> es ∧ new_entry path = Ret e0)) ∧
    ∀ e', re_path e' ≠ path → e' ∈ es' ↔ e' ∈ es.
Proof.
  intros Hg (Hnd & Hok & Hs). unfold install. destruct (update_entry path g es) as [es'|] eqn:Hu.
  - apply update_entry_Some in Hu as (l & e & k & -> & -> & Hp & Hl). destruct (Hg e) as (Hpe & _).
    exists (l ++ g e :: k), (g e), e. split_and!; [done| |set_solver|congruence|done|left; set_solver|].
    + unfold table_ok. rewrite fmap_app, fmap_cons, Hpe, <-fmap_cons, <-fmap_app. split_and!; [done| |].
      * rewrite Forall_app, Forall_cons in *. naive_solver eauto using keeps_route_ok.
      * revert Hs. apply sorted_map_spec. by rewrite !fmap_app, !fmap_cons, keeps_route_spec.
    + intros e' He'. rewrite !elem_of_app, !elem_of_cons. naive_solver congruence.
  - apply update_entry_None in Hu. destruct (new_entry_ok path) as (e & Hn & Hp & He & _).
    destruct (Hg e) as (Hpe & _). pose proof (std_sort_perm (es ++ [g e])) as Hperm.
    rewrite Hn. cbn. exists (sort (es ++ [g e])), (g e), e.
    split_and!; [done| |rewrite Hperm; set_solver|congruence|done|by right|].
    + unfold table_ok. split_and!.
      * rewrite Hperm, fmap_app. apply NoDup_app. cbn. rewrite Hpe, Hp. split_and!; [done|set_solver|apply NoDup_singleton].
      * rewrite Hperm, Forall_app, Forall_singleton. auto using keeps_route_ok.
      * apply (std_sort_sorted (before := more_specific)).
    + intros e' He'. rewrite Hperm. set_solver.
Qed.
End install.

(** ** Registered handlers *)
Inductive kind := KSync | KAsync | KStream.
Definition handlers_of (k : kind) e : list (verb * M F unit) :=
  match k with KSync => re_handlers e | KAsync => re_async e | KStream => re_stream e end.
Definition set_of (k : kind) (m : verb) (h : M F unit) : RouteEntry F → RouteEntry F :=
  match k with KSync => set_handler m h | KAsync => set_async m h | KStream => set_stream m h end.
(** The table as a map: handler [h] is registered for a path and a method. *)
Definition registered (k : kind) (es : list (RouteEntry F)) (path : bytes) (m : verb) (h : M F unit) : Prop :=
  ∃ e, e ∈ es ∧ re_path e = path ∧ map_find m (handlers_of k e) = Some h.

#[export] Instance kind_eq_dec : EqDecision kind.
Proof. solve_decision. Defined.
Lemma set_of_keeps k m h : keeps_route (set_of k m h).
Proof. intros e. by destruct k. Qed.
Lemma handlers_of_set k k' m m' h e :
  map_find m' (handlers_of k' (set_of k m h e)) =
    if bool_decide (k' = k ∧ m' = m) then Some h else map_find m' (handlers_of k' e).
Proof.
  destruct (decide (k' = k)) as [->|Hk].
  - rewrite (bool_decide_ext (k = k ∧ m' = m) (m' = m)) by naive_solver.
    destruct k; cbn; apply map_find_set.
  - rewrite bool_decide_eq_false_2 by naive_solver. by destruct k, k'.
Qed.
Lemma table_unique es e e' : table_ok es → e ∈ es → e' ∈ es → re_path e = re_path e' → e = e'.
Proof.
  intros (Hnd & _) (i & Hi)%list_elem_of_lookup (j & Hj)%list_elem_of_lookup Hp.
  assert (i = j) as ->; [|congruence].
  apply (NoDup_lookup _ i j (re_path e) Hnd); rewrite list_lookup_fmap; [by rewrite Hi|by rewrite Hj, Hp].
Qed.

Lemma install_registered sort `{!StdSort more_specific sort} k path m h es :
  table_ok es → ∃ es', install sort path (set_of k m h) es = Ret es' ∧ table_ok es' ∧
    ∀ k' p' m' h', registered k' es' p' m' h' ↔
      if bool_decide (k' = k ∧ p' = path ∧ m' = m) then h' = h else registered k' es p' m' h'.
Proof.
  intros Hok. destruct (install_ok sort path (set_of k m h) es (set_of_keeps k m h) Hok)
    as (es' & e & e0 & Hi & Hok' & He & Hp & Hge & He0 & Hrest).
  exists es'. split_and!; [done..|]. intros k' p' m' h'. unfold registered.
  destruct (decide (p' = path)) as [->|Hne].
  - assert (∀ h', (∃ e', e' ∈ es' ∧ re_path e' = path ∧ map_find m' (handlers_of k' e') = Some h') ↔
        map_find m' (handlers_of k' e) = Some h') as ->.
    { intros h0. split; [|by eauto]. intros (e' & He' & Hp' & Hm).
      by rewrite (table_unique es' e e') by (done || congruence). }
    rewrite Hge, handlers_of_set, (bool_decide_ext (k' = k ∧ path = path ∧ m' = m) (k' = k ∧ m' = m)) by naive_solver.
    case_bool_decide; [naive_solver|]. destruct (set_of_keeps k m h e0) as (Hpe & _).
    destruct He0 as [He0|[Hnew Hn]].
    + split; [intros Hm; exists e0; split_and!; [done|congruence|done]|].
      intros (e1 & He1 & Hp1 & Hm). by rewrite (table_unique es e0 e1) by (done || congruence).
    + destruct (new_entry_ok path) as (e1 & Hn1 & _ & _ & Hh1 & Hh2 & Hh3). assert (e1 = e0) as -> by congruence.
      split; [destruct k'; cbn; rewrite ?Hh1, ?Hh2, ?Hh3; done|].
      intros (e2 & He2 & Hp2 & _). destruct Hnew. rewrite <-Hp2. by apply list_elem_of_fmap_2.
  - rewrite bool_decide_eq_false_2 by naive_solver.
    split; intros (e' & He' & Hp' & Hm); exists e'; (split_and!; [|done..]); apply Hrest; congruence.
Qed.
End router.

(** ** Properties of registration *)
Inductive registration F := RegRoute (k : kind) (path : bytes) (m : verb) (h : M F unit).
Arguments RegRoute {F}.

Section registrations.
Context {F : Type} `{HttpFields F} `{Platform} `{Verbs}.
Context (sort : list (RouteEntry F) → list (RouteEntry F)).
Definition do_registration (g : registration F) (r : HttpRouter F) : outcome exn (HttpRouter F) :=
  match g with
  | RegRoute KSync p m h => add_route sort p m h None None true empty_doc [] r
  | RegRoute KAsync p m h => async_route sort p m h r
  | RegRoute KStream p m h => stream sort p m h r
  end.
Fixpoint registrations (gs : list (registration F)) (r : HttpRouter F) : outcome exn (HttpRouter F) :=
  match gs with [] => Ret r | g :: gs => do_registration g r ≫= registrations gs end.

Lemma registration_table g r r' :
  do_registration g r = Ret r' →
  let '(RegRoute k p m h) := g in
  ∃ path, apply_base_path r p = Ret path ∧ install sort path (set_of k m h) (rt_routes r) = Ret (rt_routes r') ∧
    rt_base_path r' = rt_base_path r.
Proof.
  destruct g as [k p m h]. destruct k; cbn; unfold add_route, async_route, stream;
    (destruct (apply_base_path r p) as [path|]; [|done]); cbn [mbind outcome_bind];
    cbn [set_of]; (destruct (install _ _ _ _) as [es|] eqn:Hi; [|done]); intros [= <-];
    exists path; done.
Qed.
End registrations.

Lemma registrations_ok {F} `{HttpFields F} `{Platform} `{Verbs} sort `{!StdSort (more_specific (F := F)) sort} gs (r : HttpRouter F) :
  registrations sort gs router_init = Ret r → table_ok (rt_routes r).
Proof.
  intros Hgs. assert (table_ok (rt_routes (router_init (F := F)))) as Hinit.
  { split_and!; [apply NoDup_nil_2|constructor|constructor]. }
  revert Hgs Hinit. generalize (router_init (F := F)). induction gs as [|g gs IH]; intros r0; cbn.
  - by intros [= ->].
  - intros (r1 & Hg & Hgs)%bind_Ret_inv Hok. apply (IH r1 Hgs).
    apply registration_table in Hg. destruct g as [k0 p0 m0 h0]. destruct Hg as (path0 & _ & Hi & _).
    destruct (install_registered sort k0 path0 m0 h0 _ Hok) as (es & Hi' & Hok' & _).
    by replace (rt_routes r1) with es by congruence.
Qed.

(** C7: the route table is a map. Whatever was registered before, through any
    mix of [get]/[post]/..., [async_route] and [stream], a registration always
    succeeds once its path carries the base path, keeps the table well formed
    (one entry per path, every entry's expression and counts those of its
    pattern, more specific entries first), replaces the handler of exactly that
    kind, path and method, and changes no other; for every conforming
    [std::sort]. *)
Theorem registration_is_insertion {F} `{HttpFields F} `{Platform} `{Verbs}
    sort `{!StdSort (more_specific (F := F)) sort} gs (r : HttpRouter F) k p m h path :
  registrations sort gs router_init = Ret r → apply_base_path r p = Ret path →
  ∃ r', do_registration sort (RegRoute k p m h) r = Ret r' ∧ table_ok (rt_routes r') ∧
    ∀ k' p' m' h', registered k' (rt_routes r') p' m' h' ↔
      if bool_decide (k' = k ∧ p' = path ∧ m' = m) then h' = h else registered k' (rt_routes r) p' m' h'.
Proof.
  intros Hgs Hp. pose proof (registrations_ok sort gs r Hgs) as Hok.
  destruct (install_registered sort k path m h _ Hok) as (es & Hi & Hok' & Hreg).
  destruct k; cbn [do_registration set_of] in *; unfold add_route, async_route, stream;
    rewrite Hp; cbn [mbind outcome_bind]; rewrite Hi; eexists; by split_and!.
Qed.

#[export] Instance specificity_sort {F} : StdSort (more_specific (F := F)) (merge_std_sort more_specific).
Proof.
  apply merge_std_sort_conforms; unfold more_specific; intros x y; [|intros z];
    rewrite ?compare_specificity_spec, ?compare_specificity_false; lia.
Qed.

(** A small platform for the witnesses: targets are paths. *)
Definition demo_platform : Platform := {|
  parse_relative_ref t := Some (t, []); json_parse _ := None; json_serialize _ := str "{}"; beast_version := str "beast" |}.
Definition demo_verbs : Verbs := {|
  verb_rank v := match v with verb_delete => 1 | verb_get => 2 | verb_head => 3 | verb_post => 4
                 | verb_put => 5 | verb_options => 7 | verb_other n => 8 + n end%N;
  verb_to_string v := match v with verb_delete => str "DELETE" | verb_get => str "GET" | verb_head => str "HEAD"
                      | verb_post => str "POST" | verb_put => str "PUT" | verb_options => str "OPTIONS"
                      | verb_other _ => str "OTHER" end |}.
#[local] Existing Instance demo_platform.
#[local] Existing Instance demo_verbs.
Definition demo_page : page_parts := mk_page [] [] [] [] [] [] [] [] [].
Definition demo_request (m : verb) (target : bytes) : request FieldList.t := mk_request m target 11 [] [].
Definition demo_ctx (m : verb) (target : bytes) : ctx FieldList.t :=
  context_init (demo_request m target) response_empty.
Definition demo_handler (b : bytes) : M FieldList.t unit := set_body b.
Definition demo_registrations : list (registration FieldList.t) :=
  [RegRoute KSync (str "/users/:id") verb_get (demo_handler (str "by id"));
   RegRoute KSync (str "/users/me") verb_get (demo_handler (str "me"));
   RegRoute KStream (str "/feed") verb_get (demo_handler (str "feed"))].
Definition demo_router : HttpRouter FieldList.t :=
  match registrations (merge_std_sort more_specific) demo_registrations router_init with
  | Ret r => r | Throw _ => router_init end.

Theorem registration_is_insertion_witness :
  ∃ r', do_registration (merge_std_sort more_specific)
    (RegRoute KSync (str "/users/:id") verb_post (demo_handler [])) demo_router = Ret r' ∧ table_ok (rt_routes r').
Proof.
  destruct (registration_is_insertion (merge_std_sort more_specific) demo_registrations demo_router
    KSync (str "/users/:id") verb_post (demo_handler []) (str "/users/:id")) as (r' & Hr & Hok & _).
  - reflexivity.
  - reflexivity.
  - by exists r'.
Defined.
