(* ===== verification/HttpDispatch.v ===== *)
(** * Request dispatch: properties of [HttpRouter::dispatch] and its pages

    [dispatch] serves the most specific applicable route on every branch
    ([dispatch_spec]); exceptions never leak a half-written response,
    and leave [handle_exception] only in two cases ([exception_page_fresh]); the texts in the error pages are escaped
    ([escape_html_safe]). *)
From S2P Require Import Prelude Text Numbers PathPattern PathPatternProofs Http HttpContext TypedRoute HttpRouter HttpRouterTheorems.
Set Default Proof Using "Type*".

Section dispatch.
Context {F : Type} `{HttpFields F} `{Platform} `{Verbs}.
Implicit Types (e : RouteEntry F) (es : list (RouteEntry F)) (r : HttpRouter F) (x : ctx F).

(** For GET and HEAD an entry without the method is passed over, for every
    other verb it answers with 405. *)
Definition passes_over (m : verb) : bool := bool_decide (m = verb_get) || bool_decide (m = verb_head).
(** The handler of the verb, or for HEAD without one that of GET. *)
Definition serves (m : verb) (hs : list (verb * M F unit)) (h : M F unit) : Prop :=
  map_find m hs = Some h ∨ (m = verb_head ∧ map_find m hs = None ∧ map_find verb_get hs = Some h).
Definition applicable (m : verb) (p : bytes) e : Prop :=
  (∃ values, route_matches (re_path e) p values) ∧
  (passes_over m = true → ∃ h, serves m (re_handlers e) h).
(** [e] applies and nothing more specific does. *)
Definition selected (m : verb) (p : bytes) es e : Prop :=
  e ∈ es ∧ applicable m p e ∧ ∀ e', e' ∈ es → applicable m p e' → more_specific e' e = false.
Definition serve r e (caps : list bytes) (h : M F unit) : M F bool :=
  doM (set_path_params (bind_params (re_params e) caps)) ≫= λ _,
  tryM h (λ ex, handle_exception r (Some ex)) ≫= λ _, mret true.

(** The three outcomes of a dispatch. *)
Definition dispatches page r es m p (fallback result : M F bool) : Prop :=
  (∃ e caps h, selected m p es e ∧ route_matches (re_path e) p caps ∧
     (∀ caps', route_matches (re_path e) p caps' → longer_eq caps caps') ∧
     serves m (re_handlers e) h ∧ result = serve r e caps h) ∨
  (∃ e, selected m p es e ∧ (∀ h, ~ serves m (re_handlers e) h) ∧
     result = (handle_method_not_allowed page r (re_handlers e) ≫= λ _, mret true)) ∨
  ((∀ e, e ∈ es → ~ applicable m p e) ∧ result = fallback).

Lemma find_or_get_serves m hs :
  match find_or_get m hs with Some h => serves m hs h | None => ∀ h, ~ serves m hs h end.
Proof.
  unfold find_or_get, serves. destruct (map_find m hs) eqn:Hm; [by left|].
  case_bool_decide; [|naive_solver]. destruct (map_find verb_get hs); naive_solver.
Qed.
Lemma dispatch_routes_spec page r es p m fallback :
  Forall entry_ok es → StronglySorted (λ a b, more_specific b a = false) es →
  dispatches page r es m p fallback (dispatch_routes page r es p m true fallback).
Proof.
  intros Hok Hs. induction Hs as [|e es Hs IH He]; [right; right; split; [set_solver|done]|].
  apply Forall_cons in Hok as [Hoke Hok]. specialize (IH Hok).
  assert (~ applicable m p e → ∀ e', selected m p es e' → selected m p (e :: es) e') as Hskip.
  { intros Hna e' (Hin & Ha & Hmax). split_and!; [set_solver|done|]. intros e2 [->|Hin2]%elem_of_cons; naive_solver. }
  assert (applicable m p e → selected m p (e :: es) e) as Hhead.
  { intros Ha. split_and!; [set_solver|done|]. intros e2 [->|Hin2]%elem_of_cons _.
    - unfold more_specific. apply compare_specificity_irrefl.
    - rewrite Forall_forall in He. by apply He. }
  assert (~ applicable m p e → dispatch_routes page r (e :: es) p m true fallback = dispatch_routes page r es p m true fallback →
    dispatches page r (e :: es) m p fallback (dispatch_routes page r (e :: es) p m true fallback)) as Hgo; [|cbn [dispatch_routes] in *; pose proof (entry_matches e p Hoke) as Hm].
  { intros Hna Heq. destruct IH as [(e' & caps & h & Hsel & ? & ? & ? & ?)|[(e' & Hsel & ? & ?)|(Hnone & ?)]].
    - left. exists e', caps, h. rewrite Heq. eauto 10.
    - right; left. exists e'. rewrite Heq. eauto.
    - right; right. rewrite Heq. split; [|done]. intros e' [->|?]%elem_of_cons; auto. }
  destruct (regex_match (re_regex e) p) as [caps|]; [|apply Hgo; [intros ((v & Hv) & _); by apply (Hm v)|done]].
  destruct Hm as (Hm & _ & Hg). pose proof (find_or_get_serves m (re_handlers e)) as Hh.
  destruct (find_or_get m (re_handlers e)) as [h|].
  - left. exists e, caps, h. split_and!; try done. apply Hhead. split; eauto.
  - assert (passes_over m = negb (bool_decide (m ≠ verb_get) && bool_decide (m ≠ verb_head))) as Hpo.
    { unfold passes_over. by repeat case_bool_decide. }
    destruct (bool_decide (m ≠ verb_get) && bool_decide (m ≠ verb_head)) eqn:Hverb; cbn in Hpo.
    + right; left. exists e. split_and!; try done. apply Hhead. split; [eauto|]. by rewrite Hpo.
    + apply Hgo; [|done]. intros (_ & Ha). destruct (Ha Hpo) as [h Hsv]. by apply (Hh h).
Qed.
(** What [dispatch] does once no route answers. *)
Definition fall_back page r (static_files : option (M F bool)) : M F bool :=
  match static_files with
  | None => handle_not_found page r ≫= λ _, mret false
  | Some f => f ≫= λ (served : bool), if served then mret true else handle_not_found page r ≫= λ _, mret false
  end.
Lemma dispatch_dispatches page r static_files x :
  table_ok (rt_routes r) →
  ∃ result, dispatches page r (rt_routes r) (method x) (path x).1 (fall_back page r static_files) result ∧
    dispatch page r static_files x = result (path x).2.
Proof.
  intros (_ & Hok & Hs). exists (dispatch_routes page r (rt_routes r) (path x).1 (method x) true (fall_back page r static_files)).
  split; [by apply dispatch_routes_spec|]. unfold dispatch.
  assert (method (path x).2 = method x) as Hm by (unfold path, parse_url_components, method; by destruct (cx_url x)).
  destruct (path x) as [q y]. cbn in *. rewrite Hm. by destruct static_files.
Qed.
End dispatch.

(** C1: on a well-formed table dispatch does, for every request, exactly one of
    three things. (1) It selects an applicable route such that no applicable one
    is more specific, stores the greedy parameter values of its pattern and runs
    the handler (the GET handler for HEAD when there is none), turning an
    exception into its error page. (2) For a verb other than GET and HEAD whose
    most specific matching route lacks it, it answers 405 with that route's
    methods. (3) If no route is applicable it falls back to the static files and
    then to 404. *)
Theorem dispatch_spec {F} `{HttpFields F} `{Platform} `{Verbs} page (r : HttpRouter F) static_files x :
  table_ok (rt_routes r) →
  ∃ result, dispatches page r (rt_routes r) (method x) (path x).1 (fall_back page r static_files) result ∧
    dispatch page r static_files x = result (path x).2.
Proof. apply dispatch_dispatches. Qed.

#[local] Existing Instance demo_platform.
#[local] Existing Instance demo_verbs.
(** Both [/users/me] and [/users/:id] match; the literal route is served. *)
Theorem dispatch_spec_witness :
  rs_body (cx_res (dispatch demo_page demo_router None (demo_ctx verb_get (str "/users/me"))).1) = str "me" ∧
  ∃ e, selected verb_get (str "/users/me") (rt_routes demo_router) e.
Proof.
  split; [vm_compute; reflexivity|].
  assert (table_ok (rt_routes demo_router)) as Hok.
  { split_and!.
    - apply (bool_decide_unpack _). vm_compute. exact I.
    - repeat constructor.
    - repeat constructor. }
  destruct (dispatch_spec demo_page demo_router None (demo_ctx verb_get (str "/users/me")) Hok)
    as (result & [(e & caps & h & Hsel & _)|[(e & Hsel & _)|(Hnone & _)]] & _); [by exists e|by exists e|].
  exfalso. destruct (rt_routes demo_router) as [|e es] eqn:He; [by vm_compute in He|].
  apply (Hnone e); [by left|]. vm_compute in He. injection He as <- _. split.
  - exists []. vm_compute. constructor.
  - intros _. eexists. left. vm_compute. reflexivity.
Defined.

(** ** Error pages *)
(** On the default 405 page of a matching route the status is 405 and the
    [Allow] field lists, separated by commas, the verbs that have a handler on
    that route and no other. *)
Theorem method_not_allowed_page {F} `{HttpFieldsLaws F} `{Platform} `{Verbs} page (r : HttpRouter F) e x :
  rt_method_not_allowed r = None →
  let y := (handle_method_not_allowed page r (re_handlers e) x).1 in
  rs_status (cx_res y) = 405%N ∧
  field_all (str "Allow") (rs_fields (cx_res y)) = [join (str ", ") (verb_to_string <$> (re_handlers e).*1)] ∧
  field_all (str "Content-Type") (rs_fields (cx_res y)) = [str "text/html"] ∧
  (∀ m, m ∈ (re_handlers e).*1 ↔ is_Some (map_find m (re_handlers e))).
Proof.
  intros Hnone. unfold handle_method_not_allowed, path. rewrite Hnone.
  set (x1 := set_header _ _ _).
  assert (cx_res (parse_url_components x1) = cx_res x1) as Hres.
  { unfold parse_url_components. by destruct (cx_url x1). }
  cbn. assert (∀ b y, rs_status (cx_res y) = 405%N → set_body b y = (with_res (λ res, rs_prepared (rs_set_body b res)) y, Ret tt)) as Hbody.
  { intros b y Hy. apply set_body_accepted, payload_accepted. right. rewrite Hy. done. }
  rewrite Hbody; [|cbn; by rewrite Hres]. cbn. rewrite Hres. split_and!; [done|..|intros m; by rewrite map_find_keys].
  - rewrite field_all_payload, field_all_set by done. cbn. by rewrite field_all_set.
  - rewrite field_all_payload, field_all_set by done. done.
Qed.
Theorem method_not_allowed_page_witness :
  let e := set_handler verb_post (demo_handler []) (set_handler verb_get (demo_handler []) (mk_entry [] [] [] [] [] [] 0 0)) in
  field_all (str "Allow") (rs_fields (cx_res (handle_method_not_allowed demo_page router_init (re_handlers e) (demo_ctx verb_put [])).1))
    = [str "GET, POST"].
Proof.
  intros e. destruct (method_not_allowed_page demo_page router_init e (demo_ctx verb_put []) eq_refl) as (_ & Ha & _).
  exact Ha.
Defined.

Lemma escape_html_app s t : escape_html (s ++ t) = escape_html s ++ escape_html t.
Proof. unfold escape_html. induction s; cbn; [done|]. rewrite IHs. by rewrite (assoc_L (++)). Qed.
(** Reading the five entities back. *)
Definition entity (s : bytes) : option (ascii * nat) :=
  if starts_with (str "&amp;") s then Some ("&"%char, 5)
  else if starts_with (str "&lt;") s then Some ("<"%char, 4)
  else if starts_with (str "&gt;") s then Some (">"%char, 4)
  else if starts_with (str "&quot;") s then Some (DQ, 6)
  else if starts_with (str "&#39;") s then Some ("'"%char, 5)
  else None.
Fixpoint unescape_html (fuel : nat) (s : bytes) : bytes :=
  match fuel, s with
  | S fuel, c :: t =>
      match entity s with
      | Some (c, n) => c :: unescape_html fuel (drop n s)
      | None => c :: unescape_html fuel t
      end
  | _, _ => []
  end.
Lemma entity_plain c t : bool_decide (c = "&"%char) = false → entity (c :: t) = None.
Proof.
  intros Hc. apply bool_decide_eq_false in Hc. unfold entity, str. cbn [String.list_ascii_of_string starts_with].
  by rewrite (bool_decide_eq_false_2 ("&"%char = c)) by congruence.
Qed.
Lemma unescape_escape fuel c s : unescape_html (S fuel) (escape_char c ++ s) = c :: unescape_html fuel s.
Proof.
  unfold escape_char. repeat case_bool_decide; subst; try reflexivity.
  cbn [app unescape_html]. by rewrite entity_plain by (by apply bool_decide_eq_false).
Qed.
Definition markup (c : ascii) : bool := bool_decide (c ∈ ["<"%char; ">"%char; DQ; "'"%char]).

Lemma escape_html_plain value : Forall (λ c, markup c = false) (escape_html value).
Proof.
  assert (∀ c, forallb (λ d, negb (markup d)) (escape_char c) = true) as Hb
    by (apply forall_bytes; vm_compute; reflexivity).
  unfold escape_html. induction value as [|c value IH]; [constructor|]. cbn. apply Forall_app. split; [|exact IH].
  apply Forall_forall. intros d Hd. specialize (Hb c). rewrite forallb_forall in Hb.
  apply list_elem_of_In, Hb in Hd. by destruct (markup d).
Qed.

(** The text put into the error pages cannot act as markup: the escaped
    form of any byte string contains none of the characters [<], [>], double
    and single quote, and reading its entities back gives the original text. *)
Theorem escape_html_safe value :
  Forall (λ c, markup c = false) (escape_html value) ∧
  unescape_html (length value) (escape_html value) = value.
Proof.
  split; [apply escape_html_plain|]. induction value as [|c value IH]; [done|].
  change (escape_html (c :: value)) with (escape_char c ++ escape_html value). cbn [length]. by rewrite unescape_escape, IH.
Qed.

(** ** Exceptions *)
Section exceptions.
Context {F : Type} `{HttpFieldsLaws F} `{Platform} `{Verbs}.
Implicit Types (r : HttpRouter F) (x y : ctx F).
Definition never_throws {A} (m : M F A) : Prop := ∀ x, ∃ y a, m x = (y, Ret a).
Lemma bind_never_throws {A B} (m : M F A) (k : A → M F B) :
  never_throws m → (∀ a, never_throws (k a)) → never_throws (m ≫= k).
Proof using Type. intros Hm Hk x. unfold mbind, M_bind. destruct (Hm x) as (y & a & ->). apply Hk. Qed.
Lemma ret_never_throws {A} (a : A) : never_throws (mret a).
Proof using Type. intros x. by eexists _, _. Qed.
(** The pages of the router itself have a status that allows a body. *)
Lemma write_error_never_throws st err_code message :
  (200 ≤ st)%N → st ≠ 204%N → st ≠ 304%N → never_throws (write_error st err_code message).
Proof using Type*.
  intros ? ? ? x. unfold write_error, set_body_json, mbind, M_bind, doM. rewrite set_body_accepted; [by eexists _, _|].
  apply payload_accepted. by right.
Qed.
Lemma internal_error_never_throws : never_throws write_internal_server_error.
Proof using Type*. by apply write_error_never_throws. Qed.
Lemma try_handlers_never_throws hs e : never_throws (try_handlers (F := F) hs e).
Proof using Type*.
  induction hs as [|h hs IH]; [apply ret_never_throws|]. intros x. cbn [try_handlers].
  destruct (h e x) as [y [[]|]]; [by eexists _, _|apply IH|].
  apply bind_never_throws; [apply internal_error_never_throws|intros _; apply ret_never_throws].
Qed.

(** How an exception can leave [handle_exception]: the handler for unknown
    exceptions throws it, or the status of an [HttpException] refuses its body. *)
Definition unknown_handler_throws r (e : exn) : Prop := ∃ h x y, rt_unknown r = Some h ∧ h x = (y, Throw e).
Definition page_refused (eptr : option exn) : bool :=
  match eptr with Some (HttpException st body _) => payload_refused st (json_serialize body) | _ => false end.
Lemma handle_unknown_throws r x y e : handle_unknown_exception r x = (y, Throw e) → unknown_handler_throws r e.
Proof using Type*.
  unfold handle_unknown_exception. destruct (rt_unknown r) as [h|] eqn:Hu; [intros Hh; by exists h, x, y|].
  intros Hw. destruct (internal_error_never_throws x) as (y' & a & Hw'). congruence.
Qed.
Lemma default_page_throws r ex x y e : default_exception_page r ex x = (y, Throw e) → unknown_handler_throws r e.
Proof using Type*.
  assert (∀ m : M F unit, never_throws m → m x = (y, Throw e) → unknown_handler_throws r e) as Hno.
  { intros m Hm Hx. destruct (Hm x) as (y' & a & Hx'). congruence. }
  unfold default_exception_page. destruct ex; cbn [is_std_exception]; try (by apply Hno, write_error_never_throws). apply handle_unknown_throws.
Qed.
Lemma http_exception_page st body headers x :
  http_exception_apply st body headers x =
    let x := set_content_type (str "application/json") (set_status st x) in
    if payload_refused st (json_serialize body)
    then (with_res (rs_set_body (json_serialize body)) x, Throw invalid_response_body)
    else (apply_headers headers (with_res (λ res, rs_prepared (rs_set_body (json_serialize body) res)) x), Ret tt).
Proof using Type.
  unfold http_exception_apply, set_body_json, mbind, M_bind, doM. destruct (payload_refused _ _) eqn:Hb.
  - by rewrite set_body_refused.
  - by rewrite set_body_accepted.
Qed.
Lemma handle_exception_throws r eptr x y e :
  handle_exception r eptr x = (y, Throw e) →
  unknown_handler_throws r e ∨ (page_refused eptr = true ∧ e = invalid_response_body ∧ refused y).
Proof using Type*.
  unfold handle_exception. intros Hh. destruct eptr as [ex|]; [|by left; eapply handle_unknown_throws].
  assert ((try_handlers (rt_exception_handlers r) ex ≫= λ handled : bool, if handled then mret tt else default_exception_page r ex)
    (reset_exception_response x) = (y, Throw e) → unknown_handler_throws r e) as Hall.
  { unfold mbind, M_bind. destruct (try_handlers_never_throws (rt_exception_handlers r) ex (reset_exception_response x)) as (z & a & ->).
    destruct a; [done|apply default_page_throws]. }
  destruct ex as [st body headers| | | | | |]; try (by left; apply Hall). right.
  rewrite http_exception_page in *. revert Hh. cbv zeta. cbn [page_refused]. destruct (payload_refused st (json_serialize body)) eqn:Hb; [|done].
  intros [= <- <-]. by split_and!.
Qed.
End exceptions.

(** C33: the page for an exception does not depend on anything the failing
    handler had already put into the response: status, headers, cookies and
    body are all discarded. An [HttpException] is answered with its status, its
    JSON body and its headers unless the status allows no body (204, 304,
    informational): then [prepare_payload()] throws out of the [catch] clause.
    This, and a custom handler for unknown exceptions that throws, are the only
    ways an exception leaves [handle_exception]. *)
Theorem exception_page_fresh {F} `{HttpFieldsLaws F} `{Platform} `{Verbs} (r : HttpRouter F) eptr x g :
  handle_exception r eptr (with_res g x) = handle_exception r eptr x ∧
  (∀ y e, handle_exception r eptr x = (y, Throw e) →
     unknown_handler_throws r e ∨ (page_refused eptr = true ∧ e = invalid_response_body)) ∧
  ∀ st body headers, eptr = Some (HttpException st body headers) →
    if page_refused eptr then (handle_exception r eptr x).2 = Throw invalid_response_body
    else ∃ z, handle_exception r eptr x = (apply_headers headers z, Ret tt) ∧
      rs_status (cx_res z) = st ∧ rs_body (cx_res z) = json_serialize body ∧
      field_all (str "Content-Type") (rs_fields (cx_res z)) = [str "application/json"].
Proof.
  split_and!; [done| |].
  - intros y e Hh. apply handle_exception_throws in Hh as [?|(? & ? & _)]; [by left|by right].
  - intros st body headers ->. unfold handle_exception. cbn [page_refused]. rewrite http_exception_page. cbv zeta.
    destruct (payload_refused st (json_serialize body)); [done|]. eexists. split; [reflexivity|]. split_and!; [done|done|].
    cbn. rewrite field_all_payload by done. by rewrite field_all_set, ieq_refl.
Qed.
Theorem exception_page_fresh_witness :
  (handle_exception demo_router (Some (HttpException status_no_content JNull [])) (demo_ctx verb_get (str "/"))).2 = Throw invalid_response_body ∧
  ∃ z, handle_exception demo_router (Some (HttpException status_bad_request JNull [(str "X-A", str "1")])) (demo_ctx verb_get (str "/")) =
       (apply_headers [(str "X-A", str "1")] z, Ret tt) ∧ rs_status (cx_res z) = status_bad_request.
Proof.
  split.
  - destruct (exception_page_fresh demo_router (Some (HttpException status_no_content JNull [])) (demo_ctx verb_get (str "/")) id) as (_ & _ & Hp).
    exact (Hp _ _ _ eq_refl).
  - destruct (exception_page_fresh demo_router (Some (HttpException status_bad_request JNull [(str "X-A", str "1")])) (demo_ctx verb_get (str "/")) id) as (_ & _ & Hp).
    destruct (Hp _ _ _ eq_refl) as (z & Hz & Hs & _). by exists z.
Defined.

(** ** Interceptors *)
(** The asynchronous interceptor chain computes what the synchronous one
    does: for interceptors that do not override [async_handle_request] both visit
    the same interceptors in registration order and stop at the first [Stop];
    where the synchronous chain would throw, the asynchronous one has written
    the exception page and stops. *)
Theorem async_interceptors_agree {F} `{HttpFields F} `{Platform} `{Verbs} (r : HttpRouter F) x :
  Forall (λ i, ic_async_request i = ic_request i) (rt_interceptors r) →
  async_run_pre_interceptors r x =
    match run_pre_interceptors r x with
    | (y, Ret res) => (y, Ret res)
    | (y, Throw e) => (handle_exception r (Some e) ≫= λ _, mret Stop) y
    end.
Proof.
  unfold async_run_pre_interceptors, run_pre_interceptors. intros Hall. revert x.
  induction Hall as [|i ics Hi Hall IH]; intros x; [done|]. cbn [advance run_pre]. rewrite Hi.
  unfold mbind at 2, M_bind at 2. destruct (ic_request i x) as [y [[]|e]]; [apply IH|done|done].
Qed.
Theorem async_interceptors_agree_witness :
  let r := add_interceptor (sync_interceptor (throwM (StdException (str "auth"))) (mret tt)) (router_init (F := FieldList.t)) in
  rs_status (cx_res (async_run_pre_interceptors r (demo_ctx verb_get (str "/"))).1) = 500%N.
Proof.
  intros r. rewrite async_interceptors_agree; [reflexivity|]. by repeat constructor.
Defined.

(** ** Streaming routes *)
Lemma is_stream_route_dispatch {F} `{HttpFields F} `{Platform} `{Verbs} (es : list (RouteEntry F)) p m x :
  if is_stream_route es p m then
    ∃ e caps h, e ∈ es ∧ regex_match (re_regex e) p = Some caps ∧ map_find m (re_stream e) = Some h ∧
      dispatch_first (λ e, map_find m (re_stream e)) es p x =
        (h ≫= λ _, mret true) (set_path_params (bind_params (re_params e) caps) x)
  else dispatch_first (λ e, map_find m (re_stream e)) es p x = (x, Ret false).
Proof.
  induction es as [|e es IH]; cbn [is_stream_route dispatch_first]; [done|].
  destruct (regex_match (re_regex e) p) as [caps|] eqn:Hm.
  - case_bool_decide as Hs.
    + destruct Hs as [h Hh]. rewrite Hh. exists e, caps, h. split_and!; [set_solver|done..].
    + by destruct (map_find m (re_stream e)); [destruct Hs|].
  - destruct (is_stream_route es p m); [|done]. destruct IH as (e' & caps & h & ? & ?). exists e', caps, h.
    split; [set_solver|done].
Qed.

(** The header-time test and the later dispatch agree: if [is_stream_route]
    accepts the path the context decodes, [dispatch_stream] binds the path
    parameters and runs that route's stream handler; if it refuses,
    [dispatch_stream] returns false without touching the context. *)
Theorem stream_routes_agree {F} `{HttpFields F} `{Platform} `{Verbs} (r : HttpRouter F) x :
  if is_stream_route (rt_routes r) (path x).1 (method x) then
    ∃ e caps h, e ∈ rt_routes r ∧ regex_match (re_regex e) (path x).1 = Some caps ∧
      map_find (method x) (re_stream e) = Some h ∧
      dispatch_stream r x = (h ≫= λ _, mret true) (set_path_params (bind_params (re_params e) caps) (path x).2)
  else dispatch_stream r x = ((path x).2, Ret false).
Proof.
  pose proof (is_stream_route_dispatch (rt_routes r) (path x).1 (method x) (path x).2) as Hs.
  unfold dispatch_stream. assert (method (path x).2 = method x) as Hm.
  { unfold path, parse_url_components, method. by destruct (cx_url x). }
  destruct (path x) as [p y]. cbn in *. rewrite Hm. exact Hs.
Qed.

(** ** Typed registration *)
Definition typed_parameters_ok (names : list bytes) (ps : list RouteParameterDocumentation) : Prop :=
  Forall (λ p, pd_name p ≠ [] ∧ (pd_location p = loc_path → pd_name p ∈ names)) ps ∧
  NoDup ((λ p, (pd_location p, pd_name p)) <$> ps).
Lemma check_parameters_spec pattern names prev ps :
  check_parameters pattern names prev ps = Ret tt ↔
  Forall (λ p, pd_name p ≠ [] ∧ (pd_location p = loc_path → pd_name p ∈ names)) ps ∧
  NoDup ((λ p, (pd_location p, pd_name p)) <$> ps) ∧
  ∀ p q, p ∈ prev → q ∈ ps → (pd_location p, pd_name p) ≠ (pd_location q, pd_name q).
Proof.
  revert prev. induction ps as [|p ps IH]; intros prev; cbn [check_parameters].
  { split; [|done]. intros _. split_and!; [constructor|constructor|set_solver]. }
  rewrite Forall_cons, fmap_cons, NoDup_cons. case_bool_decide as Hn; [split; naive_solver|].
  destruct (bool_decide (pd_location p = loc_path) && negb (bool_decide (pd_name p ∈ names))) eqn:Hpath.
  { apply andb_true_iff in Hpath as [Hl%bool_decide_eq_true Hin%negb_true_iff%bool_decide_eq_false]. split; naive_solver. }
  assert (pd_location p = loc_path → pd_name p ∈ names) as Hp.
  { intros Hl. rewrite bool_decide_eq_true_2 in Hpath by done. by destruct (decide (pd_name p ∈ names)) as [?|Hx];
      [|rewrite bool_decide_eq_false_2 in Hpath]. }
  destruct (existsb _ prev) eqn:Hdup.
  - apply existsb_exists in Hdup as (q & Hq%list_elem_of_In & [Hl%bool_decide_eq_true Hnm%bool_decide_eq_true]%andb_true_iff).
    split; [done|]. intros (_ & _ & Hx). destruct (Hx q p Hq ltac:(by left)). congruence.
  - rewrite IH. assert (∀ q, q ∈ prev → (pd_location q, pd_name q) ≠ (pd_location p, pd_name p)) as Hprev.
    { intros q Hq [= Hl Hnm]. apply not_true_iff_false in Hdup. apply Hdup, existsb_exists. exists q.
      split; [by apply list_elem_of_In|]. by rewrite !bool_decide_eq_true_2. }
    rewrite list_elem_of_fmap. setoid_rewrite elem_of_app. setoid_rewrite elem_of_cons. setoid_rewrite elem_of_nil.
    split.
    + intros (? & ? & Hx). split_and!; try done.
      * intros (q & Hq & Hin). by apply (Hx p q ltac:(auto) Hin).
      * intros q q' Hq [->|Hq']; [by apply Hprev|by apply Hx; auto].
    + intros ((? & ?) & (Hx & ?) & Hy). split_and!; try done. intros q q' [Hq|[->|[]]] Hq'; [by apply Hy; auto|].
      intros Heq. apply Hx. by exists q'.
Qed.

(** A typed registration is refused exactly when one of its parameters has
    an empty name, a path parameter is missing from the pattern, or two
    parameters share location and name; otherwise it is the plain registration
    with the handler's schemas and parameter records. *)
Theorem typed_registration_checked {F} `{HttpFields F} `{Platform} `{Verbs} sort pattern m
    (h : TypedRouteHandler F) doc (r : HttpRouter F) :
  let names := pp_param_names (http_parse_path_pattern pattern) in
  (typed_parameters_ok names (th_parameters h) →
     add_typed_route sort pattern m h doc r =
     add_route sort pattern m (th_handler h) (th_request_schema h) (th_response_schema h) true doc (th_parameters h) r) ∧
  (~ typed_parameters_ok names (th_parameters h) → ∃ what, add_typed_route sort pattern m h doc r = Throw (InvalidArgument what)).
Proof.
  intros names. unfold add_typed_route.
  destruct (compile_path_regex (PathCompiler := http_path_compiler) pattern) as (re & Hre & _). cbn in Hre. rewrite Hre.
  fold names. pose proof (check_parameters_spec pattern names [] (th_parameters h)) as Hc. unfold typed_parameters_ok.
  split.
  - intros (? & ?). assert (check_parameters pattern names [] (th_parameters h) = Ret tt) as ->; [|done].
    apply Hc. split_and!; [done..|set_solver].
  - intros Hn. assert (check_parameters pattern names [] (th_parameters h) ≠ Ret tt) as Hne by naive_solver.
    assert (∀ prev ps e, check_parameters pattern names prev ps = Throw e → ∃ what, e = InvalidArgument what) as Hkind.
    { clear. intros prev ps. revert prev. induction ps as [|p ps IH]; intros prev e; cbn [check_parameters]; [done|].
      repeat case_match; intros [= <-] || idtac; eauto. }
    destruct (check_parameters pattern names [] (th_parameters h)) as [[]|e] eqn:E; [done|].
    apply Hkind in E as [what ->]. by exists what.
Qed.
