(* ===== verification/TypedOverloads.v ===== *)
(** * The typed overloads of the router ([router/http_router.hpp])

    Forty member templates register a typed handler: for each of five methods a
    function or a controller's method, with the whole body or with parameter
    descriptors, with or without documentation. *)
From S2P Require Import Prelude Text Numbers PathPattern PathPatternProofs Http HttpContext TypedRoute HttpRouter HttpRouterTheorems HttpDispatch.
Set Default Proof Using "Type*".

Section overloads.
Context {F : Type} `{HttpFields F} `{Platform} `{Verbs}.

(** ** Typed handlers *)
(** What the types of a handler determine: the conversion and schema of its
    request, the schema of its response ([void] has none). *)
Record body_types := mk_body_types { bt_value_to : json → option json; bt_request_schema : json; bt_response_schema : option json }.
(** The order in which the compiler reads the arguments, and the response. *)
Record parameter_types := mk_parameter_types { pt_order : list nat; pt_response_schema : option json }.
Definition typed (T : body_types) (h : json → M F typed_response) : TypedRouteHandler F :=
  make_typed_handler (bt_value_to T) (bt_request_schema T) h (bt_response_schema T).
Definition make_parameterized (T : parameter_types) (h : list pvalue → M F typed_response) (ds : list descriptor) : TypedRouteHandler F :=
  make_parameterized_typed_handler (pt_order T) ds h (pt_response_schema T).
(** A method bound to its controller; the controller's state is its own. *)
Definition make_typed_member_handler {C} (T : body_types) (controller : C) (method : C → json → M F typed_response) : TypedRouteHandler F :=
  let bound request := method controller request in typed T bound.
Definition make_parameterized_member_handler {C} (T : parameter_types) (controller : C) (method : C → list pvalue → M F typed_response)
    (ds : list descriptor) : TypedRouteHandler F :=
  let bound values := method controller values in make_parameterized T bound ds.

(** ** The overloads *)
Section sort.
Context (sort : list (RouteEntry F) → list (RouteEntry F)).
Definition get_typed (path : bytes) (T : body_types) (h : json → M F typed_response) (r : HttpRouter F) :=
  add_typed_route sort path verb_get (typed T h) empty_doc r.
Definition get_typed_with (path : bytes) (T : parameter_types) (h : list pvalue → M F typed_response) (ds : list descriptor) (r : HttpRouter F) :=
  add_typed_route sort path verb_get (make_parameterized T h ds) empty_doc r.
Definition get_typed_with_documented (path : bytes) (T : parameter_types) (h : list pvalue → M F typed_response) (doc : RouteDocumentation) (ds : list descriptor) (r : HttpRouter F) :=
  add_typed_route sort path verb_get (make_parameterized T h ds) doc r.
Definition post_typed (path : bytes) (T : body_types) (h : json → M F typed_response) (r : HttpRouter F) :=
  add_typed_route sort path verb_post (typed T h) empty_doc r.
Definition post_typed_with (path : bytes) (T : parameter_types) (h : list pvalue → M F typed_response) (ds : list descriptor) (r : HttpRouter F) :=
  add_typed_route sort path verb_post (make_parameterized T h ds) empty_doc r.
Definition post_typed_with_documented (path : bytes) (T : parameter_types) (h : list pvalue → M F typed_response) (doc : RouteDocumentation) (ds : list descriptor) (r : HttpRouter F) :=
  add_typed_route sort path verb_post (make_parameterized T h ds) doc r.
Definition put_typed (path : bytes) (T : body_types) (h : json → M F typed_response) (r : HttpRouter F) :=
  add_typed_route sort path verb_put (typed T h) empty_doc r.
Definition put_typed_with (path : bytes) (T : parameter_types) (h : list pvalue → M F typed_response) (ds : list descriptor) (r : HttpRouter F) :=
  add_typed_route sort path verb_put (make_parameterized T h ds) empty_doc r.
Definition put_typed_with_documented (path : bytes) (T : parameter_types) (h : list pvalue → M F typed_response) (doc : RouteDocumentation) (ds : list descriptor) (r : HttpRouter F) :=
  add_typed_route sort path verb_put (make_parameterized T h ds) doc r.
Definition del_typed (path : bytes) (T : body_types) (h : json → M F typed_response) (r : HttpRouter F) :=
  add_typed_route sort path verb_delete (typed T h) empty_doc r.
Definition del_typed_with (path : bytes) (T : parameter_types) (h : list pvalue → M F typed_response) (ds : list descriptor) (r : HttpRouter F) :=
  add_typed_route sort path verb_delete (make_parameterized T h ds) empty_doc r.
Definition del_typed_with_documented (path : bytes) (T : parameter_types) (h : list pvalue → M F typed_response) (doc : RouteDocumentation) (ds : list descriptor) (r : HttpRouter F) :=
  add_typed_route sort path verb_delete (make_parameterized T h ds) doc r.
Definition options_typed (path : bytes) (T : body_types) (h : json → M F typed_response) (r : HttpRouter F) :=
  add_typed_route sort path verb_options (typed T h) empty_doc r.
Definition options_typed_with (path : bytes) (T : parameter_types) (h : list pvalue → M F typed_response) (ds : list descriptor) (r : HttpRouter F) :=
  add_typed_route sort path verb_options (make_parameterized T h ds) empty_doc r.
Definition options_typed_with_documented (path : bytes) (T : parameter_types) (h : list pvalue → M F typed_response) (doc : RouteDocumentation) (ds : list descriptor) (r : HttpRouter F) :=
  add_typed_route sort path verb_options (make_parameterized T h ds) doc r.
Definition get_typed_documented (path : bytes) (T : body_types) (h : json → M F typed_response) (doc : RouteDocumentation) (r : HttpRouter F) :=
  add_typed_route sort path verb_get (typed T h) doc r.
Definition post_typed_documented (path : bytes) (T : body_types) (h : json → M F typed_response) (doc : RouteDocumentation) (r : HttpRouter F) :=
  add_typed_route sort path verb_post (typed T h) doc r.
Definition put_typed_documented (path : bytes) (T : body_types) (h : json → M F typed_response) (doc : RouteDocumentation) (r : HttpRouter F) :=
  add_typed_route sort path verb_put (typed T h) doc r.
Definition del_typed_documented (path : bytes) (T : body_types) (h : json → M F typed_response) (doc : RouteDocumentation) (r : HttpRouter F) :=
  add_typed_route sort path verb_delete (typed T h) doc r.
Definition options_typed_documented (path : bytes) (T : body_types) (h : json → M F typed_response) (doc : RouteDocumentation) (r : HttpRouter F) :=
  add_typed_route sort path verb_options (typed T h) doc r.
Definition get_controller (path : bytes) {C} (T : body_types) (controller : C) (method : C → json → M F typed_response) (r : HttpRouter F) :=
  add_typed_route sort path verb_get (make_typed_member_handler T controller method) empty_doc r.
Definition get_controller_with (path : bytes) {C} (T : parameter_types) (controller : C) (method : C → list pvalue → M F typed_response) (ds : list descriptor) (r : HttpRouter F) :=
  add_typed_route sort path verb_get (make_parameterized_member_handler T controller method ds) empty_doc r.
Definition get_controller_with_documented (path : bytes) {C} (T : parameter_types) (controller : C) (method : C → list pvalue → M F typed_response) (doc : RouteDocumentation) (ds : list descriptor) (r : HttpRouter F) :=
  add_typed_route sort path verb_get (make_parameterized_member_handler T controller method ds) doc r.
Definition post_controller (path : bytes) {C} (T : body_types) (controller : C) (method : C → json → M F typed_response) (r : HttpRouter F) :=
  add_typed_route sort path verb_post (make_typed_member_handler T controller method) empty_doc r.
Definition post_controller_with (path : bytes) {C} (T : parameter_types) (controller : C) (method : C → list pvalue → M F typed_response) (ds : list descriptor) (r : HttpRouter F) :=
  add_typed_route sort path verb_post (make_parameterized_member_handler T controller method ds) empty_doc r.
Definition post_controller_with_documented (path : bytes) {C} (T : parameter_types) (controller : C) (method : C → list pvalue → M F typed_response) (doc : RouteDocumentation) (ds : list descriptor) (r : HttpRouter F) :=
  add_typed_route sort path verb_post (make_parameterized_member_handler T controller method ds) doc r.
Definition put_controller (path : bytes) {C} (T : body_types) (controller : C) (method : C → json → M F typed_response) (r : HttpRouter F) :=
  add_typed_route sort path verb_put (make_typed_member_handler T controller method) empty_doc r.
Definition put_controller_with (path : bytes) {C} (T : parameter_types) (controller : C) (method : C → list pvalue → M F typed_response) (ds : list descriptor) (r : HttpRouter F) :=
  add_typed_route sort path verb_put (make_parameterized_member_handler T controller method ds) empty_doc r.
Definition put_controller_with_documented (path : bytes) {C} (T : parameter_types) (controller : C) (method : C → list pvalue → M F typed_response) (doc : RouteDocumentation) (ds : list descriptor) (r : HttpRouter F) :=
  add_typed_route sort path verb_put (make_parameterized_member_handler T controller method ds) doc r.
Definition del_controller (path : bytes) {C} (T : body_types) (controller : C) (method : C → json → M F typed_response) (r : HttpRouter F) :=
  add_typed_route sort path verb_delete (make_typed_member_handler T controller method) empty_doc r.
Definition del_controller_with (path : bytes) {C} (T : parameter_types) (controller : C) (method : C → list pvalue → M F typed_response) (ds : list descriptor) (r : HttpRouter F) :=
  add_typed_route sort path verb_delete (make_parameterized_member_handler T controller method ds) empty_doc r.
Definition del_controller_with_documented (path : bytes) {C} (T : parameter_types) (controller : C) (method : C → list pvalue → M F typed_response) (doc : RouteDocumentation) (ds : list descriptor) (r : HttpRouter F) :=
  add_typed_route sort path verb_delete (make_parameterized_member_handler T controller method ds) doc r.
Definition options_controller (path : bytes) {C} (T : body_types) (controller : C) (method : C → json → M F typed_response) (r : HttpRouter F) :=
  add_typed_route sort path verb_options (make_typed_member_handler T controller method) empty_doc r.
Definition options_controller_with (path : bytes) {C} (T : parameter_types) (controller : C) (method : C → list pvalue → M F typed_response) (ds : list descriptor) (r : HttpRouter F) :=
  add_typed_route sort path verb_options (make_parameterized_member_handler T controller method ds) empty_doc r.
Definition options_controller_with_documented (path : bytes) {C} (T : parameter_types) (controller : C) (method : C → list pvalue → M F typed_response) (doc : RouteDocumentation) (ds : list descriptor) (r : HttpRouter F) :=
  add_typed_route sort path verb_options (make_parameterized_member_handler T controller method ds) doc r.
Definition get_controller_documented (path : bytes) {C} (T : body_types) (controller : C) (method : C → json → M F typed_response) (doc : RouteDocumentation) (r : HttpRouter F) :=
  add_typed_route sort path verb_get (make_typed_member_handler T controller method) doc r.
Definition post_controller_documented (path : bytes) {C} (T : body_types) (controller : C) (method : C → json → M F typed_response) (doc : RouteDocumentation) (r : HttpRouter F) :=
  add_typed_route sort path verb_post (make_typed_member_handler T controller method) doc r.
Definition put_controller_documented (path : bytes) {C} (T : body_types) (controller : C) (method : C → json → M F typed_response) (doc : RouteDocumentation) (r : HttpRouter F) :=
  add_typed_route sort path verb_put (make_typed_member_handler T controller method) doc r.
Definition del_controller_documented (path : bytes) {C} (T : body_types) (controller : C) (method : C → json → M F typed_response) (doc : RouteDocumentation) (r : HttpRouter F) :=
  add_typed_route sort path verb_delete (make_typed_member_handler T controller method) doc r.
Definition options_controller_documented (path : bytes) {C} (T : body_types) (controller : C) (method : C → json → M F typed_response) (doc : RouteDocumentation) (r : HttpRouter F) :=
  add_typed_route sort path verb_options (make_typed_member_handler T controller method) doc r.
Definition map_exception (matches : exn → bool) (mapper : exn → outcome exn typed_response) (r : HttpRouter F) : HttpRouter F :=
  add_exception_handler (typed_exception_mapper matches mapper) r.

(** ** All of them as one function *)
Inductive route_method := Get | Post | Put | Del | Options.
Definition verb_of (m : route_method) : verb :=
  match m with Get => verb_get | Post => verb_post | Put => verb_put | Del => verb_delete | Options => verb_options end.
Inductive callable :=
| Typed (T : body_types) (h : json → M F typed_response)
| TypedWith (T : parameter_types) (h : list pvalue → M F typed_response) (ds : list descriptor)
| Controlled {C : Type} (T : body_types) (c : C) (h : C → json → M F typed_response)
| ControlledWith {C : Type} (T : parameter_types) (c : C) (h : C → list pvalue → M F typed_response) (ds : list descriptor).
Definition overload (m : route_method) (k : callable) (doc : option RouteDocumentation) (path : bytes) (r : HttpRouter F) : outcome exn (HttpRouter F) :=
  match m, k, doc with
  | Get, Typed T h, None => get_typed path T h r
  | Get, TypedWith T h ds, None => get_typed_with path T h ds r
  | Get, TypedWith T h ds, Some doc => get_typed_with_documented path T h doc ds r
  | Post, Typed T h, None => post_typed path T h r
  | Post, TypedWith T h ds, None => post_typed_with path T h ds r
  | Post, TypedWith T h ds, Some doc => post_typed_with_documented path T h doc ds r
  | Put, Typed T h, None => put_typed path T h r
  | Put, TypedWith T h ds, None => put_typed_with path T h ds r
  | Put, TypedWith T h ds, Some doc => put_typed_with_documented path T h doc ds r
  | Del, Typed T h, None => del_typed path T h r
  | Del, TypedWith T h ds, None => del_typed_with path T h ds r
  | Del, TypedWith T h ds, Some doc => del_typed_with_documented path T h doc ds r
  | Options, Typed T h, None => options_typed path T h r
  | Options, TypedWith T h ds, None => options_typed_with path T h ds r
  | Options, TypedWith T h ds, Some doc => options_typed_with_documented path T h doc ds r
  | Get, Typed T h, Some doc => get_typed_documented path T h doc r
  | Post, Typed T h, Some doc => post_typed_documented path T h doc r
  | Put, Typed T h, Some doc => put_typed_documented path T h doc r
  | Del, Typed T h, Some doc => del_typed_documented path T h doc r
  | Options, Typed T h, Some doc => options_typed_documented path T h doc r
  | Get, Controlled T c h, None => get_controller path T c h r
  | Get, ControlledWith T c h ds, None => get_controller_with path T c h ds r
  | Get, ControlledWith T c h ds, Some doc => get_controller_with_documented path T c h doc ds r
  | Post, Controlled T c h, None => post_controller path T c h r
  | Post, ControlledWith T c h ds, None => post_controller_with path T c h ds r
  | Post, ControlledWith T c h ds, Some doc => post_controller_with_documented path T c h doc ds r
  | Put, Controlled T c h, None => put_controller path T c h r
  | Put, ControlledWith T c h ds, None => put_controller_with path T c h ds r
  | Put, ControlledWith T c h ds, Some doc => put_controller_with_documented path T c h doc ds r
  | Del, Controlled T c h, None => del_controller path T c h r
  | Del, ControlledWith T c h ds, None => del_controller_with path T c h ds r
  | Del, ControlledWith T c h ds, Some doc => del_controller_with_documented path T c h doc ds r
  | Options, Controlled T c h, None => options_controller path T c h r
  | Options, ControlledWith T c h ds, None => options_controller_with path T c h ds r
  | Options, ControlledWith T c h ds, Some doc => options_controller_with_documented path T c h doc ds r
  | Get, Controlled T c h, Some doc => get_controller_documented path T c h doc r
  | Post, Controlled T c h, Some doc => post_controller_documented path T c h doc r
  | Put, Controlled T c h, Some doc => put_controller_documented path T c h doc r
  | Del, Controlled T c h, Some doc => del_controller_documented path T c h doc r
  | Options, Controlled T c h, Some doc => options_controller_documented path T c h doc r
  end.
(** What a request runs, and the parameters the route documents. *)
Definition handler_of (k : callable) : M F unit :=
  let respond (result : M F typed_response) : M F unit := result ≫= λ r, apply_typed_response r in
  let with_body T (h : json → M F typed_response) : M F unit := λ x,
    match read_body (bt_value_to T) x with Throw e => (x, Throw e) | Ret request => respond (h request) x end in
  let with_parameters T (h : list pvalue → M F typed_response) ds : M F unit :=
    read_in_order (pt_order T) ds ∅ ≫= λ vs, respond (h (collect (length ds) vs)) in
  match k with
  | Typed T h => with_body T h
  | TypedWith T h ds => with_parameters T h ds
  | Controlled T c h => with_body T (h c)
  | ControlledWith T c h ds => with_parameters T (h c) ds
  end.
Definition parameters_of (k : callable) : list RouteParameterDocumentation :=
  match k with Typed _ _ | Controlled _ _ _ => [] | TypedWith _ _ ds | ControlledWith _ _ _ ds => ds ≫= append_parameter_documentation end.

(** The record a registration leaves for the document. *)
Definition descriptor_of (r : HttpRouter F) (path : bytes) (m : verb) : option RouteDescriptor :=
  List.find (same_route path m) (rt_descriptors r).
Lemma same_route_refl path m d : same_route path m d = true ↔ de_path d = path ∧ de_method d = m.
Proof. unfold same_route. rewrite andb_true_iff, !bool_decide_eq_true. done. Qed.
Lemma update_descriptor_find path m g ds :
  (∀ d, same_route path m (g d) = same_route path m d) →
  match update_descriptor path m g ds with
  | Some ds' => List.find (same_route path m) ds' = g <$> List.find (same_route path m) ds ∧ is_Some (List.find (same_route path m) ds)
  | None => List.find (same_route path m) ds = None
  end.
Proof.
  intros Hg. induction ds as [|d ds IH]; cbn [update_descriptor List.find]; [done|].
  destruct (same_route path m d) eqn:Hd; cbn [List.find].
  - rewrite Hg, Hd. split; [done|by eexists].
  - destruct (update_descriptor path m g ds) as [ds'|]; cbn [fmap option_fmap option_map List.find]; by rewrite ?Hd.
Qed.
Lemma recorded_parameters path m req res doc ps ds :
  ∃ d, List.find (same_route path m) (record_route_descriptor path m req res doc ps ds) = Some d ∧ de_parameters d = ps.
Proof.
  unfold record_route_descriptor. match goal with |- context [update_descriptor path m ?g ds] => set (refresh := g) end.
  assert (∀ d, same_route path m (refresh d) = same_route path m d) as Hg by done.
  pose proof (update_descriptor_find path m refresh ds Hg) as Hu. destruct (update_descriptor path m refresh ds) as [ds'|].
  - destruct Hu as [-> [d ->]]. by eexists.
  - match goal with |- context [ds ++ [?d]] => exists d end. split; [|done]. clear Hg. induction ds as [|d ds IH]; cbn [List.find app] in *.
    + unfold same_route. cbn. by rewrite !bool_decide_eq_true_2.
    + destruct (same_route path m d); [done|by apply IH].
Qed.
End sort.
End overloads.

(** An overload is a typed registration of its handler. *)
Lemma overload_typed {F} `{HttpFields F} `{Platform} `{Verbs} sort m k doc p (r : HttpRouter F) :
  ∃ h, th_handler h = handler_of k ∧ th_parameters h = parameters_of k ∧
    overload sort m k doc p r = add_typed_route sort p (verb_of m) h (default empty_doc doc) r.
Proof. destruct k; destruct m, doc; (eexists; split; [|split; [|reflexivity]]; reflexivity). Qed.
(** What a registration does to a table. *)
Lemma add_route_registers {F} `{HttpFields F} `{Platform} `{Verbs} sort `{!StdSort (more_specific (F := F)) sort} (r : HttpRouter F) p path m h req res documented doc ps :
  table_ok (rt_routes r) → apply_base_path r p = Ret path →
  ∃ r', add_route sort p m h req res documented doc ps r = Ret r' ∧ table_ok (rt_routes r') ∧ rt_base_path r' = rt_base_path r ∧
    (∀ k' p' m' h', registered k' (rt_routes r') p' m' h' ↔
      if bool_decide (k' = KSync ∧ p' = path ∧ m' = m) then h' = h else registered k' (rt_routes r) p' m' h') ∧
    (documented = true → ∃ d, descriptor_of r' path m = Some d ∧ de_parameters d = ps).
Proof.
  intros Hok Hp. destruct (install_registered sort KSync path m h _ Hok) as (es & Hi & Hok' & Hreg).
  unfold add_route. rewrite Hp. cbn [mbind outcome_bind]. cbn [set_of] in Hi. rewrite Hi. eexists. split; [reflexivity|].
  split_and!; [exact Hok'|done|exact Hreg|]. intros ->. apply recorded_parameters.
Qed.
Lemma overload_registers {F} `{HttpFields F} `{Platform} `{Verbs}
    sort `{!StdSort (more_specific (F := F)) sort} (r : HttpRouter F) m k doc p path :
  table_ok (rt_routes r) → apply_base_path r p = Ret path →
  typed_parameters_ok (pp_param_names (http_parse_path_pattern p)) (parameters_of k) →
  ∃ r', overload sort m k doc p r = Ret r' ∧ table_ok (rt_routes r') ∧ rt_base_path r' = rt_base_path r ∧
    (∀ k' p' m' h', registered k' (rt_routes r') p' m' h' ↔
      if bool_decide (k' = KSync ∧ p' = path ∧ m' = verb_of m) then h' = handler_of k else registered k' (rt_routes r) p' m' h') ∧
    (∃ d, descriptor_of r' path (verb_of m) = Some d ∧ de_parameters d = parameters_of k).
Proof.
  intros Hok Hp Hnames. destruct (overload_typed sort m k doc p r) as (h & <- & Hps & ->). rewrite <-Hps in *.
  destruct (typed_registration_checked sort p (verb_of m) h (default empty_doc doc) r) as [Hgood _]. rewrite (Hgood Hnames).
  destruct (add_route_registers sort r p path (verb_of m) (th_handler h) (th_request_schema h) (th_response_schema h) true
    (default empty_doc doc) (th_parameters h) Hok Hp) as (r' & ? & ? & ? & ? & Hd).
  exists r'. split_and!; auto.
Qed.
Lemma overload_refuses {F} `{HttpFields F} `{Platform} `{Verbs} sort m k doc p (r : HttpRouter F) :
  ~ typed_parameters_ok (pp_param_names (http_parse_path_pattern p)) (parameters_of k) →
  ∃ what, overload sort m k doc p r = Throw (InvalidArgument what).
Proof.
  intros Hn. destruct (overload_typed sort m k doc p r) as (h & Hh & Hps & ->). rewrite <-Hps in *.
  by destruct (typed_registration_checked sort p (verb_of m) h (default empty_doc doc) r) as [_ Hbad]; apply Hbad.
Qed.

(** The forty typed overloads. On a router built by any registrations, an
    overload whose parameters are well formed registers, under exactly its own
    method and path, a handler that reads the body or the parameters, calls the
    function (or the method on its controller) with them and applies the
    response; it changes no other handler and documents exactly the declared
    parameters. With ill-formed parameters it throws [invalid_argument]. *)
Theorem typed_overloads {F} `{HttpFields F} `{Platform} `{Verbs}
    sort `{!StdSort (more_specific (F := F)) sort} gs (r : HttpRouter F) m k doc p path :
  registrations sort gs router_init = Ret r → apply_base_path r p = Ret path →
  let names := pp_param_names (http_parse_path_pattern p) in
  (typed_parameters_ok names (parameters_of k) →
   ∃ r', overload sort m k doc p r = Ret r' ∧ table_ok (rt_routes r') ∧
     (∀ k' p' m' h', registered k' (rt_routes r') p' m' h' ↔
       if bool_decide (k' = KSync ∧ p' = path ∧ m' = verb_of m) then h' = handler_of k else registered k' (rt_routes r) p' m' h') ∧
     (∃ d, descriptor_of r' path (verb_of m) = Some d ∧ de_parameters d = parameters_of k)) ∧
  (~ typed_parameters_ok names (parameters_of k) → ∃ what, overload sort m k doc p r = Throw (InvalidArgument what)).
Proof.
  intros Hgs Hp names. pose proof (registrations_ok sort gs r Hgs) as Hok. split; [|apply overload_refuses].
  intros Hnames. destruct (overload_registers sort r m k doc p path Hok Hp Hnames) as (r' & ? & ? & _ & ? & ?). by exists r'.
Qed.

Section witness.
#[local] Existing Instance demo_platform.
#[local] Existing Instance demo_verbs.
Definition demo_types : parameter_types := mk_parameter_types [0] None.
Definition demo_method (greeting : bytes) (vs : list pvalue) : M FieldList.t typed_response := throwM (StdException greeting).
Definition demo_descriptors : list descriptor := [PathParam TString (str "id") JNull].
Theorem typed_overloads_witness :
  ∃ r', overload (merge_std_sort more_specific) Put (ControlledWith demo_types (str "hello") demo_method demo_descriptors) None
    (str "/users/:id") demo_router = Ret r' ∧ table_ok (rt_routes r').
Proof.
  destruct (typed_overloads (merge_std_sort more_specific) demo_registrations demo_router Put
    (ControlledWith demo_types (str "hello") demo_method demo_descriptors) None (str "/users/:id") (str "/users/:id")) as [Hg _].
  - reflexivity.
  - reflexivity.
  - destruct Hg as (r' & Hr & Hok & _); [|by exists r']. split.
    + apply Forall_singleton. split; [done|]. intros _. vm_compute. by left.
    + apply NoDup_singleton.
Defined.
End witness.
