(* ===== verification/Websocket.v ===== *)
(** * WebSockets ([router/websocket_router.*], [context/websocket_context.*],
    [websocket/websocket_session.*])

    The router is a table as in the HTTP router. A session is a machine: its
    state is the members of [WebsocketSession], its events are the closures and
    completions the executor runs, its effects the asynchronous operations it
    starts and the handlers it invokes. *)
From S2P Require Import Prelude Text PathPattern Http HttpContext.
Set Default Proof Using "Type*".

(** ** Frames, handshake, context *)
Inductive WebsocketFrameType := ft_text | ft_binary | ft_ping | ft_pong | ft_close.
#[export] Instance frame_type_eq_dec : EqDecision WebsocketFrameType.
Proof. solve_decision. Defined.
Record WebsocketFrame := mk_frame {
  fr_type : WebsocketFrameType; fr_payload : bytes; fr_close_code : Z; fr_close_reason : bytes }.

Record WebsocketHandshakeRequest := mk_handshake {
  hs_target : bytes; hs_path : bytes; hs_headers : list (bytes * bytes);
  hs_query_params : gmap bytes bytes; hs_subprotocols : list bytes }.
Definition handshake_empty : WebsocketHandshakeRequest := mk_handshake [] [] [] ∅ [].

(** [error_code]: [None] is success. *)
Inductive ws_error := ws_closed | ws_eof | ws_aborted | ws_failed (n : N).
#[export] Instance ws_error_eq_dec : EqDecision ws_error.
Proof. solve_decision. Defined.

Record WebsocketContext := mk_wsctx {
  wc_id : bytes; wc_message : bytes; wc_is_text : bool; wc_error : option ws_error; wc_path : bytes;
  wc_frame : WebsocketFrame; wc_handshake : WebsocketHandshakeRequest; wc_path_params : gmap bytes bytes }.
Definition message_context (id msg : bytes) (text : bool) (path : bytes) (hs : WebsocketHandshakeRequest) : WebsocketContext :=
  mk_wsctx id msg text None path (mk_frame (if text then ft_text else ft_binary) msg 1000 []) hs ∅.
Definition event_context (id path : bytes) (ec : option ws_error) (hs : WebsocketHandshakeRequest) : WebsocketContext :=
  mk_wsctx id [] false ec path (mk_frame ft_text [] 1000 []) hs ∅.
Definition with_frame (f : WebsocketFrame) (c : WebsocketContext) : WebsocketContext :=
  mk_wsctx (wc_id c) (wc_message c) (wc_is_text c) (wc_error c) (wc_path c) f (wc_handshake c) (wc_path_params c).
Definition ws_set_path_params (params : gmap bytes bytes) (c : WebsocketContext) : WebsocketContext :=
  mk_wsctx (wc_id c) (wc_message c) (wc_is_text c) (wc_error c) (wc_path c) (wc_frame c) (wc_handshake c) params.
Definition ws_get_headers (name : bytes) (c : WebsocketContext) : list bytes :=
  (filter (λ h, ieq h.1 name = true) (hs_headers (wc_handshake c))).*2.
Definition ws_get_header (name : bytes) (c : WebsocketContext) : option bytes := head (ws_get_headers name c).
Definition ws_get_query_param (key : bytes) (c : WebsocketContext) : option bytes := hs_query_params (wc_handshake c) !! key.
Definition ws_get_path_param (key : bytes) (c : WebsocketContext) : option bytes := wc_path_params c !! key.

(** ** Handshake parsing *)
Definition is_blank (c : ascii) : bool := bool_decide (c ∈ [SP; HT]).
Fixpoint subprotocol_loop (value : bytes) (fuel : nat) (begin : nat) (acc : list bytes) : list bytes :=
  match fuel with
  | O => acc
  | S fuel =>
      if bool_decide (length value ≤ begin) then acc else
      let e := find_char ","%char value begin in
      let token := trim_by is_blank (substr_to value begin e) in
      let acc := if bool_decide (token = []) then acc else acc ++ [token] in
      match e with None => acc | Some e => subprotocol_loop value fuel (e + 1) acc end
  end.
(** [map::emplace]: the first value of a key stays. *)
Definition emplace (key value : bytes) (m : gmap bytes bytes) : gmap bytes bytes :=
  match m !! key with Some _ => m | None => <[key := value]> m end.
Definition add_query_pair (pair : bytes) (m : gmap bytes bytes) : gmap bytes bytes :=
  match find_char "="%char pair 0 with
  | None => emplace pair [] m
  | Some e => emplace (take e pair) (drop (e + 1) pair) m
  end.
Fixpoint query_loop (query : bytes) (fuel : nat) (begin : nat) (m : gmap bytes bytes) : gmap bytes bytes :=
  match fuel with
  | O => m
  | S fuel =>
      if bool_decide (length query < begin) then m else
      let e := find_char "&"%char query begin in
      let m := add_query_pair (substr_to query begin e) m in
      match e with None => m | Some e => query_loop query fuel (e + 1) m end
  end.
(** Header fields in order, with the fields of [Sec-WebSocket-Protocol] marked
    by a case-insensitive name. *)
Definition subprotocols_of (headers : list (bytes * bytes)) : list bytes :=
  fold_left (λ acc h, if ieq h.1 (str "Sec-WebSocket-Protocol")
                      then subprotocol_loop h.2 (S (length h.2)) 0 acc else acc) headers [].
Definition parse_handshake (target : bytes) (headers : list (bytes * bytes)) : WebsocketHandshakeRequest :=
  let query_pos := find_char "?"%char target 0 in
  mk_handshake target (substr_to target 0 query_pos) headers
    (match query_pos with
     | None => ∅
     | Some p => let query := drop (p + 1) target in query_loop query (S (S (length query))) 0 ∅
     end)
    (subprotocols_of headers).
Definition initial_path_of (hs : WebsocketHandshakeRequest) : bytes :=
  if bool_decide (hs_path hs = []) then str "/" else hs_path hs.

(** ** Router *)
Section router.
(** A handler decides, from the context, which frames to send back. *)
Definition ws_handler := WebsocketContext → list WebsocketFrame.
Record WebsocketRouteEntry := mk_ws_entry {
  on_open : option ws_handler; on_message : option ws_handler;
  on_close : option ws_handler; on_error : option ws_handler }.
Record WebsocketRoute := mk_ws_route {
  wr_path : bytes; wr_regex : regex; wr_params : list bytes; wr_literals : Z; wr_dynamics : Z;
  wr_handlers : WebsocketRouteEntry }.
Definition ws_more_specific (a b : WebsocketRoute) : bool :=
  compare_specificity (wr_literals a, wr_dynamics a) (wr_literals b, wr_dynamics b).
Record WebsocketRouter := mk_ws_router { wrt_base_path : bytes; wrt_routes : list WebsocketRoute }.

(** [None]: [std::invalid_argument]. *)
Definition ws_set_base_path (path : bytes) (r : WebsocketRouter) : option WebsocketRouter :=
  if match path with [] => false | c :: _ => negb (bool_decide (c = "/"%char)) end then None
  else
    let path := match path with [] => [] | c :: t => c :: drop_while_end (λ c, bool_decide (c = "/"%char)) t end in
    Some (mk_ws_router (if bool_decide (path = str "/") then [] else path) (wrt_routes r)).
Fixpoint ws_update (path : bytes) (h : WebsocketRouteEntry) (rs : list WebsocketRoute) : option (list WebsocketRoute) :=
  match rs with
  | [] => None
  | r :: rs =>
      if bool_decide (wr_path r = path)
      then Some (mk_ws_route (wr_path r) (wr_regex r) (wr_params r) (wr_literals r) (wr_dynamics r) h :: rs)
      else cons r <$> ws_update path h rs
  end.
(** [None]: [std::regex_error]. *)
Definition add_handler (sort : list WebsocketRoute → list WebsocketRoute) (path : bytes) (h : WebsocketRouteEntry)
    (r : WebsocketRouter) : option WebsocketRouter :=
  let registered_path := if bool_decide (wrt_base_path r = []) then path else wrt_base_path r ++ path in
  match ws_update registered_path h (wrt_routes r) with
  | Some rs => Some (mk_ws_router (wrt_base_path r) rs)
  | None =>
      let pp := ws_parse_path_pattern registered_path in
      match compile_regex (pp_regex_str pp) with
      | None => None
      | Some re => Some (mk_ws_router (wrt_base_path r) (sort (wrt_routes r ++
          [mk_ws_route registered_path re (pp_param_names pp) (pp_literal_segments pp) (pp_dynamic_segments pp) h])))
      end
  end.
Inductive ws_event := we_open | we_message | we_close | we_error.
#[export] Instance ws_event_eq_dec : EqDecision ws_event.
Proof. solve_decision. Defined.
Definition handler_for (k : ws_event) (h : WebsocketRouteEntry) : option ws_handler :=
  match k with we_open => on_open h | we_message => on_message h | we_close => on_close h | we_error => on_error h end.
(** [params[names[i]] = match[i + 1]]. *)
Definition ws_bind_params (names caps : list bytes) : gmap bytes bytes :=
  fold_left (λ m nv, <[nv.1 := nv.2]> m) (zip names caps) ∅.
(** The frames the invoked handler sends; [None] when no route matches. *)
Fixpoint ws_dispatch (rs : list WebsocketRoute) (k : ws_event) (path : bytes) (c : WebsocketContext)
    : option (list WebsocketFrame) :=
  match rs with
  | [] => None
  | r :: rs =>
      match regex_match (wr_regex r) path with
      | None => ws_dispatch rs k path c
      | Some caps =>
          let c := ws_set_path_params (ws_bind_params (wr_params r) caps) c in
          Some (match handler_for k (wr_handlers r) with Some h => h c | None => [] end)
      end
  end.
End router.

(** ** Session *)
Definition fragment_size : nat := 16 * 1024.
Definition auto_fragment_threshold : nat := fragment_size * 2.
(** The loop that cuts a payload into buffers. *)
Fixpoint fragment_loop (size : nat) (ss : bytes) (fuel : nat) (offset : nat) : list bytes :=
  match fuel with
  | O => []
  | S fuel =>
      if bool_decide (length ss ≤ offset) then [] else
      let current_chunk_size := min size (length ss - offset) in
      substr ss offset current_chunk_size :: fragment_loop size ss fuel (offset + current_chunk_size)
  end.
Definition fragments (ss : bytes) : list bytes :=
  if bool_decide (length ss < auto_fragment_threshold) then [ss]
  else fragment_loop fragment_size ss (S (length ss)) 0.

Record WebsocketSession := mk_session {
  ss_id : bytes; ss_initial_path : bytes; ss_handshake : WebsocketHandshakeRequest;
  ss_write_queue : list WebsocketFrame;
  ss_writing : bool; ss_closed : bool; ss_close_pending : bool;
  ss_registered : bool;     (** the session is in [m_sessions_id_] *)
}.
Definition session_init (id path : bytes) : WebsocketSession := mk_session id path handshake_empty [] false false false false.

(** What the stream reports when an event runs: [is_open()] and [reason()]. *)
Record ws_env := mk_ws_env { en_open : bool; en_reason : Z * bytes }.
Inductive session_event :=
| EvHandshake (ec : option ws_error) (env : ws_env)      (** completion of [async_accept] *)
| EvControl (type : WebsocketFrameType) (payload : bytes) (env : ws_env)   (** the control callback *)
| EvRead (res : ws_error + bytes * bool) (env : ws_env)  (** completion of [async_read]: error, or message and text flag *)
| EvSend (frame : WebsocketFrame) (env : ws_env)         (** the closure posted by [send_frame] *)
| EvWriteDone (ec : option ws_error) (env : ws_env).     (** completion of a write *)
Inductive session_effect :=
| AsyncRead
| AsyncWrite (text : bool) (buffers : list bytes)
| AsyncPing (payload : bytes)
| AsyncPong (payload : bytes)
| AsyncClose (close_code : Z) (reason : bytes)
| CloseStream
| Dispatched (k : ws_event) (c : WebsocketContext) (posted : list WebsocketFrame).

Section session.
Context (router : WebsocketRouter).
Implicit Types (s : WebsocketSession).

Definition ws_send_message (msg : bytes) (is_text : bool) : WebsocketFrame :=
  mk_frame (if is_text then ft_text else ft_binary) msg 1000 [].
Definition with_queue q (w c p reg : bool) s : WebsocketSession :=
  mk_session (ss_id s) (ss_initial_path s) (ss_handshake s) q w c p reg.
Definition notify (k : ws_event) (c : WebsocketContext) s : list session_effect :=
  [Dispatched k c (default [] (ws_dispatch (wrt_routes router) k (ss_initial_path s) c))].

Definition run_handshake (target : bytes) (headers : list (bytes * bytes)) s : WebsocketSession :=
  let hs := parse_handshake target headers in
  mk_session (ss_id s) (initial_path_of hs) hs (ss_write_queue s) (ss_writing s) (ss_closed s) (ss_close_pending s) (ss_registered s).
Definition close_stream (env : ws_env) : list session_effect := if en_open env then [CloseStream] else [].
Definition do_write_next (env : ws_env) s : WebsocketSession * list session_effect :=
  if ss_closed s then
    (with_queue [] false true false (ss_registered s) s, if ss_close_pending s then close_stream env else [])
  else match ss_write_queue s with
  | [] => (with_queue [] false false false (ss_registered s) s, if ss_close_pending s then close_stream env else [])
  | frame :: q =>
      match fr_type frame with
      | ft_close => (with_queue q (ss_writing s) true (ss_close_pending s) (ss_registered s) s,
                     [AsyncClose (fr_close_code frame) (fr_close_reason frame)])
      | ft_ping => (with_queue q (ss_writing s) false (ss_close_pending s) (ss_registered s) s, [AsyncPing (fr_payload frame)])
      | ft_pong => (with_queue q (ss_writing s) false (ss_close_pending s) (ss_registered s) s, [AsyncPong (fr_payload frame)])
      | t => (with_queue q (ss_writing s) false (ss_close_pending s) (ss_registered s) s,
              [AsyncWrite (bool_decide (t = ft_text)) (fragments (fr_payload frame))])
      end
  end.
Definition do_close (ec : option ws_error) (env : ws_env) s : WebsocketSession * list session_effect :=
  if ss_closed s then (s, []) else
  let notice :=
    if bool_decide (ec ≠ None) && bool_decide (ec ≠ Some ws_closed) && bool_decide (ec ≠ Some ws_eof) then
      notify we_error (event_context (ss_id s) (ss_initial_path s) ec (ss_handshake s)) s
    else
      notify we_close (with_frame (mk_frame ft_close [] (en_reason env).1 (en_reason env).2)
        (event_context (ss_id s) (ss_initial_path s) ec (ss_handshake s))) s in
  if ss_writing s then (with_queue [] true true true false s, notice)
  else (with_queue [] false true (ss_close_pending s) false s, notice ++ close_stream env).
Definition send_frame (frame : WebsocketFrame) (env : ws_env) s : WebsocketSession * list session_effect :=
  if ss_closed s then (s, []) else
  let s := with_queue (ss_write_queue s ++ [frame]) (ss_writing s) (ss_closed s) (ss_close_pending s) (ss_registered s) s in
  if ss_writing s then (s, [])
  else do_write_next env (with_queue (ss_write_queue s) true (ss_closed s) (ss_close_pending s) (ss_registered s) s).
Definition on_write (ec : option ws_error) (env : ws_env) s : WebsocketSession * list session_effect :=
  match ec with
  | Some _ => do_close ec env (with_queue (ss_write_queue s) false (ss_closed s) (ss_close_pending s) (ss_registered s) s)
  | None => do_write_next env s
  end.
Definition on_control (type : WebsocketFrameType) (payload : bytes) (env : ws_env) s : list session_effect :=
  let '(cc, reason) := if bool_decide (type = ft_close) then en_reason env else (1000%Z, []) in
  notify we_message (with_frame (mk_frame type payload cc reason)
    (event_context (ss_id s) (ss_initial_path s) None (ss_handshake s))) s.
Definition on_handshake (ec : option ws_error) (env : ws_env) s : WebsocketSession * list session_effect :=
  match ec with
  | Some _ => do_close ec env s
  | None =>
      let s := with_queue (ss_write_queue s) (ss_writing s) (ss_closed s) (ss_close_pending s) true s in
      (s, notify we_open (event_context (ss_id s) (ss_initial_path s) None (ss_handshake s)) s ++ [AsyncRead])
  end.
Definition on_read (res : ws_error + bytes * bool) (env : ws_env) s : WebsocketSession * list session_effect :=
  match res with
  | inl ec => do_close (Some ec) env s
  | inr (msg, text) =>
      (s, notify we_message (message_context (ss_id s) msg text (ss_initial_path s) (ss_handshake s)) s ++ [AsyncRead])
  end.
Definition handle_event (s : WebsocketSession) (ev : session_event) : WebsocketSession * list session_effect :=
  match ev with
  | EvHandshake ec env => on_handshake ec env s
  | EvControl t p env => (s, on_control t p env s)
  | EvRead res env => on_read res env s
  | EvSend f env => send_frame f env s
  | EvWriteDone ec env => on_write ec env s
  end.
End session.

(** The process-wide registry: how many of the addressed sessions are there. *)
Definition send_message_ids {S} (sessions : gmap bytes S) (ids : list bytes) : list S * nat :=
  let targets := omap (λ id, sessions !! id) ids in (targets, length targets).
