(* ===== verification/WebsocketTheorems.v ===== *)
(** * WebSockets: properties

    Every interleaving of sends, completions, reads and handlers keeps one
    write in flight and the frames in order ([session_safe]); the handshake's
    query and subprotocol lists are the split of their texts
    ([handshake_query_spec]). *)
From S2P Require Import Prelude Text PathPattern PathPatternProofs Http HttpContext Websocket.
Set Default Proof Using "Type*".

(** ** Fragmentation *)
Lemma fragment_loop_spec size ss fuel offset :
  0 < size → length ss < fuel + offset →
  concat (fragment_loop size ss fuel offset) = drop offset ss ∧
  Forall (λ b, 0 < length b ≤ size) (fragment_loop size ss fuel offset).
Proof.
  intros Hsz. revert offset. induction fuel as [|fuel IH]; intros offset Hf; cbn [fragment_loop].
  { rewrite drop_ge by lia. by split. }
  case_bool_decide as Ho; [rewrite drop_ge by lia; by split|].
  destruct (IH (offset + min size (length ss - offset))) as [Hc Hb]; [lia|]. split.
  - cbn [concat]. rewrite Hc. unfold substr. rewrite <-drop_drop. apply take_drop.
  - constructor; [|done]. unfold substr. rewrite length_take, length_drop. lia.
Qed.
Lemma fragments_concat ss : concat (fragments ss) = ss.
Proof.
  unfold fragments. case_bool_decide; [apply app_nil_r|].
  rewrite (proj1 (fragment_loop_spec fragment_size ss (S (length ss)) 0 ltac:(unfold fragment_size; lia) ltac:(lia))).
  apply drop_0.
Qed.

(** ** The session as a transition system *)
(** A frame as it reaches the peer. *)
Inductive wire := WData (text : bool) (payload : bytes) | WPing (p : bytes) | WPong (p : bytes) | WClose (c : Z) (reason : bytes).
Definition wire_of_frame (f : WebsocketFrame) : wire :=
  match fr_type f with
  | ft_text => WData true (fr_payload f) | ft_binary => WData false (fr_payload f)
  | ft_ping => WPing (fr_payload f) | ft_pong => WPong (fr_payload f)
  | ft_close => WClose (fr_close_code f) (fr_close_reason f)
  end.
Definition wire_of_effect (e : session_effect) : option wire :=
  match e with
  | AsyncWrite text bs => Some (WData text (concat bs)) | AsyncPing p => Some (WPing p)
  | AsyncPong p => Some (WPong p) | AsyncClose c r => Some (WClose c r) | _ => None
  end.
Definition is_end (e : session_effect) : bool :=
  match e with Dispatched we_close _ _ | Dispatched we_error _ _ => true | _ => false end.

(** A run: the session, the effects so far, the writes that have not completed,
    and the frames that [send_frame] accepted (the session was not closed when
    the posted closure ran). A write completes only if one is in flight. *)
Record config := mk_config {
  cf_session : WebsocketSession; cf_out : list session_effect; cf_inflight : nat; cf_accepted : list WebsocketFrame }.
Definition accepted_now (s : WebsocketSession) (ev : session_event) : list WebsocketFrame :=
  match ev with EvSend f _ => if ss_closed s then [] else [f] | _ => [] end.
Definition completes (ev : session_event) : nat := match ev with EvWriteDone _ _ => 1 | _ => 0 end.
Inductive step (router : WebsocketRouter) : config → config → Prop :=
| step_event s out n acc ev :
    completes ev ≤ n →
    step router (mk_config s out n acc)
      (mk_config (handle_event router s ev).1 (out ++ (handle_event router s ev).2)
         (n - completes ev + length (omap wire_of_effect (handle_event router s ev).2))
         (acc ++ accepted_now s ev)).

Definition session_inv (c : config) : Prop :=
  let s := cf_session c in
  cf_inflight c = (if ss_writing s then 1 else 0) ∧
  (ss_writing s = false → ss_closed s = false → ss_write_queue s = []) ∧
  (∃ rest, wire_of_frame <$> cf_accepted c = omap wire_of_effect (cf_out c) ++ rest ∧
     (ss_closed s = false → rest = wire_of_frame <$> ss_write_queue s)) ∧
  length (filter (λ e, is_end e = true) (cf_out c)) ≤ (if ss_closed s then 1 else 0).

Lemma omap_notify router k c s : omap wire_of_effect (notify router k c s) = [].
Proof. done. Qed.
Lemma ends_notify router k c s :
  length (filter (λ e, is_end e = true) (notify router k c s)) = (match k with we_close | we_error => 1 | _ => 0 end).
Proof. unfold notify. rewrite filter_cons. by destruct k. Qed.

(** What one event does, as far as the invariant is concerned. *)
Definition effect_ok (s : WebsocketSession) (n : nat) (acc : list WebsocketFrame) (r : WebsocketSession * list session_effect) : Prop :=
  n + length (omap wire_of_effect r.2) = (if ss_writing r.1 then 1 else 0) ∧
  (ss_writing r.1 = false → ss_closed r.1 = false → ss_write_queue r.1 = []) ∧
  (ss_closed s = true → ss_closed r.1 = true ∧ omap wire_of_effect r.2 = []) ∧
  (ss_closed s = false → ∃ rest, wire_of_frame <$> (ss_write_queue s ++ acc) = omap wire_of_effect r.2 ++ rest ∧
     (ss_closed r.1 = false → rest = wire_of_frame <$> ss_write_queue r.1)) ∧
  length (filter (λ e, is_end e = true) r.2) ≤ (if ss_closed s then 0 else if ss_closed r.1 then 1 else 0).

Lemma close_stream_ok env : omap wire_of_effect (close_stream env) = [] ∧ filter (λ e, is_end e = true) (close_stream env) = [].
Proof. unfold close_stream. by destruct (en_open env). Qed.

Lemma do_write_next_ok env s :
  ss_writing s = true → effect_ok s 0 [] (do_write_next env s).
Proof.
  intros Hw. destruct (close_stream_ok env) as [Hc1 Hc2]. unfold effect_ok, do_write_next. rewrite app_nil_r.
  destruct (ss_closed s) eqn:Hc.
  { destruct (ss_close_pending s); cbn; rewrite ?Hc1, ?Hc2; split_and!; done. }
  destruct (ss_write_queue s) as [|f q].
  { destruct (ss_close_pending s); cbn; rewrite ?Hc1, ?Hc2; split_and!; try done; intros; exists []; done. }
  assert (∀ t, fr_type f = t → wire_of_frame f = match t with
    | ft_text => WData true (fr_payload f) | ft_binary => WData false (fr_payload f)
    | ft_ping => WPing (fr_payload f) | ft_pong => WPong (fr_payload f)
    | ft_close => WClose (fr_close_code f) (fr_close_reason f) end) as Hwf by (intros t <-; done).
  destruct (fr_type f) eqn:Ht; cbn; rewrite Hw; split_and!; try done; try lia; try (case_decide; cbn; lia); intros _;
    exists (wire_of_frame <$> q); rewrite (Hwf _ eq_refl), ?fragments_concat; done.
Qed.
Lemma do_close_ok router ec env s n :
  n = (if ss_writing s then 1 else 0) → effect_ok s n [] (do_close router ec env s).
Proof.
  intros ->. destruct (close_stream_ok env) as [Hc1 Hc2]. unfold effect_ok, do_close. rewrite app_nil_r.
  destruct (ss_closed s) eqn:Hc; [cbn; rewrite Hc; split_and!; done || lia|].
  assert (∀ k c, match k with we_close | we_error => True | _ => False end →
    omap wire_of_effect (notify router k c s) = [] ∧ length (filter (λ e, is_end e = true) (notify router k c s)) = 1) as Hn.
  { intros k c Hk. rewrite ends_notify. by destruct k. }
  match goal with |- context [if ss_writing s then (_, ?x) else _] => set (notice := x) end.
  assert (omap wire_of_effect notice = [] ∧ length (filter (λ e, is_end e = true) notice) = 1) as [Hn1 Hn2]
    by (subst notice; case_match; by apply Hn).
  clearbody notice. destruct (ss_writing s); cbn [fst snd].
  - rewrite Hn1, Hn2. cbn. split_and!; try done. intros _. eexists. split; [done|]. done.
  - rewrite filter_app, omap_app, !length_app, Hn1, Hn2, Hc1, Hc2. cbn. split_and!; try done.
    intros _. eexists. split; [done|]. done.
Qed.

Lemma handle_event_ok router s n ev :
  n = (if ss_writing s then 1 else 0) → (ss_writing s = false → ss_closed s = false → ss_write_queue s = []) → completes ev ≤ n →
  effect_ok s (n - completes ev) (accepted_now s ev) (handle_event router s ev).
Proof.
  intros Hn Hq Hc. destruct ev as [[ec|] env|t p env|[ec|[msg text]] env|f env|[ec|] env]; cbn [handle_event completes accepted_now] in *;
    rewrite ?Nat.sub_0_r.
  - by apply do_close_ok.
  - unfold effect_ok, on_handshake. cbn. rewrite app_nil_r. destruct (ss_closed s), (ss_writing s); subst; cbn; split_and!; auto; try lia; eauto.
  - unfold effect_ok, on_control. destruct (if bool_decide _ then _ else _). cbn. rewrite app_nil_r.
    destruct (ss_closed s), (ss_writing s); subst; cbn; split_and!; auto; try lia; eauto.
  - by apply do_close_ok.
  - unfold effect_ok, on_read. cbn. rewrite app_nil_r. destruct (ss_closed s), (ss_writing s); subst; cbn; split_and!; auto; try lia; eauto.
  - unfold send_frame. destruct (ss_closed s) eqn:Hcl.
    { unfold effect_ok. cbn. rewrite Hcl. split_and!; auto; lia. }
    destruct (ss_writing s) eqn:Hw; subst n.
    + unfold effect_ok. cbn. rewrite Hcl. split_and!; try done; try lia. intros _. by eexists.
    + cbn [ss_writing ss_closed with_queue ss_write_queue ss_close_pending ss_registered].
      pose proof (do_write_next_ok env (with_queue (ss_write_queue s ++ [f]) true (ss_closed s) (ss_close_pending s)
        (ss_registered s) s) eq_refl) as Hok. revert Hok. unfold effect_ok. cbn. rewrite app_nil_r, Hcl. done.
  - destruct (ss_writing s) eqn:Hw; [|lia]. subst n.
    exact (do_close_ok router (Some ec) env (with_queue (ss_write_queue s) false (ss_closed s) (ss_close_pending s)
      (ss_registered s) s) 0 eq_refl).
  - destruct (ss_writing s) eqn:Hw; [|lia]. subst n. by apply do_write_next_ok.
Qed.

Lemma ws_step_inv router c c' : session_inv c → step router c c' → session_inv c'.
Proof.
  intros (Hn & Hq & (rest & Hw & Hr) & He) Hs. destruct Hs as [s out n acc ev Hc]. cbn in *.
  destruct (handle_event_ok router s n ev Hn Hq Hc) as (H1 & H2 & H3 & H4 & H5).
  destruct (handle_event router s ev) as [s' effs]. cbn in *. unfold session_inv. cbn.
  rewrite omap_app, filter_app, length_app, fmap_app. split_and!; [done|done| |].
  - destruct (ss_closed s) eqn:Hcl.
    + destruct (H3 eq_refl) as [Hcl' ->]. exists (rest ++ (wire_of_frame <$> accepted_now s ev)).
      rewrite Hw, app_nil_r, (assoc_L (++)). split; [done|]. by rewrite Hcl'.
    + destruct (H4 eq_refl) as (rest' & Heq & Hr'). exists rest'. split; [|done].
      rewrite Hw, (Hr eq_refl), <-!(assoc_L (++)). f_equal. by rewrite <-Heq, fmap_app.
  - destruct (ss_closed s) eqn:Hcl; [destruct (H3 eq_refl) as [-> _]|]; destruct (ss_closed s'); lia.
Qed.

(** C9: for every session and every interleaving of handshake, reads, posted
    sends, control frames and write completions (errors included): at most one
    write is in flight, and exactly when [writing_] says so; what reaches the
    wire is, in order and unaltered (fragmented messages reassembled), a prefix
    of the frames accepted by [send_frame], and while the session is open
    everything accepted is either on the wire or still queued; and the router is
    told of the end of the session (close or error) at most once. *)
Theorem session_safe router id path c :
  rtc (step router) (mk_config (session_init id path) [] 0 []) c →
  cf_inflight c = (if ss_writing (cf_session c) then 1 else 0) ∧
  (∃ rest, wire_of_frame <$> cf_accepted c = omap wire_of_effect (cf_out c) ++ rest ∧
     (ss_closed (cf_session c) = false → rest = wire_of_frame <$> ss_write_queue (cf_session c))) ∧
  length (filter (λ e, is_end e = true) (cf_out c)) ≤ 1.
Proof.
  intros Hr. assert (session_inv c) as (Hn & _ & Hw & He).
  { refine (rtc_invariant (step router) session_inv _ _ _ Hr _); [intros x y; apply ws_step_inv|].
    split_and!; try done. by exists []. }
  split_and!; [done|done|]. destruct (ss_closed _); lia.
Qed.

Definition demo_env : ws_env := mk_ws_env true (1000%Z, []).
Definition demo_ws_router : WebsocketRouter := mk_ws_router [] [].
Definition run_events (evs : list session_event) : WebsocketSession * list session_effect :=
  run (handle_event demo_ws_router) (session_init (str "id") (str "/ws")) evs.
Theorem session_safe_witness :
  ∃ c, cf_inflight c = 1 ∧ ss_write_queue (cf_session c) = [ws_send_message (str "b") true] ∧
    length (filter (λ e, is_end e = true) (cf_out c)) ≤ 1.
Proof.
  eexists. split; [|split]; [..|eapply (session_safe demo_ws_router (str "id") (str "/ws"))].
  3:{ eapply rtc_l; [exact (step_event demo_ws_router _ _ _ _ (EvHandshake None demo_env) ltac:(cbn; lia))|].
      eapply rtc_l; [exact (step_event demo_ws_router _ _ _ _ (EvSend (ws_send_message (str "a") true) demo_env) ltac:(cbn; lia))|].
      eapply rtc_l; [exact (step_event demo_ws_router _ _ _ _ (EvSend (ws_send_message (str "b") true) demo_env) ltac:(cbn; lia))|].
      apply rtc_refl. }
  - reflexivity.
  - reflexivity.
Defined.

(** A close frame sent by the application marks the session closed before
    [do_close] runs: the session stays in the registry and the close handler is
    never called, although the peer has acknowledged and the read has ended. *)
Theorem local_close_leaks_session :
  let '(s, out) := run_events [EvHandshake None demo_env; EvSend (mk_frame ft_close [] 1000 []) demo_env;
    EvWriteDone None demo_env; EvRead (inl ws_closed) (mk_ws_env false (1000%Z, []))] in
  ss_registered s = true ∧ filter (λ e, is_end e = true) out = [].
Proof. by vm_compute. Qed.

(** ** Handshake *)
(** The first value of a key in a query string, pieces between '&'. *)
Definition query_pair (pair : bytes) : bytes * bytes :=
  match find_char "="%char pair 0 with None => (pair, []) | Some e => (take e pair, drop (e + 1) pair) end.
Definition first_value (key : bytes) (pairs : list (bytes * bytes)) : option bytes :=
  snd <$> List.find (λ p, bool_decide (p.1 = key)) pairs.

Lemma substr_to_None s pos : substr_to s pos None = drop pos s.
Proof. done. Qed.
Lemma query_loop_split query fuel begin m :
  length query + 1 < fuel + begin →  begin ≤ length query →
  query_loop query fuel begin m = fold_left (flip add_query_pair) (split_on "&"%char (drop begin query)) m.
Proof.
  revert begin m. induction fuel as [|fuel IH]; intros begin m Hf Hb; cbn [query_loop]; [lia|].
  rewrite bool_decide_eq_false_2 by lia.
  destruct (find_char "&"%char query begin) as [e|] eqn:He; cbv zeta.
  - apply find_char_Some in He as (Hlt & Hs & Hc). rewrite IH by lia. unfold substr_to. by rewrite Hs at 2; rewrite split_on_app.
  - apply find_char_None_from in He. by rewrite split_on_word.
Qed.
Lemma add_query_pairs_lookup ps m key :
  fold_left (flip add_query_pair) ps m !! key =
    match m !! key with Some v => Some v | None => first_value key (query_pair <$> ps) end.
Proof.
  revert m. induction ps as [|p ps IH]; intros m; cbn [fold_left fmap list_fmap]; [by destruct (m !! key)|].
  rewrite IH. unfold flip, add_query_pair, first_value, query_pair, emplace. cbn [List.find].
  destruct (find_char "="%char p 0) as [e|]; cbn [fst].
  - case_bool_decide as Hk; [subst key|].
    + destruct (m !! take e p) as [v|] eqn:Hm; [by rewrite Hm|]. by rewrite lookup_insert_eq.
    + by destruct (m !! take e p) as [v|] eqn:Hm; [|rewrite lookup_insert_ne].
  - case_bool_decide as Hk; [subst key|].
    + destruct (m !! p) as [v|] eqn:Hm; [by rewrite Hm|]. by rewrite lookup_insert_eq.
    + by destruct (m !! p) as [v|] eqn:Hm; [|rewrite lookup_insert_ne].
Qed.

Lemma subprotocol_loop_split value fuel begin acc :
  length value < fuel + begin →
  subprotocol_loop value fuel begin acc =
    acc ++ filter (λ t, t ≠ []) (trim_by is_blank <$> split_on ","%char (drop begin value)).
Proof.
  revert begin acc. induction fuel as [|fuel IH]; intros begin acc Hf; cbn [subprotocol_loop].
  { rewrite drop_ge by lia. cbn. by rewrite app_nil_r. }
  case_bool_decide; [rewrite drop_ge by lia; cbn; by rewrite app_nil_r|].
  destruct (find_char ","%char value begin) as [e|] eqn:He; cbv zeta.
  - apply find_char_Some in He as (Hlt & Hs & Hc). rewrite IH by lia. rewrite Hs.
    rewrite split_on_app, fmap_cons, filter_cons by done. unfold substr_to.
    case_bool_decide as Ht; [by rewrite decide_False by tauto|]. rewrite decide_True by done. by rewrite <-(assoc_L (++)).
  - apply find_char_None_from in He. rewrite split_on_word by done. cbn [fmap list_fmap]. rewrite filter_cons, filter_nil, substr_to_None.
    case_bool_decide; [rewrite decide_False by tauto; by rewrite app_nil_r|]. by rewrite decide_True.
Qed.

Lemma subprotocols_of_spec headers :
  subprotocols_of headers =
    (filter (λ h, ieq h.1 (str "Sec-WebSocket-Protocol") = true) headers).*2
      ≫= λ v, filter (λ t, t ≠ []) (trim_by is_blank <$> split_on ","%char v).
Proof.
  unfold subprotocols_of.
  assert (∀ acc, fold_left (λ acc h, if ieq h.1 (str "Sec-WebSocket-Protocol")
      then subprotocol_loop h.2 (S (length h.2)) 0 acc else acc) headers acc =
    acc ++ ((filter (λ h, ieq h.1 (str "Sec-WebSocket-Protocol") = true) headers).*2
      ≫= λ v, filter (λ t, t ≠ []) (trim_by is_blank <$> split_on ","%char v))) as Hg; [|apply Hg].
  induction headers as [|h hs IH]; intros acc; [by rewrite app_nil_r|]. cbn [fold_left]. rewrite filter_cons.
  destruct (ieq h.1 _) eqn:Hh.
  + rewrite decide_True, IH, subprotocol_loop_split by (done || lia). rewrite drop_0, <-(assoc_L (++)). done.
  + by rewrite decide_False, IH by done.
Qed.

(** The handshake is read exactly: the path is the target up to the first
    '?'; a query parameter is the value of the first '&'-separated piece with
    that key (the text before its first '='); the subprotocols are the
    non-empty comma-separated tokens, blanks trimmed, of all
    [Sec-WebSocket-Protocol] fields in order. *)
Theorem handshake_spec target headers :
  let hs := parse_handshake target headers in
  hs_path hs = default target (head (split_on "?"%char target)) ∧
  (∀ key, hs_query_params hs !! key =
     match find_char "?"%char target 0 with
     | None => None
     | Some p => first_value key (query_pair <$> split_on "&"%char (drop (p + 1) target))
     end) ∧
  hs_subprotocols hs =
    (filter (λ h, ieq h.1 (str "Sec-WebSocket-Protocol") = true) headers).*2
      ≫= λ v, filter (λ t, t ≠ []) (trim_by is_blank <$> split_on ","%char v).
Proof.
  unfold parse_handshake. cbn [hs_path hs_query_params hs_subprotocols]. split_and!.
  - destruct (find_char "?"%char target 0) as [p|] eqn:Hf.
    + apply find_char_Some in Hf as (_ & Hs & Hc). rewrite !drop_0, Nat.sub_0_r in Hs, Hc.
      cbn [substr_to]. rewrite drop_0, Nat.sub_0_r. rewrite Hs at 3. by rewrite split_on_app.
    + apply find_char_None in Hf. rewrite split_on_word by done. cbn. by rewrite drop_0.
  - intros key. destruct (find_char "?"%char target 0) as [p|]; [|apply lookup_empty].
    rewrite query_loop_split by lia. by rewrite add_query_pairs_lookup, lookup_empty, drop_0.
  - apply subprotocols_of_spec.
Qed.
