(* ===== verification/WebsocketRouting.v ===== *)
(** * The WebSocket router as a map ([router/websocket_router.cpp])

    The table of [Websocket.v] against an abstract router: a base path and a map from
    path patterns to handlers. Every sequence of calls keeps the two in step
    ([represents]), and dispatch is determined by the map alone: the most specific
    pattern that the path matches. *)
From S2P Require Import Prelude Text PathPattern PathPatternProofs Websocket.
Set Default Proof Using "Type*".

(** ** The calls of the router *)
Inductive ws_call := SetBasePath (path : bytes) | AddHandler (path : bytes) (h : WebsocketRouteEntry).
Definition ws_router_init : WebsocketRouter := mk_ws_router [] [].
(** [None]: the call throws. *)
Definition ws_do sort (c : ws_call) (r : WebsocketRouter) : option WebsocketRouter :=
  match c with SetBasePath path => ws_set_base_path path r | AddHandler path h => add_handler sort path h r end.
(** A call that throws leaves the router as it was. *)
Definition ws_calls sort (cs : list ws_call) (r : WebsocketRouter) : WebsocketRouter :=
  fold_left (λ r c, default r (ws_do sort c r)) cs r.

(** ** The abstract router *)
Record router_spec := mk_router_spec { sp_base : bytes; sp_map : gmap bytes WebsocketRouteEntry }.
Definition is_slash (c : ascii) : bool := bool_decide (c = "/"%char).
Definition spec_do (s : router_spec) (c : ws_call) : router_spec :=
  match c with
  | SetBasePath path =>
      if bool_decide (path = []) || starts_with (str "/") path then mk_router_spec (drop_while_end is_slash path) (sp_map s) else s
  | AddHandler path h => mk_router_spec (sp_base s) (<[sp_base s ++ path := h]> (sp_map s))
  end.
Definition spec_calls (cs : list ws_call) : router_spec := fold_left spec_do cs (mk_router_spec [] ∅).

(** The paths a pattern stands for, with the values of its parameters. *)
Definition ws_matches (pattern p : bytes) (values : list bytes) : Prop :=
  let '(l, tail) := params_of match_colon_param pattern in pattern_matches l tail p values.
Definition ws_greedy (pattern p : bytes) (values : list bytes) : Prop :=
  ws_matches pattern p values ∧ ∀ values', ws_matches pattern p values' → longer_eq values values'.
Definition ws_specificity (pattern : bytes) : Z * Z :=
  let pp := ws_parse_path_pattern pattern in (pp_literal_segments pp, pp_dynamic_segments pp).
Definition run_handler (k : ws_event) (h : WebsocketRouteEntry) (c : WebsocketContext) : list WebsocketFrame :=
  match handler_for k h with Some f => f c | None => [] end.
(** What dispatch may answer: the frames of the most specific handler, called with
    the parameters of its pattern. *)
Definition ws_serves (m : gmap bytes WebsocketRouteEntry) (k : ws_event) (p : bytes) (c : WebsocketContext)
    (result : option (list WebsocketFrame)) : Prop :=
  (∃ pattern h values, m !! pattern = Some h ∧ ws_greedy pattern p values ∧
     (∀ pattern' values', is_Some (m !! pattern') → ws_matches pattern' p values' →
        compare_specificity (ws_specificity pattern') (ws_specificity pattern) = false) ∧
     result = Some (run_handler k h (ws_set_path_params (ws_bind_params (pp_param_names (ws_parse_path_pattern pattern)) values) c))) ∨
  ((∀ pattern values, is_Some (m !! pattern) → ~ ws_matches pattern p values) ∧ result = None).

Lemma drop_while_app p s t :
  drop_while p (s ++ t) = match drop_while p s with [] => drop_while p t | u => u ++ t end.
Proof. induction s as [|c s IH]; simpl; [done|]. by destruct (p c). Qed.
Lemma drop_while_end_cons p c s : drop_while_end p (c :: s) =
  match drop_while_end p s with [] => if p c then [] else [c] | u => c :: u end.
Proof.
  unfold drop_while_end. cbn [rev]. rewrite drop_while_app. destruct (drop_while p (rev s)) as [|x u]; [cbn; by destruct (p c)|].
  rewrite rev_app_distr. cbn [rev app]. by destruct (rev u ++ [x]) as [|] eqn:Hu; [destruct (rev u)|].
Qed.

(** ** Well-formed tables *)
Definition ws_route_ok (e : WebsocketRoute) : Prop :=
  let pp := ws_parse_path_pattern (wr_path e) in
  compile_regex (pp_regex_str pp) = Some (wr_regex e) ∧ wr_params e = pp_param_names pp ∧
  (wr_literals e, wr_dynamics e) = ws_specificity (wr_path e).
Definition ws_table_ok (rs : list WebsocketRoute) : Prop :=
  NoDup (wr_path <$> rs) ∧ Forall ws_route_ok rs ∧ StronglySorted (λ a b, ws_more_specific b a = false) rs.
Definition table_map (rs : list WebsocketRoute) : gmap bytes WebsocketRouteEntry :=
  list_to_map ((λ e, (wr_path e, wr_handlers e)) <$> rs).
Definition represents (r : WebsocketRouter) (s : router_spec) : Prop :=
  wrt_base_path r = sp_base s ∧ ws_table_ok (wrt_routes r) ∧ table_map (wrt_routes r) = sp_map s.

Lemma ws_route_matches e p :
  ws_route_ok e →
  match regex_match (wr_regex e) p with
  | Some caps => ws_greedy (wr_path e) p caps
  | None => ∀ caps, ~ ws_matches (wr_path e) p caps
  end.
Proof.
  unfold ws_route_ok, ws_greedy, ws_matches, ws_parse_path_pattern.
  destruct (params_of match_colon_param (wr_path e)) as [l tail]. cbn. intros (Hre & _).
  rewrite compile_pattern in Hre. injection Hre as <-. pose proof (regex_match_spec l tail p) as Hs. by destruct (regex_match _ p).
Qed.
Lemma table_map_lookup rs p h : NoDup (wr_path <$> rs) →
  table_map rs !! p = Some h ↔ ∃ e, e ∈ rs ∧ wr_path e = p ∧ wr_handlers e = h.
Proof.
  intros Hnd. unfold table_map. rewrite <-elem_of_list_to_map.
  - rewrite list_elem_of_fmap. naive_solver.
  - rewrite <-list_fmap_compose. done.
Qed.

(** ** Registration *)
Section table.
Implicit Types (rs : list WebsocketRoute).
Lemma ws_update_Some path h rs rs' :
  ws_update path h rs = Some rs' →
  ∃ l e k, rs = l ++ e :: k ∧ wr_path e = path ∧
    rs' = l ++ mk_ws_route (wr_path e) (wr_regex e) (wr_params e) (wr_literals e) (wr_dynamics e) h :: k.
Proof.
  revert rs'. induction rs as [|e rs IH]; intros rs'; cbn [ws_update]; [done|].
  case_bool_decide as Hp; [intros [= <-]; by exists [], e, rs|].
  destruct (ws_update path h rs) as [rs1|]; [|done]. intros [= <-].
  destruct (IH _ eq_refl) as (l & e' & k & -> & Hp' & ->). by exists (e :: l), e', k.
Qed.
Lemma ws_update_None path h rs : ws_update path h rs = None → path ∉ wr_path <$> rs.
Proof.
  induction rs as [|e rs IH]; cbn [ws_update]; [set_solver|]. case_bool_decide; [done|].
  destruct (ws_update path h rs); [done|]. intros _. rewrite fmap_cons, not_elem_of_cons. auto.
Qed.
(** The order looks at the specificity only. *)
Definition route_specificity (e : WebsocketRoute) : Z * Z := (wr_literals e, wr_dynamics e).
Lemma ws_sorted_map l k : route_specificity <$> l = route_specificity <$> k →
  StronglySorted (λ a b, ws_more_specific b a = false) l → StronglySorted (λ a b, ws_more_specific b a = false) k.
Proof.
  intros Heq Hs. revert k Heq. induction Hs as [|a l Hs IH Ha]; intros [|b k] Heq; try done; [constructor|].
  rewrite !fmap_cons in Heq. assert (route_specificity a = route_specificity b ∧ route_specificity <$> l = route_specificity <$> k) as [Hab Hlk]
    by (split; congruence).
  constructor; [by apply IH|]. rewrite Forall_forall in *. intros c Hc.
  assert (route_specificity c ∈ route_specificity <$> l) as (d & Hd & Hdl)%list_elem_of_fmap by (rewrite Hlk; by apply list_elem_of_fmap_2).
  specialize (Ha d Hdl). revert Ha. unfold ws_more_specific. fold (route_specificity a) (route_specificity b) (route_specificity c) (route_specificity d).
  by rewrite Hd, Hab.
Qed.
Lemma table_map_perm rs rs' : NoDup (wr_path <$> rs) → rs ≡ₚ rs' → table_map rs = table_map rs'.
Proof. intros Hnd Hp. unfold table_map. apply list_to_map_proper; [by rewrite <-list_fmap_compose|by rewrite Hp]. Qed.
Lemma table_map_middle l e k : NoDup (wr_path <$> (l ++ e :: k)) →
  table_map (l ++ e :: k) = <[wr_path e := wr_handlers e]> (table_map (l ++ k)).
Proof.
  intros Hnd. rewrite (table_map_perm _ (e :: l ++ k) Hnd) by (by rewrite Permutation_middle). done.
Qed.

End table.

Section registration.
Context (sort : list WebsocketRoute → list WebsocketRoute) `{!StdSort ws_more_specific sort}.
Lemma add_handler_represents path h r s :
  represents r s → ∃ r', add_handler sort path h r = Some r' ∧ represents r' (spec_do s (AddHandler path h)).
Proof.
  intros (Hb & (Hnd & Hok & Hs) & Hm). unfold add_handler.
  assert ((if bool_decide (wrt_base_path r = []) then path else wrt_base_path r ++ path) = sp_base s ++ path) as ->.
  { rewrite <-Hb. case_bool_decide as Hn; [by rewrite Hn|done]. }
  set (p := sp_base s ++ path). cbn [spec_do]. fold p. destruct (ws_update p h (wrt_routes r)) as [rs'|] eqn:Hu.
  - apply ws_update_Some in Hu as (l & e & k & Hrs & Hp & ->). rewrite Hrs in *. eexists. split; [reflexivity|].
    set (e' := mk_ws_route _ _ _ _ _ h).
    assert (NoDup (wr_path <$> (l ++ e' :: k))) as Hnd' by (revert Hnd; by rewrite !fmap_app, !fmap_cons).
    split; [done|]. split; [split_and!; [done| |]|].
    + apply Forall_app in Hok as [Hl [He Hk]%Forall_cons]. apply Forall_app. split; [done|]. by constructor.
    + revert Hs. apply ws_sorted_map. cbn [wrt_routes]. by rewrite !fmap_app, !fmap_cons.
    + cbn [wrt_routes sp_map]. rewrite <-Hm, !table_map_middle by done. cbn [wr_path wr_handlers e']. rewrite Hp. by rewrite insert_insert_eq.
  - apply ws_update_None in Hu. pose proof (compile_path_regex (PathCompiler := ws_path_compiler) p) as (re & Hre & _).
    cbn [compile_path ws_path_compiler] in Hre. rewrite Hre. eexists. split; [reflexivity|].
    set (e := mk_ws_route _ _ _ _ _ h). pose proof (std_sort_perm (wrt_routes r ++ [e])) as Hperm.
    assert (NoDup (wr_path <$> sort (wrt_routes r ++ [e]))) as Hnd'.
    { rewrite Hperm, fmap_app. apply NoDup_app. split_and!; [done|set_solver|apply NoDup_singleton]. }
    split; [done|]. split; [split_and!; [done| |cbn [wrt_routes]; apply (std_sort_sorted (before := ws_more_specific))]|].
    + cbn [wrt_routes]. rewrite Hperm, Forall_app, Forall_singleton. split; [done|]. split_and!; [exact Hre|done|done].
    + cbn [wrt_routes sp_map]. rewrite (table_map_perm _ (wrt_routes r ++ e :: []) Hnd') by done.
      rewrite table_map_middle by (by rewrite <-Hperm). by rewrite (right_id_L [] (++)), Hm.
Qed.
Lemma set_base_path_represents path r s : represents r s →
  represents (default r (ws_set_base_path path r)) (spec_do s (SetBasePath path)).
Proof.
  intros (Hb & Hok & Hm). unfold ws_set_base_path, spec_do.
  destruct path as [|c t]; [by split_and!|]. rewrite (bool_decide_eq_false_2 (c :: t = [])) by done.
  change (starts_with (str "/") (c :: t)) with (bool_decide ("/"%char = c) && true). rewrite andb_true_r.
  destruct (decide (c = "/"%char)) as [->|Hc].
  2: { rewrite (bool_decide_eq_false_2 (c = _)), (bool_decide_eq_false_2 (_ = c)) by congruence. by split_and!. }
  rewrite !bool_decide_eq_true_2 by done. split_and!; [|done..]. cbn [orb negb default from_option wrt_base_path sp_base].
  rewrite (drop_while_end_cons is_slash). change (λ c, bool_decide (c = "/"%char)) with is_slash.
  by destruct (drop_while_end is_slash t).
Qed.

(** Every sequence of calls keeps the table in step with the map. *)
Lemma calls_represent cs : represents (ws_calls sort cs ws_router_init) (spec_calls cs).
Proof.
  unfold ws_calls, spec_calls. assert (represents ws_router_init (mk_router_spec [] ∅)) as Hinit.
  { split_and!; [done|split_and!; constructor|done]. }
  revert Hinit. generalize ws_router_init (mk_router_spec [] ∅). induction cs as [|c cs IH]; intros r s Hr; [done|].
  apply IH. destruct c as [path|path h]; [by apply set_base_path_represents|].
  destruct (add_handler_represents path h r s Hr) as (r' & Hd & Hr'). cbn [ws_do]. by rewrite Hd.
Qed.
End registration.

(** ** Dispatch *)
Lemma ws_dispatch_serves rs k p c : ws_table_ok rs → ws_serves (table_map rs) k p c (ws_dispatch rs k p c).
Proof.
  intros (Hnd & Hok & Hs). unfold ws_serves.
  assert (∀ pattern h, table_map rs !! pattern = Some h ↔ ∃ e, e ∈ rs ∧ wr_path e = pattern ∧ wr_handlers e = h) as Hmap
    by (intros; by apply table_map_lookup).
  setoid_rewrite Hmap. unfold is_Some. setoid_rewrite Hmap. clear Hmap Hnd.
  induction rs as [|e rs IH]; cbn [ws_dispatch].
  { right. split; [|done]. intros pattern values (h & e & He & _). by apply elem_of_nil in He. }
  apply Forall_cons in Hok as [He Hok]. apply StronglySorted_inv in Hs as [Hs Hle].
  pose proof (ws_route_matches e p He) as Hm. pose proof He as (_ & Hps & Hsp). destruct (regex_match (wr_regex e) p) as [caps|].
  - left. exists (wr_path e), (wr_handlers e), caps. split_and!; [exists e; split_and!; [by left|done..]|done| |by rewrite <-Hps].
    intros pattern' values' (h' & e' & [->|He']%elem_of_cons & <- & _) Hm'.
    + apply compare_specificity_irrefl.
    + rewrite Forall_forall in Hle, Hok. destruct (Hok e' He') as (_ & _ & Hsp'). specialize (Hle e' He').
      unfold ws_more_specific in Hle. congruence.
  - destruct (IH Hok Hs) as [(pattern & h & values & (e0 & He0 & Hp0 & Hh0) & Hg & Hbest & Hr)|(Hnone & Hr)].
    + left. exists pattern, h, values. split_and!; [exists e0; split_and!; [by right|done..]|done| |done].
      intros pattern' values' (h' & e' & [->|He']%elem_of_cons & Hp' & _) Hm'; [subst; by destruct (Hm values')|].
      apply (Hbest pattern' values'); [|done]. by exists (wr_handlers e'), e'.
    + right. split; [|done]. intros pattern values (h & e' & [->|He']%elem_of_cons & Hp & _) Hm'; [subst; by destruct (Hm values)|].
      apply (Hnone pattern values); [|done]. by exists (wr_handlers e'), e'.
Qed.

(** C8: the WebSocket router implements a map from path patterns to handlers. After
    any sequence of [set_base_path] and [add_handler], for every conforming
    [std::sort]: registration never fails; the table holds, under the base path in
    force at the time, exactly the last handlers of every pattern; and each of the
    four dispatches calls the handler of its event of a pattern that matches the path
    and than which no matching one is more specific, with the greedy values of its
    parameters, or nothing when no pattern matches. *)
Theorem websocket_router_refines sort `{!StdSort ws_more_specific sort} cs :
  let r := ws_calls sort cs ws_router_init in
  let s := spec_calls cs in
  represents r s ∧
  (∀ path h, is_Some (ws_do sort (AddHandler path h) r)) ∧
  (∀ path, is_Some (ws_do sort (SetBasePath path) r) ↔ path = [] ∨ ∃ t, path = str "/" ++ t) ∧
  ∀ k p c, ws_serves (sp_map s) k p c (ws_dispatch (wrt_routes r) k p c).
Proof.
  intros r s. pose proof (calls_represent sort cs) as Hr. fold r s in Hr. split_and!; [done|..].
  - intros path h. destruct (add_handler_represents sort path h r s Hr) as (r' & Hr' & _). by exists r'.
  - intros path. cbn [ws_do]. unfold ws_set_base_path. destruct path as [|c t]; [split; [by left|by eexists]|].
    destruct (decide (c = "/"%char)) as [->|Hc].
    + rewrite bool_decide_eq_true_2 by done. split; [|by eexists]. right. by exists t.
    + rewrite bool_decide_eq_false_2 by done. split; [by intros []|]. intros [?|(u & Hu)]; [done|].
      change (c :: t = "/"%char :: u) in Hu. congruence.
  - intros k p c. destruct Hr as (_ & Hok & <-). by apply ws_dispatch_serves.
Qed.

(** ** A witness: a literal route beside a parameter under the base path [/ws] *)
#[export] Instance ws_specificity_sort : StdSort ws_more_specific (merge_std_sort ws_more_specific).
Proof.
  apply merge_std_sort_conforms; unfold ws_more_specific; intros x y; [|intros z];
    rewrite ?compare_specificity_spec, ?compare_specificity_false; lia.
Qed.
Definition echo_entry (text : bytes) : WebsocketRouteEntry :=
  mk_ws_entry None (Some (λ c, [mk_frame ft_text (text ++ default [] (ws_get_path_param (str "room") c)) 1000 []])) None None.
Definition demo_calls : list ws_call :=
  [SetBasePath (str "/ws/"); AddHandler (str "/:room") (echo_entry (str "old")); AddHandler (str "/lobby/x") (echo_entry (str "lobby"));
   AddHandler (str "/:room") (echo_entry (str "room "))].
Theorem websocket_router_refines_witness :
  let r := ws_calls (merge_std_sort ws_more_specific) demo_calls ws_router_init in
  let frame p : option (list bytes) := (λ fs : list WebsocketFrame, fr_payload <$> fs) <$> ws_dispatch (wrt_routes r) we_message p (message_context [] [] true p handshake_empty) in
  frame (str "/ws/blue") = Some [str "room blue"] ∧ frame (str "/ws/lobby/x") = Some [str "lobby"] ∧ frame (str "/chat") = None ∧
  ws_serves (sp_map (spec_calls demo_calls)) we_message (str "/chat") (message_context [] [] true (str "/chat") handshake_empty) None.
Proof.
  intros r frame. split; [vm_compute; reflexivity|]. split; [vm_compute; reflexivity|]. split; [vm_compute; reflexivity|].
  destruct (websocket_router_refines (merge_std_sort ws_more_specific) demo_calls) as (_ & _ & _ & Hd).
  exact (Hd we_message (str "/chat") (message_context [] [] true (str "/chat") handshake_empty)).
Defined.
