(* ===== verification/SseSession.v ===== *)
(** * Server-sent event sessions ([sse/sse_session.cpp])

    [SseSession::Impl] as a machine: events are the member calls and the
    completions of the response stream, effects the operations it starts on the
    stream and the close handlers it invokes. *)
From S2P Require Import Prelude Text Http HttpContext SseFormat.
Set Default Proof Using "Type*".

Inductive sse_error := sse_aborted | sse_eof | sse_failed (n : N).
#[export] Instance sse_error_eq_dec : EqDecision sse_error.
Proof. solve_decision. Defined.

Module SseSession.
Record t := mk {
  queue : list bytes; pending_bytes : Z; max_pending_bytes : Z;
  start_requested : bool; started : bool; writing : bool; closing : bool; closed : bool;
  close_error : option sse_error; close_handler : option N }.
Definition default_max_pending_bytes : Z := 1024 * 1024.
Definition init (maximum_pending_bytes : Z) : t := mk [] 0 maximum_pending_bytes false false false false false None None.

Inductive event :=
| EvStart | EvStarted (ec : option sse_error) | EvDisconnect (ec : option sse_error)
| EvSend (e : SseEvent.t) | EvComment (c : bytes)
| EvClose | EvCancel | EvOnClose (handler : N)
| EvWritten (ec : option sse_error) | EvFinished (ec : option sse_error).
Inductive effect :=
| AsyncStart | WaitDisconnect | CancelDisconnectWait | CancelResponse
| AsyncWriteSome (value : bytes) | AsyncFinish
| Finished (ec : option sse_error) (handler : option N)   (** [finish] ran; [handler], if any, was invoked *)
| InvokeNow (handler : N) (ec : option sse_error)          (** [on_close] after the end *)
| Returned (accepted : bool).                              (** the result of [send] *)

Definition finish (ec : option sse_error) (s : t) : t * list effect :=
  if closed s then (s, [])
  else (mk [] 0 (max_pending_bytes s) (start_requested s) (started s) false (closing s) true ec None,
        [CancelDisconnectWait; Finished ec (close_handler s)]).
Definition write_next (s : t) : t * list effect :=
  if negb (started s) || writing s || closed s then (s, [])
  else
    let s' := mk (queue s) (pending_bytes s) (max_pending_bytes s) (start_requested s) (started s) true (closing s)
                (closed s) (close_error s) (close_handler s) in
    match queue s with
    | [] => if closing s then (s', [AsyncFinish]) else (s, [])
    | value :: _ => (s', [AsyncWriteSome value])
    end.
Definition start (s : t) : t * list effect :=
  if start_requested s || closed s then (s, [])
  else (mk (queue s) (pending_bytes s) (max_pending_bytes s) true (started s) (writing s) (closing s) (closed s)
          (close_error s) (close_handler s), [AsyncStart]).
Definition on_started (ec : option sse_error) (s : t) : t * list effect :=
  match ec with
  | Some _ => finish ec s
  | None =>
      let s := mk (queue s) (pending_bytes s) (max_pending_bytes s) (start_requested s) true (writing s) (closing s)
                 (closed s) (close_error s) (close_handler s) in
      let watch := if negb (closing s) && negb (closed s) then [WaitDisconnect] else [] in
      let '(s, out) := write_next s in (s, watch ++ out)
  end.
Definition on_disconnect (ec : option sse_error) (s : t) : t * list effect :=
  if bool_decide (ec = Some sse_aborted) then (s, [])
  else let '(s, out) := finish (Some (default sse_eof ec)) s in (s, CancelResponse :: out).
(** [pending_bytes] and the sizes are [std::size_t]. *)
Definition enqueue (value : bytes) (s : t) : t * list effect :=
  if closing s || closed s then (s, [Returned false])
  else if (max_pending_bytes s <? zlen value)%Z || (u64 (max_pending_bytes s - zlen value) <? pending_bytes s)%Z
  then (s, [Returned false])
  else
    let s := mk (queue s ++ [value]) (u64 (pending_bytes s + zlen value)) (max_pending_bytes s) (start_requested s)
               (started s) (writing s) (closing s) (closed s) (close_error s) (close_handler s) in
    let '(s, out) := write_next s in (s, out ++ [Returned true]).
Definition close (s : t) : t * list effect :=
  let s := mk (queue s) (pending_bytes s) (max_pending_bytes s) (start_requested s) (started s) (writing s) true
             (closed s) (close_error s) (close_handler s) in
  let '(s, out) := write_next s in (s, CancelDisconnectWait :: out).
Definition cancel (s : t) : t * list effect :=
  let '(s, out) := finish (Some sse_aborted) s in (s, CancelResponse :: out).
Definition on_close (handler : N) (s : t) : t * list effect :=
  if closed s then (s, [InvokeNow handler (close_error s)])
  else (mk (queue s) (pending_bytes s) (max_pending_bytes s) (start_requested s) (started s) (writing s) (closing s)
          (closed s) (close_error s) (Some handler), []).
Definition on_written (ec : option sse_error) (s : t) : t * list effect :=
  match ec with
  | Some _ => finish ec s
  | None =>
      let '(q, p) := match queue s with
                     | [] => ([], pending_bytes s)
                     | v :: q => (q, u64 (pending_bytes s - zlen v))
                     end in
      write_next (mk q p (max_pending_bytes s) (start_requested s) (started s) false (closing s) (closed s)
                    (close_error s) (close_handler s))
  end.
Definition send (e : SseEvent.t) (s : t) : t * list effect := enqueue (format_sse_event e) s.
Definition send_comment (c : bytes) (s : t) : t * list effect := enqueue (format_sse_comment c) s.
Definition is_open (s : t) : bool := negb (closing s) && negb (closed s).

Definition handle (s : t) (ev : event) : t * list effect :=
  match ev with
  | EvStart => start s | EvStarted ec => on_started ec s | EvDisconnect ec => on_disconnect ec s
  | EvSend e => send e s | EvComment c => send_comment c s
  | EvClose => close s | EvCancel => cancel s | EvOnClose h => on_close h s
  | EvWritten ec => on_written ec s | EvFinished ec => finish ec s
  end.

(** The response head of [start]. *)
Definition response_head {F} `{HttpFields F} (version : N) (keep_alive : bool) : response F :=
  rs_set (str "X-Accel-Buffering") (str "no") (rs_set (str "Cache-Control") (str "no-cache")
    (rs_set (str "Content-Type") (str "text/event-stream")
      (rs_keep_alive keep_alive (mk_response status_ok version fields_empty [])))).
(** [HttpRouter::sse]: an unread request body is cancelled before the handler runs. *)
Definition cancels_request_body {F} `{HttpFields F} (r : request F) : bool :=
  let content_length := default [] (field_find (str "Content-Length") (rq_fields r)) in
  rq_chunked r || (bool_decide (content_length ≠ []) && bool_decide (content_length ≠ str "0")).
End SseSession.

(** ** Runs *)
Section runs.
Import SseSession.

Inductive op := OpWrite | OpFinish.
#[local] Instance op_eq_dec : EqDecision op.
Proof. solve_decision. Defined.
Definition op_of (e : effect) : option op :=
  match e with AsyncWriteSome _ => Some OpWrite | AsyncFinish => Some OpFinish | _ => None end.
Definition written_by (e : effect) : option bytes := match e with AsyncWriteSome v => Some v | _ => None end.
Definition is_finished (e : effect) : bool := match e with Finished _ _ => true | _ => false end.
Definition payload (ev : event) : option bytes :=
  match ev with EvSend e => Some (format_sse_event e) | EvComment c => Some (format_sse_comment c) | _ => None end.

(** The session, the effects so far, the stream operations in flight, and the
    texts [send] and [send_comment] returned true for. *)
Record config := mk_config { cf_session : t; cf_out : list effect; cf_ops : list op; cf_accepted : list bytes }.
(** The operation an event completes must be in flight. *)
Definition completes (ev : event) (ops : list op) : option (list op) :=
  match ev with
  | EvWritten _ => match ops with OpWrite :: ops => Some ops | _ => None end
  | EvFinished _ => match ops with OpFinish :: ops => Some ops | _ => None end
  | _ => Some ops
  end.
Definition accepted_by (ev : event) (out : list effect) : list bytes :=
  match payload ev with
  | Some v => match last out with Some (Returned true) => [v] | _ => [] end
  | None => []
  end.
Inductive step : config → config → Prop :=
| step_event s out ops ops' acc ev :
    completes ev ops = Some ops' →
    step (mk_config s out ops acc)
      (mk_config (handle s ev).1 (out ++ (handle s ev).2) (ops' ++ omap op_of (handle s ev).2)
         (acc ++ accepted_by ev (handle s ev).2)).

Definition total (q : list bytes) : Z := foldr (λ v n, zlen v + n)%Z 0%Z q.
Definition outstanding_first (ops : list op) (q : list bytes) : list bytes :=
  match ops with OpWrite :: _ => tail q | _ => q end.

Record inv (c : config) : Prop := {
  inv_max : (0 ≤ max_pending_bytes (cf_session c) ≤ size_max)%Z;
  inv_pending : pending_bytes (cf_session c) = total (queue (cf_session c));
  inv_bound : (total (queue (cf_session c)) ≤ max_pending_bytes (cf_session c))%Z;
  inv_closed : closed (cf_session c) = true → queue (cf_session c) = [] ∧ length (cf_ops c) ≤ 1 ∧
     length (filter (λ e, is_finished e = true) (cf_out c)) = 1;
  inv_open : closed (cf_session c) = false →
     cf_accepted c = omap written_by (cf_out c) ++ outstanding_first (cf_ops c) (queue (cf_session c)) ∧
     filter (λ e, is_finished e = true) (cf_out c) = [] ∧
     match cf_ops c with
     | [] => writing (cf_session c) = false ∧ AsyncFinish ∉ cf_out c
     | [OpWrite] => writing (cf_session c) = true ∧ queue (cf_session c) ≠ [] ∧ AsyncFinish ∉ cf_out c
     | [OpFinish] => writing (cf_session c) = true ∧ queue (cf_session c) = [] ∧ closing (cf_session c) = true
     | _ => False
     end;
  inv_prefix : ∃ rest, cf_accepted c = omap written_by (cf_out c) ++ rest;
  inv_finish : AsyncFinish ∈ cf_out c → cf_accepted c = omap written_by (cf_out c) ∧
     (closed (cf_session c) = true ∨ cf_ops c = [OpFinish]);
}.
End runs.
