(* ===== verification/SseSessionTheorems.v ===== *)
(** * Server-sent event sessions: properties

    [inv] is an invariant of every run ([step_inv]); [sse_session_safe] states
    what it means for the queue bound, the order of the bytes and the end. *)
From S2P Require Import Prelude Text Http HttpContext SseFormat SseSession.
Set Default Proof Using "Type*".
Import SseSession.

(** Effects that are invisible to the invariant, and changes of state that only
    touch flags. *)
Definition neutral (e : effect) : Prop :=
  op_of e = None ∧ written_by e = None ∧ is_finished e = false.
Definition same_core (s s' : t) : Prop :=
  queue s' = queue s ∧ pending_bytes s' = pending_bytes s ∧ max_pending_bytes s' = max_pending_bytes s ∧
  writing s' = writing s ∧ closed s' = closed s ∧ (closing s = true → closing s' = true).

Lemma neutral_omap effs : Forall neutral effs →
  omap op_of effs = [] ∧ omap written_by effs = [] ∧ filter (λ e, is_finished e = true) effs = [] ∧ AsyncFinish ∉ effs.
Proof.
  induction 1 as [|e effs (H1 & H2 & H3) Hf (IH1 & IH2 & IH3 & IH4)]; [split_and!; done || set_solver|].
  cbn [omap list_omap]. rewrite H1, H2, filter_cons, H3, decide_False by done. split_and!; try done.
  apply not_elem_of_cons. split; [by intros <-|done].
Qed.

Lemma inv_neutral s s' out ops acc effs :
  inv (mk_config s out ops acc) → same_core s s' → Forall neutral effs →
  inv (mk_config s' (out ++ effs) (ops ++ omap op_of effs) acc).
Proof.
  intros [Hm Hp Hb Hc Ho Hpre Hfin] (Eq & Ep & Em & Ew & Ec & Hcl) Hn.
  destruct (neutral_omap effs Hn) as (N1 & N2 & N3 & N4). cbn in *.
  assert (AsyncFinish ∈ out ++ effs ↔ AsyncFinish ∈ out) as Hin by (rewrite elem_of_app; tauto).
  split; cbn; rewrite ?N1, ?omap_app, ?N2, ?filter_app, ?N3, ?app_nil_r, ?Eq, ?Ep, ?Em, ?Ew, ?Ec; try done.
  - intros Hcl0. destruct (Ho Hcl0) as (? & ? & Hops). split_and!; [done..|].
    destruct ops as [|[] [|]]; rewrite ?Hin; naive_solver.
  - rewrite Hin. apply Hfin.
Qed.

Lemma inv_finish_step s out ops ops' acc ec :
  inv (mk_config s out ops acc) → ops' = ops ∨ ops' = tail ops →
  inv (mk_config (finish ec s).1 (out ++ (finish ec s).2) (ops' ++ omap op_of (finish ec s).2) acc).
Proof.
  intros [Hm Hp Hb Hc Ho Hpre Hfin] Hops. cbn in *. unfold finish. destruct (closed s) eqn:Hcl; cbn.
  - rewrite !app_nil_r. destruct (Hc eq_refl) as (Hq & Hl & Hone).
    split; cbn; rewrite ?Hcl; try done.
    + intros _. split_and!; [done| |done]. destruct Hops as [->| ->]; [done|]. destruct ops; cbn in *; lia.
    + intros Hin. destruct (Hfin Hin) as [? _]. auto.
  - destruct (Ho eq_refl) as (Hacc & Hnone & Hstate). rewrite app_nil_r.
    split; cbn; rewrite ?omap_app, ?filter_app, ?app_nil_r, ?Hnone; cbn; rewrite ?app_nil_r; try done; try lia.
    + intros _. split_and!; [done| |done]. destruct ops as [|[] [|]]; destruct Hops as [->| ->]; cbn; try done; lia.
    + rewrite elem_of_app. intros [Hin|Hin]; [|set_solver]. destruct (Hfin Hin) as [? _]. auto.
Qed.

Lemma inv_write_next s out ops acc :
  inv (mk_config s out ops acc) →
  inv (mk_config (write_next s).1 (out ++ (write_next s).2) (ops ++ omap op_of (write_next s).2) acc).
Proof.
  intros Hinv. pose proof Hinv as [Hm Hp Hb Hc Ho Hpre Hfin]. cbn in *. unfold write_next.
  destruct (negb (started s) || writing s || closed s) eqn:Hg; [by rewrite !app_nil_r|].
  apply orb_false_elim in Hg as [[_ Hw]%orb_false_elim Hcl].
  destruct (Ho Hcl) as (Hacc & Hnone & Hstate).
  destruct ops as [|[] [|]]; [|destruct Hstate as (Hw' & _); congruence|done|destruct Hstate as (Hw' & _); congruence|done].
  destruct Hstate as [_ Hnf]. cbn in Hacc.
  destruct (queue s) as [|v q] eqn:Hq.
  - destruct (closing s) eqn:Hclosing; [|by rewrite !app_nil_r]. cbn. rewrite app_nil_r in Hacc.
    split; cbn; rewrite ?omap_app, ?filter_app, ?Hnone, ?app_nil_r, ?Hq, ?Hcl; cbn; rewrite ?app_nil_r; try done; auto.
  - cbn. split; cbn; rewrite ?omap_app, ?filter_app, ?Hnone, ?Hq, ?Hcl; cbn; try done.
    + intros _. rewrite <-(assoc_L (++)). split_and!; try done. set_solver.
    + exists q. by rewrite <-(assoc_L (++)).
    + rewrite elem_of_app. intros [?|?]; set_solver.
Qed.

Lemma same_core_refl s : same_core s s.
Proof. by split_and!. Qed.
Lemma total_app q v : total (q ++ [v]) = (total q + zlen v)%Z.
Proof. unfold total. induction q as [|w q IH]; cbn; [lia|]. lia. Qed.
Lemma total_nonneg q : (0 ≤ total q)%Z.
Proof. unfold total. induction q as [|w q IH]; cbn; [lia|]. pose proof (zlen_nonneg w). lia. Qed.

Lemma enqueue_inv v s out ops acc :
  inv (mk_config s out ops acc) →
  inv (mk_config (enqueue v s).1 (out ++ (enqueue v s).2) (ops ++ omap op_of (enqueue v s).2)
    (acc ++ match last (enqueue v s).2 with Some (Returned true) => [v] | _ => [] end)).
Proof.
  intros Hinv. unfold enqueue. destruct (closing s || closed s) eqn:Hcl.
  { cbn. rewrite !app_nil_r. rewrite <-(app_nil_r ops). apply (inv_neutral s s out ops acc [Returned false]); auto using same_core_refl.
    by repeat constructor. }
  destruct ((max_pending_bytes s <? zlen v)%Z || (u64 (max_pending_bytes s - zlen v) <? pending_bytes s)%Z) eqn:Hbig; cbv zeta.
  { cbn. rewrite !app_nil_r. rewrite <-(app_nil_r ops). apply (inv_neutral s s out ops acc [Returned false]); auto using same_core_refl.
    by repeat constructor. }
  apply orb_false_elim in Hcl as [Hclosing Hcl]. apply orb_false_elim in Hbig as [Hb1 Hb2].
  destruct Hinv as [Hm Hp Hb Hc Ho Hpre Hfin]. cbn in *.
  pose proof (total_nonneg (queue s)). pose proof (zlen_nonneg v).
  rewrite Z.ltb_ge in Hb1, Hb2. rewrite u64_id in Hb2 by lia.
  set (s1 := mk _ _ _ _ _ _ _ _ _ _).
  assert (inv (mk_config s1 out ops (acc ++ [v]))) as Hinv1.
  { destruct (Ho Hcl) as (Hacc & Hnone & Hstate).
    split; cbn; rewrite ?total_app, ?Hcl; try done; try lia.
    - rewrite u64_id by lia. lia.
    - intros _. split_and!; [|done|].
      + rewrite Hacc, <-(assoc_L (++)). f_equal. destruct ops as [|[] [|]]; cbn; try done.
        destruct Hstate as (_ & Hq & _). by destruct (queue s).
      + destruct ops as [|[] [|]]; try done; [|naive_solver congruence].
        destruct Hstate as (? & ? & ?). split_and!; try done. by destruct (queue s).
    - destruct Hpre as [rest ->]. exists (rest ++ [v]). by rewrite (assoc_L (++)).
    - intros Hin. destruct ops as [|[] [|]]; naive_solver congruence. }
  pose proof (inv_write_next _ _ _ _ Hinv1) as Hw. clearbody s1. destruct (write_next s1) as [s2 effs]. cbn in *.
  rewrite last_snoc, (assoc_L (++)), omap_app, (assoc_L (++)).
  apply (inv_neutral s2 s2 _ _ _ [Returned true]) in Hw; [done|apply same_core_refl|by repeat constructor].
Qed.

Lemma on_written_inv ec s out ops ops' acc :
  completes (EvWritten ec) ops = Some ops' → inv (mk_config s out ops acc) →
  inv (mk_config (on_written ec s).1 (out ++ (on_written ec s).2) (ops' ++ omap op_of (on_written ec s).2) acc).
Proof.
  intros Hops Hinv. destruct ops as [|[] ops]; simplify_eq/=. unfold on_written.
  destruct ec as [ec|]; [by eapply inv_finish_step; [exact Hinv|by right]|].
  destruct Hinv as [Hm Hp Hb Hc Ho Hpre Hfin]. cbn in *.
  assert (∃ q p, (match queue s with [] => ([], pending_bytes s) | v :: q => (q, u64 (pending_bytes s - zlen v)) end) = (q, p) ∧
    q = tail (queue s) ∧ p = total q) as (q & p & Heq & -> & ->).
  { destruct (queue s) as [|v q]; cbn in *; eexists _, _; split_and!; try done.
    pose proof (total_nonneg q). pose proof (zlen_nonneg v). unfold total in *. rewrite u64_id; lia. }
  rewrite Heq. apply inv_write_next. destruct (closed s) eqn:Hcl.
  - destruct (Hc eq_refl) as (Hq & Hl & Hone). split; cbn; rewrite ?Hcl, ?Hq; try done; cbn; try lia.
    + intros _. cbn in Hl. split_and!; [done|lia|done].
    + intros Hin. destruct (Hfin Hin). auto.
  - destruct (Ho eq_refl) as (Hacc & Hnone & Hstate). destruct ops'; [|done]. destruct Hstate as (Hw & Hne & Hnf).
    split; cbn; rewrite ?Hcl; try done.
    destruct (queue s) as [|v q]; [done|]. cbn in *. pose proof (zlen_nonneg v). unfold total in *. lia.
Qed.

(** Neutral effects before the rest of a handler. *)
Lemma inv_prefixed (r : t * list effect) pre s s1 out ops acc :
  inv (mk_config s out ops acc) → same_core s s1 → Forall neutral pre →
  (inv (mk_config s1 (out ++ pre) ops acc) → inv (mk_config r.1 ((out ++ pre) ++ r.2) (ops ++ omap op_of r.2) acc)) →
  inv (mk_config r.1 (out ++ (pre ++ r.2)) (ops ++ omap op_of (pre ++ r.2)) acc).
Proof.
  intros Hinv Hs Hn Hr. destruct (neutral_omap pre Hn) as (N1 & _). rewrite omap_app, N1, (assoc_L (++)). apply Hr.
  pose proof (inv_neutral s s1 out ops acc pre Hinv Hs Hn) as Hp. by rewrite N1, app_nil_r in Hp.
Qed.

Lemma step_inv c c' : inv c → step c c' → inv c'.
Proof.
  intros Hinv Hs. destruct Hs as [s out ops ops' acc ev Hops].
  assert (∀ ec, inv (mk_config (finish ec s).1 (out ++ (finish ec s).2) (ops ++ omap op_of (finish ec s).2) acc)) as Hfin.
  { intros ec. eapply inv_finish_step; [exact Hinv|by left]. }
  assert (∀ s' effs, same_core s s' → Forall neutral effs → ops' = ops →
    inv (mk_config s' (out ++ effs) (ops' ++ omap op_of effs) (acc ++ []))) as Hneu.
  { intros s' effs Hs' He ->. rewrite app_nil_r. by apply (inv_neutral s). }
  unfold accepted_by.
  destruct ev as [|ec|ec|e|cm| | |h|ec|ec]; cbn [handle payload]; try (cbn in Hops; injection Hops as <-).
  - unfold start. destruct (_ || _); apply Hneu; try done; by repeat constructor.
  - rewrite app_nil_r. destruct ec as [ec|]; cbn [on_started]; [apply Hfin|].
    match goal with |- context [write_next ?x] => set (s1 := x) end.
    set (watch := if negb _ && negb _ then _ else _).
    assert (Forall neutral watch) by (subst watch; destruct (_ && _); by repeat constructor).
    pose proof (inv_prefixed (write_next s1) watch s s1 out ops acc Hinv ltac:(done) ltac:(done)) as Hw.
    destruct (write_next s1) as [s2 effs] eqn:Hwn. apply Hw. intros Hi. pose proof (inv_write_next _ _ _ _ Hi) as Hx. by rewrite Hwn in Hx.
  - rewrite app_nil_r. unfold on_disconnect. case_bool_decide; [cbn; by rewrite !app_nil_r|].
    pose proof (inv_prefixed (finish (Some (default sse_eof ec)) s) [CancelResponse] s s out ops acc Hinv (same_core_refl s)
      ltac:(by repeat constructor)) as Hw.
    destruct (finish _ s) as [s2 effs] eqn:Hf. apply Hw. intros Hi.
    pose proof (inv_finish_step _ _ _ ops _ (Some (default sse_eof ec)) Hi ltac:(by left)) as Hx. by rewrite Hf in Hx.
  - by apply enqueue_inv.
  - by apply enqueue_inv.
  - rewrite app_nil_r. unfold close. match goal with |- context [write_next ?x] => set (s1 := x) end.
    pose proof (inv_prefixed (write_next s1) [CancelDisconnectWait] s s1 out ops acc Hinv ltac:(done) ltac:(by repeat constructor)) as Hw.
    destruct (write_next s1) as [s2 effs] eqn:Hwn. apply Hw. intros Hi. pose proof (inv_write_next _ _ _ _ Hi) as Hx. by rewrite Hwn in Hx.
  - rewrite app_nil_r. unfold cancel.
    pose proof (inv_prefixed (finish (Some sse_aborted) s) [CancelResponse] s s out ops acc Hinv (same_core_refl s)
      ltac:(by repeat constructor)) as Hw.
    destruct (finish _ s) as [s2 effs] eqn:Hf. apply Hw. intros Hi.
    pose proof (inv_finish_step _ _ _ ops _ (Some sse_aborted) Hi ltac:(by left)) as Hx. by rewrite Hf in Hx.
  - unfold on_close. destruct (closed s) eqn:Hcl; apply Hneu; try done; try (by repeat constructor); apply same_core_refl.
  - rewrite app_nil_r. by apply (on_written_inv ec s out ops).
  - rewrite app_nil_r. destruct ops as [|[] ops]; simplify_eq/=.
    by eapply inv_finish_step; [exact Hinv|by right].
Qed.

(** C31: for every session and every interleaving of sends, closes, cancels,
    disconnects and completions (errors included): the queued bytes never exceed
    [max_pending_bytes] and the [size_t] counter is exactly their sum (no
    wrap-around); at most one operation of the response stream is in flight;
    what has been handed to the stream is, in order, a prefix of the events for
    which [send] returned true; the stream is finished only after all of them
    were written; and [finish] reports the end at most once. *)
Theorem sse_session_safe maximum c :
  (0 ≤ maximum ≤ size_max)%Z → rtc step (mk_config (init maximum) [] [] []) c →
  let s := cf_session c in
  (pending_bytes s = total (queue s) ∧ pending_bytes s ≤ max_pending_bytes s)%Z ∧
  length (cf_ops c) ≤ 1 ∧
  (∃ rest, cf_accepted c = omap written_by (cf_out c) ++ rest) ∧
  (AsyncFinish ∈ cf_out c → cf_accepted c = omap written_by (cf_out c)) ∧
  length (filter (λ e, is_finished e = true) (cf_out c)) = (if closed s then 1 else 0).
Proof.
  intros Hmax Hr. assert (inv c) as [Hm Hp Hb Hc Ho Hpre Hfin].
  { refine (rtc_invariant step inv _ _ _ Hr _); [intros x y; apply step_inv|].
    split; cbn; try done; try lia.
    - intros _. split_and!; try done. apply not_elem_of_nil.
    - by exists [].
    - by intros ?%elem_of_nil. }
  cbv zeta. split_and!; [done|congruence| |done| |].
  - destruct (closed (cf_session c)) eqn:Hcl; [by destruct (Hc eq_refl) as (_ & ? & _)|].
    destruct (Ho eq_refl) as (_ & _ & Hs). destruct (cf_ops c) as [|[] [|]]; cbn; try done; lia.
  - intros Hin. by destruct (Hfin Hin).
  - destruct (closed (cf_session c)) eqn:Hcl; [by destruct (Hc eq_refl) as (_ & _ & ?)|].
    destruct (Ho eq_refl) as (_ & Hnone & _). by rewrite Hnone.
Qed.

Theorem sse_session_safe_witness :
  ∃ c, cf_ops c = [OpWrite] ∧ pending_bytes (cf_session c) = 20%Z ∧ length (cf_ops c) ≤ 1.
Proof.
  eexists. split; [|split]; [..|eapply (sse_session_safe 20)]; [..|unfold size_max; lia|].
  3:{ eapply rtc_l; [exact (step_event _ _ _ _ _ EvStart eq_refl)|].
      eapply rtc_l; [exact (step_event _ _ _ _ _ (EvStarted None) eq_refl)|].
      eapply rtc_l; [exact (step_event _ _ _ _ _ (EvComment (str "0123456789abcdef")) eq_refl)|].
      eapply rtc_l; [exact (step_event _ _ _ _ _ (EvComment (str "x")) eq_refl)|].
      apply rtc_refl. }
  - reflexivity.
  - vm_compute. reflexivity.
Defined.
