(* ===== verification/StaticFiles.v ===== *)
(** * Static files ([session/http_session.cpp], [do_serve_static_file])

    Boost.Filesystem is a type class: paths are sequences of elements (what
    [path::begin]/[end] iterate), [canonical] resolves symbolic links and dots.
    The handler either declines ([None]) or sends one response. *)
From S2P Require Import Prelude Text Http HttpContext.
Set Default Proof Using "Type*".

Abbreviation fspath := (list bytes).
Inductive fs_error := no_such_file | fs_other.
#[export] Instance fs_error_eq_dec : EqDecision fs_error.
Proof. solve_decision. Defined.

Class FileSystem := {
  fs_append_relative : fspath → bytes → fspath;   (** [root / path(request).relative_path()] *)
  fs_canonical : fspath → fs_error + fspath;
  fs_is_directory : fspath → bool;
  fs_is_regular_file : fspath → bool;
  fs_open : fspath → option bytes;                (** the file's contents *)
  fs_extension : fspath → bytes;
}.

Definition extract_path_from_target (target : bytes) : bytes := substr_to target 0 (find_char "?"%char target 0).

(** The loop of [is_path_within_root]. *)
Fixpoint is_path_within_root (candidate root : fspath) {struct root} : bool :=
  match root, candidate with
  | [], _ => true
  | _ :: _, [] => false
  | r :: root, c :: candidate => if bool_decide (r = c) then is_path_within_root candidate root else false
  end.

Definition mime_type_from_extension (ext : bytes) : bytes :=
  if bool_decide (ext = str ".html") || bool_decide (ext = str ".htm") then str "text/html"
  else if bool_decide (ext = str ".css") then str "text/css"
  else if bool_decide (ext = str ".js") then str "application/javascript"
  else if bool_decide (ext = str ".json") then str "application/json"
  else if bool_decide (ext = str ".png") then str "image/png"
  else if bool_decide (ext = str ".jpg") || bool_decide (ext = str ".jpeg") then str "image/jpeg"
  else if bool_decide (ext = str ".gif") then str "image/gif"
  else if bool_decide (ext = str ".svg") then str "image/svg+xml"
  else if bool_decide (ext = str ".pdf") then str "application/pdf"
  else if bool_decide (ext = str ".txt") then str "text/plain"
  else str "application/octet-stream".

(** What is sent: a generated page, the file (with its path), or only its size. *)
Inductive static_response :=
| StaticPage (st : status) (body : bytes)
| StaticFile (p : fspath) (content_type data : bytes)
| StaticHead (p : fspath) (content_type : bytes) (content_length : Z).

Section static.
Context `{FileSystem}.

Definition forbidden (detail : bytes) : static_response := StaticPage 403 (str "<h1>403 Forbidden</h1><p>" ++ detail ++ str "</p>").
Definition serve_file (p : fspath) (m : verb) : option static_response :=
  if fs_is_regular_file p then
    match fs_open p with
    | None => Some (StaticPage 500 (str "<h1>500 Internal Server Error</h1><p>Could not open the requested file.</p>"))
    | Some data =>
        let type := mime_type_from_extension (tolower <$> fs_extension p) in
        Some (if bool_decide (m = verb_head) then StaticHead p type (zlen data) else StaticFile p type data)
    end
  else None.
Definition do_serve_static_file (web_root canonical_web_root : fspath) (target : bytes) (m : verb) : option static_response :=
  if bool_decide (canonical_web_root = []) then None
  else
    let request_path := extract_path_from_target target in
    let request_path := if bool_decide (request_path = str "/") then str "/index.html" else request_path in
    match fs_canonical (fs_append_relative web_root request_path) with
    | inl no_such_file => None
    | inl fs_other => Some (forbidden (str "Access denied due to invalid path."))
    | inr p =>
        if negb (is_path_within_root p canonical_web_root)
        then Some (forbidden (str "Access denied: Path traversal attempt detected."))
        else if fs_is_directory p then
          let index_file := p ++ [str "index.html"] in
          if fs_is_regular_file index_file then serve_file index_file m
          else Some (forbidden (str "Directory listing not allowed."))
        else serve_file p m
    end.
End static.

(** ** Properties *)
Lemma is_path_within_root_prefix candidate root : is_path_within_root candidate root = true ↔ root `prefix_of` candidate.
Proof.
  revert candidate. induction root as [|r root IH]; intros candidate; cbn.
  - split; [intros _; apply prefix_nil|done].
  - destruct candidate as [|c candidate].
    + split; [done|]. by intros [k Hk].
    + case_bool_decide as Hr; [subst; rewrite IH; split|split; [done|]].
      * apply prefix_cons.
      * apply prefix_cons_inv_2.
      * intros Hp. by apply prefix_cons_inv_1 in Hp.
Qed.

(** C4: the check of the canonical path. Whatever the request target (dots,
    links, encodings), the path that is opened is the canonical form of the
    requested path, or [index.html] appended to it when it is a directory, and that
    canonical form lies below the canonical web root; a request whose canonical
    path lies outside is answered 403 and nothing is opened for it. What is
    appended is not made canonical again: an [index.html] that is a symbolic link
    leads out of the root ([index_link_escapes]). *)
Theorem static_files_confined `{FileSystem} web_root root target m :
  let requested := fs_append_relative web_root (if bool_decide (extract_path_from_target target = str "/")
                     then str "/index.html" else extract_path_from_target target) in
  (∀ p, (∃ type data, do_serve_static_file web_root root target m = Some (StaticFile p type data)) ∨
        (∃ type n, do_serve_static_file web_root root target m = Some (StaticHead p type n)) →
     root ≠ [] ∧ root `prefix_of` p ∧ fs_is_regular_file p = true ∧
     ∃ c, fs_canonical requested = inr c ∧ (p = c ∨ (fs_is_directory c = true ∧ p = c ++ [str "index.html"]))) ∧
  (∀ c, root ≠ [] → fs_canonical requested = inr c → ~ root `prefix_of` c →
     ∃ page, do_serve_static_file web_root root target m = Some (StaticPage 403 page)).
Proof.
  intros requested. unfold do_serve_static_file. cbv zeta. fold requested.
  assert (∀ q p m, (∃ type data, serve_file q m = Some (StaticFile p type data)) ∨
    (∃ type n, serve_file q m = Some (StaticHead p type n)) → p = q ∧ fs_is_regular_file q = true) as Hserve.
  { intros q p m'. unfold serve_file. destruct (fs_is_regular_file q); [|naive_solver].
    destruct (fs_open q); [|naive_solver]. case_bool_decide; naive_solver. }
  split.
  - intros p. case_bool_decide as Hroot; [naive_solver|].
    destruct (fs_canonical requested) as [[]|c]; [naive_solver..|].
    destruct (is_path_within_root c root) eqn:Hin; cbn [negb]; [|naive_solver].
    apply is_path_within_root_prefix in Hin. destruct (fs_is_directory c) eqn:Hdir.
    + destruct (fs_is_regular_file (c ++ [str "index.html"])) eqn:Hidx; [|naive_solver].
      intros [-> Hreg]%Hserve. split_and!; [done|by apply prefix_app_r|done|]. exists c. auto.
    + intros [-> Hreg]%Hserve. split_and!; try done. exists c. auto.
  - intros c Hroot Hc Hout. rewrite bool_decide_eq_false_2, Hc by done.
    destruct (is_path_within_root c root) eqn:Hin; [by apply is_path_within_root_prefix in Hin|].
    cbn [negb]. by eexists.
Qed.

(** [index.html] may be a symbolic link: the path checked against the root is
    not the one opened (the check runs before the name is appended). *)
Definition linked_index : FileSystem := {|
  fs_append_relative root req := root ++ [str "dir"];
  fs_canonical p := if bool_decide (p = [str "/"; str "srv"; str "dir"; str "index.html"]) then inr [str "/"; str "etc"; str "passwd"] else inr p;
  fs_is_directory p := bool_decide (p = [str "/"; str "srv"; str "dir"]);
  fs_is_regular_file p := bool_decide (p = [str "/"; str "srv"; str "dir"; str "index.html"]);
  fs_open p := if bool_decide (p = [str "/"; str "srv"; str "dir"; str "index.html"]) then Some (str "secret") else None;
  fs_extension p := str ".html" |}.
Theorem index_link_escapes :
  let root := [str "/"; str "srv"] in
  let p := [str "/"; str "srv"; str "dir"; str "index.html"] in
  do_serve_static_file (H := linked_index) root root (str "/dir") verb_get = Some (StaticFile p (str "text/html") (str "secret")) ∧
  ∃ c, fs_canonical (FileSystem := linked_index) p = inr c ∧ is_path_within_root c root = false.
Proof. split; [by vm_compute|]. eexists. split; [reflexivity|]. by vm_compute. Qed.
