(* ===== verification/HttpSession.v ===== *)
(** * HTTP connections ([session/http_session.cpp])

    The decisions and buffers of one connection: the header step with its early
    answers, the bounded body loop, the dispatch after the interceptors, the
    final response and the chunked writer. Reading and writing the socket and
    parsing HTTP are Beast's; their completions are the inputs here. *)
From S2P Require Import Prelude Text Numbers PathPattern Http HttpContext TypedRoute HttpRouter StaticFiles.
Set Default Proof Using "Type*".

Definition default_max_buffered_request_body_size : Z := 16 * 1024 * 1024.
Definition body_chunk_size : Z := 64 * 1024.

(** ** Request heads *)
Section head.
Context {F : Type} `{HttpFields F}.
(** [copy_request_head]: the fields of the parsed head, in order, into a fresh request. *)
Definition copy_request_head (method : verb) (target : bytes) (version : N) (keep_alive : bool)
    (source : list (bytes * bytes)) : request F :=
  mk_request method target version
    (fold_left (λ f h, field_insert h.1 h.2 f) source (set_keep_alive version keep_alive fields_empty)) [].
End head.

(** What the connection does once the head is read. *)
Inductive head_action := WebsocketUpgrade | PayloadTooLarge | ContinueThen (stream : bool) | HandleStream | ReadBody.
Definition header_step (is_upgrade stream_route : bool) (content_length : option Z) (max : Z) (expect : bytes) : head_action :=
  if is_upgrade then WebsocketUpgrade
  else if negb stream_route && match content_length with Some n => bool_decide (max < n)%Z | None => false end then PayloadTooLarge
  else if ieq expect (str "100-continue") then ContinueThen stream_route
  else if stream_route then HandleStream else ReadBody.

(** ** The buffered body

    Each completed read produced some bytes (never more than the 64 KiB chunk)
    and says whether it failed ([need_buffer] is not a failure) and whether the
    parser is done. *)
Record body_read := mk_read { br_error : bool; br_data : bytes; br_done : bool }.
Inductive body_result := BodyComplete (body : bytes) | BodyTooLarge | BodyClosed | BodyPending (body : bytes).
Fixpoint buffer_body (max : Z) (buffered : bytes) (done : bool) (reads : list body_read) : body_result :=
  if done then BodyComplete buffered
  else match reads with
  | [] => BodyPending buffered
  | r :: reads =>
      if br_error r then BodyClosed
      else
        let produced := zlen (br_data r) in
        if (max <? zlen buffered)%Z || (u64 (max - zlen buffered) <? produced)%Z then BodyTooLarge
        else buffer_body max (buffered ++ br_data r) (br_done r) reads
  end.

(** ** Responses *)
Section responses.
Context {F : Type} `{HttpFields F}.
(** 413 allows a body: [prepare_payload()] returns ([payload_too_large_prepared]). *)
Definition payload_too_large (version : N) : response F :=
  rs_prepared (rs_set_body (str "request body exceeds buffered route limit")
    (rs_keep_alive false (mk_response status_payload_too_large version fields_empty []))).
(** What is written: a message, or the head of a chunked one. *)
Inductive sent_message := SentMessage (r : response F) | SentChunkedHead (r : response F).
Definition has_content_length (r : response F) : bool := bool_decide (field_all (str "Content-Length") (rs_fields r) ≠ []).
(** [fields] lists the response's fields in order. *)
Definition head_response (fields : list (bytes * bytes)) (r : response F) : response F :=
  let f := set_keep_alive (rs_version r) (get_keep_alive (rs_version r) (rs_fields r)) fields_empty in
  let f := fold_left (λ f h, field_insert h.1 h.2 f) fields f in
  let f := field_erase (str "Transfer-Encoding") f in
  let f := if bool_decide (field_all (str "Content-Length") f ≠ []) then f
           else field_set (str "Content-Length") (to_dec_Z (zlen (rs_body r))) f in
  mk_response (rs_status r) (rs_version r) f [].
Definition send_context_response (m : verb) (body_cancelled : bool) (fields : response F → list (bytes * bytes))
    (res : response F) : outcome exn sent_message :=
  let res := if body_cancelled then rs_keep_alive false res else res in
  if bool_decide (m = verb_head) then Ret (SentMessage (head_response (fields res) res))
  else if get_chunked (rs_fields res) then Ret (SentChunkedHead (rs_set_body [] res))
  else if has_content_length res then Ret (SentMessage res)
  else res ← rs_prepare_payload res; Ret (SentMessage res).
End responses.
Arguments sent_message : clear implicits.

(** ** After the interceptors *)
Section dispatch.
Context {F : Type} `{HttpFields F} `{Platform} `{Verbs} `{FileSystem}.
Context (page : page_parts) (web_root canonical_web_root : fspath).
(** [fields] lists a response's fields in order; [cancelled] is the member
    [request_body_cancelled_]. *)
Context (fields : response F → list (bytes * bytes)) (cancelled : bool).
Abbreviation handler := (M F unit).

(** How a request ends: the context's response is sent, a static response was
    sent, or an asynchronous handler will complete it. *)
Inductive request_end := SendContext (m : sent_message F) | SentStatic (r : static_response) | AsyncPending.
(** [send_context_response()] in its place: [prepare_payload()] may throw there. *)
Definition send_context : M F (sent_message F) := λ x,
  (x, send_context_response (method x) cancelled fields (cx_res x)).

(** The static hook of [dispatch]; what it sent is remembered in [served]. *)
Definition static_file_fun (m : verb) (target : bytes) : option static_response :=
  if bool_decide (m = verb_get) || bool_decide (m = verb_head)
  then do_serve_static_file web_root canonical_web_root target m else None.
(** [try m catch (...) handle_exception]. *)
Definition guarded (r : HttpRouter F) (m : handler) : handler := tryM m (λ e, handle_exception r (Some e)).

(** [dispatch] with the hook of the session: [Some s] when the hook sent [s]. *)
Definition dispatch_recording (r : HttpRouter F) (hook : option static_response) : M F (option static_response) := λ x,
  let '(request_path, x) := path x in
  dispatch_routes page r (rt_routes r) request_path (method x) None
    (match hook with
     | Some s => mret (Some s)
     | None => handle_not_found page r ≫= λ _, mret None
     end) x.

(** The catch-all: the exception page, the post interceptors, the response;
    what this page or this sending throws leaves the session. *)
Definition recover (r : HttpRouter F) (e : exn) : M F request_end :=
  _ ← handle_exception r (Some e); _ ← guarded r (run_post_interceptors r); m ← send_context; mret (SendContext m).
(** The post interceptors and the response inside the [try]; its [catch] clause
    when the post interceptors were started. *)
Definition finish_request (r : HttpRouter F) : M F request_end :=
  m ← tryM (_ ← run_post_interceptors r; send_context) (λ e, _ ← handle_exception r (Some e); send_context);
  mret (SendContext m).
Definition dispatch_request_after_interceptors (r : HttpRouter F) (res : InterceptorResult) : M F request_end :=
  match res with
  | Stop => finish_request r
  | Continue => λ x,
      match dispatch_async r x with
      | (x, Throw e) => recover r e x
      | (x, Ret true) => (x, Ret AsyncPending)
      | (x, Ret false) =>
          match dispatch_recording r (static_file_fun (method x) (rq_target (cx_req x))) x with
          | (x, Throw e) => recover r e x
          | (x, Ret (Some s)) => (x, Ret (SentStatic s))
          | (x, Ret None) => finish_request r x
          end
      end
  end.
(** The completion an asynchronous handler calls. *)
Definition async_complete (r : HttpRouter F) : M F request_end := finish_request r.
Definition handle_request (r : HttpRouter F) : M F request_end := λ x,
  match async_run_pre_interceptors r x with
  | (x, Ret res) => dispatch_request_after_interceptors r res x
  | (x, Throw e) => recover r e x
  end.

(** *** Streaming requests: [complete] sends the context's response once. *)
Inductive stream_end := StreamCompleted | StreamHandled.
Definition handle_stream_request (r : HttpRouter F) : M F stream_end := λ x,
  match async_run_pre_interceptors r x with
  | (x, Throw e) => (handle_exception r (Some e) ≫= λ _, mret StreamCompleted) x
  | (x, Ret Stop) => (x, Ret StreamCompleted)
  | (x, Ret Continue) =>
      tryM (dispatch_stream r ≫= λ (found : bool),
            if found then mret StreamHandled
            else _ ← doM (set_status status_not_found); _ ← set_body (str "stream route not found"); mret StreamCompleted)
        (λ e, handle_exception r (Some e) ≫= λ _, mret StreamCompleted) x
  end.
(** The posted body of [complete], which catches nothing; the flag is
    [stream_completed_], the message what is sent. *)
Definition stream_complete (r : HttpRouter F) (completed : bool) : M F (bool * option (sent_message F)) :=
  if completed then mret (true, None)
  else _ ← run_post_interceptors r; m ← send_context; mret (true, Some m).
(** *** [on_read_header] *)
Definition header_path (target : bytes) : bytes := substr_to target 0 (find_char "?"%char target 0).
Definition on_read_header (r : HttpRouter F) (q : request F) (is_upgrade : bool) (content_length : option Z) (max : Z) : head_action :=
  header_step is_upgrade (is_stream_route (rt_routes r) (header_path (rq_target q)) (rq_method q)) content_length max
    (default [] (field_find (str "Expect") (rq_fields q))).
(** The upgrade branch: no exception is caught on this path. *)
Inductive upgrade_end := UpgradeAccepted | UpgradeRefused (m : sent_message F).
Definition handle_upgrade_request (r : HttpRouter F) : M F upgrade_end :=
  async_run_pre_interceptors r ≫= λ res,
  match res with
  | Continue => mret UpgradeAccepted
  | Stop => _ ← run_post_interceptors r; m ← send_context; mret (UpgradeRefused m)
  end.
End dispatch.
Arguments request_end : clear implicits.
Arguments SendContext {F}. Arguments SentStatic {F}. Arguments AsyncPending {F}.
Arguments upgrade_end : clear implicits.
Arguments UpgradeAccepted {F}. Arguments UpgradeRefused {F}.

(** ** Response streams *)
Section stream.
Context {F : Type} `{HttpFields F}.
(** [start_stream_response]: the head that is written. *)
Definition stream_head (st : status) (version : N) (keep_alive body_cancelled : bool) (source : list (bytes * bytes)) : response F :=
  let f := set_keep_alive version keep_alive fields_empty in
  let f := if body_cancelled then set_keep_alive version false f else f in
  let f := fold_left (λ f h, field_insert h.1 h.2 f) source f in
  let f := if bool_decide (field_all (str "Content-Length") f = []) && negb (get_chunked f) then set_chunked true f else f in
  mk_response st version f [].
End stream.

(** What happens to the connection when the response stream is finished. *)
Inductive connection_next := NextRead | NextClose.
Definition on_write (keep_alive : bool) (ec : bool) : option connection_next :=
  if ec then None else if keep_alive then Some NextRead else Some NextClose.
Definition stream_finished (keep_alive ec : bool) : connection_next :=
  if negb ec && keep_alive then NextRead else NextClose.

(** The disconnect watch: one receive at a time, none once cancelled. *)
Record watch := mk_watch { wt_active : bool; wt_cancelled : bool }.
Inductive watch_event := WatchWait (body_done : bool) | WatchCancel | WatchReceived (ec : bool) (nbytes : nat) | WatchStart.
Inductive watch_effect := WatchReceive | WatchEmit | WatchCallback (aborted eof : bool).
Definition watch_handle (w : watch) (ev : watch_event) : watch * list watch_effect :=
  match ev with
  | WatchStart => (mk_watch (wt_active w) false, [])
  | WatchWait body_done =>
      if wt_cancelled w then (w, [WatchCallback true false])
      else if negb body_done || wt_active w then (w, [])
      else (mk_watch true (wt_cancelled w), [WatchReceive])
  | WatchCancel => (mk_watch (wt_active w) true, if wt_active w then [WatchEmit] else [])
  | WatchReceived ec n => (mk_watch false (wt_cancelled w), [WatchCallback ec (negb ec && bool_decide (n = 0))])
  end.

(** ** Chunked responses *)
(** One call of the writer the stream handler gets. *)
Definition encode_chunk (buffer : bytes) : bytes :=
  to_hex (N.of_nat (length buffer)) ++ crlf ++ buffer ++ crlf.
Definition final_chunk : bytes := str "0" ++ crlf ++ crlf.

Module ChunkWriter.
(** [ChunkWriteState]; each function is one region of the code under its lock,
    so the push of a chunk and the [schedule_write] after it are two steps. *)
Record t := mk { queue : list bytes; writing : bool; final_queued : bool; completed : bool; error : bool }.
Definition init : t := mk [] false false false false.
Inductive event :=
| EvPush (buffer : bytes)       (** the handler calls its writer *)
| EvHandlerDone                 (** the handler returned *)
| EvSchedule                    (** [schedule_write] after a push *)
| EvRun                         (** the posted [do_write_chunk] *)
| EvWritten (ec : bool).        (** completion of [async_write] *)
(** [Refused]: the writer returned false; [Complete]: [on_write] was called. *)
Inductive effect := Post | AsyncWrite (data : bytes) | Complete (ec : bool) | Refused.

Definition write_chunk (buffer : bytes) (s : t) : t * list effect :=
  if error s then (s, [Refused])
  else (mk (queue s ++ [encode_chunk buffer]) (writing s) (final_queued s) (completed s) (error s), []).
Definition handler_done (s : t) : t * list effect :=
  (mk (queue s ++ [final_chunk]) (writing s) true (completed s) (error s), []).
Definition schedule_write (s : t) : t * list effect :=
  if writing s then (s, []) else (mk (queue s) true (final_queued s) (completed s) (error s), [Post]).
Definition do_write_chunk (s : t) : t * list effect :=
  match queue s with
  | [] =>
      if final_queued s && negb (completed s)
      then (mk [] false (final_queued s) true (error s), [Complete false])
      else (mk [] false (final_queued s) (completed s) (error s), [])
  | data :: q => (mk q (writing s) (final_queued s) (completed s) (error s), [AsyncWrite data])
  end.
Definition on_written (ec : bool) (s : t) : t * list effect :=
  if ec then (mk (queue s) false (final_queued s) true true, [Complete true]) else do_write_chunk s.
Definition handle (s : t) (ev : event) : t * list effect :=
  match ev with
  | EvPush b => write_chunk b s | EvHandlerDone => handler_done s | EvSchedule => schedule_write s
  | EvRun => do_write_chunk s | EvWritten ec => on_written ec s
  end.
End ChunkWriter.
