(* ===== verification/HttpSessionTheorems.v ===== *)
(** * HTTP connections: properties

    The body loop answers every sequence of reads as it should and within its
    limit ([body_limited]), every request is answered whatever the handlers throw,
    two cases apart ([request_always_answered]), HEAD keeps
    the fields ([head_keeps_fields]), and the chunked writer produces a body a
    conforming reader gets back ([chunked_roundtrip], [chunk_writer_safe]). *)
From S2P Require Import Prelude Text Numbers PathPattern Http HttpContext TypedRoute HttpRouter HttpRouterTheorems HttpDispatch StaticFiles HttpSession.
Set Default Proof Using "Type*".

(** ** The body limit *)
Section body.
Context (max : Z) (done : bool) (reads : list body_read).
(** The data of the first [n] reads, and whether the parser is done after them. *)
Definition read_data (n : nat) : bytes := concat (br_data <$> take n reads).
Definition done_after (n : nat) : bool :=
  match n with O => done | S k => match reads !! k with Some r => br_done r | None => false end end.
(** [n] reads went well: no error, nothing left to read before the last one, and
    never more than [max] bytes. *)
Definition buffered_well (n : nat) : Prop :=
  n ≤ length reads ∧ Forall (λ r, br_error r = false) (take n reads) ∧
  (∀ k, k < n → done_after k = false) ∧ ∀ k, k ≤ n → (zlen (read_data k) ≤ max)%Z.
(** The answer that is due: the whole body, 413 for the read that exceeds the
    limit, the end of the connection for a read that fails, or to read on. *)
Definition body_answer (res : body_result) : Prop :=
  ∃ n, buffered_well n ∧
  match res with
  | BodyComplete b => done_after n = true ∧ b = read_data n
  | BodyPending b => done_after n = false ∧ n = length reads ∧ b = read_data n
  | BodyTooLarge => done_after n = false ∧ ∃ r, reads !! n = Some r ∧ br_error r = false ∧ (max < zlen (read_data (S n)))%Z
  | BodyClosed => done_after n = false ∧ ∃ r, reads !! n = Some r ∧ br_error r = true
  end.
End body.
Lemma read_data_S reads n r : reads !! n = Some r → read_data reads (S n) = read_data reads n ++ br_data r.
Proof.
  intros Hr. unfold read_data. rewrite (take_S_r _ _ _ Hr), fmap_app, concat_app. cbn. by rewrite app_nil_r.
Qed.
(** From [n] reads on, the loop decides as the next read says. *)
Lemma buffer_body_from max done reads n :
  (0 ≤ max ≤ size_max)%Z → buffered_well max done reads n →
  buffer_body max [] done reads = buffer_body max (read_data reads n) (done_after done reads n) (drop n reads).
Proof.
  intros Hmax. induction n as [|n IH]; [done|]. intros (Hl & He & Hd & Hz).
  destruct (lookup_lt_is_Some_2 reads n Hl) as [r Hr]. rewrite (take_S_r _ _ _ Hr) in He. apply Forall_app in He as [He Her]. apply Forall_cons in Her as [Her _].
  rewrite IH; [|split_and!; [lia|done|intros; apply Hd; lia|intros; apply Hz; lia]].
  rewrite (drop_S _ _ _ Hr), (Hd n ltac:(lia)). cbn [buffer_body done_after]. rewrite Her, Hr.
  pose proof (Hz n ltac:(lia)) as H1. pose proof (Hz (S n) ltac:(lia)) as H2. rewrite (read_data_S _ _ _ Hr), zlen_app in H2.
  pose proof (zlen_nonneg (read_data reads n)). rewrite u64_id by lia.
  rewrite (proj2 (Z.ltb_ge max _)) by lia. rewrite (proj2 (Z.ltb_ge (max - _) _)) by lia. cbn [orb]. by rewrite (read_data_S _ _ _ Hr).
Qed.
Lemma body_answer_sound max done reads res :
  (0 ≤ max ≤ size_max)%Z → body_answer max done reads res → buffer_body max [] done reads = res.
Proof.
  intros Hmax (n & Hn & Hres). rewrite (buffer_body_from _ _ _ n) by done. destruct Hn as (Hl & _ & _ & Hz).
  destruct res as [b| | |b].
  - destruct Hres as [-> ->]. by destruct (drop n reads).
  - destruct Hres as (-> & r & Hr & He & Hbig). rewrite (drop_S _ _ _ Hr). cbn [buffer_body]. rewrite He.
    rewrite (read_data_S _ _ _ Hr), zlen_app in Hbig. specialize (Hz n ltac:(lia)). pose proof (zlen_nonneg (read_data reads n)).
    rewrite u64_id by lia. rewrite (proj2 (Z.ltb_lt (max - _) _)) by lia. by rewrite orb_true_r.
  - destruct Hres as (-> & r & Hr & He). rewrite (drop_S _ _ _ Hr). cbn [buffer_body]. by rewrite He.
  - destruct Hres as (-> & -> & ->). by rewrite drop_all.
Qed.
(** As long as reads go well there is a further answer. *)
Lemma body_answer_exists max done reads :
  (0 ≤ max)%Z → ∃ res, body_answer max done reads res.
Proof.
  intros Hmax. assert (∀ m n, n + m = length reads → buffered_well max done reads n → ∃ res, body_answer max done reads res) as Hgo.
  2:{ apply (Hgo (length reads) 0); [lia|]. split_and!; [lia|constructor|lia|]. intros k Hk. replace k with 0 by lia. done. }
  intros m. induction m as [|m IH]; intros n Hl Hn.
  - destruct (done_after done reads n) eqn:Hd; [by exists (BodyComplete (read_data reads n)), n|].
    exists (BodyPending (read_data reads n)), n. split_and!; [done|done|lia|done].
  - destruct (done_after done reads n) eqn:Hd; [by exists (BodyComplete (read_data reads n)), n|].
    destruct (lookup_lt_is_Some_2 reads n ltac:(lia)) as [r Hr]. destruct (br_error r) eqn:He; [exists BodyClosed, n; eauto 6|].
    destruct (Z.lt_ge_cases max (zlen (read_data reads (S n)))) as [Hbig|Hle]; [exists BodyTooLarge, n; eauto 8|].
    apply (IH (S n)); [lia|]. destruct Hn as (H1 & H2 & H3 & H4). split_and!; [lia| | |].
    + rewrite (take_S_r _ _ _ Hr). apply Forall_app. split; [done|by apply Forall_singleton].
    + intros k Hk. destruct (decide (k = n)) as [->|]; [done|apply H3; lia].
    + intros k Hk. destruct (decide (k = S n)) as [->|]; [done|apply H4; lia].
Qed.

(** C23: what the bounded body loop answers, for every sequence of reads, in
    both directions. The handler gets the body exactly when the reads up to the
    one that ends it went well, and then gets all their bytes; 413 is answered
    exactly when the first read that exceeds [max_buffered_request_body_size_]
    comes before that; a failed read closes the connection; otherwise the loop
    reads on with everything read so far. The unsigned subtraction of the test
    does not wrap, and never more than [max] bytes are held. *)
Theorem body_limited max done reads res :
  (0 ≤ max ≤ size_max)%Z →
  (buffer_body max [] done reads = res ↔ body_answer max done reads res) ∧
  (∀ b, res = BodyComplete b ∨ res = BodyPending b → buffer_body max [] done reads = res → (zlen b ≤ max)%Z).
Proof.
  intros Hmax. destruct (body_answer_exists max done reads ltac:(lia)) as [res' Hres'].
  pose proof (body_answer_sound max done reads res' Hmax Hres') as Hs.
  assert (buffer_body max [] done reads = res → body_answer max done reads res) as Hto by (rewrite Hs; by intros <-).
  split; [split; [exact Hto|by apply body_answer_sound]|].
  intros b Hb (n & (_ & _ & _ & Hz) & Ha)%Hto. destruct Hb as [->| ->]; cbn in Ha; destruct_and! Ha; subst b; by apply Hz.
Qed.
Theorem body_limited_witness :
  let reads := [mk_read false (str "hello ") false; mk_read false (str "world") true] in
  body_answer 11 false reads (BodyComplete (str "hello world")) ∧ body_answer 10 false reads BodyTooLarge.
Proof.
  intros reads. assert ((0 ≤ 11 ≤ size_max)%Z ∧ (0 ≤ 10 ≤ size_max)%Z) as [H11 H10] by (unfold size_max; lia). split.
  - apply (proj1 (body_limited 11 false reads (BodyComplete (str "hello world")) H11)). by vm_compute.
  - apply (proj1 (body_limited 10 false reads BodyTooLarge H10)). by vm_compute.
Defined.

(** ** Every request is answered *)
Section answered.
Context {F : Type} `{HttpFieldsLaws F} `{Platform} `{Verbs} `{FileSystem}.
Context (page : page_parts) (web_root root : fspath) (fields : response F → list (bytes * bytes)) (cancelled : bool).
Context (r : HttpRouter F).
(** A body that is not empty under a status that has none. *)
Definition bodiless (x : ctx F) : Prop :=
  rs_body (cx_res x) ≠ [] ∧
  let st := rs_status (cx_res x) in (100 ≤ st < 200)%N ∨ st = 204%N ∨ st = 304%N.
(** The ways an exception leaves the request path, and the context it leaves. *)
Definition escapes (e : exn) (y : ctx F) : Prop :=
  unknown_handler_throws r e ∨ (e = invalid_response_body ∧ bodiless y).
Definition only_escapes {A} (m : M F A) : Prop := ∀ x y e, m x = (y, Throw e) → escapes e y.
Lemma refused_bodiless x : refused x → bodiless x.
Proof using Type*. apply payload_refused_only. Qed.
Lemma ret_only_escapes {A} (a : A) : only_escapes (mret a).
Proof using Type. by intros x y e. Qed.
Lemma bind_only_escapes {A B} (m : M F A) (k : A → M F B) :
  only_escapes m → (∀ a, only_escapes (k a)) → only_escapes (m ≫= k).
Proof using Type.
  intros Hm Hk x y e. unfold mbind, M_bind. destruct (m x) as [z [a|e']] eqn:Hz; [apply Hk|].
  intros [= <- <-]. by eapply Hm.
Qed.
(** A [try] lets out what its [catch] clause does. *)
Lemma try_only_escapes {A} (m : M F A) k : (∀ e, only_escapes (k e)) → only_escapes (tryM m k).
Proof using Type. intros Hk x y e. unfold tryM. destruct (m x) as [z [a|e']]; [done|apply Hk]. Qed.
Lemma handle_only_escapes e : only_escapes (handle_exception r (Some e)).
Proof using Type*. intros x y e' Hh. apply handle_exception_throws in Hh as [?|(_ & ? & ?)]; [by left|right; split; [done|by apply refused_bodiless]]. Qed.
Lemma send_only_escapes : only_escapes (send_context fields cancelled).
Proof using Type*.
  intros x y e. unfold send_context, send_context_response. set (res := if cancelled then _ else _).
  assert (rs_status res = rs_status (cx_res x) ∧ rs_body res = rs_body (cx_res x)) as [Hs Hb] by (unfold res; by destruct cancelled).
  destruct (bool_decide _); [done|]. destruct (get_chunked _); [done|]. destruct (has_content_length res); [done|].
  unfold rs_prepare_payload. rewrite Hs, Hb. destruct (payload_refused _ _) eqn:Hr; [|done].
  intros [= <- <-]. right. split; [done|by apply refused_bodiless].
Qed.
Lemma guarded_only_escapes m : only_escapes (guarded r m).
Proof using Type*. apply try_only_escapes, handle_only_escapes. Qed.
Hint Resolve ret_only_escapes bind_only_escapes try_only_escapes handle_only_escapes send_only_escapes guarded_only_escapes : escape.
End answered.

Lemma payload_too_large_prepared {F} `{HttpFieldsLaws F} version :
  rs_prepare_payload (rs_set_body (str "request body exceeds buffered route limit")
    (rs_keep_alive false (mk_response status_payload_too_large version fields_empty []))) = Ret (payload_too_large (F := F) version).
Proof. apply rs_prepare_accepted, payload_accepted. by right. Qed.

#[local] Existing Instance demo_platform.
#[local] Existing Instance demo_verbs.
(** A handler that throws an [HttpException] with 204: applying the exception's
    own page throws in the [catch] clauses of the router and of the session, and
    nothing is answered. From an asynchronous completion or a post interceptor it
    is the same. *)
Theorem no_content_exception_escapes :
  let r := add_interceptor (sync_interceptor (mret Continue) (throwM (HttpException status_no_content JNull []))) demo_router in
  (handle_request (H2 := linked_index) demo_page [] [] (λ m, rs_fields m) false r (demo_ctx verb_get (str "/users/me"))).2
    = Throw invalid_response_body ∧
  (async_complete (λ m, rs_fields m) false r (demo_ctx verb_get (str "/users/me"))).2 = Throw invalid_response_body.
Proof. by vm_compute. Qed.

(** On the other two paths an exception of a post interceptor leaves the
    session: after a refused upgrade, and after a streamed request. *)
Theorem post_exception_escapes :
  let late := throwM (StdException (str "late")) in
  (let r := add_interceptor (sync_interceptor (mret Stop) late) demo_router in
   snd (handle_upgrade_request (λ m, rs_fields m) false r (demo_ctx verb_get (str "/ws"))) = Throw (StdException (str "late"))) ∧
  (let r := add_interceptor (sync_interceptor (mret Continue) late) demo_router in
   snd (stream_complete (λ m, rs_fields m) false r false (demo_ctx verb_get (str "/x"))) = Throw (StdException (str "late"))).
Proof. by vm_compute. Qed.

(** The stream test sees the raw path, the router the decoded one: a request for
    [/a%62c] is buffered although the stream route [/abc] is the one dispatched. *)
Definition decoding_platform : Platform := {|
  parse_relative_ref t := Some (if bool_decide (t = str "/a%62c") then str "/abc" else t, []);
  json_parse _ := None; json_serialize _ := []; beast_version := [] |}.
Theorem encoded_stream_path_buffered :
  let x := demo_ctx verb_post (str "/a%62c") in
  match stream (merge_std_sort more_specific) (str "/abc") verb_post (mret tt) demo_router with
  | Ret r => on_read_header r (cx_req x) false None 10 = ReadBody ∧
      is_stream_route (rt_routes r) (path (H0 := decoding_platform) x).1 verb_post = true
  | Throw _ => False
  end.
Proof. by vm_compute. Qed.

(** ** HEAD *)
(** [fields] enumerates a container. *)
Definition enumerates {F} `{HttpFields F} (fields : list (bytes * bytes)) (f : F) : Prop :=
  ∀ n, field_all n f = (filter (λ h, ieq n h.1 = true) fields).*2.
Lemma field_all_inserts {F} `{HttpFieldsLaws F} fields (f : F) n :
  field_all n (fold_left (λ f h, field_insert h.1 h.2 f) fields f) =
    field_all n f ++ (filter (λ h, ieq n h.1 = true) fields).*2.
Proof.
  revert f. induction fields as [|h fields IH]; intros f; cbn [fold_left]; [by rewrite app_nil_r|].
  rewrite IH, field_all_insert, filter_cons. destruct (ieq n h.1) eqn:Hn.
  - rewrite decide_True, fmap_cons, <-(assoc_L (++)) by done. done.
  - by rewrite decide_False.
Qed.

(** The answer to HEAD has no body and the status of the context's response;
    every field that does not frame the message is kept, with all its values in
    order; [Transfer-Encoding] is gone and [Content-Length] is present: the one
    the handler set, otherwise the size of the body a GET would have sent. *)
Theorem head_keeps_fields {F} `{HttpFieldsLaws F} fields (res : response F) :
  enumerates fields (rs_fields res) →
  let head := head_response fields res in
  rs_body head = [] ∧ rs_status head = rs_status res ∧
  (∀ n, is_framing n = false → field_all n (rs_fields head) = field_all n (rs_fields res)) ∧
  field_all (str "Transfer-Encoding") (rs_fields head) = [] ∧
  field_all (str "Content-Length") (rs_fields head) ≠ [] ∧
  (field_all (str "Content-Length") (set_keep_alive (rs_version res) (get_keep_alive (rs_version res) (rs_fields res)) (fields_empty (F := F))) = [] →
   field_all (str "Content-Length") (rs_fields head) =
     match field_all (str "Content-Length") (rs_fields res) with [] => [to_dec_Z (zlen (rs_body res))] | vs => vs end).
Proof.
  intros He head. unfold head, head_response. cbn [rs_body rs_status rs_fields].
  set (f0 := set_keep_alive _ _ _). set (f1 := fold_left _ _ f0). set (f2 := field_erase _ f1).
  assert (∀ n, field_all n f2 = if ieq n (str "Transfer-Encoding") then [] else field_all n f0 ++ field_all n (rs_fields res)) as H2.
  { intros n. unfold f2. rewrite field_all_erase. destruct (ieq n _); [done|]. unfold f1. by rewrite field_all_inserts, <-He. }
  split_and!; [done|done| | | |].
  - intros n Hn. assert (ieq n (str "Transfer-Encoding") = false ∧ ieq n (str "Content-Length") = false) as [Hte Hcl].
    { unfold is_framing in Hn. apply orb_false_elim in Hn as [[_ ?]%orb_false_elim ?]. done. }
    assert (field_all n f0 = []) as H0f by (unfold f0; by rewrite field_all_keep_alive, field_all_empty).
    case_bool_decide; rewrite ?field_all_set, H2, ?Hte, ?Hcl, H0f; done.
  - case_bool_decide; rewrite ?field_all_set, H2; done.
  - case_bool_decide; [done|]. by rewrite field_all_set.
  - fold f0. intros H0f. assert (field_all (str "Content-Length") f2 = field_all (str "Content-Length") (rs_fields res)) as Hcl.
    { by rewrite H2, H0f. }
    rewrite Hcl. destruct (field_all (str "Content-Length") (rs_fields res)) as [|v vs] eqn:Hres.
    + rewrite bool_decide_eq_false_2 by tauto. by rewrite field_all_set.
    + by rewrite bool_decide_eq_true_2.
Qed.
Theorem head_keeps_fields_witness :
  let fields := [(str "X-Id", str "1"); (str "X-Id", str "2")] in
  let res := mk_response status_ok 11 fields (str "body") in
  field_all (str "X-Id") (rs_fields (head_response fields res)) = [str "1"; str "2"].
Proof.
  intros fields res. destruct (head_keeps_fields fields res) as (_ & _ & Hk & _).
  - intros n. reflexivity.
  - by rewrite (Hk (str "X-Id") eq_refl).
Defined.

(** Persistence is written twice: once by [keep_alive], once by the copied field. *)
Theorem head_duplicates_connection :
  let fields := [(str "Connection", str "close")] in
  field_all (str "Connection") (rs_fields (head_response fields (mk_response status_ok 11 fields []))) = [str "close"; str "close"].
Proof. by vm_compute. Qed.

(** ** Chunked bodies *)
(** A reference reader of the chunked coding (RFC 9112, without extensions and
    trailers): the body and what follows it. *)
Fixpoint decode_chunks (fuel : nat) (s : bytes) : option (bytes * bytes) :=
  match fuel with
  | O => None
  | S fuel =>
      match find_str_aux crlf s with
      | None => None
      | Some n =>
          let size_text := take n s in
          if bool_decide (size_text = []) || negb (forallb (is_base_digit 16) size_text) then None
          else
            let size := N.to_nat (value_base 16 size_text) in
            let s := drop (n + 2) s in
            if bool_decide (size = 0) then (if starts_with crlf s then Some ([], drop 2 s) else None)
            else if bool_decide (size ≤ length s) && starts_with crlf (drop size s) then
              match decode_chunks fuel (drop (size + 2) s) with
              | Some (body, rest) => Some (take size s ++ body, rest)
              | None => None
              end
            else None
      end
  end.

Lemma to_hex_nonempty n : to_hex n ≠ [].
Proof. by apply print_base_spec. Qed.
Lemma to_hex_no_CR n : CR ∉ to_hex n.
Proof. pose proof (to_hex_digits n) as Hd. rewrite Forall_forall in Hd. intros Hc%Hd. by vm_compute in Hc. Qed.
Lemma decode_size_line fuel n s :
  decode_chunks (S fuel) (to_hex n ++ crlf ++ s) =
    if bool_decide (N.to_nat n = 0) then (if starts_with crlf s then Some ([], drop 2 s) else None)
    else if bool_decide (N.to_nat n ≤ length s) && starts_with crlf (drop (N.to_nat n) s) then
      match decode_chunks fuel (drop (N.to_nat n + 2) s) with
      | Some (body, rest) => Some (take (N.to_nat n) s ++ body, rest) | None => None end
    else None.
Proof.
  cbn [decode_chunks]. unfold crlf at 1. rewrite (find_str_aux_word CR [LF]) by apply to_hex_no_CR.
  replace (find_str_aux [CR; LF] (crlf ++ s)) with (Some 0) by reflexivity. cbn [fmap option_fmap option_map].
  rewrite Nat.add_0_r, take_app_length. rewrite bool_decide_eq_false_2 by apply to_hex_nonempty.
  pose proof (to_hex_digits n) as Hd. rewrite (proj2 (forallb_forall _ _)).
  2:{ intros c Hc%list_elem_of_In. rewrite Forall_forall in Hd. by apply Hd. }
  cbn [negb orb]. rewrite to_hex_value.
  replace (drop (length (to_hex n) + 2) (to_hex n ++ crlf ++ s)) with s; [done|].
  rewrite (assoc_L (++)). symmetry. apply drop_app_length'. rewrite length_app. done.
Qed.

(** C24: for non-empty writes the bytes the session puts on the wire are a valid
    chunked body: a conforming reader gets back exactly the concatenation of the
    writes and stops at the end of the message. *)
Theorem chunked_roundtrip chunks next :
  Forall (λ c, c ≠ []) chunks →
  decode_chunks (S (length chunks)) (concat (encode_chunk <$> chunks) ++ final_chunk ++ next) = Some (concat chunks, next).
Proof.
  induction 1 as [|c chunks Hc Hf IH].
  - change (concat (encode_chunk <$> []) ++ final_chunk ++ next) with (to_hex 0 ++ crlf ++ crlf ++ next).
    rewrite decode_size_line. done.
  - cbn [fmap list_fmap concat length]. unfold encode_chunk at 1. rewrite <-!(assoc_L (++)), decode_size_line, Nat2N.id.
    rewrite bool_decide_eq_false_2 by (by destruct c).
    rewrite bool_decide_eq_true_2 by (rewrite length_app; lia). rewrite drop_app_length.
    rewrite starts_with_app. cbn [andb]. rewrite take_app_length.
    replace (drop (length c + 2) _) with (concat (encode_chunk <$> chunks) ++ final_chunk ++ next); [by rewrite IH|].
    rewrite (assoc_L (++) c). symmetry. apply drop_app_length'. rewrite length_app. done.
Qed.
Theorem chunked_roundtrip_witness :
  let chunks := [str "hello "; str "chunked world"] in
  decode_chunks 3 (concat (encode_chunk <$> chunks) ++ final_chunk ++ str "HTTP/1.1") = Some (str "hello chunked world", str "HTTP/1.1").
Proof. intros chunks. apply (chunked_roundtrip chunks). by repeat constructor. Defined.

(** An empty write is encoded as the terminating chunk: the reader stops there
    and takes the rest of the stream for the next message. *)
Theorem empty_write_ends_body :
  decode_chunks 4 (concat (encode_chunk <$> [str "a"; []; str "b"]) ++ final_chunk) =
    Some (str "a", encode_chunk (str "b") ++ final_chunk).
Proof. by vm_compute. Qed.

(** ** The chunk writer *)
Section chunk_writer.
Import ChunkWriter.
Implicit Types (s : ChunkWriter.t).
Definition data_of (e : effect) : option bytes := match e with AsyncWrite d => Some d | _ => None end.
Definition is_post (e : effect) : bool := match e with Post => true | _ => false end.
Definition is_complete (e : effect) : bool := match e with Complete _ => true | _ => false end.

(** A run: the state, the effects so far, the pushes not followed by their
    [schedule_write] yet, the posted runs, the writes in flight and the chunks
    pushed. The handler pushes only before it returns, and returns once. *)
Record wconfig := mk_wconfig {
  wf_state : ChunkWriter.t; wf_out : list effect; wf_unscheduled : nat; wf_posted : nat; wf_inflight : nat;
  wf_pushed : list bytes }.
Definition enabled (ev : event) (c : wconfig) : Prop :=
  match ev with
  | EvPush _ | EvHandlerDone => final_queued (wf_state c) = false
  | EvSchedule => 0 < wf_unscheduled c
  | EvRun => 0 < wf_posted c
  | EvWritten _ => 0 < wf_inflight c
  end.
Definition pushed_by (s : ChunkWriter.t) (ev : event) : list bytes :=
  match ev with
  | EvPush b => if error s then [] else [encode_chunk b]
  | EvHandlerDone => [final_chunk]
  | _ => []
  end.
Definition writes (out : list effect) : list bytes := omap data_of out.
Definition posts (out : list effect) : nat := length (List.filter is_post out).
Definition completions (out : list effect) : nat := length (List.filter is_complete out).
Inductive wstep : wconfig → wconfig → Prop :=
| wstep_event s out u p n pushed ev :
    enabled ev (mk_wconfig s out u p n pushed) →
    wstep (mk_wconfig s out u p n pushed)
      (mk_wconfig (handle s ev).1 (out ++ (handle s ev).2)
         (u - (match ev with EvSchedule => 1 | _ => 0 end) + length (pushed_by s ev))
         (p - (match ev with EvRun => 1 | _ => 0 end) + posts (handle s ev).2)
         (n - (match ev with EvWritten _ => 1 | _ => 0 end) + length (writes (handle s ev).2))
         (pushed ++ pushed_by s ev)).

Definition winv (c : wconfig) : Prop :=
  let s := wf_state c in
  wf_posted c + wf_inflight c = (if writing s then 1 else 0) ∧
  wf_pushed c = writes (wf_out c) ++ queue s ∧
  (error s = false →
     completions (wf_out c) = (if completed s then 1 else 0) ∧
     (completed s = true → final_queued s = true ∧ queue s = []) ∧
     (writing s = false → wf_unscheduled c = 0 → queue s = [] ∧ (final_queued s = true → completed s = true))).

Lemma writes_app o1 o2 : writes (o1 ++ o2) = writes o1 ++ writes o2.
Proof. apply omap_app. Qed.
Lemma completions_app o1 o2 : completions (o1 ++ o2) = completions o1 + completions o2.
Proof. unfold completions. by rewrite List.filter_app, length_app. Qed.

(** What one [do_write_chunk] keeps, whoever calls it: [k] is what it replaces. *)
Lemma do_write_chunk_inv s out u pushed :
  writing s = true → winv (mk_wconfig s out u 1 0 pushed) →
  let '(s', o) := do_write_chunk s in
  posts o = 0 ∧ winv (mk_wconfig s' (out ++ o) u 0 (length (writes o)) (pushed ++ [])).
Proof.
  destruct s as [q w fq cp er]. unfold winv. cbn [wf_state wf_out wf_posted wf_inflight wf_pushed wf_unscheduled writing queue final_queued completed error].
  intros -> (_ & -> & He). unfold do_write_chunk. cbn [queue final_queued completed error writing].
  destruct q as [|d q]; [destruct (fq && negb cp) eqn:Hb|];
    rewrite ?writes_app, ?completions_app, ?app_nil_r; cbn; (split; [done|]); split_and!; try done.
  1-3: rewrite ?app_nil_r, <-?(assoc_L (++)); try done.
  all: intros Her; destruct (He Her) as (Hc & Hq & _); rewrite Hc.
  - apply andb_prop in Hb as [-> Hcp]. by destruct cp.
  - destruct cp; [by split_and!|]. rewrite andb_true_r in Hb. subst fq. by split_and!.
  - destruct cp; [destruct (Hq eq_refl); discriminate|]. by split_and!.
Qed.

(** The pushes: the handler's writes and its return. *)
Lemma push_inv s s' ch out u p n pushed :
  final_queued s = false → winv (mk_wconfig s out u p n pushed) →
  queue s' = queue s ++ [ch] → writing s' = writing s → completed s' = completed s → error s' = error s →
  winv (mk_wconfig s' (out ++ []) (S u) p n (pushed ++ [ch])).
Proof.
  unfold winv. cbn [wf_state wf_out wf_posted wf_inflight wf_pushed wf_unscheduled].
  intros Hfq (Hn & -> & He) -> -> -> ->. rewrite app_nil_r, (assoc_L (++)). split_and!; [done|done|].
  intros Her. destruct (He Her) as (Hc & Hq & _). split_and!; [done| |lia].
  intros Hcp. destruct (Hq Hcp). congruence.
Qed.
Lemma schedule_inv s out u p n pushed :
  winv (mk_wconfig s out (S u) p n pushed) →
  let '(s', o) := schedule_write s in winv (mk_wconfig s' (out ++ o) u (p + posts o) n (pushed ++ [])).
Proof.
  destruct s as [q w fq cp er]. unfold winv, schedule_write.
  cbn [wf_state wf_out wf_posted wf_inflight wf_pushed wf_unscheduled writing queue final_queued completed error].
  intros (Hn & -> & He). destruct w; cbn; rewrite ?writes_app, ?completions_app, ?app_nil_r; cbn.
  - split_and!; [lia|done|]. intros Her. destruct (He Her) as (? & ? & _). split; [lia|by split].
  - split_and!; [lia|done|]. intros Her. destruct (He Her) as (? & ? & _). split; [lia|by split].
Qed.
Lemma failed_write_inv s out u pushed :
  writing s = true → winv (mk_wconfig s out u 0 1 pushed) →
  let '(s', o) := on_written true s in winv (mk_wconfig s' (out ++ o) u 0 0 (pushed ++ [])).
Proof.
  unfold winv. cbn [wf_state wf_out wf_posted wf_inflight wf_pushed wf_unscheduled on_written writing queue error].
  intros Hw (_ & -> & _). rewrite writes_app, !app_nil_r. cbn. by rewrite ?app_nil_r.
Qed.

Lemma wstep_inv c c' : winv c → wstep c c' → winv c'.
Proof.
  intros Hi Hs. destruct Hs as [s out u p n pushed ev He].
  assert (p + n = if writing s then 1 else 0) as Hn by apply Hi.
  destruct ev as [b| | | |ec]; cbn [handle pushed_by]; cbn in He.
  - unfold write_chunk. destruct (error s) eqn:Her; cbn.
    + destruct Hi as (_ & Hp & _). cbn in Hp. rewrite !Nat.add_0_r, Nat.sub_0_r, app_nil_r. subst pushed.
      split_and!; cbn; rewrite ?writes_app, ?Nat.sub_0_r, ?app_nil_r; [done|done|by rewrite Her].
    + rewrite !Nat.sub_0_r, !Nat.add_0_r, Nat.add_1_r. by eapply push_inv; [exact He|exact Hi|..]; cbn.
  - cbn. rewrite !Nat.sub_0_r, !Nat.add_0_r, Nat.add_1_r. by eapply push_inv; [exact He|exact Hi|..].
  - destruct u as [|u]; [lia|]. pose proof (schedule_inv s out u p n pushed Hi) as Hsch.
    assert (writes (schedule_write s).2 = []) as Hw by (unfold schedule_write; by destruct (writing s)).
    rewrite Hw. destruct (schedule_write s) as [s' o]. cbn. by rewrite !Nat.sub_0_r, !Nat.add_0_r.
  - assert (writing s = true ∧ p = 1 ∧ n = 0) as (Hw & -> & ->) by (destruct (writing s); lia).
    pose proof (do_write_chunk_inv s out u pushed Hw Hi) as Hd. destruct (do_write_chunk s) as [s' o].
    destruct Hd as [Hpo Hd]. cbn -[posts writes]. by rewrite Hpo, Nat.sub_0_r, Nat.add_0_r.
  - assert (writing s = true ∧ p = 0 ∧ n = 1) as (Hw & -> & ->) by (destruct (writing s); lia).
    destruct ec; [pose proof (failed_write_inv s out u pushed Hw Hi) as Hd; cbn; by rewrite Nat.sub_0_r, Nat.add_0_r|].
    assert (winv (mk_wconfig s out u 1 0 pushed)) as Hi' by exact Hi.
    pose proof (do_write_chunk_inv s out u pushed Hw Hi') as Hd. cbn [on_written]. destruct (do_write_chunk s) as [s' o].
    destruct Hd as [Hpo Hd]. cbn -[posts writes]. by rewrite Hpo, Nat.sub_0_r, Nat.add_0_r.
Qed.

(** C36: for every interleaving of the handler's threads (pushes and the
    [schedule_write] after each), posted runs and write completions: at most one
    run or write is outstanding; the data handed to the socket followed by the
    queue is, in order, everything pushed, so chunks are never lost, duplicated
    or reordered; without a write error the response completes at most once, and
    then everything pushed, the final chunk included, was handed to the socket;
    and once the handler has returned and nothing is outstanding, it has completed. *)
Theorem chunk_writer_safe c :
  rtc wstep (mk_wconfig init [] 0 0 0 []) c →
  let s := wf_state c in
  wf_posted c + wf_inflight c ≤ 1 ∧
  wf_pushed c = writes (wf_out c) ++ queue s ∧
  (error s = false →
     completions (wf_out c) ≤ 1 ∧
     (completions (wf_out c) = 1 → final_queued s = true ∧ wf_pushed c = writes (wf_out c)) ∧
     (final_queued s = true → wf_unscheduled c + wf_posted c + wf_inflight c = 0 → completions (wf_out c) = 1)).
Proof.
  intros Hr s. assert (winv c) as (Hn & Hp & He).
  { refine (rtc_invariant wstep winv _ _ _ Hr _); [intros x y; apply wstep_inv|]. by split_and!. }
  fold s in Hn, Hp, He. split_and!; [destruct (writing s); lia|done|]. intros Her. destruct (He Her) as (-> & Hq & Hl).
  split_and!.
  - destruct (completed s); lia.
  - destruct (completed s); [|lia]. intros _. destruct (Hq eq_refl) as [? Hnil]. by rewrite Hp, Hnil, app_nil_r.
  - intros Hfq H0. destruct (writing s); [lia|]. destruct (Hl eq_refl ltac:(lia)) as [_ ->]; done.
Qed.
Theorem chunk_writer_safe_witness :
  ∃ c, wf_pushed c = [encode_chunk (str "hi"); final_chunk] ∧ completions (wf_out c) = 1 ∧
    wf_posted c + wf_inflight c ≤ 1.
Proof.
  set (d := [encode_chunk (str "hi"); final_chunk]).
  exists (mk_wconfig (mk [] false true true false) [Post; AsyncWrite (encode_chunk (str "hi")); AsyncWrite final_chunk; Complete false; Post] 0 0 0 d).
  split; [reflexivity|]. split; [reflexivity|].
  refine (proj1 (chunk_writer_safe _ _)).
  eapply rtc_l; [refine (wstep_event _ _ _ _ _ _ (EvPush (str "hi")) _); reflexivity|].
  eapply rtc_l; [refine (wstep_event _ _ _ _ _ _ EvSchedule _); cbn; lia|].
  eapply rtc_l; [refine (wstep_event _ _ _ _ _ _ EvRun _); cbn; lia|].
  eapply rtc_l; [refine (wstep_event _ _ _ _ _ _ EvHandlerDone _); reflexivity|].
  eapply rtc_l; [refine (wstep_event _ _ _ _ _ _ (EvWritten false) _); cbn; lia|].
  eapply rtc_l; [refine (wstep_event _ _ _ _ _ _ (EvWritten false) _); cbn; lia|].
  eapply rtc_l; [refine (wstep_event _ _ _ _ _ _ EvSchedule _); cbn; lia|].
  eapply rtc_l; [refine (wstep_event _ _ _ _ _ _ EvRun _); cbn; lia|].
  apply rtc_refl.
Defined.

(** After a write error the final chunk restarts the writer: the session writes
    on the failed connection again and reports completion a second time. *)
Theorem error_restarts_writer :
  (run handle init [EvPush (str "a"); EvSchedule; EvRun; EvWritten true;
      EvHandlerDone; EvSchedule; EvRun; EvWritten true]).2 =
    [Post; AsyncWrite (encode_chunk (str "a")); Complete true; Post; AsyncWrite final_chunk; Complete true].
Proof. reflexivity. Qed.
End chunk_writer.
