(* ===== verification/HttpConnection.v ===== *)
(** * The life of a connection ([session/http_session.cpp])

    One [HttpSession] from [run] to the close: reading heads and bodies, handing
    requests to the router, streaming routes, writing responses and reading the
    next request. The events are the completions of Beast and the calls of the
    application; what the router does with a request is [HttpSession.v]. *)
From S2P Require Import Prelude Text Numbers HttpSession.
Set Default Proof Using "Type*".

Module HttpConnection.
(** What was read of a head. *)
Record head := mk_head {
  is_upgrade : bool; stream_route : bool; content_length : option Z; expect : bytes;
  no_body : bool }.                      (** the parser is done after the head *)
Record t := mk {
  request_parser : option bool;          (** present, and [is_done()] *)
  buffered_body : bytes;
  serializer : option bool;              (** [streaming_response_serializer_]: present, and [is_done()] *)
  streaming_keep_alive : bool;           (** [streaming_response_.keep_alive()] *)
  stream_completed : bool; request_body_cancelled : bool;
  max_buffered : Z }.
Definition create (max : Z) : t := mk None [] None false false false max.

Inductive operation :=
| ReadHeader | ReadBody | WriteContinue (stream : bool)
| WriteResponse (keep_alive : bool)      (** a whole response, or the start of a chunked one *)
| WriteStreamHead | WriteStreamBody | WriteStreamEnd | ReadStreamBody.
#[global] Instance operation_eq_dec : EqDecision operation.
Proof. solve_decision. Defined.
Inductive effect :=
| Start (o : operation)
| HandleRequest | HandleStream | HandleUpgrade   (** the request goes to the interceptors and the router *)
| ReleaseSocket                                   (** to the WebSocket session *)
| Callback (error : bool)                         (** of a stream operation *)
| ShutdownSend | ShutdownBoth | CancelReads.

Definition with_parser (p : option bool) (c : t) : t :=
  mk p (buffered_body c) (serializer c) (streaming_keep_alive c) (stream_completed c) (request_body_cancelled c) (max_buffered c).
Definition with_body (b : bytes) (c : t) : t :=
  mk (request_parser c) b (serializer c) (streaming_keep_alive c) (stream_completed c) (request_body_cancelled c) (max_buffered c).
Definition with_stream (s : option bool) (keep_alive : bool) (c : t) : t :=
  mk (request_parser c) (buffered_body c) s keep_alive (stream_completed c) (request_body_cancelled c) (max_buffered c).

Definition do_close (c : t) : t * list effect := (c, [ShutdownSend]).
Definition do_read (c : t) : t * list effect :=
  (mk (Some false) [] (serializer c) (streaming_keep_alive c) false false (max_buffered c), [Start ReadHeader]).
Definition run (c : t) : t * list effect := do_read c.
Definition send_response (keep_alive : bool) (c : t) : t * list effect := (c, [Start (WriteResponse keep_alive)]).
Definition send_payload_too_large (c : t) : t * list effect := send_response false c.
(** [keep_alive] is what the context's response asks for. *)
Definition send_context_response (keep_alive : bool) (c : t) : t * list effect :=
  send_response (keep_alive && negb (request_body_cancelled c)) c.
Definition next (n : connection_next) (c : t) : t * list effect :=
  match n with NextRead => do_read c | NextClose => do_close c end.
Definition on_write (keep_alive ec : bool) (c : t) : t * list effect :=
  match HttpSession.on_write keep_alive ec with Some n => next n c | None => (c, []) end.

(** *** Buffered requests *)
Definition read_buffered_body (c : t) : t * list effect :=
  if default false (request_parser c) then (c, [HandleRequest]) else (c, [Start ReadBody]).
Definition on_read_buffered_body (r : body_read) (c : t) : t * list effect :=
  match HttpSession.buffer_body (max_buffered c) (buffered_body c) false [r] with
  | BodyClosed => do_close c
  | BodyTooLarge => send_payload_too_large c
  | BodyComplete b => read_buffered_body (with_body b (with_parser (Some true) c))
  | BodyPending b => read_buffered_body (with_body b (with_parser (Some false) c))
  end.
Definition on_read_header (ec : bool) (h : head) (c : t) : t * list effect :=
  if ec then do_close c
  else
    let c := with_parser (Some (no_body h)) c in
    match header_step (is_upgrade h) (stream_route h) (content_length h) (max_buffered c) (expect h) with
    | WebsocketUpgrade => (c, [HandleUpgrade])
    | PayloadTooLarge => send_payload_too_large c
    | ContinueThen stream => (c, [Start (WriteContinue stream)])
    | HttpSession.HandleStream => (c, [HandleStream])
    | HttpSession.ReadBody => read_buffered_body c
    end.
Definition on_continue (stream ec : bool) (c : t) : t * list effect :=
  if ec then do_close c else if stream then (c, [HandleStream]) else read_buffered_body c.
(** The interceptors of an upgrade have decided; a refusal answers. *)
Definition on_upgrade (accepted keep_alive : bool) (c : t) : t * list effect :=
  if accepted then (c, [ReleaseSocket]) else send_context_response keep_alive c.

(** *** Streaming routes *)
Definition complete (keep_alive : bool) (c : t) : t * list effect :=
  if stream_completed c then (c, [])
  else send_context_response keep_alive
         (mk (request_parser c) (buffered_body c) (serializer c) (streaming_keep_alive c) true (request_body_cancelled c) (max_buffered c)).
Definition start_stream_response (keep_alive : bool) (c : t) : t * list effect :=
  (with_stream (Some false) (keep_alive && negb (request_body_cancelled c)) c, [Start WriteStreamHead]).
Definition write_stream_response (c : t) : t * list effect :=
  match serializer c with None => (c, [Callback true]) | Some _ => (c, [Start WriteStreamBody]) end.
Definition after_stream (ec : bool) (c : t) : t * list effect :=
  let r := next (stream_finished (streaming_keep_alive c) ec) (with_stream None (streaming_keep_alive c) c) in
  (r.1, Callback ec :: r.2).
Definition finish_stream_response (c : t) : t * list effect :=
  match serializer c with
  | None => (c, [Callback true])
  | Some true => after_stream false c
  | Some false => (c, [Start WriteStreamEnd])
  end.
Definition async_read_stream_body (c : t) : t * list effect :=
  if request_body_cancelled c then (c, [Callback true])
  else match request_parser c with
  | Some false => (c, [Start ReadStreamBody])
  | _ => (c, [Callback false])
  end.
Definition cancel_stream_body (c : t) : t * list effect :=
  (mk (request_parser c) (buffered_body c) (serializer c) (streaming_keep_alive c) (stream_completed c) true (max_buffered c), [CancelReads]).
Definition cancel_session (c : t) : t * list effect := (c, [CancelReads; ShutdownBoth]).
(** Completions of the stream operations; [is_done]: of the serializer, the parser. *)
Definition on_stream_written (ec is_done : bool) (c : t) : t * list effect :=
  (with_stream (match serializer c with Some _ => Some is_done | None => None end) (streaming_keep_alive c) c, [Callback ec]).
Definition on_stream_read (ec is_done : bool) (c : t) : t * list effect :=
  (with_parser (match request_parser c with Some _ => Some is_done | None => None end) c, [Callback ec]).
End HttpConnection.

(** ** Properties *)
Section connection.
Import HttpConnection.
(** Whose turn it is: an operation is in flight, the application owes the answer
    to a request (once, as the router's interface asks), a streaming route has
    its response stream (before the head, open, finishing), the WebSocket
    session has the socket, or the connection is at its end. *)
Inductive turn :=
| Waiting (o : operation) | Answering | Upgrading | StreamIdle | StreamOpen (busy : bool) | StreamEnding | Taken | Ended.
Record connection := mk_connection { cn_state : t; cn_out : list effect; cn_turn : turn }.
(** The turn after a handler, by what it started. *)
Definition turn_after (out : list effect) (otherwise : turn) : turn :=
  match List.filter (λ e, match e with Callback _ => false | _ => true end) out with
  | [Start o] => match o with WriteStreamEnd => StreamEnding | WriteStreamHead | WriteStreamBody => StreamOpen true | _ => Waiting o end
  | [HandleRequest] => Answering | [HandleStream] => StreamIdle | [HandleUpgrade] => Upgrading
  | [ReleaseSocket] => Taken | [ShutdownSend] => Ended
  | _ => otherwise
  end.
Definition after (c : connection) (r : t * list effect) (otherwise : turn) : connection :=
  mk_connection r.1 (cn_out c ++ r.2) (turn_after r.2 otherwise).
(** Where the application may read the body of a streaming route. *)
Definition in_stream (u : turn) : bool := match u with StreamIdle | StreamOpen _ => true | _ => false end.
(** What reaches the connection: completions, answers of the router, calls of a
    streaming route. *)
Inductive connection_event :=
| EvHeader (ec : bool) (h : head) | EvBody (r : body_read) | EvContinue (stream ec : bool)
| EvAnswer (keep : bool) | EvUpgrade (accepted keep : bool) | EvWritten (keep ec : bool)
| EvComplete (keep : bool) | EvStartStream (keep : bool) | EvStreamWritten (ec done : bool)
| EvWrite | EvFinish | EvFinished (ec : bool)
| EvRead | EvReadDone (ec done : bool) | EvCancelBody | EvCancel.
Definition beside (c : connection) (r : t * list effect) : connection := mk_connection r.1 (cn_out c ++ r.2) (cn_turn c).
Inductive connection_move (c : connection) : connection_event → connection → Prop :=
| cs_header ec h : cn_turn c = Waiting ReadHeader → connection_move c (EvHeader ec h) (after c (on_read_header ec h (cn_state c)) Ended)
| cs_body r : cn_turn c = Waiting ReadBody → connection_move c (EvBody r) (after c (on_read_buffered_body r (cn_state c)) Ended)
| cs_continue s ec : cn_turn c = Waiting (WriteContinue s) → connection_move c (EvContinue s ec) (after c (on_continue s ec (cn_state c)) Ended)
| cs_answer keep : cn_turn c = Answering → connection_move c (EvAnswer keep) (after c (send_context_response keep (cn_state c)) Ended)
| cs_upgrade accepted keep : cn_turn c = Upgrading → connection_move c (EvUpgrade accepted keep) (after c (on_upgrade accepted keep (cn_state c)) Ended)
| cs_written keep ec : cn_turn c = Waiting (WriteResponse keep) → connection_move c (EvWritten keep ec) (after c (on_write keep ec (cn_state c)) Ended)
| cs_complete keep : cn_turn c = StreamIdle → connection_move c (EvComplete keep) (after c (complete keep (cn_state c)) StreamIdle)
| cs_start keep : cn_turn c = StreamIdle → connection_move c (EvStartStream keep) (after c (start_stream_response keep (cn_state c)) StreamIdle)
| cs_stream_written ec done : cn_turn c = StreamOpen true →
    connection_move c (EvStreamWritten ec done) (after c (on_stream_written ec done (cn_state c)) (StreamOpen false))
| cs_write : cn_turn c = StreamOpen false → connection_move c EvWrite (after c (write_stream_response (cn_state c)) (StreamOpen false))
| cs_finish : cn_turn c = StreamOpen false → connection_move c EvFinish (after c (finish_stream_response (cn_state c)) StreamEnding)
| cs_finished ec : cn_turn c = StreamEnding → connection_move c (EvFinished ec) (after c (after_stream ec (cn_state c)) Ended)
| cs_read : in_stream (cn_turn c) = true → connection_move c EvRead (beside c (async_read_stream_body (cn_state c)))
| cs_read_done ec done : in_stream (cn_turn c) = true → connection_move c (EvReadDone ec done) (beside c (on_stream_read ec done (cn_state c)))
| cs_cancel_body : connection_move c EvCancelBody (beside c (cancel_stream_body (cn_state c)))
| cs_cancel : connection_move c EvCancel (beside c (cancel_session (cn_state c))).
Definition connection_step (c c' : connection) : Prop := ∃ ev, connection_move c ev c'.
Definition connection_start (max : Z) : connection := mk_connection (run (create max)).1 (run (create max)).2 (Waiting ReadHeader).

(** What happens on the wire: a head is read, its request is handed over, its
    response is begun. Per head at most one of each, in this order. *)
Inductive mark := Head | Request | Response.
Definition mark_of (e : effect) : option mark :=
  match e with
  | Start ReadHeader => Some Head
  | HandleRequest | HandleStream | HandleUpgrade => Some Request
  | Start (WriteResponse _) | Start WriteStreamHead => Some Response
  | _ => None
  end.
Inductive stage := NextHead | HeadRead | Handed.
Definition follow (st : option stage) (m : mark) : option stage :=
  match st, m with
  | Some NextHead, Head => Some HeadRead
  | Some HeadRead, Request => Some Handed
  | Some HeadRead, Response | Some Handed, Response => Some NextHead
  | _, _ => None
  end.
Definition exchange (out : list effect) : option stage := fold_left follow (omap mark_of out) (Some NextHead).
Lemma exchange_app a b : exchange (a ++ b) = fold_left follow (omap mark_of b) (exchange a).
Proof. unfold exchange. by rewrite omap_app, fold_left_app. Qed.
Definition turn_stage (u : turn) (st : stage) : Prop :=
  match u with
  | Waiting (WriteResponse _) | StreamOpen _ | StreamEnding => st = NextHead
  | Waiting _ => st = HeadRead
  | Answering | Upgrading | StreamIdle => st = Handed
  | Taken | Ended => True
  end.
(** Before a streaming route has answered. *)
Definition early (u : turn) : bool :=
  match u with Waiting ReadHeader | Waiting ReadBody | Waiting (WriteContinue _) | StreamIdle => true | _ => false end.
Definition connection_inv (max : Z) (c : connection) : Prop :=
  let s := cn_state c in
  (∃ st, exchange (cn_out c) = Some st ∧ turn_stage (cn_turn c) st) ∧
  max_buffered s = max ∧ (zlen (buffered_body s) ≤ max)%Z ∧
  (early (cn_turn c) = true → stream_completed s = false) ∧
  (match cn_turn c with StreamOpen _ | StreamEnding => is_Some (serializer s) | _ => True end) ∧
  (cn_turn c = Answering → request_parser s = Some true) ∧
  (match cn_turn c with Waiting o => o ≠ WriteStreamHead ∧ o ≠ WriteStreamBody ∧ o ≠ WriteStreamEnd ∧ o ≠ ReadStreamBody | _ => True end).
(** A response that was written completely and keeps the connection: the write of
    a whole response or of a stream's end completed without an error, or a
    stream is finished whose serializer had written everything. *)
Definition response_complete (c : connection) (ev : connection_event) : Prop :=
  (ev = EvWritten true false ∧ cn_turn c = Waiting (WriteResponse true)) ∨
  (ev = EvFinished false ∧ cn_turn c = StreamEnding ∧ streaming_keep_alive (cn_state c) = true) ∨
  (ev = EvFinish ∧ cn_turn c = StreamOpen false ∧ serializer (cn_state c) = Some true ∧ streaming_keep_alive (cn_state c) = true).
Lemma body_starts_no_head s : Start ReadHeader ∉ (read_buffered_body s).2.
Proof. unfold read_buffered_body. destruct (default _ _); set_solver. Qed.
Lemma next_starts_head (n : connection_next) s : Start ReadHeader ∈ (next n s).2 → n = NextRead.
Proof. destruct n; [done|set_solver]. Qed.
Lemma finished_starts_head ec s : Start ReadHeader ∈ (after_stream ec s).2 → ec = false ∧ streaming_keep_alive s = true.
Proof.
  unfold after_stream. cbn [snd]. intros [?|Hn%next_starts_head]%elem_of_cons; [done|].
  revert Hn. unfold stream_finished. by destruct ec, (streaming_keep_alive s).
Qed.
(** Only a completed response starts the reading of a head. *)
Lemma head_after_response c ev c' :
  connection_move c ev c' → Start ReadHeader ∈ drop (length (cn_out c)) (cn_out c') → response_complete c ev.
Proof.
  intros [ec h Ht|r Ht|s ec Ht|keep Ht|acc keep Ht|keep ec Ht|keep Ht|keep Ht|ec done Ht|Ht|Ht|ec Ht|Hin|ec done Hin| |];
    cbn [cn_out after beside]; rewrite drop_app_length; unfold response_complete; intros Hread.
  - exfalso. revert Hread. unfold on_read_header. destruct ec; [set_solver|]. destruct (header_step _ _ _ _ _); try set_solver. apply body_starts_no_head.
  - exfalso. revert Hread. unfold on_read_buffered_body. destruct (HttpSession.buffer_body _ _ _ _); try apply body_starts_no_head; set_solver.
  - exfalso. revert Hread. unfold on_continue. destruct ec, s; try apply body_starts_no_head; set_solver.
  - set_solver.
  - exfalso. revert Hread. unfold on_upgrade. destruct acc; set_solver.
  - left. revert Hread. unfold on_write, HttpSession.on_write. destruct ec; [set_solver|]. destruct keep; [by rewrite Ht|set_solver].
  - exfalso. revert Hread. unfold complete. destruct (stream_completed _); set_solver.
  - set_solver.
  - set_solver.
  - exfalso. revert Hread. unfold write_stream_response. destruct (serializer _); set_solver.
  - right; right. revert Hread. unfold finish_stream_response. destruct (serializer _) as [[]|]; [|set_solver..].
    by intros [_ ?]%finished_starts_head.
  - right; left. by apply finished_starts_head in Hread as [-> ?].
  - exfalso. revert Hread. unfold async_read_stream_body. destruct (request_body_cancelled (cn_state c)), (request_parser (cn_state c)) as [[]|]; set_solver.
  - set_solver.
  - set_solver.
  - set_solver.
Qed.
Context (max : Z) (Hmax : (0 ≤ max ≤ size_max)%Z).
(** A step keeps the invariant when its handler does, stage by stage. *)
Lemma after_inv c r otherwise st :
  exchange (cn_out c) = Some st →
  (∃ st', fold_left follow (omap mark_of r.2) (Some st) = Some st' ∧ turn_stage (turn_after r.2 otherwise) st') →
  max_buffered r.1 = max → (zlen (buffered_body r.1) ≤ max)%Z →
  (early (turn_after r.2 otherwise) = true → stream_completed r.1 = false) →
  (match turn_after r.2 otherwise with StreamOpen _ | StreamEnding => is_Some (serializer r.1) | _ => True end) →
  (turn_after r.2 otherwise = Answering → request_parser r.1 = Some true) →
  (match turn_after r.2 otherwise with Waiting o => o ≠ WriteStreamHead ∧ o ≠ WriteStreamBody ∧ o ≠ WriteStreamEnd ∧ o ≠ ReadStreamBody | _ => True end) →
  connection_inv max (after c r otherwise).
Proof using Type.
  intros He (st' & Hf & Ht) H1 H2 H3 H4 H5 H6. split; [|by split_and!]. exists st'. cbn [cn_out cn_turn after]. rewrite exchange_app, He. by split.
Qed.
Ltac step_done st := eapply (after_inv _ _ _ st); [eassumption|eexists; split; [reflexivity|]|..]; cbn in *; try done; try lia; try congruence; eauto.
Lemma read_body_inv c s :
  exchange (cn_out c) = Some HeadRead → max_buffered s = max → (zlen (buffered_body s) ≤ max)%Z → stream_completed s = false →
  connection_inv max (after c (read_buffered_body s) Ended).
Proof using Type.
  intros He Hm Hb Hc. unfold read_buffered_body. destruct (request_parser s) as [[]|] eqn:Hp; cbn [default from_option id]; step_done HeadRead.
Qed.
Lemma close_inv c s st : exchange (cn_out c) = Some st → max_buffered s = max → (zlen (buffered_body s) ≤ max)%Z →
  connection_inv max (after c (do_close s) Ended).
Proof using Type. intros He Hm Hb. step_done st. Qed.
Lemma respond_inv c s st keep : exchange (cn_out c) = Some st → st ≠ NextHead → max_buffered s = max → (zlen (buffered_body s) ≤ max)%Z →
  connection_inv max (after c (send_response keep s) Ended).
Proof using Type. intros He Hst Hm Hb. destruct st; [done|step_done HeadRead|step_done Handed]. Qed.
Lemma next_inv c s n : exchange (cn_out c) = Some NextHead → max_buffered s = max → (0 ≤ max)%Z → (zlen (buffered_body s) ≤ max)%Z →
  connection_inv max (after c (next n s) Ended).
Proof using Type. intros He Hm H0 Hb. destruct n; step_done NextHead. Qed.
(** One read adds at most what the limit leaves. *)
Lemma body_step_inv c r s : exchange (cn_out c) = Some HeadRead → max_buffered s = max → (zlen (buffered_body s) ≤ max)%Z → stream_completed s = false →
  connection_inv max (after c (on_read_buffered_body r s) Ended).
Proof.
  intros He Hm Hb Hc. unfold on_read_buffered_body, HttpSession.buffer_body. rewrite Hm.
  destruct (br_error r); [by apply (close_inv _ _ HeadRead)|].
  destruct (_ || _) eqn:Hlim; [by apply (respond_inv _ _ HeadRead)|]. apply orb_false_iff in Hlim as [_ Hlim%Z.ltb_ge].
  rewrite u64_id in Hlim by (pose proof (zlen_nonneg (buffered_body s)); unfold size_max in *; lia).
  assert (zlen (buffered_body s ++ br_data r) ≤ max)%Z by (rewrite zlen_app; lia).
  destruct (br_done r); by apply read_body_inv.
Qed.
Lemma header_inv c ec h s : exchange (cn_out c) = Some HeadRead → max_buffered s = max → (zlen (buffered_body s) ≤ max)%Z → stream_completed s = false →
  connection_inv max (after c (on_read_header ec h s) Ended).
Proof using Type.
  intros He Hm Hb Hc. unfold on_read_header. destruct ec; [by apply (close_inv _ _ HeadRead)|].
  destruct (header_step _ _ _ _ _).
  - step_done HeadRead.
  - by apply (respond_inv _ _ HeadRead).
  - step_done HeadRead.
  - step_done HeadRead.
  - by apply read_body_inv.
Qed.
Lemma after_stream_inv c ec s o : exchange (cn_out c) = Some NextHead → max_buffered s = max → (zlen (buffered_body s) ≤ max)%Z →
  connection_inv max (after c (after_stream ec s) o).
Proof. intros He Hm Hb. unfold after_stream. destruct (stream_finished _ ec); step_done NextHead; apply Hmax. Qed.
(** What the streams do on the side leaves the exchange alone. *)
Lemma side_inv c s out :
  connection_inv max c → omap mark_of out = [] →
  max_buffered s = max_buffered (cn_state c) → buffered_body s = buffered_body (cn_state c) → stream_completed s = stream_completed (cn_state c) →
  serializer s = serializer (cn_state c) → request_parser s = request_parser (cn_state c) ∨ cn_turn c ≠ Answering →
  connection_inv max (mk_connection s (cn_out c ++ out) (cn_turn c)).
Proof using Type.
  intros ((st & He & Hst) & Hm & Hb & Hc & Hser & Hans & Hwait) Hout H1 H2 H3 H4 H5. unfold connection_inv. cbn [cn_state cn_out cn_turn].
  rewrite exchange_app, Hout, H1, H2, H3, H4. split_and!; try done; [by exists st|]. intros Ht. destruct H5 as [->|]; [by apply Hans|done].
Qed.
Lemma connection_step_inv c c' : connection_inv max c → connection_step c c' → connection_inv max c'.
Proof.
  intros Hinv Hs. pose proof Hinv as ((st & He & Hst) & Hm & Hb & Hc & Hser & Hans & Hwait).
  destruct Hs as [ev [ec h Ht|r Ht|s ec Ht|keep Ht|acc keep Ht|keep ec Ht|keep Ht|keep Ht|ec done Ht|Ht|Ht|ec Ht|Hin|ec done Hin| |]];
    try rewrite Ht in Hst, Hc, Hser, Hans, Hwait; cbn [turn_stage early] in *; try subst st.
  - by apply header_inv; auto.
  - by apply body_step_inv; auto.
  - unfold on_continue. destruct ec; [by apply (close_inv _ _ HeadRead)|]. destruct s; [step_done HeadRead|by apply read_body_inv; auto].
  - by apply (respond_inv _ _ Handed).
  - unfold on_upgrade. destruct acc; [step_done Handed|by apply (respond_inv _ _ Handed)].
  - unfold on_write. destruct (HttpSession.on_write keep ec) as [n|]; [apply next_inv; try done; lia|step_done NextHead].
  - unfold complete. rewrite Hc by done. by apply (respond_inv _ _ Handed).
  - step_done Handed.
  - destruct Hser as [d Hd]. unfold on_stream_written. rewrite Hd. step_done NextHead.
  - destruct Hser as [d Hd]. unfold write_stream_response. rewrite Hd. step_done NextHead.
  - destruct Hser as [d Hd]. unfold finish_stream_response. rewrite Hd. destruct d; [|step_done NextHead].
    by apply after_stream_inv.
  - by apply after_stream_inv.
  - unfold async_read_stream_body. destruct (request_body_cancelled _), (request_parser (cn_state c)) as [[]|] eqn:Hp; cbn [fst snd]; apply side_inv; try done; by left.
  - eapply side_inv; try done. right. by destruct (cn_turn c).
  - eapply side_inv; try done. by left.
  - eapply side_inv; try done. by left.
Qed.
(** C6: a connection serves one request at a time. Whatever arrives, fails or is
    cancelled, as long as the router answers each request once and a streaming
    route uses its response stream in sequence: heads, requests and responses
    alternate on the wire (a response for every head at most, handed to the
    router at most once, and the next head only after it); the next head is read
    only in the step that completes a response: a write of a response that keeps
    the connection ended without an error, or a kept stream was finished without
    an error or with everything already written; the
    buffered body never exceeds the limit, and a buffered request is handed over
    only when its body was read to the end; an open response stream is never
    refused. *)
Theorem connection_one_at_a_time c :
  rtc connection_step (connection_start max) c →
  is_Some (exchange (cn_out c)) ∧
  (zlen (buffered_body (cn_state c)) ≤ max)%Z ∧
  (cn_turn c = Answering → request_parser (cn_state c) = Some true) ∧
  (∀ ev c', connection_move c ev c' → Start ReadHeader ∈ drop (length (cn_out c)) (cn_out c') → response_complete c ev) ∧
  (∀ b, cn_turn c = StreamOpen b → (write_stream_response (cn_state c)).2 = [Start WriteStreamBody] ∧ (finish_stream_response (cn_state c)).2 ≠ [Callback true]).
Proof.
  intros Hr. assert (connection_inv max c) as Hinv.
  { refine (rtc_invariant connection_step (connection_inv max) _ _ _ Hr _); [by apply connection_step_inv|].
    split; [by exists HeadRead|]. split_and!; try done. apply Hmax. }
  destruct Hinv as ((st & He & Hst) & Hm & Hb & Hc & Hser & Hans & Hwait). split_and!; [by eexists|done|done|by apply head_after_response|].
  intros b Ht. rewrite Ht in Hser. destruct Hser as [d Hd]. unfold write_stream_response, finish_stream_response. rewrite Hd. split; [done|].
  destruct d; [|done]. unfold after_stream. by destruct (stream_finished _ _).
Qed.
End connection.

Section examples.
Import HttpConnection.
Definition get_head : head := mk_head false false None [] true.
Definition upload_head : head := mk_head false true (Some 10%Z) [] false.
Theorem connection_one_at_a_time_witness :
  ∃ c, rtc connection_step (connection_start 1024) c ∧ cn_turn c = Waiting ReadHeader ∧
       cn_out c = [Start ReadHeader; HandleRequest; Start (WriteResponse true); Start ReadHeader] ∧ is_Some (exchange (cn_out c)).
Proof.
  eassert (rtc connection_step (connection_start 1024) _) as Hr.
  { eapply rtc_l; [eexists; apply (cs_header _ false get_head); reflexivity|]. eapply rtc_l; [eexists; apply (cs_answer _ true); reflexivity|].
    eapply rtc_l; [eexists; apply (cs_written _ true false); reflexivity|]. apply rtc_refl. }
  assert (0 ≤ 1024 ≤ size_max)%Z as Hmax by (unfold size_max; lia).
  destruct (connection_one_at_a_time 1024 Hmax _ Hr) as (He & _).
  eexists. split; [exact Hr|]. split; [reflexivity|]. split; [reflexivity|]. exact He.
Defined.
(** A streaming route that answers without having read the request's body: the
    connection is kept, and the rest of the body is parsed as the next head. *)
Lemma unread_body_becomes_request :
  ∃ c c', rtc connection_step (connection_start 1024) c ∧ request_parser (cn_state c) = Some false ∧ connection_step c c' ∧
          cn_out c' = cn_out c ++ [Start ReadHeader].
Proof.
  eexists _, _. split_and!.
  - eapply rtc_l; [eexists; apply (cs_header _ false upload_head); reflexivity|]. eapply rtc_l; [eexists; apply (cs_complete _ true); reflexivity|]. apply rtc_refl.
  - done.
  - eexists. apply (cs_written _ true false). done.
  - done.
Qed.
(** Finishing the response stream does not set [stream_completed_]: a handler
    that finishes its stream and then calls [complete] sends a second response. *)
Lemma complete_after_finish keep c : stream_completed c = false →
  let c' := (after_stream false c).1 in
  stream_completed c' = false ∧ ∃ k, (complete keep c').2 = [Start (WriteResponse k)].
Proof.
  intros Hs. unfold after_stream. destruct (stream_finished _ _); cbn; [split; [done|by eexists]|].
  split; [done|]. unfold complete. cbn. rewrite Hs. by eexists.
Qed.
End examples.
