(* ===== verification/ServerExchange.v ===== *)
(** * Requests and responses of one connection ([session/http_session.cpp])

    The life of a connection ([HttpConnection.v]) and what the session does with
    a request ([HttpSession.v]) put together: the member [req_] and the
    parsed body under the machine, for the requests that are read whole. Against it
    stands [serve_all], which answers one request after the other. *)
From S2P Require Import Prelude Text Numbers PathPattern Http HttpContext TypedRoute HttpRouter HttpRouterTheorems HttpDispatch StaticFiles HttpSession HttpSessionTheorems HttpConnection.
Set Default Proof Using "Type*".

(** A request on the wire: its head as Beast parses it ([content_length()] of the
    parser apart), and the pieces its body is read in; none: no body. *)
Record incoming := mk_incoming {
  in_method : verb; in_target : bytes; in_version : N; in_keep_alive : bool; in_fields : list (bytes * bytes);
  in_length : option Z; in_pieces : list bytes }.
Fixpoint reads_of (pieces : list bytes) : list body_read :=
  match pieces with [] => [] | p :: rest => mk_read false p (bool_decide (rest = [])) :: reads_of rest end.

Section exchange.
Context {F : Type} `{HttpFields F} `{Platform} `{Verbs} `{FileSystem}.
Context (page : page_parts) (web_root root : fspath) (r : HttpRouter F) (max : Z).
(** [fields]: a response's fields in order; [is_upgrade]: Beast's test; [async_work]:
    what an asynchronous handler does to the context until it completes. *)
Context (fields : response F → list (bytes * bytes)) (is_upgrade : request F → bool) (async_work : ctx F → ctx F).

Inductive reply := Message (m : sent_message F) | Static (s : static_response).
Definition too_large (req : request F) : reply := Message (SentMessage (payload_too_large (rq_version req))).
(** [keep_alive()] of what is written. *)
Definition reply_keep (req : request F) (p : reply) : bool :=
  match p with
  | Message (SentMessage m) | Message (SentChunkedHead m) => get_keep_alive (rs_version m) (rs_fields m)
  | Static _ => rq_keep_alive req
  end.
Definition request_empty : request F := mk_request verb_get [] 11 fields_empty [].
(** [copy_request_head], into the request that is there. *)
Definition read_head (q : incoming) (req : request F) : request F :=
  mk_request (in_method q) (in_target q) (in_version q)
    (fold_left (λ f h, field_insert h.1 h.2 f) (in_fields q) (set_keep_alive (in_version q) (in_keep_alive q) (rq_fields req))) (rq_body req).
Definition with_request_body (b : bytes) (req : request F) : request F :=
  mk_request (rq_method req) (rq_target req) (rq_version req) (rq_fields req) b.
(** [handle_request], which begins with [res_ = {}], to the reply; [None]: an
    exception leaves the session ([request_always_answered] says which), and the
    thread that runs it: nothing more is written. *)
Definition respond (req : request F) : option reply :=
  match handle_request page web_root root fields false r (context_init req response_empty) with
  | (_, Ret (SendContext m)) => Some (Message m)
  | (_, Ret (SentStatic s)) => Some (Static s)
  | (x, Ret AsyncPending) => match async_complete fields false r (async_work x) with (_, Ret (SendContext m)) => Some (Message m) | _ => None end
  | (_, Throw _) => None
  end.
Definition head_of (q : incoming) (req : request F) : HttpConnection.head :=
  HttpConnection.mk_head (is_upgrade req) (is_stream_route (rt_routes r) (header_path (rq_target req)) (rq_method req)) (in_length q)
    (default [] (field_find (str "Expect") (rq_fields req))) (bool_decide (in_pieces q = [])).

(** ** The connection with its messages *)
Record server := mk_server {
  sv_conn : HttpConnection.t; sv_turn : turn; sv_req : request F;
  sv_pieces : list bytes;        (** of the body being read *)
  sv_inbox : list incoming; sv_sent : list reply; sv_failed : bool }.
(** A handler has run: [do_read] begins with [req_ = {}]. *)
Definition took (h : HttpConnection.t * list HttpConnection.effect) (replies : list reply) (failed : bool) (s : server) : server :=
  let u := turn_after h.2 Ended in
  let reads := match u with Waiting HttpConnection.ReadHeader => true | _ => false end in
  mk_server h.1 u (if reads then request_empty else sv_req s)
    (sv_pieces s) (sv_inbox s) (sv_sent s ++ replies) (sv_failed s || failed).
(** A read handler answers by itself only when the body is too large. *)
Definition own_reply (h : HttpConnection.t * list HttpConnection.effect) (req : request F) : list reply :=
  match h.2 with [HttpConnection.Start (HttpConnection.WriteResponse _)] => [too_large req] | _ => [] end.
Definition on_request_head (q : incoming) (rest : list incoming) (s : server) : server :=
  let req := read_head q (sv_req s) in
  let h := HttpConnection.on_read_header false (head_of q req) (sv_conn s) in
  took h (own_reply h req) false (mk_server (sv_conn s) (sv_turn s) req (in_pieces q) rest (sv_sent s) (sv_failed s)).
Definition on_piece (p : bytes) (rest : list bytes) (s : server) : server :=
  let h := HttpConnection.on_read_buffered_body (mk_read false p (bool_decide (rest = []))) (sv_conn s) in
  took h (own_reply h (sv_req s)) false (mk_server (sv_conn s) (sv_turn s) (sv_req s) rest (sv_inbox s) (sv_sent s) (sv_failed s)).
(** [read_buffered_body] moves the body into the request, [handle_request] answers. *)
Definition on_answer (p : reply) (s : server) : server :=
  let keep := reply_keep (sv_req s) p in
  took (match p with Message _ => HttpConnection.send_context_response keep (sv_conn s) | Static _ => HttpConnection.send_response keep (sv_conn s) end) [p] false s.
Definition full_request (s : server) : request F := with_request_body (HttpConnection.buffered_body (sv_conn s)) (sv_req s).

Inductive exchange_step : server → server → Prop :=
| ss_head s q rest : sv_turn s = Waiting HttpConnection.ReadHeader → sv_inbox s = q :: rest → exchange_step s (on_request_head q rest s)
| ss_no_head s h : sv_turn s = Waiting HttpConnection.ReadHeader →
    exchange_step s (took (HttpConnection.on_read_header true h (sv_conn s)) [] (negb (bool_decide (sv_inbox s = []))) s)
| ss_continue s b ec : sv_turn s = Waiting (HttpConnection.WriteContinue b) → exchange_step s (took (HttpConnection.on_continue b ec (sv_conn s)) [] ec s)
| ss_piece s p rest : sv_turn s = Waiting HttpConnection.ReadBody → sv_pieces s = p :: rest → exchange_step s (on_piece p rest s)
| ss_no_piece s p d : sv_turn s = Waiting HttpConnection.ReadBody →
    exchange_step s (took (HttpConnection.on_read_buffered_body (mk_read true p d) (sv_conn s)) [] true s)
| ss_answer s p : sv_turn s = Answering → respond (full_request s) = Some p → exchange_step s (on_answer p s)
| ss_escape s : sv_turn s = Answering → respond (full_request s) = None → exchange_step s (took (sv_conn s, []) [] false s)
| ss_written s keep ec : sv_turn s = Waiting (HttpConnection.WriteResponse keep) →
    exchange_step s (took (HttpConnection.on_write keep ec (sv_conn s)) [] ec s).
Definition server_start (requests : list incoming) : server :=
  took (HttpConnection.run (HttpConnection.create max)) [] false
    (mk_server (HttpConnection.create max) Ended request_empty [] requests [] false).

(** ** The reference: one request after the other *)
Definition then_serve (serve : list incoming → list reply) (inbox : list incoming) (req : request F) (p : option reply) : list reply :=
  match p with None => [] | Some p => p :: if reply_keep req p then serve inbox else [] end.
(** From a body under way on. *)
Definition serve_body (serve : list incoming → list reply) (inbox : list incoming) (req : request F) (buffered : bytes) (pieces : list bytes) : list reply :=
  match HttpSession.buffer_body max buffered (bool_decide (pieces = [])) (reads_of pieces) with
  | BodyTooLarge => [too_large req]
  | BodyComplete b => then_serve serve inbox req (respond (with_request_body b req))
  | _ => []
  end.
Fixpoint serve_all (requests : list incoming) : list reply :=
  match requests with
  | [] => []
  | q :: rest =>
      let req := read_head q request_empty in
      let h := head_of q req in
      match header_step (HttpConnection.is_upgrade h) (HttpConnection.stream_route h) (in_length q) max (HttpConnection.expect h) with
      | PayloadTooLarge => [too_large req]
      | ContinueThen false | ReadBody => serve_body serve_all rest req [] (in_pieces q)
      | _ => []                           (** upgrades and streaming routes leave the request path *)
      end
  end.

(** ** The connection follows the reference *)
(** What is still to be sent, by whose turn it is. *)
Definition remaining (s : server) : list reply :=
  match sv_turn s with
  | Waiting HttpConnection.ReadHeader => serve_all (sv_inbox s)
  | Waiting (HttpConnection.WriteContinue false) | Waiting HttpConnection.ReadBody =>
      serve_body serve_all (sv_inbox s) (sv_req s) (HttpConnection.buffered_body (sv_conn s)) (sv_pieces s)
  | Answering => then_serve serve_all (sv_inbox s) (sv_req s) (respond (full_request s))
  | Waiting (HttpConnection.WriteResponse keep) => if keep then serve_all (sv_inbox s) else []
  | _ => []
  end.
Definition server_inv (requests : list incoming) (s : server) : Prop :=
  let c := sv_conn s in
  (if sv_failed s then sv_turn s = Ended ∧ ∃ rest, serve_all requests = sv_sent s ++ rest
   else serve_all requests = sv_sent s ++ remaining s) ∧
  HttpConnection.max_buffered c = max ∧ HttpConnection.request_body_cancelled c = false ∧
  match sv_turn s with
  | Waiting HttpConnection.ReadHeader => sv_req s = request_empty ∧ HttpConnection.buffered_body c = []
  | Waiting (HttpConnection.WriteContinue false) =>
      HttpConnection.request_parser c = Some (bool_decide (sv_pieces s = []))
  | Waiting HttpConnection.ReadBody => sv_pieces s ≠ []
  | Waiting (HttpConnection.WriteResponse _) | Ended | Answering | Upgrading | StreamIdle | Waiting (HttpConnection.WriteContinue true) => True
  | _ => False
  end.
Lemma read_one (m : Z) buffered rd reads :
  HttpSession.buffer_body m buffered false (rd :: reads) =
  match HttpSession.buffer_body m buffered false [rd] with
  | BodyPending b => HttpSession.buffer_body m b false reads
  | res => res
  end.
Proof using Type.
  cbn [HttpSession.buffer_body]. destruct (br_error rd); [done|]. destruct (_ || _); [done|]. by destruct (br_done rd), reads.
Qed.
Definition kept (c : HttpConnection.t) : Prop := HttpConnection.max_buffered c = max ∧ HttpConnection.request_body_cancelled c = false.
(** A handler that ends the connection upon an error. *)
Lemma failed_inv requests (h : HttpConnection.t * list HttpConnection.effect) s rest :
  turn_after h.2 Ended = Ended → kept h.1 → serve_all requests = sv_sent s ++ rest → server_inv requests (took h [] true s).
Proof using Type.
  intros Ht [Hm Hc] Hs. unfold server_inv, took. rewrite Ht. cbn. rewrite orb_true_r, app_nil_r. split_and!; try done. by exists rest.
Qed.
Lemma body_inv requests c s :
  sv_failed s = false → kept c →
  HttpConnection.request_parser c = Some (bool_decide (sv_pieces s = [])) →
  serve_all requests = sv_sent s ++ serve_body serve_all (sv_inbox s) (sv_req s) (HttpConnection.buffered_body c) (sv_pieces s) →
  server_inv requests (took (HttpConnection.read_buffered_body c) [] false s).
Proof using Type.
  intros Hf [Hm Hc] Hp Hs. unfold HttpConnection.read_buffered_body. rewrite Hp. cbn [default from_option id].
  unfold server_inv, remaining, took. case_bool_decide as Hpc; cbn; rewrite Hf, app_nil_r; cbn; split_and!; try done.
  rewrite Hs. unfold serve_body, full_request. cbn. rewrite (bool_decide_eq_true_2 _ Hpc). destruct (reads_of _); done.
Qed.
Lemma reply_inv requests (keep : bool) c s p :
  sv_failed s = false → kept c → serve_all requests = sv_sent s ++ p :: (if keep then serve_all (sv_inbox s) else []) →
  server_inv requests (took (HttpConnection.send_response keep c) [p] false s).
Proof using Type.
  intros Hf [Hm Hc] Hs. unfold server_inv, remaining, took. cbn. rewrite Hf. cbn. rewrite <-(assoc_L (++)). by split_and!.
Qed.
Lemma read_inv requests c s :
  sv_failed s = false → kept c → serve_all requests = sv_sent s ++ serve_all (sv_inbox s) → server_inv requests (took (HttpConnection.do_read c) [] false s).
Proof using Type.
  intros Hf [Hm Hc] Hs. unfold server_inv, remaining, took. cbn. rewrite Hf, app_nil_r. by split_and!.
Qed.
Lemma idle_inv requests (h : HttpConnection.t * list HttpConnection.effect) s :
  sv_failed s = false → kept h.1 → serve_all requests = sv_sent s →
  (turn_after h.2 Ended = Ended ∨ turn_after h.2 Ended = Upgrading ∨ turn_after h.2 Ended = StreamIdle ∨ turn_after h.2 Ended = Waiting (HttpConnection.WriteContinue true)) →
  server_inv requests (took h [] false s).
Proof using Type.
  intros Hf [Hm Hc] Hs Ht. unfold server_inv, remaining, took. rewrite Hf. cbn. rewrite app_nil_r.
  destruct Ht as [->|[->|[->| ->]]]; cbn; rewrite app_nil_r; by split_and!.
Qed.
Lemma head_inv requests s q rest :
  server_inv requests s → sv_failed s = false → sv_turn s = Waiting HttpConnection.ReadHeader → sv_inbox s = q :: rest →
  server_inv requests (on_request_head q rest s).
Proof using Type.
  unfold server_inv at 1, remaining. intros (Hs & Hm & Hc & Ht) Hf Hturn Hin. rewrite Hf in Hs. rewrite Hturn in Hs, Ht.
  destruct Ht as (Hreq & Hbuf). rewrite Hin in Hs. cbn [serve_all] in Hs. unfold on_request_head. rewrite Hreq.
  set (req := read_head q request_empty) in *. set (h := head_of q req) in *. unfold HttpConnection.on_read_header.
  change (HttpConnection.content_length h) with (in_length q). cbn [HttpConnection.max_buffered HttpConnection.with_parser]. rewrite Hm.
  destruct (header_step _ _ _ _ _) as [| |[]| |]; cbn [own_reply].
  - apply idle_inv; [done|done|by rewrite Hs, app_nil_r|by right; left].
  - apply reply_inv; [done|done|exact Hs].
  - apply idle_inv; [done|done|by rewrite Hs, app_nil_r|by right; right; right].
  - unfold server_inv, remaining, took. cbn. rewrite Hf, app_nil_r, Hbuf. by split_and!.
  - apply idle_inv; [done|done|by rewrite Hs, app_nil_r|by right; right; left].
  - replace (own_reply _ req) with (@nil reply); [|unfold HttpConnection.read_buffered_body, HttpConnection.with_parser; cbn; by case_bool_decide].
    apply body_inv; cbn; [done|done|done|by rewrite Hbuf].
Qed.
Lemma piece_inv requests s p rest :
  server_inv requests s → sv_failed s = false → sv_turn s = Waiting HttpConnection.ReadBody → sv_pieces s = p :: rest →
  server_inv requests (on_piece p rest s).
Proof using Type.
  unfold server_inv at 1, remaining. intros (Hs & Hm & Hc & Ht) Hf Hturn Hin. rewrite Hf in Hs. rewrite Hturn in Hs, Ht.
  rewrite Hin in Hs. unfold serve_body in Hs. rewrite bool_decide_eq_false_2 in Hs by done. cbn [reads_of] in Hs.
  rewrite read_one in Hs. unfold on_piece, HttpConnection.on_read_buffered_body. rewrite Hm.
  cbn [HttpSession.buffer_body br_error br_data br_done] in *. destruct (_ || _).
  - apply reply_inv; [done|done|exact Hs].
  - replace (own_reply _ (sv_req s)) with (@nil reply).
    2: { unfold own_reply. destruct (bool_decide (rest = [])); cbn; done. }
    destruct (bool_decide (rest = [])) eqn:Hrest; cbn in Hs; cbv iota.
    + apply bool_decide_eq_true in Hrest as Hr0. apply body_inv; cbn; [done|done|by rewrite Hrest|]. unfold serve_body. rewrite Hrest. rewrite Hr0. exact Hs.
    + apply body_inv; cbn; [done|done|by rewrite Hrest|]. unfold serve_body. rewrite Hrest. exact Hs.
Qed.
Lemma exchange_step_inv requests s s' : server_inv requests s → exchange_step s s' → server_inv requests s'.
Proof using Type.
  intros Hi Hstep. assert (sv_failed s = false ∨ (sv_failed s = true ∧ sv_turn s = Ended)) as [Hf|[_ He]].
  { unfold server_inv in Hi. destruct (sv_failed s); [right|by left]. split; [done|apply Hi]. }
  2: { destruct Hstep; congruence. }
  destruct Hstep as [s q rest Ht Hin|s h Ht|s b ec Ht|s p rest Ht Hin|s p d Ht|s p Ht Hp|s Ht Hp|s keep ec Ht].
  - by apply head_inv.
  - pose proof Hi as (Hs & Hm & Hc & Htn). rewrite Hf in Hs. unfold remaining in Hs. rewrite Ht in Hs, Htn. case_bool_decide as Hin; cbn [negb].
    + rewrite Hin in Hs. apply idle_inv; [done|by cbn|by rewrite Hs, app_nil_r|by left].
    + eapply failed_inv; [done|by cbn|exact Hs].
  - pose proof Hi as (Hs & Hm & Hc & Htn). rewrite Hf in Hs. unfold remaining in Hs. rewrite Ht in Hs, Htn. destruct ec.
    + eapply failed_inv; [done|by cbn|exact Hs].
    + destruct b; cbn [HttpConnection.on_continue].
      * apply idle_inv; [done|done|by rewrite Hs, app_nil_r|by right; right; left].
      * apply body_inv; [done|done|exact Htn|exact Hs].
  - by apply piece_inv.
  - pose proof Hi as (Hs & Hm & Hc & Htn). rewrite Hf in Hs. eapply failed_inv; [done|by cbn|exact Hs].
  - pose proof Hi as (Hs & Hm & Hc & Htn). rewrite Hf in Hs. unfold remaining in Hs. rewrite Ht, Hp in Hs. cbn [then_serve] in Hs.
    unfold on_answer. destruct p as [m|m]; [|by apply reply_inv]. unfold HttpConnection.send_context_response. rewrite Hc. cbn [negb]. rewrite andb_true_r.
    by apply reply_inv.
  - pose proof Hi as (Hs & Hm & Hc & Htn). rewrite Hf in Hs. unfold remaining in Hs. rewrite Ht, Hp in Hs.
    apply idle_inv; [done|done|by rewrite Hs, app_nil_r|by left].
  - pose proof Hi as (Hs & Hm & Hc & Htn). rewrite Hf in Hs. unfold remaining in Hs. rewrite Ht in Hs.
    unfold HttpConnection.on_write, HttpSession.on_write. destruct ec; [eapply failed_inv; [done|by cbn|exact Hs]|].
    destruct keep; cbn [HttpConnection.next]; [by apply read_inv|]. apply idle_inv; [done|by cbn|by rewrite Hs, app_nil_r|by left].
Qed.

(** ** It ends *)
(** Nothing is under way on the request path. *)
Definition finished (s : server) : Prop :=
  match sv_turn s with
  | Ended | Upgrading | StreamIdle => True
  | Waiting HttpConnection.ReadHeader => sv_inbox s = []
  | _ => False
  end.
Definition work (requests : list incoming) : nat := sum_list ((λ q, length (in_pieces q) + 5) <$> requests).
#[local] Arguments work : simpl never.
Definition measure (s : server) : nat :=
  work (sv_inbox s) +
  match sv_turn s with
  | Waiting HttpConnection.ReadHeader | Waiting (HttpConnection.WriteContinue true) => 1
  | Waiting (HttpConnection.WriteResponse _) => 2
  | Answering => 3
  | Waiting HttpConnection.ReadBody => length (sv_pieces s) + 3
  | Waiting (HttpConnection.WriteContinue false) => length (sv_pieces s) + 4
  | _ => 0
  end.
Lemma read_body_turn c (pieces : list bytes) :
  HttpConnection.request_parser c = Some (bool_decide (pieces = [])) →
  turn_after (HttpConnection.read_buffered_body c).2 Ended = if bool_decide (pieces = []) then Answering else Waiting HttpConnection.ReadBody.
Proof using Type. unfold HttpConnection.read_buffered_body. intros ->. by destruct (bool_decide _). Qed.
Lemma server_step_measure requests s s' : server_inv requests s → exchange_step s s' → measure s' < measure s.
Proof using Type.
  intros (_ & Hm & _ & Hi) Hstep.
  destruct Hstep as [s q rest Ht Hin|s h Ht|s b ec Ht|s p rest Ht Hin|s p d Ht|s p Ht Hp|s Ht Hp|s keep ec Ht]; unfold measure; rewrite Ht in *.
  - rewrite Hin. unfold on_request_head, took. cbn [sv_inbox sv_turn sv_pieces].
    change (work (q :: rest)) with (length (in_pieces q) + 5 + work rest). generalize (work rest). intros w. unfold HttpConnection.on_read_header.
    destruct (header_step _ _ _ _ _) as [| |[]| |]; try (cbn; lia).
    rewrite (read_body_turn _ (in_pieces q)) by done. case_bool_decide as Hp; lia.
  - cbn. lia.
  - unfold took. cbn [sv_inbox sv_turn sv_pieces]. unfold HttpConnection.on_continue. destruct ec; [destruct b; cbn; lia|]. destruct b; [cbn; lia|].
    rewrite (read_body_turn _ (sv_pieces s)) by exact Hi. case_bool_decide; lia.
  - rewrite Hin. unfold on_piece, took. cbn [sv_inbox sv_turn sv_pieces length]. unfold HttpConnection.on_read_buffered_body.
    cbn [HttpSession.buffer_body br_error br_data br_done]. destruct (_ || _); [cbn; lia|].
    destruct (bool_decide (rest = [])) eqn:Hr; cbv iota; rewrite (read_body_turn _ rest) by (cbn; by rewrite Hr); rewrite Hr; cbv iota; lia.
  - cbn. lia.
  - unfold on_answer, took. destruct p; cbn; lia.
  - cbn. lia.
  - unfold took, HttpConnection.on_write, HttpSession.on_write. destruct ec; [cbn; lia|]. destruct keep; cbn; lia.
Qed.
Lemma server_progress requests s :
  server_inv requests s → sv_failed s = false → finished s ∨ ∃ s', exchange_step s s' ∧ sv_failed s' = false.
Proof using Type.
  intros (_ & _ & _ & Hi) Hf. unfold finished. destruct (sv_turn s) as [[| |b|keep| | | |]| | | | | | |] eqn:Ht; try done; try (by left).
  - destruct (sv_inbox s) as [|q rest] eqn:Hin; [by left|right]. eexists. split; [by apply (ss_head s q rest)|]. cbn. by rewrite Hf.
  - right. destruct (sv_pieces s) as [|p rest] eqn:Hp; [done|]. eexists. split; [by apply (ss_piece s p rest)|]. cbn. by rewrite Hf.
  - right. eexists. split; [by apply (ss_continue s b false)|]. cbn. by rewrite Hf.
  - right. eexists. split; [by apply (ss_written s keep false)|]. cbn. by rewrite Hf.
  - right. destruct (respond (full_request s)) as [p|] eqn:Hp; eexists.
    + split; [by apply (ss_answer s p)|]. unfold on_answer, took. cbn. by rewrite Hf.
    + split; [by apply (ss_escape s)|]. cbn. by rewrite Hf.
Qed.

Lemma server_start_inv requests : server_inv requests (server_start requests).
Proof using Type. unfold server_start. by apply read_inv. Qed.
Lemma server_finishes requests s :
  server_inv requests s → sv_failed s = false → ∃ s', rtc exchange_step s s' ∧ sv_failed s' = false ∧ finished s'.
Proof using Type.
  remember (measure s) as n eqn:Hn. revert s Hn. induction n as [n IH] using lt_wf_ind. intros s -> Hi Hf.
  destruct (server_progress requests s Hi Hf) as [Hd|(s' & Hs & Hf')]; [by exists s|].
  destruct (IH (measure s') (server_step_measure requests s s' Hi Hs) s' eq_refl (exchange_step_inv requests s s' Hi Hs) Hf') as (s2 & Hr & ? & ?).
  exists s2. split; [by eapply rtc_l|done].
Qed.
Lemma finished_remaining requests s : server_inv requests s → finished s → sv_failed s = false → sv_sent s = serve_all requests.
Proof using Type.
  unfold server_inv, finished, remaining. intros (Hs & _ & _ & _) Hd Hf. rewrite Hf in Hs. rewrite Hs. symmetry.
  destruct (sv_turn s) as [[]| | | | | | |]; try done; rewrite ?Hd; apply app_nil_r.
Qed.
Lemma server_steps_bound n s s' requests : server_inv requests s → nsteps exchange_step n s s' → n + measure s' ≤ measure s.
Proof using Type.
  intros Hi Hn. induction Hn as [s|n s1 s2 s3 Hs Hn IH]; [lia|]. specialize (IH (exchange_step_inv requests s1 s2 Hi Hs)).
  pose proof (server_step_measure requests s1 s2 Hi Hs). lia.
Qed.
End exchange.

(** C2: a connection refines one request after the other. The machine of the
    connection with its parsed requests, bodies read piece by piece, interim
    answers, limits, handlers (synchronous or not), static files and persistent
    connections, for every list of requests, every way their bodies are cut and
    every failure of the network: what is written is always a beginning of
    [serve_all], in which each request is answered by the router from a fresh
    context of its own, in order, until one asks to close or is left by an
    exception; so nothing of one request shows in the answer to another. A
    request takes at most five steps and one per piece of its body; as long as
    the network does not fail the connection goes on to its end, and has then written all of [serve_all]. *)
Theorem server_refines_sequence {F} `{HttpFields F} `{Platform} `{Verbs} `{FileSystem} page web_root root (r : HttpRouter F) max
    fields is_upgrade async_work requests n s :
  nsteps (exchange_step page web_root root r fields is_upgrade async_work) n (server_start max requests) s →
  let serve := serve_all page web_root root r max fields is_upgrade async_work in
  sv_sent s `prefix_of` serve requests ∧ n ≤ work requests + 1 ∧
  (sv_failed s = false →
    (finished s → sv_sent s = serve requests) ∧
    ∃ s', rtc (exchange_step page web_root root r fields is_upgrade async_work) s s' ∧ finished s' ∧ sv_sent s' = serve requests).
Proof.
  intros Hn serve. pose proof (server_start_inv page web_root root r max fields is_upgrade async_work requests) as Hi0.
  assert (server_inv page web_root root r max fields is_upgrade async_work requests s) as Hi.
  { refine (rtc_invariant _ _ _ _ _ (proj2 (rtc_nsteps _ _) (ex_intro _ n Hn)) Hi0). intros x y. apply exchange_step_inv. }
  split_and!.
  - destruct Hi as (Hs & _). unfold serve. destruct (sv_failed s); [destruct Hs as (_ & rest & ->)|rewrite Hs]; by apply prefix_app_r.
  - pose proof (server_steps_bound page web_root root r max fields is_upgrade async_work n _ s requests Hi0 Hn) as Hb.
    change (measure (server_start max requests)) with (work requests + 1) in Hb. lia.
  - intros Hf. split; [intros Hd; by eapply finished_remaining|].
    destruct (server_finishes page web_root root r max fields is_upgrade async_work requests s Hi Hf) as (s' & Hr & Hf' & Hd).
    exists s'. split_and!; [done|done|]. eapply finished_remaining; [|done|done].
    refine (rtc_invariant _ _ _ _ _ Hr Hi). intros x y. apply exchange_step_inv.
Qed.

#[local] Existing Instance demo_platform.
#[local] Existing Instance demo_verbs.
#[local] Existing Instance linked_index.
(** A request without a body, one whose body exceeds the limit, and one behind it. *)
Definition example_requests : list incoming :=
  [mk_incoming verb_get (str "/users/me") 11 true [(str "Host", str "h")] None [];
   mk_incoming verb_get (str "/users/7") 11 true [] None [str "ab"; str "cd"];
   mk_incoming verb_post (str "/users/7") 11 true [] None [str "0123456789"; str "0123456789"];
   mk_incoming verb_get (str "/users/me") 11 true [] None []].
Definition reply_line (p : reply (F := FieldList.t)) : status * bytes :=
  match p with Message (SentMessage m) => (rs_status m, rs_body m) | _ => (0%N, []) end.
Theorem server_refines_sequence_witness :
  ∃ s, rtc (exchange_step demo_page [] [] demo_router (λ m, rs_fields m) (λ _, false) id) (server_start 16 example_requests) s ∧
    reply_line <$> sv_sent s = [(200%N, str "me"); (200%N, str "by id"); (413%N, str "request body exceeds buffered route limit")].
Proof.
  destruct (server_refines_sequence demo_page [] [] demo_router 16 (λ m, rs_fields m) (λ _, false) id example_requests 0
    (server_start 16 example_requests) (nsteps_O _ _)) as (_ & _ & Hlive).
  destruct (Hlive eq_refl) as [_ (s & Hr & _ & Hs)]. exists s. split; [exact Hr|]. rewrite Hs. vm_compute. reflexivity.
Defined.
(** What follows a refused body is not answered, although it was sent. *)
Lemma after_too_large_unanswered : length (serve_all demo_page [] [] demo_router 16 (λ m, rs_fields m) (λ _, false) id example_requests) = 3.
Proof. by vm_compute. Qed.
