(* ===== verification/Controllers.v ===== *)
(** * Controllers ([controller/http_controller.hpp])

    A controller declares its routes with macros that bind its methods to itself and
    put its base path before the path. Declarations are statements that call the
    router one after the other; one that throws ends [register_routes]. *)
From S2P Require Import Prelude Text PathPattern PathPatternProofs Http HttpContext TypedRoute HttpRouter HttpRouterTheorems HttpDispatch TypedOverloads Websocket WebsocketRouting.
Set Default Proof Using "Type*".

Section controller.
Context {F : Type} `{HttpFields F} `{Platform} `{Verbs}.
(** The controller's class, and what [base_path()] returns for an object of it. *)
Context {C : Type} (base_path : C → bytes).

(** [std::bind(method, shared_from_this(), _1)]. *)
Definition bind_handler {A B} (method : C → A → B) (self : C) : A → B := λ x, method self x.

(** ** The HTTP macros *)
Section http.
Context (sort : list (RouteEntry F) → list (RouteEntry F)).
Definition KHTTPD_ROUTE (VERB : route_method) (PATH : bytes) (METHOD : C → M F unit) (self : C) (r : HttpRouter F) :=
  match VERB with
  | Get => get sort (base_path self ++ PATH) (bind_handler METHOD self) r
  | Post => post sort (base_path self ++ PATH) (bind_handler METHOD self) r
  | Put => put sort (base_path self ++ PATH) (bind_handler METHOD self) r
  | Del => del sort (base_path self ++ PATH) (bind_handler METHOD self) r
  | Options => options sort (base_path self ++ PATH) (bind_handler METHOD self) r
  end.
Definition KHTTPD_DOCUMENTED_ROUTE (VERB : route_method) (PATH : bytes) (METHOD : C → M F unit) (doc : RouteDocumentation) (self : C) (r : HttpRouter F) :=
  register sort (verb_of VERB) (base_path self ++ PATH) (bind_handler METHOD self) doc r.
Definition KHTTPD_TYPED_ROUTE (VERB : route_method) (PATH : bytes) (T : body_types) (METHOD : C → json → M F typed_response) (self : C) (r : HttpRouter F) :=
  overload sort VERB (Controlled T self METHOD) None (base_path self ++ PATH) r.
(** [__VA_ARGS__]: a documentation, descriptors, or both. *)
Inductive method_of :=
| WholeBody (T : body_types) (METHOD : C → json → M F typed_response)
| WithParameters (T : parameter_types) (METHOD : C → list pvalue → M F typed_response) (ds : list descriptor).
Definition callable_of (k : method_of) (self : C) : callable :=
  match k with WholeBody T m => Controlled T self m | WithParameters T m ds => ControlledWith T self m ds end.
Definition KHTTPD_DOCUMENTED_TYPED_ROUTE (VERB : route_method) (PATH : bytes) (k : method_of) (doc : option RouteDocumentation) (self : C) (r : HttpRouter F) :=
  overload sort VERB (callable_of k self) doc (base_path self ++ PATH) r.

(** ** [register_routes]: a sequence of declarations *)
Inductive declaration :=
| Route (VERB : route_method) (PATH : bytes) (METHOD : C → M F unit)
| DocumentedRoute (VERB : route_method) (PATH : bytes) (METHOD : C → M F unit) (doc : RouteDocumentation)
| TypedRoute (VERB : route_method) (PATH : bytes) (T : body_types) (METHOD : C → json → M F typed_response)
| DocumentedTypedRoute (VERB : route_method) (PATH : bytes) (k : method_of) (doc : option RouteDocumentation).
Definition declare (d : declaration) (self : C) (r : HttpRouter F) : outcome exn (HttpRouter F) :=
  match d with
  | Route v p m => KHTTPD_ROUTE v p m self r
  | DocumentedRoute v p m doc => KHTTPD_DOCUMENTED_ROUTE v p m doc self r
  | TypedRoute v p T m => KHTTPD_TYPED_ROUTE v p T m self r
  | DocumentedTypedRoute v p k doc => KHTTPD_DOCUMENTED_TYPED_ROUTE v p k doc self r
  end.
(** The router when the declarations end, or when one throws. *)
Fixpoint register_routes (ds : list declaration) (self : C) (r : HttpRouter F) : HttpRouter F * option exn :=
  match ds with
  | [] => (r, None)
  | d :: ds => match declare d self r with Ret r => register_routes ds self r | Throw e => (r, Some e) end
  end.
End http.

(** ** The WebSocket macros *)
Section ws.
Context (sort : list WebsocketRoute → list WebsocketRoute).
Definition KHTTPD_WSROUTE_BIND_HANDLER (m : C → ws_handler) (self : C) : option ws_handler := Some (bind_handler m self).
Definition KHTTPD_WSROUTE_2 (PATH : bytes) (ONMESSAGE : C → ws_handler) (self : C) (r : WebsocketRouter) :=
  add_handler sort (base_path self ++ PATH) (mk_ws_entry None (KHTTPD_WSROUTE_BIND_HANDLER ONMESSAGE self) None None) r.
Definition KHTTPD_WSROUTE_3 (PATH : bytes) (ONMESSAGE ONCLOSE : C → ws_handler) (self : C) (r : WebsocketRouter) :=
  add_handler sort (base_path self ++ PATH)
    (mk_ws_entry None (KHTTPD_WSROUTE_BIND_HANDLER ONMESSAGE self) (KHTTPD_WSROUTE_BIND_HANDLER ONCLOSE self) None) r.
Definition KHTTPD_WSROUTE_4 (PATH : bytes) (ONOPEN ONMESSAGE ONCLOSE : C → ws_handler) (self : C) (r : WebsocketRouter) :=
  add_handler sort (base_path self ++ PATH)
    (mk_ws_entry (KHTTPD_WSROUTE_BIND_HANDLER ONOPEN self) (KHTTPD_WSROUTE_BIND_HANDLER ONMESSAGE self)
       (KHTTPD_WSROUTE_BIND_HANDLER ONCLOSE self) None) r.
Definition KHTTPD_WSROUTE_5 (PATH : bytes) (ONOPEN ONMESSAGE ONCLOSE ONERROR : C → ws_handler) (self : C) (r : WebsocketRouter) :=
  add_handler sort (base_path self ++ PATH)
    (mk_ws_entry (KHTTPD_WSROUTE_BIND_HANDLER ONOPEN self) (KHTTPD_WSROUTE_BIND_HANDLER ONMESSAGE self)
       (KHTTPD_WSROUTE_BIND_HANDLER ONCLOSE self) (KHTTPD_WSROUTE_BIND_HANDLER ONERROR self)) r.
(** [KHTTPD_WSROUTE] chooses by the number of methods; others do not compile. *)
Inductive ws_methods :=
| Methods1 (ONMESSAGE : C → ws_handler)
| Methods2 (ONMESSAGE ONCLOSE : C → ws_handler)
| Methods3 (ONOPEN ONMESSAGE ONCLOSE : C → ws_handler)
| Methods4 (ONOPEN ONMESSAGE ONCLOSE ONERROR : C → ws_handler).
Definition KHTTPD_WSROUTE (PATH : bytes) (ms : ws_methods) (self : C) (r : WebsocketRouter) : option WebsocketRouter :=
  match ms with
  | Methods1 m => KHTTPD_WSROUTE_2 PATH m self r
  | Methods2 m c => KHTTPD_WSROUTE_3 PATH m c self r
  | Methods3 o m c => KHTTPD_WSROUTE_4 PATH o m c self r
  | Methods4 o m c e => KHTTPD_WSROUTE_5 PATH o m c e self r
  end.
Fixpoint register_ws_routes (ds : list (bytes * ws_methods)) (self : C) (r : WebsocketRouter) : option WebsocketRouter :=
  match ds with [] => Some r | (p, ms) :: ds => KHTTPD_WSROUTE p ms self r ≫= register_ws_routes ds self end.
(** The method that gets an event. *)
Definition method_for (k : ws_event) (ms : ws_methods) : option (C → ws_handler) :=
  match k, ms with
  | we_open, Methods3 o _ _ | we_open, Methods4 o _ _ _ => Some o
  | we_message, Methods1 m | we_message, Methods2 m _ | we_message, Methods3 _ m _ | we_message, Methods4 _ m _ _ => Some m
  | we_close, Methods2 _ c | we_close, Methods3 _ _ c | we_close, Methods4 _ _ c _ => Some c
  | we_error, Methods4 _ _ _ e => Some e
  | _, _ => None
  end.
Definition entry_of (ms : ws_methods) (self : C) : WebsocketRouteEntry :=
  let slot k := (λ m, bind_handler m self) <$> method_for k ms in mk_ws_entry (slot we_open) (slot we_message) (slot we_close) (slot we_error).

(** Whatever the number of methods, each reaches its own slot. *)
Lemma wsroute_is_add p ms self r : KHTTPD_WSROUTE p ms self r = add_handler sort (base_path self ++ p) (entry_of ms self) r.
Proof. by destruct ms. Qed.
Lemma register_ws_routes_represents `{!StdSort ws_more_specific sort} ds self r s :
  represents r s →
  ∃ r', register_ws_routes ds self r = Some r' ∧
    represents r' (fold_left (λ s d, spec_do s (AddHandler (base_path self ++ d.1) (entry_of d.2 self))) ds s).
Proof.
  revert r s. induction ds as [|[p ms] ds IH]; intros r s Hr; cbn [register_ws_routes fold_left]; [by exists r|].
  rewrite wsroute_is_add. destruct (add_handler_represents sort (base_path self ++ p) (entry_of ms self) r s Hr) as (r1 & -> & Hr1).
  by apply IH.
Qed.
End ws.

(** ** What the HTTP declarations register *)
Definition declared_path (d : declaration) (self : C) : bytes :=
  base_path self ++ match d with Route _ p _ | DocumentedRoute _ p _ _ | TypedRoute _ p _ _ | DocumentedTypedRoute _ p _ _ => p end.
Definition declared_verb (d : declaration) : verb :=
  verb_of match d with Route v _ _ | DocumentedRoute v _ _ _ | TypedRoute v _ _ _ | DocumentedTypedRoute v _ _ _ => v end.
Definition declared_handler (d : declaration) (self : C) : M F unit :=
  match d with
  | Route _ _ m | DocumentedRoute _ _ m _ => m self
  | TypedRoute _ _ T m => handler_of (Controlled T self m)
  | DocumentedTypedRoute _ _ k _ => handler_of (callable_of k self)
  end.
Definition declared_parameters (d : declaration) (self : C) : list RouteParameterDocumentation :=
  match d with DocumentedTypedRoute _ _ k _ => parameters_of (callable_of k self) | _ => [] end.
(** A declaration the router takes: its path can carry the router's base path, and its
    descriptors are well formed. *)
Definition accepted (base : bytes) (d : declaration) (self : C) : Prop :=
  (base = [] ∨ starts_with (str "/") (declared_path d self) = true) ∧
  typed_parameters_ok (pp_param_names (http_parse_path_pattern (declared_path d self))) (declared_parameters d self).
#[export] Instance accepted_dec base d self : Decision (accepted base d self).
Proof. unfold accepted, typed_parameters_ok. apply _. Defined.
(** The path in the table: a lone slash after a base path is dropped. *)
Definition full_path (base p : bytes) : bytes :=
  if bool_decide (base = []) then p else base ++ (if bool_decide (p = str "/") then [] else p).
(** The last of the declarations for a path and a verb. *)
Fixpoint last_declared (base : bytes) (ds : list declaration) (self : C) (p : bytes) (m : verb) : option (M F unit) :=
  match ds with
  | [] => None
  | d :: ds =>
      match last_declared base ds self p m with
      | Some h => Some h
      | None => if bool_decide (p = full_path base (declared_path d self) ∧ m = declared_verb d) then Some (declared_handler d self) else None
      end
  end.
End controller.

Section registers.
Context {F : Type} `{HttpFields F} `{Platform} `{Verbs} {C : Type} (base_path : C → bytes).
Context (sort : list (RouteEntry F) → list (RouteEntry F)) `{!StdSort (more_specific (F := F)) sort}.
Implicit Types (r : HttpRouter F) (d : declaration (F := F) (C := C)) (ds : list (declaration (F := F) (C := C))) (self : C).

Lemma apply_base_path_spec r p :
  let carries := rt_base_path r = [] ∨ starts_with (str "/") p = true in
  (carries ∧ apply_base_path r p = Ret (full_path (rt_base_path r) p)) ∨
  (~ carries ∧ ∃ what, apply_base_path r p = Throw (InvalidArgument what)).
Proof.
  intros carries. unfold carries, apply_base_path, full_path. destruct (decide (rt_base_path r = [])) as [Hb|Hb].
  { left. rewrite !bool_decide_eq_true_2 by done. auto. }
  rewrite !(bool_decide_eq_false_2 (rt_base_path r = [])) by done. destruct p as [|c t].
  { right. split; [|eauto]. by intros [?|?]. }
  change (starts_with (str "/") (c :: t)) with (bool_decide ("/"%char = c) && true). rewrite andb_true_r, bool_decide_eq_true.
  destruct (decide (c = "/"%char)) as [->|Hc].
  - left. rewrite bool_decide_eq_true_2 by done. auto.
  - right. rewrite bool_decide_eq_false_2 by done. split; [|eauto]. intros [?|?]; congruence.
Qed.

(** A macro is a plain registration or an overload. *)
Lemma declare_spec d self r :
  (declared_parameters d self = [] ∧ ∃ doc, declare base_path sort d self r =
     add_route sort (declared_path base_path d self) (declared_verb d) (declared_handler d self) None None true doc [] r) ∨
  (∃ v k doc, declared_parameters d self = parameters_of k ∧ declared_handler d self = handler_of k ∧ declared_verb d = verb_of v ∧
     declare base_path sort d self r = overload sort v k doc (declared_path base_path d self) r).
Proof.
  destruct d as [[]|v p m doc|v p T m|v p k doc]; [by left; eauto..|left; by eauto| |].
  - right. by exists v, (Controlled T self m), None.
  - right. by exists v, (callable_of k self), doc.
Qed.
Lemma declare_accepted d self r :
  table_ok (rt_routes r) → accepted base_path (rt_base_path r) d self →
  ∃ r', declare base_path sort d self r = Ret r' ∧ table_ok (rt_routes r') ∧ rt_base_path r' = rt_base_path r ∧
    ∀ k' p' m' h', registered k' (rt_routes r') p' m' h' ↔
      if bool_decide (k' = KSync ∧ p' = full_path (rt_base_path r) (declared_path base_path d self) ∧ m' = declared_verb d)
      then h' = declared_handler d self else registered k' (rt_routes r) p' m' h'.
Proof.
  intros Hok (Hc & Hps). destruct (apply_base_path_spec r (declared_path base_path d self)) as [(_ & Hp)|(Hn & _)]; [|done].
  destruct (declare_spec d self r) as [(_ & doc & ->)|(v & k & doc & Hk & -> & -> & ->)].
  - destruct (add_route_registers sort r _ _ (declared_verb d) (declared_handler d self) None None true doc [] Hok Hp)
      as (r' & ? & ? & ? & ? & _). by exists r'.
  - rewrite Hk in Hps. destruct (overload_registers sort r v k doc _ _ Hok Hp Hps) as (r' & ? & ? & ? & ? & _). by exists r'.
Qed.
Lemma declare_refused d self r :
  ~ accepted base_path (rt_base_path r) d self → ∃ what, declare base_path sort d self r = Throw (InvalidArgument what).
Proof.
  intros Hn. destruct (apply_base_path_spec r (declared_path base_path d self)) as [(Hc & Hp)|(_ & what & Hp)].
  - assert (~ typed_parameters_ok (pp_param_names (http_parse_path_pattern (declared_path base_path d self))) (declared_parameters d self)) as Hbad
      by (intros ?; by apply Hn).
    destruct (declare_spec d self r) as [(Hps & _)|(v & k & doc & Hk & _ & _ & ->)].
    + destruct Hbad. rewrite Hps. split; constructor.
    + rewrite Hk in Hbad. by apply overload_refuses.
  - destruct (declare_spec d self r) as [(_ & doc & ->)|(v & k & doc & _ & _ & _ & ->)].
    + exists what. unfold add_route. by rewrite Hp.
    + destruct (overload_typed sort v k doc (declared_path base_path d self) r) as (h & _ & _ & ->).
      destruct (typed_registration_checked sort (declared_path base_path d self) (verb_of v) h (default empty_doc doc) r) as [Hgood Hbad].
      destruct (decide (typed_parameters_ok (pp_param_names (http_parse_path_pattern (declared_path base_path d self))) (th_parameters h))) as [Hx|Hx].
      * exists what. rewrite (Hgood Hx). unfold add_route. by rewrite Hp.
      * by apply Hbad.
Qed.

Lemma register_routes_spec ds self r :
  table_ok (rt_routes r) →
  ∃ before after, ds = before ++ after ∧
    let '(r', e) := register_routes base_path sort ds self r in
    table_ok (rt_routes r') ∧ rt_base_path r' = rt_base_path r ∧
    Forall (λ d, accepted base_path (rt_base_path r) d self) before ∧
    match after with
    | [] => e = None
    | d :: _ => ~ accepted base_path (rt_base_path r) d self ∧ ∃ what, e = Some (InvalidArgument what)
    end ∧
    ∀ k' p' m' h', registered k' (rt_routes r') p' m' h' ↔
      match (if bool_decide (k' = KSync) then last_declared base_path (rt_base_path r) before self p' m' else None) with
      | Some h => h' = h | None => registered k' (rt_routes r) p' m' h' end.
Proof.
  revert r. induction ds as [|d ds IH]; intros r Hok; cbn [register_routes].
  { exists [], []. split_and!; try done. intros k' p' m' h'. cbn. by case_bool_decide. }
  destruct (decide (accepted base_path (rt_base_path r) d self)) as [Ha|Ha].
  2: { destruct (declare_refused d self r Ha) as (what & ->). exists [], (d :: ds). split_and!; try done; [by eauto|].
       intros k' p' m' h'. cbn. by case_bool_decide. }
  destruct (declare_accepted d self r Hok Ha) as (r1 & -> & Hok1 & Hb1 & Hreg1).
  destruct (IH r1 Hok1) as (before & after & -> & Hspec). exists (d :: before), after. split; [done|].
  destruct (register_routes base_path sort (before ++ after) self r1) as [r' e]. rewrite Hb1 in *.
  destruct Hspec as (? & ? & ? & ? & Hreg). split_and!; [done|done|by constructor|done|].
  intros k' p' m' h'. rewrite Hreg. cbn [last_declared]. specialize (Hreg1 k' p' m' h').
  destruct (decide (k' = KSync)) as [->|Hk].
  - rewrite bool_decide_eq_true_2 by done. destruct (last_declared _ _ _ _ _ _); [done|]. rewrite Hreg1.
    repeat case_bool_decide; naive_solver.
  - rewrite bool_decide_eq_false_2 in Hreg1 by naive_solver. by rewrite bool_decide_eq_false_2.
Qed.
End registers.

(** C27: [register_routes] of a controller, on any well-formed router. The
    declarations take effect one after the other up to the first that the router
    refuses (its path cannot carry the router's base path, or its descriptors are ill
    formed), which throws [invalid_argument] and ends them; there is none iff
    no exception leaves. After that, under the router's and the controller's base paths, every
    path and verb has the handler of the last declaration made for it, called on
    this controller, and everything else is as it was. On the WebSocket router no declaration is
    refused, and each of the one to four methods named gets exactly its event. *)
Theorem controller_registers {F} `{HttpFields F} `{Platform} `{Verbs} {C} (base_path : C → bytes)
    sort `{!StdSort (more_specific (F := F)) sort} ws_sort `{!StdSort ws_more_specific ws_sort} ds wds self (r : HttpRouter F) w s :
  table_ok (rt_routes r) → represents w s →
  (∃ before after, ds = before ++ after ∧
    let '(r', e) := register_routes base_path sort ds self r in
    table_ok (rt_routes r') ∧ rt_base_path r' = rt_base_path r ∧
    Forall (λ d, accepted base_path (rt_base_path r) d self) before ∧
    match after with
    | [] => e = None
    | d :: _ => ~ accepted base_path (rt_base_path r) d self ∧ ∃ what, e = Some (InvalidArgument what)
    end ∧
    ∀ k' p' m' h', registered k' (rt_routes r') p' m' h' ↔
      match (if bool_decide (k' = KSync) then last_declared base_path (rt_base_path r) before self p' m' else None) with
      | Some h => h' = h | None => registered k' (rt_routes r) p' m' h' end) ∧
  (∃ w', register_ws_routes base_path ws_sort wds self w = Some w' ∧
    represents w' (fold_left (λ s d, spec_do s (AddHandler (base_path self ++ d.1) (entry_of d.2 self))) wds s)).
Proof. intros Hok Hw. split; [by apply register_routes_spec|by apply register_ws_routes_represents]. Qed.

(** ** A witness: the chat controller of the documentation, under [/chat] *)
Section witness.
#[local] Existing Instance demo_platform.
#[local] Existing Instance demo_verbs.
Definition chat_base (name : bytes) : bytes := str "/chat".
Definition chat_text (text name : bytes) : ws_handler := λ _, [mk_frame ft_text (name ++ text) 1000 []].
Definition chat_routes : list (declaration (F := FieldList.t) (C := bytes)) :=
  [Route Get [] (λ name, demo_handler name); DocumentedRoute Put (str "/rooms/:id") (λ name, demo_handler name) empty_doc].
Definition chat_ws_routes : list (bytes * ws_methods (C := bytes)) :=
  [([], Methods3 (chat_text (str " opened")) (chat_text (str " said")) (chat_text (str " left")))].
Theorem controller_registers_witness :
  (register_routes chat_base (merge_std_sort more_specific) chat_routes (str "ann") router_init).2 = None ∧
  (∃ r', (register_routes chat_base (merge_std_sort more_specific) chat_routes (str "ann") router_init).1 = r' ∧
     registered KSync (rt_routes r') (str "/chat/rooms/:id") verb_put (demo_handler (str "ann"))) ∧
  ∃ w', register_ws_routes chat_base (merge_std_sort ws_more_specific) chat_ws_routes (str "ann") ws_router_init = Some w' ∧
    fmap (λ h, fr_payload <$> run_handler we_close h (message_context [] [] true [] handshake_empty)) (table_map (wrt_routes w') !! str "/chat") = Some [str "ann left"].
Proof.
  assert (table_ok (rt_routes (router_init (F := FieldList.t)))) as Hok by (split_and!; constructor).
  assert (represents ws_router_init (mk_router_spec [] ∅)) as Hw by (split_and!; [done|split_and!; constructor|done]).
  destruct (controller_registers chat_base (merge_std_sort more_specific) (merge_std_sort ws_more_specific) chat_routes chat_ws_routes (str "ann")
    router_init ws_router_init _ Hok Hw) as [(before & after & Hds & Hspec) (w' & Hr & (_ & _ & Hm))].
  assert ((register_routes chat_base (merge_std_sort more_specific) chat_routes (str "ann") router_init).2 = None) as Hnone by reflexivity.
  split; [exact Hnone|]. split.
  - eexists. split; [reflexivity|].
    destruct (register_routes chat_base (merge_std_sort more_specific) chat_routes (str "ann") router_init) as [r' e].
    destruct Hspec as (_ & _ & _ & Ha & Hreg). cbn in Hnone. subst e.
    destruct after as [|d after]; [|by destruct Ha as (_ & what & [=])]. rewrite app_nil_r in Hds. subst before.
    apply Hreg. reflexivity.
  - exists w'. split; [exact Hr|]. rewrite Hm. reflexivity.
Defined.
End witness.

(** Behind a base path the two routers differ. Without a leading slash the HTTP
    router throws, the WebSocket router joins the two; the path [/] is the base path
    itself for the HTTP router only. *)
Definition table_path (path : bytes) : option (list bytes) :=
  (λ w, wr_path <$> wrt_routes w) <$> add_handler (merge_std_sort ws_more_specific) path (mk_ws_entry None None None None) (mk_ws_router (str "/api") []).
Lemma base_path_checks_differ {F} `{HttpFields F} (r : HttpRouter F) :
  rt_base_path r = str "/api" →
  (∃ what, apply_base_path r (str "chat") = Throw (InvalidArgument what)) ∧ table_path (str "chat") = Some [str "/apichat"] ∧
  apply_base_path r (str "/") = Ret (str "/api") ∧ table_path (str "/") = Some [str "/api/"].
Proof. intros Hb. unfold apply_base_path. rewrite Hb. split_and!; [by eexists|reflexivity..]. Qed.
