(* ===== verification/RouterScript.v ===== *)
(** * Registration scripts

    An application registers its routes by a fixed sequence of calls. The route
    table such a script leaves is, up to the order [std::sort] chose, a list of
    rows that can be computed without it ([run_script]); [script_runs] shows
    that the calls succeed and give that table, [dispatch_rows] what a request
    then does. *)
From S2P Require Import Prelude Text PathPattern PathPatternProofs Http HttpContext TypedRoute HttpRouter HttpRouterTheorems HttpDispatch.
Set Default Proof Using "Type*".

Section script.
Context {F : Type} `{HttpFields F} `{Platform} `{Verbs}.
Implicit Types (e : RouteEntry F) (es : list (RouteEntry F)) (r : HttpRouter F).

(** ** Rows *)
Record row := mk_row { row_path : bytes; row_sync : list (verb * M F unit); row_async : list (verb * M F unit); row_stream : list (verb * M F unit) }.
Definition row_of e : row := mk_row (re_path e) (re_handlers e) (re_async e) (re_stream e).
Definition set_row (k : kind) (m : verb) (h : M F unit) (w : row) : row :=
  match k with
  | KSync => mk_row (row_path w) (map_set m h (row_sync w)) (row_async w) (row_stream w)
  | KAsync => mk_row (row_path w) (row_sync w) (map_set m h (row_async w)) (row_stream w)
  | KStream => mk_row (row_path w) (row_sync w) (row_async w) (map_set m h (row_stream w))
  end.
Definition at_path (path : bytes) (g : row → row) (w : row) : row := if bool_decide (row_path w = path) then g w else w.
Definition upsert (path : bytes) (g : row → row) (l : list row) : list row :=
  if existsb (λ w, bool_decide (row_path w = path)) l then at_path path g <$> l else l ++ [g (mk_row path [] [] [])].

Lemma row_of_set k m h e : row_of (set_of k m h e) = set_row k m h (row_of e).
Proof. by destruct k. Qed.
Lemma upsert_perm path g l l' : l ≡ₚ l' → upsert path g l ≡ₚ upsert path g l'.
Proof.
  intros Hp. unfold upsert. assert (existsb (λ w, bool_decide (row_path w = path)) l = existsb (λ w, bool_decide (row_path w = path)) l') as ->.
  { apply eq_true_iff_eq. rewrite !existsb_exists. setoid_rewrite <-list_elem_of_In. by setoid_rewrite Hp. }
  destruct (existsb _ _); by rewrite Hp.
Qed.
Lemma at_path_others path g l : Forall (λ w, row_path w ≠ path) l → at_path path g <$> l = l.
Proof.
  induction 1 as [|w l Hw _ IH]; [done|]. cbn. rewrite IH. unfold at_path. by rewrite bool_decide_eq_false_2.
Qed.
Lemma rows_others path es : Forall (λ e, re_path e ≠ path) es → Forall (λ w, row_path w ≠ path) (row_of <$> es).
Proof. intros Hes. by apply Forall_fmap. Qed.

Context (sort : list (RouteEntry F) → list (RouteEntry F)) `{!StdSort more_specific sort}.
Lemma install_rows k m h path es l :
  table_ok es → row_of <$> es ≡ₚ l →
  ∃ es', install sort path (set_of k m h) es = Ret es' ∧ table_ok es' ∧ row_of <$> es' ≡ₚ upsert path (set_row k m h) l.
Proof.
  intros Hok Hl. destruct (install_registered sort k path m h es Hok) as (es' & Hi & Hok' & _).
  exists es'. split_and!; [done..|]. rewrite <-(upsert_perm _ _ _ _ Hl). clear l Hl. unfold install in Hi.
  destruct (update_entry path (set_of k m h) es) as [es1|] eqn:Hu.
  - injection Hi as ->. apply update_entry_Some in Hu as (a & e & b & -> & -> & Hp & Ha).
    assert (Forall (λ e, re_path e ≠ path) b) as Hb.
    { destruct Hok as (Hnd & _). rewrite fmap_app, fmap_cons, Hp in Hnd. apply NoDup_app in Hnd as (_ & _ & Hnd).
      apply NoDup_cons in Hnd as [Hnb _]. apply Forall_forall. intros x Hx Hpx. apply Hnb. rewrite <-Hpx. by apply list_elem_of_fmap_2. }
    unfold upsert. replace (existsb _ _) with true.
    2: { symmetry. apply existsb_exists. exists (row_of e). rewrite <-list_elem_of_In. split; [set_solver|by apply bool_decide_eq_true]. }
    rewrite !fmap_app, !fmap_cons, !at_path_others by by apply rows_others. unfold at_path.
    rewrite bool_decide_eq_true_2 by done. by rewrite row_of_set.
  - apply update_entry_None in Hu. destruct (new_entry_ok (F := F) path) as (e & Hn & Hp & _ & Hs1 & Hs2 & Hs3). rewrite Hn in Hi.
    injection Hi as <-. rewrite (std_sort_perm (es ++ [set_of k m h e])), fmap_app. unfold upsert.
    replace (existsb _ _) with false.
    2: { symmetry. apply not_true_is_false. rewrite existsb_exists. intros (w & Hw & Hb). apply bool_decide_eq_true in Hb.
         apply list_elem_of_In, list_elem_of_fmap in Hw as (e' & -> & He'). destruct Hu. rewrite <-Hb. by apply (list_elem_of_fmap_2 re_path). }
    cbn. rewrite row_of_set. unfold row_of. by rewrite Hp, Hs1, Hs2, Hs3.
Qed.

(** ** Scripts *)
Inductive action :=
| AddRoute (m : verb) (path : bytes) (h : M F unit) (request_schema response_schema : option json) (doc : RouteDocumentation)
    (parameters : list RouteParameterDocumentation)
| AddStream (m : verb) (path : bytes) (h : M F unit)
| Document (m : verb) (path : bytes) (doc : RouteDocumentation).
Definition act (a : action) r : outcome exn (HttpRouter F) :=
  match a with
  | AddRoute m p h req resp doc ps => add_route sort p m h req resp true doc ps r
  | AddStream m p h => stream sort p m h r
  | Document m p doc => document_route p m doc r
  end.
Fixpoint run_actions (l : list action) r : outcome exn (HttpRouter F) :=
  match l with [] => Ret r | a :: l => act a r ≫= run_actions l end.
Lemma run_actions_app a b r : run_actions (a ++ b) r = run_actions a r ≫= run_actions b.
Proof using Type. revert r. induction a as [|x a IH]; intros r; cbn; [done|]. destruct (act x r); [apply IH|done]. Qed.

(** The table and the documented routes, computed without the router. *)
Record summary := mk_summary { sm_rows : list row; sm_keys : list (bytes * verb) }.
Definition summarise (a : action) (s : summary) : option summary :=
  match a with
  | AddRoute m p h _ _ _ _ => Some (mk_summary (upsert p (set_row KSync m h) (sm_rows s)) ((p, m) :: sm_keys s))
  | AddStream m p h => Some (mk_summary (upsert p (set_row KStream m h) (sm_rows s)) ((p, m) :: sm_keys s))
  | Document m p _ => if bool_decide ((p, m) ∈ sm_keys s) then Some s else None
  end.
Fixpoint run_script (l : list action) (s : summary) : option summary :=
  match l with [] => Some s | a :: l => summarise a s ≫= run_script l end.
Definition key_of (d : RouteDescriptor) : bytes * verb := (de_path d, de_method d).
Definition describes r (s : summary) : Prop :=
  rt_base_path r = [] ∧ table_ok (rt_routes r) ∧ row_of <$> rt_routes r ≡ₚ sm_rows s ∧
  ∀ k, k ∈ sm_keys s → k ∈ key_of <$> rt_descriptors r.
(** Everything but the tables. *)
Definition same_hooks r r' : Prop :=
  rt_interceptors r' = rt_interceptors r ∧ rt_exception_handlers r' = rt_exception_handlers r ∧ rt_unknown r' = rt_unknown r ∧
  rt_not_found r' = rt_not_found r ∧ rt_method_not_allowed r' = rt_method_not_allowed r.

Lemma update_descriptor_keys path m g ds :
  (∀ d, key_of (g d) = key_of d) →
  match update_descriptor path m g ds with
  | Some ds' => key_of <$> ds' = key_of <$> ds
  | None => (path, m) ∉ key_of <$> ds
  end.
Proof.
  intros Hg. induction ds as [|d ds IH]; cbn [update_descriptor]; [apply not_elem_of_nil|].
  unfold same_route. destruct (bool_decide (de_path d = path)) eqn:Hp; cbn [andb].
  - destruct (bool_decide (de_method d = m)) eqn:Hm; [by rewrite !fmap_cons, Hg|]. apply bool_decide_eq_false in Hm.
    destruct (update_descriptor path m g ds); cbn; [by rewrite IH|]. rewrite not_elem_of_cons. split; [|done]. unfold key_of. congruence.
  - apply bool_decide_eq_false in Hp. destruct (update_descriptor path m g ds); cbn; [by rewrite IH|].
    rewrite not_elem_of_cons. split; [|done]. unfold key_of. congruence.
Qed.
Lemma record_keys path m req resp doc ps ds k :
  k = (path, m) ∨ k ∈ key_of <$> ds → k ∈ key_of <$> record_route_descriptor path m req resp doc ps ds.
Proof.
  intros Hk. unfold record_route_descriptor.
  match goal with |- context [update_descriptor _ _ ?g ds] => pose proof (update_descriptor_keys path m g ds (λ d, eq_refl)) as Hu;
    destruct (update_descriptor path m g ds) as [ds'|] eqn:He end.
  - rewrite Hu. destruct Hk as [->|]; [|done]. clear Hu.
    revert ds' He. induction ds as [|d ds IH]; intros ds'; cbn [update_descriptor]; [done|].
    unfold same_route at 1. destruct (bool_decide (de_path d = path) && bool_decide (de_method d = m)) eqn:Hb.
    + apply andb_true_iff in Hb as [<-%bool_decide_eq_true <-%bool_decide_eq_true]. intros _. by left.
    + destruct (update_descriptor _ _ _ ds) as [ds1|]; [|done]. intros _. right. by eapply IH.
  - rewrite fmap_app, elem_of_app. destruct Hk as [->|]; [right; by left|by left].
Qed.

Lemma act_describes a r s s' :
  describes r s → summarise a s = Some s' → ∃ r', act a r = Ret r' ∧ describes r' s' ∧ same_hooks r r'.
Proof.
  intros (Hb & Hok & Hrows & Hkeys). destruct a as [m p h req resp doc ps|m p h|m p doc]; cbn [summarise act].
  - intros [= <-]. unfold add_route, apply_base_path. rewrite bool_decide_eq_true_2 by done. cbn [mbind outcome_bind].
    destruct (install_rows KSync m h p _ _ Hok Hrows) as (es & Hi & Hok' & Hrows'). cbn [set_of] in Hi. rewrite Hi.
    eexists. split; [done|]. split; [|done]. split_and!; [done..|]. cbn. intros k [->|Hk]%elem_of_cons; apply record_keys; auto.
  - intros [= <-]. unfold stream, apply_base_path. rewrite bool_decide_eq_true_2 by done. cbn [mbind outcome_bind].
    destruct (install_rows KStream m h p _ _ Hok Hrows) as (es & Hi & Hok' & Hrows'). cbn [set_of] in Hi. rewrite Hi.
    eexists. split; [done|]. split; [|done]. split_and!; [done..|]. cbn. intros k [->|Hk]%elem_of_cons; apply record_keys; auto.
  - case_bool_decide as Hin; [|done]. intros [= <-]. apply Hkeys in Hin. unfold document_route.
    match goal with |- context [update_descriptor _ _ ?g _] => pose proof (update_descriptor_keys p m g (rt_descriptors r) (λ d, eq_refl)) as Hu;
      destruct (update_descriptor p m g (rt_descriptors r)) as [ds'|]; [|done] end.
    eexists. split; [done|]. split; [|done]. split_and!; [done..|]. cbn. by rewrite Hu.
Qed.
(** A script whose documented routes are all registered before runs to the end
    and leaves the table it computes. *)
Lemma script_runs l r s s' :
  describes r s → run_script l s = Some s' → ∃ r', run_actions l r = Ret r' ∧ describes r' s' ∧ same_hooks r r'.
Proof.
  revert r s. induction l as [|a l IH]; intros r s Hd; cbn [run_script run_actions].
  - intros [= <-]. exists r. by split_and!.
  - destruct (summarise a s) as [s1|] eqn:Ha; [|done]. intros Hl. destruct (act_describes a r s s1 Hd Ha) as (r1 & -> & Hd1 & Hh1).
    destruct (IH r1 s1 Hd1 Hl) as (r' & Hr & Hd' & Hh'). exists r'. split_and!; [done..|].
    unfold same_hooks in *. destruct_and!. split_and!; congruence.
Qed.
End script.

(** ** Dispatch on the rows *)
Section dispatch.
Context {F : Type} `{HttpFields F} `{Platform} `{Verbs}.
Implicit Types (r : HttpRouter F) (x : ctx F) (w : row (F := F)).
Definition path_specificity (path : bytes) : Z * Z :=
  let pp := http_parse_path_pattern path in (pp_literal_segments pp, pp_dynamic_segments pp).
Definition row_applicable (m : verb) (p : bytes) w : Prop :=
  (∃ caps, route_matches (row_path w) p caps) ∧ (passes_over m = true → is_Some (find_or_get m (row_sync w))).
Definition serve_row r (path : bytes) (caps : list bytes) (h : M F unit) : M F bool :=
  doM (set_path_params (bind_params (pp_param_names (http_parse_path_pattern path)) caps)) ≫= λ _,
  tryM h (λ ex, handle_exception r (Some ex)) ≫= λ _, mret true.
(** [w] is the only applicable row, or the most specific of them. *)
Definition best_row (m : verb) (p : bytes) (rows : list row) w : Prop :=
  w ∈ rows ∧ row_applicable m p w ∧
  ∀ w', w' ∈ rows → row_applicable m p w' → w' = w ∨ compare_specificity (path_specificity (row_path w)) (path_specificity (row_path w')) = true.

Lemma applicable_row m p (e : RouteEntry F) : applicable m p e ↔ row_applicable m p (row_of e).
Proof.
  unfold applicable, row_applicable. pose proof (find_or_get_serves m (re_handlers e)) as Hf.
  cbn [row_of row_path row_sync]. destruct (find_or_get m (re_handlers e)) as [h|].
  - split; intros [Hm Hp]; (split; [done|]); eauto.
  - split; intros [Hm Hp]; (split; [done|]); intros Hq; destruct (Hp Hq) as [h Hh]; [|done]. by destruct (Hf h).
Qed.
Lemma entry_specificity (e : RouteEntry F) : entry_ok e → specificity e = path_specificity (re_path e).
Proof. intros (_ & _ & Hl & Hd). unfold specificity, path_specificity. by rewrite Hl, Hd. Qed.

Section table.
Context (page : page_parts) r (s : summary) (Hr : describes r s).
Lemma row_entry w : w ∈ sm_rows s ↔ ∃ e, e ∈ rt_routes r ∧ row_of e = w.
Proof using Type*.
  destruct Hr as (_ & _ & Hp & _). rewrite <-Hp, list_elem_of_fmap. naive_solver.
Qed.
Lemma selected_best m p e w : selected m p (rt_routes r) e → best_row m p (sm_rows s) w → row_of e = w.
Proof using Type*.
  intros (He & Ha & Hmax) (Hw & Hwa & Hbest). pose proof (proj1 (row_entry w) Hw) as (e' & He' & Hew).
  destruct (Hbest (row_of e)) as [|Hlt]; [apply row_entry; eauto|by apply applicable_row|done|].
  assert (more_specific e' e = false) as Hno by (apply Hmax; [done|]; apply applicable_row; by rewrite Hew).
  destruct Hr as (_ & (_ & Hok & _) & _). rewrite Forall_forall in Hok. unfold more_specific in Hno.
  rewrite !entry_specificity in Hno by by apply Hok. rewrite <-Hew in Hlt. cbn in Hlt. congruence.
Qed.
(** The best row answers, with the values of its pattern; for a verb other than
    GET and HEAD it does not have, with 405. *)
Lemma dispatch_best static_files x w caps :
  best_row (method x) (path x).1 (sm_rows s) w → (∀ caps', route_matches (row_path w) (path x).1 caps' → caps' = caps) →
  dispatch page r static_files x =
    match find_or_get (method x) (row_sync w) with
    | Some h => serve_row r (row_path w) caps h (path x).2
    | None => (handle_method_not_allowed page r (row_sync w) ≫= λ _, mret true) (path x).2
    end.
Proof using Type*.
  intros Hb Hcaps. pose proof Hr as (_ & Hok & _). pose proof (find_or_get_serves (method x) (row_sync w)) as Hf.
  destruct (dispatch_dispatches page r static_files x Hok) as (result & Hd & ->).
  destruct Hd as [(e & c & h & Hsel & Hm & _ & Hs & ->)|[(e & Hsel & Hno & ->)|(Hnone & _)]].
  - pose proof (selected_best _ _ e w Hsel Hb) as <-. cbn [row_of row_path row_sync] in *. rewrite (Hcaps c Hm).
    destruct (find_or_get _ _) as [h'|]; [|by destruct (Hf h)].
    assert (h' = h) as -> by (unfold serves in *; naive_solver congruence).
    unfold serve, serve_row. destruct Hsel as (He & _). destruct Hok as (_ & Hok & _). rewrite Forall_forall in Hok.
    by destruct (Hok e He) as (_ & -> & _).
  - pose proof (selected_best _ _ e w Hsel Hb) as <-. cbn [row_of row_path row_sync] in *.
    destruct (find_or_get _ _) as [h'|]; [|done]. by destruct (Hno h').
  - exfalso. destruct Hb as (Hw & Ha & _). apply row_entry in Hw as (e & He & <-). apply (Hnone e He). by apply applicable_row.
Qed.
Lemma dispatch_none static_files x :
  (∀ w, w ∈ sm_rows s → ¬ row_applicable (method x) (path x).1 w) →
  dispatch page r static_files x = fall_back page r static_files (path x).2.
Proof using Type*.
  intros Hnone. pose proof Hr as (_ & Hok & _). destruct (dispatch_dispatches page r static_files x Hok) as (result & Hd & ->).
  assert (∀ e, selected (method x) (path x).1 (rt_routes r) e → False) as Hf.
  { intros e (He & Ha & _). apply (Hnone (row_of e)); [apply row_entry; eauto|by apply applicable_row]. }
  destruct Hd as [(e & c & h & Hsel & _)|[(e & Hsel & _)|(_ & ->)]]; [by destruct (Hf e)|by destruct (Hf e)|done].
Qed.
End table.
End dispatch.
