(* ===== verification/ExampleApp.v ===== *)
(** * The example application ([example/main.cpp] and its controllers)

    The program that comes with the library: its handlers are computations on
    the request context, [register_application_routes] is the sequence of calls
    of the source, and [application_dispatch] says which handler a request
    reaches, without the table and its order. What Boost.JSON and Boost.Describe
    do with the three data types is a parameter; page texts that are only
    markup are too. *)
From S2P Require Import Prelude Text Numbers PathPattern PathPatternProofs Http HttpContext TypedRoute HttpRouter HttpRouterTheorems HttpDispatch.
From S2P Require Import TypedOverloads Websocket WebsocketRouting Controllers RouterScript.

(** [std::stoul], base 10: the blanks, an optional sign, the leading digits. *)
Definition stoul_throwing (s : bytes) : outcome exn Z :=
  let s := drop_while isspace s in
  let '(negative, s) := match s with
                        | c :: t => if bool_decide (c = "-"%char) then (true, t)
                                    else if bool_decide (c = "+"%char) then (false, t) else (false, s)
                        | [] => (false, s)
                        end in
  let digits := take_while isdigit s in
  if bool_decide (digits = []) then Throw (InvalidArgument (str "stoul"))
  else match stoull_digits digits with
       | None => Throw (StdException (str "stoul"))
       | Some v => Ret (if negative then u64 (- Z.of_N v) else Z.of_N v)
       end.

(** The data types of [TypedHelloController] as Boost converts them. *)
Record greeting_types := mk_greeting_types {
  CreateGreetingRequest : json → option json;              (** [value_to] *)
  request_name : json → bytes;                             (** its member *)
  GreetingResponse : bytes → json;
  GreetingErrorResponse : bytes → bytes → json;
  request_schema : json; response_schema : json; int_schema : json; bool_schema : json;
  read_order : list nat }.                                 (** of the arguments of [update_greeting] *)
Record pages := mk_pages { home_page : bytes; demo_page_text : bytes }.

Section app.
Context {F : Type} `{HF : HttpFields F} `{PL : Platform} `{VB : Verbs} (T : greeting_types) (texts : pages).
Set Default Proof Using "Type* HF PL VB".
Abbreviation handler := (M F unit).
Definition doc (summary description : string) : RouteDocumentation := mk_doc (str summary) (str description) [] None None.
(** [set_status], [set_content_type], [set_body]: how most handlers end. *)
Definition page_reply (st : status) (content_type text : bytes) : handler :=
  _ ← doM (set_status st); _ ← doM (set_content_type content_type); set_body text.
Definition status_upgrade_required : status := 426%N.
Definition status_created : status := 201%N.

(** ** Controllers *)
(** [HelloController::handle_hello], and the lambda of [/hello]. *)
Definition handle_hello : handler :=
  name ← getM (get_query_param (str "name"));
  page_reply status_ok (str "text/plain") (str "Hello, " ++ default (str "Guest") name ++ str "!").
(** [handle_stream]: the context's part; the chunks are in [StreamController]. *)
Definition handle_stream : handler :=
  num_str ← getM (λ x, (default (str "0") (get_path_param (str "size") x), x));
  _ ← liftM (stoul_throwing num_str);
  _ ← doM (set_status status_ok);
  _ ← doM (set_content_type (str "application/json"));
  doM (chunked (Some 0%N)).
Definition upgrade_page (text : bytes) : handler :=
  _ ← doM (set_status status_upgrade_required);
  _ ← doM (set_header (str "Upgrade") (str "websocket"));
  _ ← doM (set_content_type (str "text/html"));
  set_body text.
Definition echo_page : handler :=
  upgrade_page (str "<h1>WebSocket Echo Endpoint</h1><p>This is a WebSocket endpoint. Please use a WebSocket client to connect.</p>").
Definition chat_page : handler :=
  upgrade_page (str "<h1>WebSocket Chat Endpoint</h1><p>This is a WebSocket chat endpoint. Please use a WebSocket client to connect.</p>").

Definition GreetingValidationError (what : bytes) : exn := DerivedException 0 what.
Definition is_greeting_error (e : exn) : bool := match e with DerivedException 0 _ => true | _ => false end.
Definition create_greeting (_ : unit) (request : json) : M F typed_response :=
  if bool_decide (request_name T request = []) then throwM (GreetingValidationError (str "name must not be empty"))
  else
    let result := mk_result status_created (Some (GreetingResponse T (str "Hello, " ++ request_name T request ++ str "!"))) [] in
    result ← liftM (result_header (str "Location") (str "/typed/greetings/latest") result);
    result ← liftM (result_header (str "X-Example-Handler") (str "typed") result);
    mret (Result result).
(** The arguments arrive as the values of the three descriptors. *)
Definition update_greeting (_ : unit) (values : list pvalue) : M F typed_response :=
  match values with
  | [VInt id; VBody request; VBool excited] =>
      request_id ← getM (λ x, (default (str "none") (get_header (str "X-Request-Id") x), x));
      mret (PlainBody (GreetingResponse T
        (str "Greeting " ++ to_dec_Z id ++ str ": Hello, " ++ request_name T request ++
         (if excited : bool then str "!" else str ".") ++ str " request=" ++ request_id)))
  | _ => throwM (StdException [])                           (** the descriptors yield no other list *)
  end.

(** ** The handlers of [main.cpp] *)
Definition get_home : handler := page_reply status_ok (str "text/html") (home_page texts).
Definition get_info : handler :=
  p ← getM path;
  m ← getM (λ x, (method x, x));
  user_agent ← getM (λ x, (get_header (str "User-Agent") x, x));
  page_reply status_ok (str "text/html")
    (str "<h1>Server Info</h1>" ++ (str "<p>Path: " ++ p ++ str "</p>") ++ (str "<p>Method: " ++ verb_to_string m ++ str "</p>") ++
     match user_agent with
     | Some v => str "<p>User-Agent: " ++ v ++ str "</p>"
     | None => str "<p>User-Agent: Not provided</p>"
     end).
Definition post_json : handler :=
  json_value ← getM get_json;
  match json_value with
  | Some j => page_reply status_ok (str "application/json") (str "Received JSON:" ++ [LF] ++ json_serialize j)
  | None => page_reply status_bad_request (str "text/plain") (str "Invalid JSON or Content-Type not application/json")
  end.
Definition post_form : handler :=
  name ← getM (get_form_param (str "name"));
  email ← getM (get_form_param (str "email"));
  if bool_decide (is_Some name) || bool_decide (is_Some email)
  then page_reply status_ok (str "text/plain")
         (str "Received form data:" ++ [LF] ++ str "Name: " ++ default (str "N/A") name ++ [LF] ++ str "Email: " ++ default (str "N/A") email)
  else page_reply status_bad_request (str "text/plain") (str "Invalid form data or Content-Type not application/x-www-form-urlencoded").
Definition uploaded_file (file : MultipartFile) : bytes :=
  str "Uploaded File: " ++ mf_filename file ++ str " (" ++ to_dec (N.of_nat (length (mf_data file))) ++ str " bytes, type: " ++
  mf_content_type file ++ str ")" ++ [LF].
Definition post_upload : handler :=
  content_type ← getM (λ x, (get_header (str "Content-Type") x, x));
  if bool_decide (is_Some content_type) && contains (str "multipart/form-data") (default [] content_type) then
    description ← getM (get_multipart_field (str "description"));
    files ← getM (get_uploaded_files (str "file"));
    page_reply status_ok (str "text/plain")
      (str "Multipart/form-data received!" ++ [LF] ++
       match description with
       | Some d => str "Description: " ++ d ++ [LF]
       | None => str "Description field not found." ++ [LF]
       end ++
       match files with
       | Some [] => str "No files uploaded for field 'file'." ++ [LF]
       | Some files => files ≫= uploaded_file
       | None => str "File field 'file' not found." ++ [LF]
       end)
  else page_reply status_bad_request (str "text/plain") (str "Content-Type must be multipart/form-data for file uploads.").
Definition path_param (key : bytes) (other : bytes) : M F bytes := getM (λ x, (default other (get_path_param key x), x)).
Definition get_profile : handler := page_reply status_ok (str "text/plain") (str "This is the user's profile page.").
Definition get_user : handler :=
  user_id ← path_param (str "id") (str "unknown");
  page_reply status_ok (str "text/plain") (str "Fetching user with ID: " ++ user_id).
Definition get_item : handler :=
  category ← path_param (str "category") (str "N/A");
  item_id ← path_param (str "item_id") (str "N/A");
  page_reply status_ok (str "text/plain") (str "Fetching item " ++ item_id ++ str " in category " ++ category).
Definition get_file : handler :=
  filepath ← path_param (str "filepath") (str "N/A");
  page_reply status_ok (str "text/plain") (str "Accessing file: " ++ filepath).
Definition get_demo : handler := page_reply status_ok (str "text/html; charset=utf-8") (demo_page_text texts).

(** ** Registration *)
Section registration.
Context (sort : list (RouteEntry F) → list (RouteEntry F)) (ws_sort : list WebsocketRoute → list WebsocketRoute).
(** [register_routes] of a controller as a statement: it may throw. *)
Definition controller_routes (base : bytes) (ds : list (declaration (C := unit))) (r : HttpRouter F) : outcome exn (HttpRouter F) :=
  match register_routes (λ _, base) sort ds tt r with (r, None) => Ret r | (_, Some e) => Throw e end.
Definition HelloController_routes : list (declaration (C := unit)) :=
  [DocumentedRoute Get (str "/hello") (λ _, handle_hello)
     (doc "Controller greeting" "Returns a greeting from a controller-managed route.")].
Definition HelloStreamController_routes : list (declaration (C := unit)) :=
  [DocumentedRoute Get (str "/stream/:size") (λ _, handle_stream)
     (doc "Stream response chunks" "Streams up to 100 JSON chunks for the requested size.")].
Definition HelloWsController_routes : list (declaration (C := unit)) :=
  [DocumentedRoute Get (str "/hellows") (λ _, echo_page)
     (doc "WebSocket echo upgrade" "Explains how to connect to the echo WebSocket endpoint.")].
Definition update_descriptors : list descriptor :=
  [PathParam (TInt true 32) (str "id") (int_schema T); Body (CreateGreetingRequest T) (request_schema T);
   QueryParam TBool (str "excited") (bool_schema T) (Some (VBool false))].
Definition TypedHelloController_routes : list (declaration (C := unit)) :=
  [DocumentedTypedRoute Post (str "/greetings")
     (WholeBody (mk_body_types (CreateGreetingRequest T) (request_schema T) (Some (response_schema T))) create_greeting)
     (Some (doc "Create a greeting" "Validates a name and returns a created greeting with its Location header."));
   DocumentedTypedRoute Put (str "/greetings/{id}")
     (WithParameters (mk_parameter_types (read_order T) (Some (response_schema T))) update_greeting update_descriptors)
     (Some (doc "Update a greeting" "Binds a path value, JSON DTO, query value, and HttpContext."))].
(** [SseDemo::register_routes]; of the stream's handler only that there is one
    (what it sends is [SseDemo]). *)
Definition sse_demo_routes (r : HttpRouter F) : outcome exn (HttpRouter F) :=
  r ← register sort verb_get (str "/events-demo") get_demo
        (doc "SSE browser demo" "Displays connection state and events received from the example SSE stream.") r;
  stream sort (str "/events") verb_get (mret tt) r.
Definition error_result (err_code message : bytes) : typed_response :=
  Result (mk_result status_bad_request (Some (GreetingErrorResponse T err_code message)) []).
Definition map_exceptions (r : HttpRouter F) : HttpRouter F :=
  let r := map_exception is_greeting_error
             (λ _, Ret (error_result (str "INVALID_GREETING") (str "The greeting name must not be empty"))) r in
  let r := map_exception (λ e, match e with TypedRequestValidationError => true | _ => false end)
             (λ _, Ret (error_result (str "INVALID_TYPED_REQUEST") (str "Request body must be valid JSON matching the expected schema"))) r in
  map_exception (λ e, match e with TypedParameterValidationError _ => true | _ => false end)
    (λ e, Ret (error_result (str "INVALID_ROUTE_PARAMETER") (match e with TypedParameterValidationError what => what | _ => [] end))) r.
Definition application_routes (r : HttpRouter F) : outcome exn (HttpRouter F) :=
  r ← register sort verb_get (str "/") get_home
        (doc "Example service home" "Links to the sample HTTP, streaming, WebSocket, and API documentation endpoints.") r;
  r ← get sort (str "/hello") handle_hello r;
  r ← get sort (str "/info") get_info r;
  r ← post sort (str "/api/json") post_json r;
  r ← post sort (str "/api/form") post_form r;
  r ← post sort (str "/api/upload") post_upload r;
  r ← get sort (str "/users/profile") get_profile r;
  r ← get sort (str "/users/:id") get_user r;
  r ← get sort (str "/items/:category/id/:item_id") get_item r;
  r ← get sort (str "/files/:filepath") get_file r;
  r ← get sort (str "/ws") echo_page r;
  get sort (str "/chat") chat_page r.
Definition document_application (r : HttpRouter F) : outcome exn (HttpRouter F) :=
  r ← document_route (str "/hello") verb_get (doc "Greet a visitor" "Returns a text greeting for the optional name query parameter.") r;
  r ← document_route (str "/info") verb_get (doc "Inspect the request" "Shows the method, path, and User-Agent received by the server.") r;
  r ← document_route (str "/api/json") verb_post (doc "Echo JSON" "Accepts an application/json body and returns the serialized payload.") r;
  r ← document_route (str "/api/form") verb_post (doc "Submit a form" "Reads name and email fields from an URL-encoded form body.") r;
  r ← document_route (str "/api/upload") verb_post (doc "Upload multipart data" "Reads a multipart description and optional uploaded file.") r;
  r ← document_route (str "/users/profile") verb_get (doc "Read the current profile" "Returns the static profile example before the dynamic user route.") r;
  r ← document_route (str "/users/:id") verb_get (doc "Read a user" "Returns a user identifier captured from the path.") r;
  r ← document_route (str "/items/:category/id/:item_id") verb_get (doc "Read an item" "Shows multiple path parameters in one route.") r;
  r ← document_route (str "/files/:filepath") verb_get (doc "Read a file path" "Demonstrates a final greedy path parameter.") r;
  r ← document_route (str "/ws") verb_get (doc "WebSocket echo upgrade" "Returns upgrade guidance for the echo WebSocket endpoint.") r;
  document_route (str "/chat") verb_get (doc "WebSocket chat upgrade" "Returns upgrade guidance for the chat WebSocket endpoint.") r.
(** The HTTP half of [register_application_routes]; the two routers share nothing. *)
Definition register_application_routes (r : HttpRouter F) : outcome exn (HttpRouter F) :=
  let r := map_exceptions r in
  r ← controller_routes (str "/hello") HelloController_routes r;
  r ← controller_routes [] HelloStreamController_routes r;
  r ← controller_routes [] HelloWsController_routes r;
  r ← controller_routes (str "/typed") TypedHelloController_routes r;
  r ← sse_demo_routes r;
  r ← application_routes r;
  document_application r.

(** *** The WebSocket half: each handler answers with text frames. *)
Definition send_text (message : bytes) (text : bool) : list WebsocketFrame := [mk_frame (if text then ft_text else ft_binary) message 1000 []].
Definition echo_handlers : WebsocketRouteEntry :=
  mk_ws_entry (Some (λ _, send_text (str "Welcome to the echo service!") true))
    (Some (λ c, send_text (str "Echo: " ++ wc_message c) (wc_is_text c))) (Some (λ _, [])) (Some (λ _, [])).
Definition chat_handlers : WebsocketRouteEntry :=
  mk_ws_entry (Some (λ _, send_text (str "Welcome to the chat!") true))
    (Some (λ c, send_text (str "You said: " ++ wc_message c) (wc_is_text c))) (Some (λ _, [])) (Some (λ _, [])).
Definition register_websocket_routes (r : WebsocketRouter) : option WebsocketRouter :=
  r ← add_handler ws_sort (str "/hellows") echo_handlers r;
  r ← add_handler ws_sort (str "/ws") echo_handlers r;
  add_handler ws_sort (str "/chat") chat_handlers r.

(** *** The same calls as a script *)
Definition greetings_handler : TypedRouteHandler F :=
  make_typed_member_handler (mk_body_types (CreateGreetingRequest T) (request_schema T) (Some (response_schema T))) tt create_greeting.
Definition update_handler : TypedRouteHandler F :=
  make_parameterized_member_handler (mk_parameter_types (read_order T) (Some (response_schema T))) tt update_greeting update_descriptors.
Definition plain (m : verb) (path : bytes) (h : handler) (d : RouteDocumentation) : action (F := F) := AddRoute m path h None None d [].
Definition controller_actions : list (action (F := F)) :=
  [plain verb_get (str "/hello/hello") handle_hello (doc "Controller greeting" "Returns a greeting from a controller-managed route.");
   plain verb_get (str "/stream/:size") handle_stream (doc "Stream response chunks" "Streams up to 100 JSON chunks for the requested size.");
   plain verb_get (str "/hellows") echo_page (doc "WebSocket echo upgrade" "Explains how to connect to the echo WebSocket endpoint.");
   AddRoute verb_post (str "/typed/greetings") (th_handler greetings_handler) (th_request_schema greetings_handler) (th_response_schema greetings_handler)
     (doc "Create a greeting" "Validates a name and returns a created greeting with its Location header.") (th_parameters greetings_handler);
   AddRoute verb_put (str "/typed/greetings/{id}") (th_handler update_handler) (th_request_schema update_handler) (th_response_schema update_handler)
     (doc "Update a greeting" "Binds a path value, JSON DTO, query value, and HttpContext.") (th_parameters update_handler);
   plain verb_get (str "/events-demo") get_demo (doc "SSE browser demo" "Displays connection state and events received from the example SSE stream.");
   AddStream verb_get (str "/events") (mret tt)].
Definition application_actions : list (action (F := F)) :=
  [plain verb_get (str "/") get_home (doc "Example service home" "Links to the sample HTTP, streaming, WebSocket, and API documentation endpoints.");
   plain verb_get (str "/hello") handle_hello empty_doc; plain verb_get (str "/info") get_info empty_doc;
   plain verb_post (str "/api/json") post_json empty_doc; plain verb_post (str "/api/form") post_form empty_doc;
   plain verb_post (str "/api/upload") post_upload empty_doc; plain verb_get (str "/users/profile") get_profile empty_doc;
   plain verb_get (str "/users/:id") get_user empty_doc; plain verb_get (str "/items/:category/id/:item_id") get_item empty_doc;
   plain verb_get (str "/files/:filepath") get_file empty_doc; plain verb_get (str "/ws") echo_page empty_doc;
   plain verb_get (str "/chat") chat_page empty_doc].
Definition document_actions : list (action (F := F)) :=
  [Document verb_get (str "/hello") (doc "Greet a visitor" "Returns a text greeting for the optional name query parameter.");
   Document verb_get (str "/info") (doc "Inspect the request" "Shows the method, path, and User-Agent received by the server.");
   Document verb_post (str "/api/json") (doc "Echo JSON" "Accepts an application/json body and returns the serialized payload.");
   Document verb_post (str "/api/form") (doc "Submit a form" "Reads name and email fields from an URL-encoded form body.");
   Document verb_post (str "/api/upload") (doc "Upload multipart data" "Reads a multipart description and optional uploaded file.");
   Document verb_get (str "/users/profile") (doc "Read the current profile" "Returns the static profile example before the dynamic user route.");
   Document verb_get (str "/users/:id") (doc "Read a user" "Returns a user identifier captured from the path.");
   Document verb_get (str "/items/:category/id/:item_id") (doc "Read an item" "Shows multiple path parameters in one route.");
   Document verb_get (str "/files/:filepath") (doc "Read a file path" "Demonstrates a final greedy path parameter.");
   Document verb_get (str "/ws") (doc "WebSocket echo upgrade" "Returns upgrade guidance for the echo WebSocket endpoint.");
   Document verb_get (str "/chat") (doc "WebSocket chat upgrade" "Returns upgrade guidance for the chat WebSocket endpoint.")].

Lemma controller_routes_cons base d ds r :
  controller_routes base (d :: ds) r = declare (λ _, base) sort d tt r ≫= controller_routes base ds.
Proof.
  unfold controller_routes. cbn [register_routes]. destruct (declare _ _ d tt r) as [r1|]; [|done]. reflexivity.
Qed.
Lemma typed_action path m (h : TypedRouteHandler F) d r :
  typed_parameters_ok (pp_param_names (http_parse_path_pattern path)) (th_parameters h) →
  add_typed_route sort path m h d r =
  act sort (AddRoute m path (th_handler h) (th_request_schema h) (th_response_schema h) d (th_parameters h)) r.
Proof. intros Hok. by destruct (typed_registration_checked sort path m h d r) as [-> _]. Qed.
Lemma controller_one base d r : controller_routes base [d] r = declare (λ _, base) sort d tt r.
Proof. rewrite controller_routes_cons. by destruct (declare _ _ d tt r). Qed.
Lemma typed_controller_run r :
  controller_routes (str "/typed") TypedHelloController_routes r = run_actions sort (take 2 (drop 3 controller_actions)) r.
Proof.
  unfold TypedHelloController_routes. rewrite controller_routes_cons.
  change (declare (λ _, str "/typed") sort (DocumentedTypedRoute Post _ _ _) tt r)
    with (add_typed_route sort (str "/typed/greetings") verb_post greetings_handler
            (doc "Create a greeting" "Validates a name and returns a created greeting with its Location header.") r).
  rewrite typed_action by (split; constructor). cbn [drop take controller_actions run_actions].
  destruct (act sort _ r) as [r1|]; [|done]. cbn [mbind outcome_bind]. rewrite controller_one.
  change (declare (λ _, str "/typed") sort (DocumentedTypedRoute Put _ _ _) tt r1)
    with (add_typed_route sort (str "/typed/greetings/{id}") verb_put update_handler
            (doc "Update a greeting" "Binds a path value, JSON DTO, query value, and HttpContext.") r1).
  rewrite typed_action; [by destruct (act sort _ r1)|]. split.
  - change (th_parameters update_handler) with [mk_param_doc (str "id") loc_path true (int_schema T);
      mk_param_doc (str "excited") loc_query false (json_emplace (str "default") (JBool false) (bool_schema T))].
    repeat constructor; try done; intros _; by left.
  - change (NoDup [(loc_path, str "id"); (loc_query, str "excited")]). apply (bool_decide_unpack _). by vm_compute.
Qed.
(** Two sequences of calls that begin with the same one. *)
Ltac same_call :=
  lazymatch goal with
  | |- ?m ≫= _ = ?m' ≫= _ => change m' with m; destruct m as [?r|]; [cbn [mbind outcome_bind run_actions]|reflexivity]
  end.
Lemma bind_last (m : outcome exn (HttpRouter F)) : m = (m ≫= λ r : HttpRouter F, Ret r).
Proof. by destruct m. Qed.
Lemma controllers_run r (k : HttpRouter F → outcome exn (HttpRouter F)) :
  (r ← controller_routes (str "/hello") HelloController_routes r; r ← controller_routes [] HelloStreamController_routes r;
   r ← controller_routes [] HelloWsController_routes r; r ← controller_routes (str "/typed") TypedHelloController_routes r;
   r ← sse_demo_routes r; k r) = run_actions sort controller_actions r ≫= k.
Proof.
  change controller_actions with (take 1 controller_actions ++ take 1 (drop 1 controller_actions) ++ take 1 (drop 2 controller_actions) ++
    take 2 (drop 3 controller_actions) ++ drop 5 controller_actions).
  rewrite run_actions_app, bind_assoc. cbn [take controller_actions run_actions]. rewrite <-bind_last.
  unfold HelloController_routes at 1. rewrite controller_one. same_call.
  rewrite run_actions_app, bind_assoc. cbn [drop take controller_actions run_actions]. rewrite <-bind_last.
  unfold HelloStreamController_routes at 1. rewrite controller_one. same_call.
  rewrite run_actions_app, bind_assoc. cbn [drop take controller_actions run_actions]. rewrite <-bind_last.
  unfold HelloWsController_routes at 1. rewrite controller_one. same_call.
  rewrite run_actions_app, bind_assoc, typed_controller_run. same_call.
  cbn [drop controller_actions run_actions]. unfold sse_demo_routes. rewrite !bind_assoc. same_call.
  rewrite <-bind_last. reflexivity.
Qed.
Lemma application_run r : application_routes r = run_actions sort application_actions r.
Proof. unfold application_routes. cbn [run_actions application_actions]. do 11 same_call. apply bind_last. Qed.
Lemma document_run r : document_application r = run_actions sort document_actions r.
Proof. unfold document_application. cbn [run_actions document_actions]. do 10 same_call. apply bind_last. Qed.
Lemma registration_run r :
  register_application_routes r = run_actions sort (controller_actions ++ application_actions ++ document_actions) (map_exceptions r).
Proof.
  unfold register_application_routes. rewrite controllers_run, run_actions_app. destruct (run_actions sort controller_actions _) as [r1|]; [|done].
  cbn [mbind outcome_bind]. rewrite run_actions_app, application_run. destruct (run_actions sort application_actions r1) as [r2|]; [|done].
  apply document_run.
Qed.

(** *** The table of the application *)
Definition entry (path : bytes) (m : verb) (h : handler) : row (F := F) := mk_row path [(m, h)] [] [].
Definition app_rows : list (row (F := F)) :=
  [entry (str "/hello/hello") verb_get handle_hello; entry (str "/stream/:size") verb_get handle_stream;
   entry (str "/hellows") verb_get echo_page; entry (str "/typed/greetings") verb_post (th_handler greetings_handler);
   entry (str "/typed/greetings/{id}") verb_put (th_handler update_handler); entry (str "/events-demo") verb_get get_demo;
   mk_row (str "/events") [] [] [(verb_get, mret tt)]; entry (str "/") verb_get get_home; entry (str "/hello") verb_get handle_hello;
   entry (str "/info") verb_get get_info; entry (str "/api/json") verb_post post_json; entry (str "/api/form") verb_post post_form;
   entry (str "/api/upload") verb_post post_upload; entry (str "/users/profile") verb_get get_profile;
   entry (str "/users/:id") verb_get get_user; entry (str "/items/:category/id/:item_id") verb_get get_item;
   entry (str "/files/:filepath") verb_get get_file; entry (str "/ws") verb_get echo_page; entry (str "/chat") verb_get chat_page].
Lemma app_summary :
  ∃ keys, run_script (controller_actions ++ application_actions ++ document_actions) (mk_summary [] []) = Some (mk_summary app_rows keys).
Proof.
  unfold app_rows, controller_actions, application_actions, document_actions, plain, entry.
  generalize handle_hello, handle_stream, echo_page, chat_page, get_demo, get_home, get_info, post_json, post_form, post_upload,
    get_profile, get_user, get_item, get_file.
  generalize (th_handler greetings_handler), (th_request_schema greetings_handler), (th_response_schema greetings_handler), (th_parameters greetings_handler).
  generalize (th_handler update_handler), (th_request_schema update_handler), (th_response_schema update_handler), (th_parameters update_handler).
  intros. eexists. vm_compute. reflexivity.
Qed.
Lemma registration_succeeds `{!StdSort (more_specific (F := F)) sort} :
  ∃ r s, register_application_routes router_init = Ret r ∧ describes r s ∧ sm_rows s = app_rows ∧ same_hooks (map_exceptions router_init) r.
Proof.
  rewrite registration_run. destruct app_summary as [keys Hs].
  destruct (script_runs sort (controller_actions ++ application_actions ++ document_actions) (map_exceptions router_init) (mk_summary [] []) (mk_summary app_rows keys)) as (r & Hr & Hd & Hh); [|exact Hs|].
  - split_and!; [done|split_and!; constructor|done|]. intros k Hk. destruct (not_elem_of_nil _ Hk).
  - exists r, (mk_summary app_rows keys). exact (conj Hr (conj Hd (conj eq_refl Hh))).
Qed.
End registration.
End app.
Set Default Proof Using "Type*".

(** ** Which route a path reaches *)
Definition fixed_paths : list bytes :=
  [str "/"; str "/hello"; str "/hello/hello"; str "/info"; str "/hellows"; str "/ws"; str "/chat"; str "/events"; str "/events-demo";
   str "/users/profile"; str "/api/json"; str "/api/form"; str "/api/upload"; str "/typed/greetings"].
Definition after (literal p : bytes) : option bytes := if starts_with literal p then Some (drop (length literal) p) else None.
(** The last parameter of a pattern takes the rest of the line, slashes included. *)
Definition last_parameter (literal p : bytes) : option (list bytes) :=
  match after literal p with Some v => if forallb any_char v then Some [v] else None | None => None end.
Definition item_parameters (p : bytes) : option (list bytes) :=
  match after (str "/items/") p with
  | None => None
  | Some rest =>
      let category := take_while not_slash rest in
      if bool_decide (category = []) then None
      else match last_parameter (str "/id/") (drop (length category) rest) with Some item => Some (category :: item) | None => None end
  end.
Definition parameters_at (pattern p : bytes) : option (list bytes) :=
  if bool_decide (pattern = str "/stream/:size") then last_parameter (str "/stream/") p
  else if bool_decide (pattern = str "/users/:id") then last_parameter (str "/users/") p
  else if bool_decide (pattern = str "/files/:filepath") then last_parameter (str "/files/") p
  else if bool_decide (pattern = str "/typed/greetings/{id}") then last_parameter (str "/typed/greetings/") p
  else if bool_decide (pattern = str "/items/:category/id/:item_id") then item_parameters p
  else if bool_decide (p = pattern) then Some [] else None.
(** The pattern and the values of its parameters. *)
Definition route_for (p : bytes) : option (bytes * list bytes) :=
  if bool_decide (p ∈ fixed_paths) then Some (p, [])
  else head (omap (λ pattern, pair pattern <$> parameters_at pattern p)
         [str "/stream/:size"; str "/users/:id"; str "/files/:filepath"; str "/typed/greetings/{id}"; str "/items/:category/id/:item_id"]).

Lemma after_spec literal p v : after literal p = Some v ↔ p = literal ++ v.
Proof.
  unfold after. destruct (starts_with literal p) eqn:Hs.
  - apply starts_with_spec in Hs as [t ->]. rewrite drop_app_length. split; [by intros [= ->]|]. intros Hv. f_equal. by apply app_inv_head in Hv.
  - split; [done|]. intros ->. by rewrite starts_with_app in Hs.
Qed.
Lemma last_parameter_spec literal p caps :
  last_parameter literal p = Some caps ↔ ∃ v, p = literal ++ v ∧ Forall (λ c, any_char c = true) v ∧ caps = [v].
Proof.
  unfold last_parameter. destruct (after literal p) as [v|] eqn:Ha.
  - apply after_spec in Ha as ->. destruct (forallb any_char v) eqn:Hf.
    + split; [intros [= <-]; exists v; split_and!; [done|by apply forallb_Forall|done]|]. intros (w & Hw & _ & ->). apply app_inv_head in Hw as ->. done.
    + split; [done|]. intros (w & Hw & Hany & _). apply app_inv_head in Hw as ->. apply forallb_Forall in Hany. congruence.
  - split; [done|]. intros (w & Hw & _). assert (after literal p = Some w) by by apply after_spec. congruence.
Qed.
Lemma category_unique v t : Forall (λ c, not_slash c = true) v → take_while not_slash (v ++ str "/" ++ t) = v.
Proof. induction 1 as [|c v Hc _ IH]; [done|]. cbn [app take_while]. by rewrite Hc, IH. Qed.
Lemma item_parameters_spec p caps :
  item_parameters p = Some caps ↔
  ∃ c i, p = str "/items/" ++ c ++ str "/id/" ++ i ∧ c ≠ [] ∧ Forall (λ c, not_slash c = true) c ∧ Forall (λ c, any_char c = true) i ∧ caps = [c; i].
Proof.
  unfold item_parameters. split.
  - destruct (after _ p) as [rest|] eqn:Ha; [|done]. apply after_spec in Ha as ->. case_bool_decide as Hne; [done|].
    destruct (take_while_spec not_slash rest) as (t & Hr & Hc & _).
    rewrite Hr at 2. rewrite drop_app_length. destruct (last_parameter _ t) as [item|] eqn:Hl; [|done]. intros [= <-].
    apply last_parameter_spec in Hl as (i & -> & Hi & ->). exists (take_while not_slash rest), i. by rewrite Hr at 1; split_and!.
  - intros (c & i & -> & Hne & Hc & Hi & ->). rewrite (proj2 (after_spec _ _ (c ++ str "/id/" ++ i)) eq_refl).
    change (str "/id/" ++ i) with (str "/" ++ str "id/" ++ i). rewrite category_unique by done. rewrite bool_decide_eq_false_2 by done.
    rewrite drop_app_length. change (str "/" ++ str "id/" ++ i) with (str "/id/" ++ i).
    by rewrite (proj2 (last_parameter_spec _ _ [i]) (ex_intro _ i (conj eq_refl (conj Hi eq_refl)))).
Qed.

Definition dynamic_patterns : list bytes :=
  [str "/stream/:size"; str "/users/:id"; str "/files/:filepath"; str "/typed/greetings/{id}"; str "/items/:category/id/:item_id"].
Lemma fixed_route_matches path p caps :
  params_of match_http_param path = ([], path) → route_matches path p caps ↔ p = path ∧ caps = [].
Proof.
  intros Hp. unfold route_matches. rewrite Hp. split; [by inversion 1|]. intros [-> ->]. constructor.
Qed.
Lemma last_route_matches pattern literal name p caps :
  params_of match_http_param pattern = ([(literal, name)], []) →
  route_matches pattern p caps ↔ ∃ v, p = literal ++ v ∧ Forall (λ c, any_char c = true) v ∧ caps = [v].
Proof.
  intros Hp. unfold route_matches. rewrite Hp. split.
  - inversion 1 as [|? ? ? v rest Hv Hrest|? ? ? ? ? ? ? Hne]; [|done]. inversion Hrest; subst. exists v. by rewrite app_nil_r.
  - intros (v & -> & Hv & ->). rewrite <-(app_nil_r v) at 1. by constructor; [|constructor].
Qed.
Lemma item_route_matches p caps :
  route_matches (str "/items/:category/id/:item_id") p caps ↔ item_parameters p = Some caps.
Proof.
  rewrite item_parameters_spec. unfold route_matches.
  change (params_of match_http_param (str "/items/:category/id/:item_id"))
    with ([(str "/items/", str "category"); (str "/id/", str "item_id")], @nil ascii).
  split.
  - inversion 1 as [| |? ? ? ? v rest vs Hne Hv Hs Hrest]; subst.
    inversion Hrest as [|? ? ? w rest2 Hw Hrest2|? ? ? ? ? ? ? Hne2]; subst; [|done]. inversion Hrest2; subst.
    exists v, w. by rewrite app_nil_r.
  - intros (c & i & -> & Hne & Hc & Hi & ->). constructor; [done..|]. rewrite <-(app_nil_r i) at 1. by constructor; [|constructor].
Qed.
Lemma parameters_spec pattern p caps :
  pattern ∈ fixed_paths ++ dynamic_patterns → route_matches pattern p caps ↔ parameters_at pattern p = Some caps.
Proof.
  assert (∀ q : bytes, (if bool_decide (p = q) then Some [] else None) = Some caps ↔ p = q ∧ caps = []) as Hfix.
  { intros q. case_bool_decide; naive_solver. }
  intros Hin. apply list_elem_of_In in Hin. cbn [fixed_paths dynamic_patterns app In] in Hin.
  repeat destruct Hin as [<-|Hin]; [..|destruct Hin].
  1-14: rewrite fixed_route_matches by reflexivity; symmetry; apply Hfix.
  5: apply item_route_matches.
  all: etrans; [eapply last_route_matches; reflexivity|symmetry; apply last_parameter_spec].
Qed.
Lemma fixed_parameters p : p ∈ fixed_paths → parameters_at p p = Some [].
Proof.
  intros Hin. apply list_elem_of_In in Hin. cbn [fixed_paths In] in Hin.
  repeat destruct Hin as [<-|Hin]; [..|destruct Hin]; vm_compute; reflexivity.
Qed.
Lemma fixed_parameters_inv q p caps : q ∈ fixed_paths → parameters_at q p = Some caps → p = q.
Proof.
  intros Hin Hp. apply parameters_spec in Hp; [|rewrite elem_of_app; by left].
  apply list_elem_of_In in Hin. cbn [fixed_paths In] in Hin.
  repeat destruct Hin as [<-|Hin]; [..|destruct Hin]; by apply fixed_route_matches in Hp as [-> _].
Qed.
Lemma route_for_sound p q caps : route_for p = Some (q, caps) → q ∈ fixed_paths ++ dynamic_patterns ∧ parameters_at q p = Some caps.
Proof.
  unfold route_for. rewrite elem_of_app. case_bool_decide as Hp.
  - intros [= <- <-]. split; [by left|by apply fixed_parameters].
  - intros Hh. apply head_Some_elem_of in Hh. apply list_elem_of_omap in Hh as (pattern & Hin & Hm).
    destruct (parameters_at pattern p) as [c|] eqn:Hc; [|done]. injection Hm as <- <-. split; [by right|done].
Qed.
(** The literal route of the example is preferred to the parameter that also
    matches it; no other two patterns share a path. *)
Lemma fixed_over_dynamic p q caps :
  p ∈ fixed_paths → q ∈ dynamic_patterns → parameters_at q p = Some caps → p = str "/users/profile" ∧ q = str "/users/:id".
Proof.
  intros Hp Hq. apply list_elem_of_In in Hp, Hq. cbn [fixed_paths dynamic_patterns In] in Hp, Hq.
  repeat destruct Hp as [<-|Hp]; [..|destruct Hp]; (repeat destruct Hq as [<-|Hq]; [..|destruct Hq]);
    vm_compute; intros Hc; first [done|discriminate Hc].
Qed.
Lemma dynamic_apart p q caps :
  q ∈ dynamic_patterns → parameters_at q p = Some caps →
  head (omap (λ pattern, pair pattern <$> parameters_at pattern p) dynamic_patterns) = Some (q, caps).
Proof.
  intros Hq Hc. assert (parameters_at q p = Some caps) as Hc2 by done. apply list_elem_of_In in Hq. cbn [dynamic_patterns In] in Hq.
  repeat destruct Hq as [<-|Hq]; [..|destruct Hq].
  1-4: apply last_parameter_spec in Hc as (v & -> & _ & _).
  5: apply item_parameters_spec in Hc as (c & i & -> & _).
  all: unfold dynamic_patterns; cbn [omap list_omap head]; rewrite Hc2; reflexivity.
Qed.
Lemma route_for_best p q caps :
  q ∈ fixed_paths ++ dynamic_patterns → parameters_at q p = Some caps →
  ∃ q' caps', route_for p = Some (q', caps') ∧ (q = q' ∧ caps = caps' ∨ q' = str "/users/profile" ∧ q = str "/users/:id").
Proof.
  rewrite elem_of_app. intros Hq Hc. unfold route_for. case_bool_decide as Hp.
  - exists p, []. split; [done|]. destruct Hq as [Hq|Hq].
    + left. pose proof (fixed_parameters_inv q p caps Hq Hc) as ->. rewrite fixed_parameters in Hc by done. by injection Hc as <-.
    + right. by apply (fixed_over_dynamic p q caps).
  - exists q, caps. split; [|by left]. destruct Hq as [Hq|Hq]; [|by apply dynamic_apart].
    destruct Hp. by rewrite (fixed_parameters_inv q p caps Hq Hc).
Qed.

(** ** The property *)
Section dispatch.
Context {F : Type} `{HF : HttpFields F} `{PL : Platform} `{VB : Verbs} (T : greeting_types) (texts : pages).
(** The handlers registered for a pattern. *)
Definition handlers_at (pattern : bytes) : list (verb * M F unit) :=
  default [] (row_sync <$> List.find (λ w, bool_decide (row_path w = pattern)) (app_rows T texts)).

Lemma rows_are_patterns w : w ∈ app_rows T texts → row_path w ∈ fixed_paths ++ dynamic_patterns.
Proof.
  assert (forallb (λ w, bool_decide (row_path w ∈ fixed_paths ++ dynamic_patterns)) (app_rows T texts) = true) as Hall by (vm_compute; reflexivity).
  intros Hw. apply forallb_Forall in Hall. rewrite Forall_forall in Hall. specialize (Hall w Hw). by apply bool_decide_eq_true in Hall.
Qed.
Lemma patterns_have_rows pattern :
  pattern ∈ fixed_paths ++ dynamic_patterns → ∃ w, w ∈ app_rows T texts ∧ row_path w = pattern ∧ handlers_at pattern = row_sync w.
Proof.
  assert (forallb (λ q, existsb (λ w, bool_decide (row_path w = q)) (app_rows T texts)) (fixed_paths ++ dynamic_patterns) = true) as Hall
    by (vm_compute; reflexivity).
  intros Hp. apply forallb_Forall in Hall. rewrite Forall_forall in Hall. specialize (Hall pattern Hp).
  apply existsb_exists in Hall as (w & Hw & Hb). unfold handlers_at.
  destruct (List.find _ (app_rows T texts)) as [w'|] eqn:Hf; [|pose proof (find_none _ _ Hf w Hw) as Hn; cbn in Hn; congruence].
  apply find_some in Hf as [Hw' Hb']. exists w'. split_and!; [by apply list_elem_of_In|by apply bool_decide_eq_true in Hb'|done].
Qed.
Lemma rows_unique w w' : w ∈ app_rows T texts → w' ∈ app_rows T texts → row_path w = row_path w' → w = w'.
Proof.
  assert (NoDup (row_path <$> app_rows T texts)) as Hnd by (apply (bool_decide_unpack _); vm_compute; exact I).
  intros (i & Hi)%list_elem_of_lookup (j & Hj)%list_elem_of_lookup Hp.
  assert (i = j) as ->; [|congruence].
  apply (NoDup_lookup _ i j (row_path w) Hnd); rewrite list_lookup_fmap; [by rewrite Hi|by rewrite Hj, Hp].
Qed.

(** The answer to a request for [p], as the source reads. *)
Definition answer (page : page_parts) (r : HttpRouter F) (static_files : option (M F bool)) (m : verb) (p : bytes) : M F bool :=
  match route_for p with
  | None => fall_back page r static_files
  | Some (pattern, caps) =>
      match find_or_get m (handlers_at pattern) with
      | Some h => serve_row r pattern caps h
      | None => if passes_over m then fall_back page r static_files
                else handle_method_not_allowed page r (handlers_at pattern) ≫= λ _, mret true
      end
  end.
Lemma row_matches w p caps : w ∈ app_rows T texts → route_matches (row_path w) p caps ↔ parameters_at (row_path w) p = Some caps.
Proof. intros Hw. by apply parameters_spec, rows_are_patterns. Qed.
Lemma profile_has_get m : passes_over m = true → is_Some (find_or_get m (handlers_at (str "/users/profile"))).
Proof.
  assert (is_Some (map_find verb_get (handlers_at (str "/users/profile")))) as [h Hh] by (eexists; reflexivity).
  unfold passes_over, find_or_get. intros [->%bool_decide_eq_true| ->%bool_decide_eq_true]%orb_true_iff; rewrite Hh; [by eexists|].
  assert (map_find verb_head (handlers_at (str "/users/profile")) = None) as -> by reflexivity. by eexists.
Qed.
Lemma dispatch_answer page r static_files x s :
  describes r s → sm_rows s = app_rows T texts →
  dispatch page r static_files x = answer page r static_files (method x) (path x).1 (path x).2.
Proof.
  intros Hr Hs. unfold answer. destruct (route_for (path x).1) as [[q caps]|] eqn:Hroute.
  - destruct (route_for_sound _ _ _ Hroute) as [Hq Hcaps]. destruct (patterns_have_rows q Hq) as (w & Hw & <- & Hh). rewrite Hh.
    assert (∀ w' c, w' ∈ app_rows T texts → route_matches (row_path w') (path x).1 c →
      w' = w ∨ row_path w = str "/users/profile" ∧ row_path w' = str "/users/:id") as Hother.
    { intros w' c Hw' Hm. apply row_matches in Hm; [|done].
      destruct (route_for_best _ _ _ (rows_are_patterns w' Hw') Hm) as (q' & c' & Hq' & Hor). rewrite Hroute in Hq'. injection Hq' as <- <-.
      destruct Hor as [[He _]|[He1 He2]]; [left; by apply rows_unique|by right]. }
    destruct (decide (passes_over (method x) = true ∧ find_or_get (method x) (row_sync w) = None)) as [[Hpass Hnone]|Hsome].
    + rewrite Hnone, Hpass. apply (dispatch_none page r s Hr). rewrite Hs. intros w' Hw' [[c Hm] Hget].
      destruct (Hother w' c Hw' Hm) as [->|[He1 He2]]; [destruct (Hget Hpass); congruence|].
      rewrite He1 in Hh. destruct (profile_has_get (method x) Hpass) as [h Hx]. rewrite Hh in Hx. congruence.
    + assert (dispatch page r static_files x = match find_or_get (method x) (row_sync w) with
        | Some h => serve_row r (row_path w) caps h (path x).2
        | None => (handle_method_not_allowed page r (row_sync w) ≫= λ _, mret true) (path x).2 end) as ->.
      { apply (dispatch_best page r s Hr).
        - rewrite Hs. split_and!; [done| |].
          + split; [exists caps; by apply row_matches|]. intros Hpass. destruct (find_or_get _ _); [by eexists|]. by destruct Hsome.
          + intros w' Hw' [[c Hm] _]. destruct (Hother w' c Hw' Hm) as [->|[-> ->]]; [by left|right; by vm_compute].
        - intros c Hm. apply row_matches in Hm; [congruence|done]. }
      destruct (find_or_get _ _) eqn:Hf; [done|]. destruct (passes_over _) eqn:Hp; [by destruct Hsome|done].
  - apply (dispatch_none page r s Hr). rewrite Hs. intros w Hw [[c Hm] _]. apply row_matches in Hm; [|done].
    destruct (route_for_best _ _ _ (rows_are_patterns w Hw) Hm) as (q' & c' & Hq' & _). congruence.
Qed.
End dispatch.

(** C20: the example application. On a fresh router its registration always
    succeeds, for every conforming [std::sort], and leaves a router that
    answers each request as follows, whatever the order of the table. The path
    decides the route: one of fourteen literal paths, or the rest of the line
    after [/stream/], [/users/], [/files/] or [/typed/greetings/] (slashes
    included), or an item under a category without a slash; the literal
    [/users/profile] wins over [/users/:id]. The verb decides the handler (GET's
    for HEAD), which runs with exactly those parameters; without a handler a
    GET or HEAD falls back to the static files and 404, any other verb is
    answered 405. *)
Theorem application_dispatch {F} `{HttpFields F} `{Platform} `{Verbs} (T : greeting_types) (texts : pages)
    sort `{!StdSort (more_specific (F := F)) sort} :
  ∃ r, register_application_routes T texts sort router_init = Ret r ∧
    rt_exception_handlers r = rt_exception_handlers (map_exceptions T router_init) ∧
    ∀ page static_files x,
      dispatch page r static_files x = answer T texts page r static_files (method x) (path x).1 (path x).2.
Proof.
  destruct (registration_succeeds T texts sort) as (r & s & Hr & Hd & Hs & (_ & He & _)). exists r. split_and!; [exact Hr|exact He|].
  intros page static_files x. by apply (dispatch_answer T texts page r static_files x s).
Qed.

(** ** The chunks of [/stream/:size]

    The number of chunks is a member of the controller, which every request to
    the route shares: [handle_stream] writes it, the stream handler reads it
    again before each chunk. *)
Module StreamController.
Record t := mk { num_chunks_to_send_ : Z }.
Definition set_chunks (num_str : bytes) (c : t) : outcome exn t :=
  n ← stoul_throwing num_str;
  let c := mk n in
  Ret (if bool_decide (100 < num_chunks_to_send_ c)%Z then mk 100 else c).
Definition chunk (num_str : bytes) (i : nat) : bytes :=
  htm "'id': " ++ to_dec (N.of_nat i) ++ htm ", 'url': '/stream/" ++ num_str ++ htm "', 'args': , 'headers': " ++ [LF].
(** [member i]: the controller when the condition of round [i] is evaluated;
    [accepts i]: what [writeHandler] returns. *)
Fixpoint do_stream_chunk (fuel : nat) (num_str : bytes) (member : nat → t) (accepts : nat → bool) (i : nat) : list bytes :=
  match fuel with
  | O => []
  | S fuel =>
      if bool_decide (Z.of_nat i < num_chunks_to_send_ (member i))%Z
      then chunk num_str i :: if accepts i then do_stream_chunk fuel num_str member accepts (S i) else []
      else []
  end.
End StreamController.

Section stream_controller.
Import StreamController.
Lemma stoul_nonneg s n : stoul_throwing s = Ret n → (0 ≤ n)%Z.
Proof.
  unfold stoul_throwing. destruct (match drop_while isspace s with [] => _ | _ => _ end) as [negative t]. case_bool_decide; [done|].
  destruct (stoull_digits _) as [v|]; [|done]. intros [= <-]. destruct negative; [apply Z.mod_pos_bound|]; lia.
Qed.
Lemma set_chunks_bounded num_str c c' : set_chunks num_str c = Ret c' → (0 ≤ num_chunks_to_send_ c' ≤ 100)%Z.
Proof.
  unfold set_chunks. intros (n & Hn%stoul_nonneg & Hc)%bind_Ret_inv. cbn in Hc. case_bool_decide; injection Hc as <-; cbn in *; lia.
Qed.
(** Alone, a request gets the number of chunks it asked for, at most 100; 101
    rounds are enough. *)
Lemma stream_rounds num_str n fuel k i :
  k + i = n → k < fuel → do_stream_chunk fuel num_str (λ _, mk (Z.of_nat n)) (λ _, true) i = chunk num_str <$> seq i k.
Proof.
  revert fuel i. induction k as [|k IH]; intros [|fuel] i Hk Hf; try lia; cbn [do_stream_chunk num_chunks_to_send_].
  - by rewrite bool_decide_eq_false_2 by lia.
  - rewrite bool_decide_eq_true_2 by lia. cbn. by rewrite IH by lia.
Qed.
Lemma stream_alone num_str c c' :
  set_chunks num_str c = Ret c' →
  do_stream_chunk 101 num_str (λ _, c') (λ _, true) 0 = chunk num_str <$> seq 0 (Z.to_nat (num_chunks_to_send_ c')).
Proof.
  intros Hc. apply set_chunks_bounded in Hc. destruct c' as [z]. cbn [num_chunks_to_send_] in *.
  pose proof (stream_rounds num_str (Z.to_nat z) 101 (Z.to_nat z) 0 ltac:(lia) ltac:(lia)) as Hr. by rewrite Z2Nat.id in Hr by lia.
Qed.
(** A second request that is handled before the first one streams decides how
    much the first one sends. *)
Lemma stream_shared c : ∃ c3 c0,
  set_chunks (str "3") c = Ret c3 ∧ set_chunks (str "0") c3 = Ret c0 ∧ do_stream_chunk 101 (str "3") (λ _, c0) (λ _, true) 0 = [].
Proof. by exists (mk 3), (mk 0). Qed.
(** A size that is no number is not the client's error: the exception is not an
    HTTP one and becomes a 500. *)
Lemma stream_size_not_a_number : stoul_throwing (str "many") = Throw (InvalidArgument (str "stoul")) ∧ stoul_throwing (str "-1") = Ret size_max.
Proof. done. Qed.
End stream_controller.

(** ** The command line ([argv] from index 1 on) *)
Definition export_flag : bytes := str "--export-openapi".
Definition export_prefix : bytes := str "--export-openapi=".
Definition requires_path : exn := InvalidArgument (str "--export-openapi requires an output path").
Fixpoint export_path_from_arguments (arguments : list bytes) : outcome exn (option bytes) :=
  match arguments with
  | [] => Ret None
  | argument :: rest =>
      if bool_decide (argument = export_flag) then
        match rest with [] => Throw requires_path | path :: _ => Ret (Some path) end
      else if starts_with export_prefix argument then
        let path := drop (length export_prefix) argument in
        if bool_decide (path = []) then Throw requires_path else Ret (Some path)
      else export_path_from_arguments rest
  end.
Definition openapi_docs_enabled_from_arguments (arguments : list bytes) : bool :=
  fold_left (λ enabled argument,
    let enabled := if bool_decide (argument = str "--enable-openapi-docs") then true else enabled in
    if bool_decide (argument = str "--disable-openapi-docs") then false else enabled) arguments true.

(** The first export option decides; anything before it is passed over. *)
Definition is_export_option (argument : bytes) : bool := bool_decide (argument = export_flag) || starts_with export_prefix argument.
Lemma export_path_spec before after argument :
  Forall (λ a, is_export_option a = false) before → is_export_option argument = true →
  export_path_from_arguments (before ++ argument :: after) = export_path_from_arguments (argument :: after).
Proof.
  induction 1 as [|a before Ha _ IH]; intros Hx; [done|]. cbn [app export_path_from_arguments].
  unfold is_export_option in Ha. apply orb_false_iff in Ha as [-> ->]. by apply IH.
Qed.
Lemma export_path_none arguments :
  Forall (λ a, is_export_option a = false) arguments → export_path_from_arguments arguments = Ret None.
Proof.
  induction 1 as [|a arguments Ha _ IH]; [done|]. cbn [export_path_from_arguments].
  unfold is_export_option in Ha. by apply orb_false_iff in Ha as [-> ->].
Qed.
(** An export option never gives the empty path unless it is its own argument. *)
Lemma export_path_prefixed path after :
  export_path_from_arguments ((export_prefix ++ path) :: after) = if bool_decide (path = []) then Throw requires_path else Ret (Some path).
Proof.
  cbn [export_path_from_arguments]. rewrite bool_decide_eq_false_2.
  - by rewrite starts_with_app, drop_app_length.
  - intros He. apply (f_equal length) in He. rewrite length_app in He. vm_compute in He. lia.
Qed.
(** The last of the two options decides; without one the pages are enabled. *)
Lemma docs_enabled_last arguments argument enabled :
  argument = (if enabled : bool then str "--enable-openapi-docs" else str "--disable-openapi-docs") →
  ∀ after, Forall (λ a, a ≠ str "--enable-openapi-docs" ∧ a ≠ str "--disable-openapi-docs") after →
  openapi_docs_enabled_from_arguments (arguments ++ argument :: after) = enabled.
Proof.
  intros Ha after Hafter. unfold openapi_docs_enabled_from_arguments. rewrite fold_left_app. cbn [fold_left].
  match goal with |- fold_left ?f after ?b = _ => assert (b = enabled) as -> by (destruct enabled; subst argument; reflexivity) end.
  clear Ha. revert enabled. induction Hafter as [|a after [H1 H2] _ IH]; intros enabled; [done|]. cbn [fold_left].
  rewrite !bool_decide_eq_false_2 by done. apply IH.
Qed.

(** ** A few requests *)
#[local] Existing Instance demo_platform.
#[local] Existing Instance demo_verbs.
Definition sample_types : greeting_types :=
  mk_greeting_types (λ j, Some j) (λ j, match j with JString s => s | _ => [] end) JString (λ _ _, JNull) JNull JNull JNull JNull [0; 1; 2].
Definition sample_texts : pages := mk_pages (str "<h1>Hello from khttpd!</h1>") (str "<!doctype html>").
Definition sample_router : HttpRouter FieldList.t :=
  match register_application_routes sample_types sample_texts (merge_std_sort more_specific) router_init with Ret r => r | Throw _ => router_init end.
Definition reply_to (m : verb) (target : bytes) : status * bytes :=
  let res := cx_res (dispatch demo_page sample_router None (demo_ctx m target)).1 in (rs_status res, rs_body res).
Lemma sample_requests :
  reply_to verb_get (str "/users/profile") = (status_ok, str "This is the user's profile page.") ∧
  reply_to verb_head (str "/users/42") = (status_ok, str "Fetching user with ID: 42") ∧
  reply_to verb_get (str "/files/a/b/c.txt") = (status_ok, str "Accessing file: a/b/c.txt") ∧
  reply_to verb_get (str "/items/book/id/456") = (status_ok, str "Fetching item 456 in category book") ∧
  (reply_to verb_get (str "/items/a/b/id/4")).1 = status_not_found ∧
  (reply_to verb_post (str "/users/42")).1 = status_method_not_allowed ∧
  (reply_to verb_get (str "/typed/greetings")).1 = status_not_found ∧
  (reply_to verb_get (str "/stream/many")).1 = status_internal_server_error.
Proof. vm_compute. by split_and!. Qed.

(** The route of [sample_router] for a path below [/users/]. *)
Lemma application_dispatch_witness :
  StdSort (more_specific (F := FieldList.t)) (merge_std_sort more_specific) ∧
  ∃ r, register_application_routes sample_types sample_texts (merge_std_sort more_specific) router_init = Ret r ∧
    let x := demo_ctx verb_get (str "/users/1/2") in
    (path x).1 = str "/users/1/2" ∧ dispatch demo_page r None x = answer sample_types sample_texts demo_page r None verb_get (str "/users/1/2") (path x).2.
Proof.
  split; [apply _|].
  destruct (application_dispatch sample_types sample_texts (merge_std_sort more_specific)) as (r & Hr & _ & Hd).
  exists r. split; [exact Hr|]. cbv zeta. split; [by vm_compute|]. exact (Hd demo_page None (demo_ctx verb_get (str "/users/1/2"))).
Defined.
