(* ===== verification/HostPool.v ===== *)
(** * Client configuration: host pool and time-outs
    ([client/host_pool.cpp], [client/client_timeouts.hpp])

    The random draw of [pick] is an argument: any value
    [std::uniform_int_distribution<int>(1, total)] can return. *)
From S2P Require Import Prelude.
#[local] Open Scope Z_scope.

Definition int_max : Z := 2 ^ 31 - 1.
Record HostEntry := mk_host { he_url : bytes; he_weight : Z }.
Record HostPool := mk_pool { urls : list bytes; cumulative_weights : list Z; total_weight : Z }.

(** The constructor's loop; [None] when the [int] total overflows. *)
Definition add_host (p : HostPool) (h : HostEntry) : option HostPool :=
  let total := total_weight p + Z.max 1 (he_weight h) in
  if bool_decide (total ≤ int_max) then Some (mk_pool (urls p ++ [he_url h]) (cumulative_weights p ++ [total]) total) else None.
Fixpoint add_hosts (p : HostPool) (hosts : list HostEntry) : option HostPool :=
  match hosts with
  | [] => Some p
  | h :: hosts => p ← add_host p h; add_hosts p hosts
  end.
Definition host_pool (hosts : list HostEntry) : option HostPool := add_hosts (mk_pool [] [] 0) hosts.

(** [std::lower_bound]: the first element that is not less. *)
Fixpoint lower_bound (l : list Z) (r : Z) : nat :=
  match l with
  | [] => 0
  | x :: l => if x <? r then S (lower_bound l r) else 0%nat
  end.
(** [None]: [urls_[idx]] out of range. *)
Definition pick (p : HostPool) (r : Z) : option bytes :=
  if bool_decide (cumulative_weights p = []) then Some []
  else if bool_decide (length (cumulative_weights p) = 1%nat) then urls p !! 0%nat
  else urls p !! lower_bound (cumulative_weights p) r.

(** [validate_client_timeouts]: [true] when it throws. *)
Record ClientTimeouts := mk_timeouts { tm_total : Z; tm_connect : Z; tm_read : Z; tm_write : Z }.
Definition default_timeouts : ClientTimeouts := mk_timeouts 30 30 30 30.
Definition validate_client_timeouts (t : ClientTimeouts) : bool :=
  existsb (λ d, (d <? 0) || (int_max <? d)) [tm_total t; tm_connect t; tm_read t; tm_write t].

(** ** Properties *)
Definition weight_of (h : HostEntry) : Z := Z.max 1 (he_weight h).
Definition sum_weights (hosts : list HostEntry) : Z := foldr Z.add 0 (weight_of <$> hosts).
(** The partial sums, from [base]. *)
Fixpoint partial_sums (base : Z) (hosts : list HostEntry) : list Z :=
  match hosts with
  | [] => []
  | h :: hosts => (base + weight_of h) :: partial_sums (base + weight_of h) hosts
  end.

Lemma sum_weights_cons h hosts : sum_weights (h :: hosts) = weight_of h + sum_weights hosts.
Proof. done. Qed.
Lemma sum_weights_nonneg hosts : 0 ≤ sum_weights hosts.
Proof. induction hosts as [|h hosts IH]; [done|]. rewrite sum_weights_cons. unfold weight_of. lia. Qed.
Lemma sum_weights_app a b : sum_weights (a ++ b) = sum_weights a + sum_weights b.
Proof. induction a as [|h a IH]; [done|]. cbn [app]. rewrite !sum_weights_cons, IH. lia. Qed.

Lemma add_hosts_sums hosts p :
  add_hosts p hosts =
    if bool_decide (total_weight p + sum_weights hosts ≤ int_max ∨ hosts = [])
    then Some (mk_pool (urls p ++ (he_url <$> hosts)) (cumulative_weights p ++ partial_sums (total_weight p) hosts)
                 (total_weight p + sum_weights hosts))
    else None.
Proof.
  revert p. induction hosts as [|h hosts IH]; intros p.
  { rewrite bool_decide_eq_true_2 by auto. destruct p. cbn. by rewrite !app_nil_r, Z.add_0_r. }
  cbn [add_hosts partial_sums]. unfold add_host. fold (weight_of h).
  pose proof (sum_weights_nonneg hosts). pose proof (sum_weights_cons h hosts).
  case_bool_decide as Hin; [rewrite bind_Some_eq || cbn [mbind option_bind]|].
  - rewrite IH. cbn [total_weight urls cumulative_weights].
    destruct hosts as [|h' hosts].
    + rewrite bool_decide_eq_true_2 by auto. rewrite bool_decide_eq_true_2 by (left; rewrite sum_weights_cons in *; cbn in *; lia).
      cbn. rewrite <-!(assoc_L (++)). cbn. f_equal. f_equal. unfold sum_weights. cbn. lia.
    + case_bool_decide as H1; [destruct H1 as [H1|]; [|done]|].
      * rewrite bool_decide_eq_true_2 by (left; lia). rewrite <-!(assoc_L (++)). cbn [app fmap list_fmap]. f_equal. f_equal. lia.
      * rewrite bool_decide_eq_false_2; [done|]. intros [?|?]; [|done]. apply H1. left. lia.
  - rewrite bool_decide_eq_false_2; [done|]. intros [?|?]; [|done]. lia.
Qed.

Lemma lower_bound_partial base pre h post r :
  base + sum_weights pre < r ≤ base + sum_weights pre + weight_of h →
  lower_bound (partial_sums base (pre ++ h :: post)) r = length pre.
Proof.
  revert base. induction pre as [|g pre IH]; intros base Hr; cbn [app partial_sums lower_bound length].
  - destruct (Z.ltb_spec (base + weight_of h) r); [cbn in Hr; lia|done].
  - rewrite sum_weights_cons in Hr. pose proof (sum_weights_nonneg pre).
    destruct (Z.ltb_spec (base + weight_of g) r); [|lia]. f_equal. apply IH. lia.
Qed.

Lemma draw_position hosts r :
  1 ≤ r ≤ sum_weights hosts →
  ∃ pre h post, hosts = pre ++ h :: post ∧ sum_weights pre < r ≤ sum_weights pre + weight_of h.
Proof.
  revert r. induction hosts as [|h hosts IH]; intros r Hr; [cbn in Hr; lia|]. rewrite sum_weights_cons in Hr.
  destruct (decide (r ≤ weight_of h)); [exists [], h, hosts; cbn; split; [done|lia]|].
  destruct (IH (r - weight_of h) ltac:(lia)) as (pre & h' & post & -> & ?).
  exists (h :: pre), h', post. rewrite sum_weights_cons. split; [done|lia].
Qed.
Lemma host_pool_sums hosts :
  host_pool hosts =
    if bool_decide (sum_weights hosts ≤ int_max)
    then Some (mk_pool (he_url <$> hosts) (partial_sums 0 hosts) (sum_weights hosts)) else None.
Proof.
  unfold host_pool. rewrite add_hosts_sums. cbn [total_weight urls cumulative_weights app].
  destruct hosts as [|h hosts]; [done|]. case_bool_decide as H1; case_bool_decide as H2; try done.
  - destruct H1; [|done]. lia.
  - destruct H1. left. lia.
Qed.

(** As long as the weights (a weight below 1 counts as 1) add up within
    [int], the pool is built and every draw in [1 .. total] picks a host that
    exists; a host owns exactly as many consecutive draws as its weight, those
    after the draws of the hosts listed before it, so it is picked with
    probability weight/total. Past that sum the constructor overflows. *)
Theorem host_pool_weights hosts :
  match host_pool hosts with
  | Some p => total_weight p = sum_weights hosts ∧ urls p = he_url <$> hosts ∧
      (∀ pre h post r, hosts = pre ++ h :: post → sum_weights pre < r ≤ sum_weights pre + weight_of h →
         pick p r = Some (he_url h)) ∧
      (∀ r, hosts ≠ [] → 1 ≤ r ≤ total_weight p →
         ∃ pre h post, hosts = pre ++ h :: post ∧ sum_weights pre < r ≤ sum_weights pre + weight_of h)
  | None => int_max < sum_weights hosts
  end.
Proof.
  rewrite host_pool_sums. case_bool_decide; [|lia]. cbn. split_and!; [done|done| |].
  - intros pre h post r -> Hr. unfold pick. cbn.
    assert (partial_sums 0 (pre ++ h :: post) ≠ []) by (by destruct pre).
    rewrite bool_decide_eq_false_2 by done.
    assert ((he_url <$> pre ++ h :: post) !! length pre = Some (he_url h)) as Hl.
    { rewrite fmap_app, lookup_app_r by (rewrite length_fmap; lia). by rewrite length_fmap, Nat.sub_diag. }
    case_bool_decide as H1.
    + assert (pre = []) as -> by (destruct pre as [|? [|]]; cbn in H1; congruence). done.
    + rewrite lower_bound_partial by (rewrite Z.add_0_l; exact Hr). done.
  - intros r _ Hr. by apply draw_position.
Qed.

(** A 32-bit weight sum is not guarded: two hosts are enough to overflow it. *)
Theorem host_pool_overflows : host_pool [mk_host (str "a") int_max; mk_host (str "b") 1] = None.
Proof. by vm_compute. Qed.

Lemma validate_client_timeouts_spec t :
  validate_client_timeouts t = false ↔
  Forall (λ d, 0 ≤ d ≤ int_max) [tm_total t; tm_connect t; tm_read t; tm_write t].
Proof.
  unfold validate_client_timeouts. rewrite <-Bool.not_true_iff_false, existsb_exists, Forall_forall. split.
  - intros Hn d Hd. destruct (decide (0 ≤ d ≤ int_max)); [done|]. destruct Hn. exists d.
    split; [by apply list_elem_of_In|]. apply orb_true_iff. rewrite !Z.ltb_lt. lia.
  - intros Hf (d & Hd%list_elem_of_In & Hb). specialize (Hf d Hd). apply orb_true_iff in Hb. rewrite !Z.ltb_lt in Hb. lia.
Qed.
