(* ===== verification/DiContainer.v ===== *)
(** * Dependency injection container ([di/di_container.hpp])

    A type is the key [std::type_index] gives it; a factory is the list of
    types its constructor takes. The heap records the objects built, so that
    sharing of singletons is visible. The order in which the arguments of
    [make_shared<T>(container.resolve<Args>()...)] are evaluated is unspecified
    in C++ and is a parameter. *)
From S2P Require Import Prelude.
Set Default Proof Using "Type*".

Abbreviation component := N.
Abbreviation ptr := nat.
Record object := mk_object { ob_type : component; ob_args : list ptr }.

Inductive di_error :=
| CircularDependency (t : component)
| NotRegistered (t : component)
| ConstructorThrew (t : component).
#[export] Instance di_error_eq_dec : EqDecision di_error.
Proof. solve_decision. Defined.

Record DI_Container := mk_container {
  component_factories : gmap component (list component);
  singletons : gmap component ptr;
  resolving : gset component;
  heap : list object;
}.
Definition container_init : DI_Container := mk_container ∅ ∅ ∅ [].
Definition register_component (t : component) (args : list component) (c : DI_Container) : DI_Container :=
  mk_container (<[t := args]> (component_factories c)) (singletons c) (resolving c) (heap c).
Definition clear (c : DI_Container) : DI_Container := mk_container ∅ ∅ ∅ (heap c).

(** The three locked regions of [resolve]: before the factory runs, after it
    returned, and the [catch] block. *)
Inductive begin_result := Cached (p : ptr) | Refused (e : di_error) | Enter (args : list component) (c : DI_Container).
Definition begin_resolve (c : DI_Container) (t : component) : begin_result :=
  match singletons c !! t with
  | Some p => Cached p
  | None =>
      if bool_decide (t ∈ resolving c) then Refused (CircularDependency t)
      else match component_factories c !! t with
      | None => Refused (NotRegistered t)
      | Some args =>
          Enter args (mk_container (component_factories c) (singletons c) ({[t]} ∪ resolving c) (heap c))
      end
  end.
Definition end_resolve (c : DI_Container) (t : component) (p : ptr) : DI_Container :=
  mk_container (component_factories c) (<[t := p]> (singletons c)) (resolving c ∖ {[t]}) (heap c).
Definition abort_resolve (c : DI_Container) (t : component) : DI_Container :=
  mk_container (component_factories c) (singletons c) (resolving c ∖ {[t]}) (heap c).

Section resolve.
Context (eval_order : list component → list component) (ctor_throws : component → list ptr → bool).

(** [make_shared<T>(args...)]. *)
Definition construct_component (t : component) (args : list ptr) (c : DI_Container) : DI_Container * outcome di_error ptr :=
  if ctor_throws t args then (c, Throw (ConstructorThrew t))
  else (mk_container (component_factories c) (singletons c) (resolving c) (heap c ++ [mk_object t args]), Ret (length (heap c))).
Definition arg_ptrs (found : list (component * ptr)) (args : list component) : list ptr :=
  omap (λ a, (λ r, r.2.2) <$> list_find (λ f, f.1 = a) found) args.

Section args.
Context (resolve : DI_Container → component → option (DI_Container * outcome di_error ptr)).
Fixpoint resolve_args (c : DI_Container) (args : list component) : option (DI_Container * outcome di_error (list (component * ptr))) :=
  match args with
  | [] => Some (c, Ret [])
  | a :: args =>
      match resolve c a with
      | None => None
      | Some (c, Throw e) => Some (c, Throw e)
      | Some (c, Ret p) =>
          match resolve_args c args with
          | Some (c, Ret ps) => Some (c, Ret ((a, p) :: ps))
          | r => r
          end
      end
  end.
End args.

(** [None]: the recursion is deeper than [fuel]. *)
Fixpoint resolve (fuel : nat) (c : DI_Container) (t : component) : option (DI_Container * outcome di_error ptr) :=
  match fuel with
  | O => None
  | S fuel =>
      match begin_resolve c t with
      | Cached p => Some (c, Ret p)
      | Refused e => Some (c, Throw e)
      | Enter args c =>
          match resolve_args (resolve fuel) c (eval_order args) with
          | None => None
          | Some (c, Throw e) => Some (abort_resolve c t, Throw e)
          | Some (c, Ret found) =>
              match construct_component t (arg_ptrs found args) c with
              | (c, Throw e) => Some (abort_resolve c t, Throw e)
              | (c, Ret p) => Some (end_resolve c t p, Ret p)
              end
          end
      end
  end.
End resolve.

(** ** Properties *)
(** What every call keeps. *)
Definition extends (c c' : DI_Container) : Prop :=
  component_factories c' = component_factories c ∧ resolving c' = resolving c ∧ singletons c ⊆ singletons c'.
#[export] Instance extends_preorder : PreOrder extends.
Proof.
  split; [intros c; by split_and!|]. intros a b c (? & ? & ?) (? & ? & ?).
  split_and!; [congruence..|by etrans].
Qed.
Lemma extends_cached c c' t p : extends c c' → singletons c !! t = Some p → singletons c' !! t = Some p.
Proof. intros (_ & _ & Hs) Hp. by apply (lookup_weaken _ _ _ _ Hp). Qed.

(** Types that can still be entered. *)
Definition unentered (c : DI_Container) : nat := size (dom (component_factories c) ∖ resolving c).

(** The container while [t] is being built. *)
Definition entered (c : DI_Container) (t : component) : DI_Container :=
  mk_container (component_factories c) (singletons c) ({[t]} ∪ resolving c) (heap c).
Lemma begin_resolve_enter c t args c1 :
  begin_resolve c t = Enter args c1 →
  singletons c !! t = None ∧ t ∉ resolving c ∧ component_factories c !! t = Some args ∧
  c1 = entered c t.
Proof.
  unfold begin_resolve. destruct (singletons c !! t); [done|]. case_bool_decide; [done|].
  destruct (component_factories c !! t); naive_solver.
Qed.
Lemma entered_unentered c t args :
  component_factories c !! t = Some args → t ∉ resolving c →
  size (dom (component_factories c) ∖ ({[t]} ∪ resolving c)) < unentered c.
Proof.
  intros Hf Hr. unfold unentered. apply subset_size. apply elem_of_dom_2 in Hf. set_solver.
Qed.
(** Leaving a type, either way, restores the set of types being resolved. *)
Lemma abort_extends c t c' : t ∉ resolving c → extends (entered c t) c' → extends c (abort_resolve c' t).
Proof. intros Ht (Hf & Hr & Hs). cbn in *. split_and!; cbn; [done| |done]. rewrite Hr. set_solver. Qed.
Lemma end_extends c t c' p :
  t ∉ resolving c → singletons c !! t = None → extends (entered c t) c' → extends c (end_resolve c' t p).
Proof.
  intros Ht Hn (Hf & Hr & Hs). cbn in *. split_and!; cbn; [done|rewrite Hr; set_solver|].
  by apply insert_subseteq_r.
Qed.

Section proofs.
Context (eval_order : list component → list component) (ctor_throws : component → list ptr → bool).
Abbreviation resolve := (resolve eval_order ctor_throws).

Definition resolve_ok (fuel : nat) : Prop := ∀ c t, unentered c < fuel →
  ∃ c' r, resolve fuel c t = Some (c', r) ∧ extends c c' ∧ (∀ p, r = Ret p → singletons c' !! t = Some p).
Lemma resolve_args_ok fuel args c :
  resolve_ok fuel → unentered c < fuel →
  ∃ c' r, resolve_args (resolve fuel) c args = Some (c', r) ∧ extends c c'.
Proof.
  intros Hok. revert c. induction args as [|a args IH]; intros c Hc; cbn [resolve_args].
  { eexists _, _. split; [done|]. reflexivity. }
  destruct (Hok c a Hc) as (c1 & r & -> & He & _). destruct r as [p|e].
  2:{ by eexists _, _. }
  assert (unentered c1 < fuel) as Hc1.
  { destruct He as (Hf & Hr & _). unfold unentered. by rewrite Hf, Hr. }
  destruct (IH c1 Hc1) as (c2 & r2 & -> & He2). assert (extends c c2) by (by etrans).
  destruct r2; by eexists _, _.
Qed.
Lemma resolve_all_ok fuel : resolve_ok fuel.
Proof.
  induction fuel as [|fuel IH]; intros c t Hc; [lia|]. cbn [DiContainer.resolve].
  destruct (begin_resolve c t) as [p|e|args c1] eqn:Hb.
  - exists c, (Ret p). split_and!; try done. intros q [= <-]. unfold begin_resolve in Hb.
    destruct (singletons c !! t); [congruence|]. repeat (case_bool_decide || destr_match); congruence.
  - by exists c, (Throw e).
  - apply begin_resolve_enter in Hb as (Hs & Ht & Hf & ->).
    pose proof (entered_unentered c t args Hf Ht) as Hlt. set (c1 := entered c t).
    destruct (resolve_args_ok fuel (eval_order args) c1 IH) as (c2 & r & -> & He).
    { unfold unentered, c1. cbn. lia. }
    destruct r as [found|e].
    2:{ exists (abort_resolve c2 t), (Throw e). split_and!; [done| |done]. by apply (abort_extends c t c2). }
    destruct (construct_component ctor_throws t (arg_ptrs found args) c2) as [c3 r] eqn:Hk.
    assert (extends c2 c3) as He3.
    { unfold construct_component in Hk. destruct (ctor_throws _ _); injection Hk as <- _; by split_and!. }
    assert (extends c1 c3) as He13 by (by etrans). destruct r as [p|e].
    + exists (end_resolve c3 t p), (Ret p). split_and!; [done|by apply (end_extends c t c3)|].
      intros q [= <-]. cbn. by rewrite lookup_insert_eq.
    + exists (abort_resolve c3 t), (Throw e). split_and!; [done| |done]. by apply (abort_extends c t c3).
Qed.

(** *** Which types can be built *)
(** [t] is cached, or registered with arguments that can be built, to depth [n]. *)
Fixpoint buildable_within (fs : gmap component (list component)) (cached : gmap component ptr) (n : nat) (t : component) : bool :=
  bool_decide (is_Some (cached !! t)) ||
  match n with
  | O => false
  | S n => match fs !! t with Some args => forallb (buildable_within fs cached n) args | None => false end
  end.
Definition buildable (c : DI_Container) (t : component) : Prop :=
  ∃ n, buildable_within (component_factories c) (singletons c) n t = true.

Lemma buildable_cached fs cached n t : is_Some (cached !! t) → buildable_within fs cached n t = true.
Proof. intros Hs. destruct n; cbn; by rewrite bool_decide_eq_true_2. Qed.
Lemma buildable_S fs cached n t : buildable_within fs cached n t = true → buildable_within fs cached (S n) t = true.
Proof.
  revert t. induction n as [|n IH]; intros t Hb.
  - cbn in Hb. rewrite orb_false_r, bool_decide_eq_true in Hb. by apply buildable_cached.
  - cbn in Hb. apply orb_prop in Hb as [Hb%bool_decide_eq_true|Hb]; [by apply buildable_cached|].
    cbn. apply orb_true_iff. right. destruct (fs !! t) as [args|]; [|done].
    apply forallb_forall. intros a Ha. rewrite forallb_forall in Hb. by apply IH, Hb.
Qed.
Lemma buildable_mono fs cached n m t : n ≤ m → buildable_within fs cached n t = true → buildable_within fs cached m t = true.
Proof. induction 1; [done|]. intros Hb. by apply buildable_S, IHle. Qed.

(** Dependencies are resolved below the types that wait for them: with nothing
    being resolved that is buildable to the same depth, no cycle is reported. *)
Definition resolve_complete_at (fs : gmap component (list component)) (cached : gmap component ptr) (n : nat) : Prop := ∀ fuel c t,
  component_factories c = fs → cached ⊆ singletons c → unentered c < fuel →
  (∀ r, r ∈ resolving c → buildable_within fs cached n r = false) →
  buildable_within fs cached n t = true → ∃ c' p, resolve fuel c t = Some (c', Ret p).

Lemma resolve_args_complete fs cached n fuel args c :
  resolve_complete_at fs cached n →
  component_factories c = fs → cached ⊆ singletons c → unentered c < fuel →
  (∀ r, r ∈ resolving c → buildable_within fs cached n r = false) →
  Forall (λ a, buildable_within fs cached n a = true) args →
  ∃ c' ps, resolve_args (resolve fuel) c args = Some (c', Ret ps).
Proof.
  intros Hok Hf Hs Hu Hr Ha. revert c Hf Hs Hu Hr. induction Ha as [|a args Ha _ IH]; intros c Hf Hs Hu Hr; cbn [resolve_args].
  { by eexists _, _. }
  destruct (Hok fuel c a Hf Hs Hu Hr Ha) as (c1 & p & Hres). rewrite Hres.
  destruct (resolve_all_ok fuel c a Hu) as (c1' & r' & Hres' & (Hf' & Hr' & Hs') & _). rewrite Hres in Hres'. injection Hres' as <- <-.
  destruct (IH c1) as (c2 & ps & ->); [congruence|by etrans|unfold unentered in *; by rewrite Hf', Hr'|by rewrite Hr'|].
  by eexists _, _.
Qed.

Context (Hpermutes : ∀ args, eval_order args ≡ₚ args) (Hctor : ∀ t args, ctor_throws t args = false).
Lemma resolve_complete_all fs cached n : resolve_complete_at fs cached n.
Proof using Hpermutes Hctor.
  induction n as [|n IH]; intros fuel c t Hf Hs Hu Hr Hb.
  { destruct fuel as [|fuel]; [lia|]. cbn [buildable_within] in Hb. rewrite orb_false_r, bool_decide_eq_true in Hb.
    destruct Hb as [p Hp]. pose proof (lookup_weaken _ _ _ _ Hp Hs) as Hc.
    exists c, p. cbn [DiContainer.resolve]. unfold begin_resolve. by rewrite Hc. }
  (* either [t] is already buildable to depth [n], or its arguments are and it is not *)
  assert (∀ r, r ∈ resolving c → buildable_within fs cached n r = false) as Hrn.
  { intros r Hin. specialize (Hr r Hin). destruct (buildable_within fs cached n r) eqn:Hbr; [|done].
    by rewrite (buildable_S _ _ _ _ Hbr) in Hr. }
  destruct (buildable_within fs cached n t) eqn:Hbn; [by apply (IH fuel c t)|].
  destruct fuel as [|fuel]; [lia|]. cbn [DiContainer.resolve].
  destruct (begin_resolve c t) as [p|e|args c1] eqn:Hbegin; [by exists c, p| |].
  - unfold begin_resolve in Hbegin. destruct (singletons c !! t) as [|] eqn:Hst; [done|].
    case_bool_decide as Hin; [by rewrite (Hr t Hin) in Hb|]. destruct (component_factories c !! t) eqn:Hft; [done|].
    cbn [buildable_within] in Hb. rewrite <-Hf, Hft, orb_false_r, bool_decide_eq_true in Hb.
    destruct Hb as [p Hp]. by rewrite (lookup_weaken _ _ _ _ Hp Hs) in Hst.
  - apply begin_resolve_enter in Hbegin as (Hst & Hin & Hft & ->).
    pose proof (entered_unentered c t args Hft Hin) as Hlt.
    assert (Forall (λ a, buildable_within fs cached n a = true) (eval_order args)) as Hargs.
    { rewrite Hpermutes. cbn [buildable_within] in Hb. rewrite <-Hf, Hft, Hf in Hb.
      rewrite bool_decide_eq_false_2 in Hb.
      - cbn [orb] in Hb. rewrite forallb_forall in Hb. apply Forall_forall. intros a Ha%list_elem_of_In. by apply Hb.
      - intros [p Hp]. by rewrite (lookup_weaken _ _ _ _ Hp Hs) in Hst. }
    destruct (resolve_args_complete fs cached n fuel (eval_order args) (entered c t) IH) as (c2 & ps & ->); try done.
    { unfold unentered, entered in *. cbn. lia. }
    { intros r. cbn. rewrite elem_of_union, elem_of_singleton. intros [->|?]; [done|by apply Hrn]. }
    unfold construct_component. rewrite Hctor. by eexists _, _.
Qed.

(** Nothing else is ever built. *)
Definition cache_buildable (fs : gmap component (list component)) (cached : gmap component ptr) (c : DI_Container) : Prop :=
  component_factories c = fs ∧ ∀ k, is_Some (singletons c !! k) → ∃ n, buildable_within fs cached n k = true.
Lemma buildable_args fs cached args :
  Forall (λ a, ∃ n, buildable_within fs cached n a = true) args → ∃ n, forallb (buildable_within fs cached n) args = true.
Proof.
  induction 1 as [|a args [n Ha] _ [m Hm]]; [by exists 0|]. exists (max n m). cbn.
  rewrite (buildable_mono _ _ n (max n m)) by (done || lia). cbn. apply forallb_forall. intros b Hb.
  rewrite forallb_forall in Hm. apply (buildable_mono _ _ m); [lia|by apply Hm].
Qed.
Definition resolve_sound_at (fs : gmap component (list component)) (cached : gmap component ptr) (fuel : nat) : Prop := ∀ c t c' r,
  cache_buildable fs cached c → resolve fuel c t = Some (c', r) →
  cache_buildable fs cached c' ∧ ∀ p, r = Ret p → ∃ n, buildable_within fs cached n t = true.
Lemma resolve_args_sound fs cached fuel args c c' r :
  resolve_sound_at fs cached fuel → cache_buildable fs cached c →
  resolve_args (resolve fuel) c args = Some (c', r) →
  cache_buildable fs cached c' ∧ ∀ ps, r = Ret ps → Forall (λ a, ∃ n, buildable_within fs cached n a = true) args.
Proof using Type.
  intros Hok. revert c r. induction args as [|a args IH]; intros c r Hc; cbn [resolve_args].
  { intros [= <- <-]. split; [done|]. by constructor. }
  destruct (resolve fuel c a) as [[c1 [p|e]]|] eqn:Hres; [|intros [= <- <-]; split; [by eapply Hok|done]|done].
  destruct (Hok _ _ _ _ Hc Hres) as [Hc1 Ha]. specialize (Ha p eq_refl).
  destruct (resolve_args (resolve fuel) c1 args) as [[c2 [ps|e]]|] eqn:Hargs; [| |done];
    intros [= <- <-]; destruct (IH c1 _ Hc1 Hargs) as [? Hrest]; (split; [done|]); [|done].
  intros ? _. constructor; [done|]. by eapply Hrest.
Qed.
Lemma resolve_sound_all fs cached fuel : resolve_sound_at fs cached fuel.
Proof using Hpermutes.
  induction fuel as [|fuel IH]; intros c t c' r Hc; [done|]. cbn [DiContainer.resolve].
  destruct (begin_resolve c t) as [p|e|args c1] eqn:Hb.
  - intros [= <- <-]. split; [done|]. intros _ _. apply Hc. unfold begin_resolve in Hb.
    destruct (singletons c !! t); [done|]. repeat (case_bool_decide || destr_match); congruence.
  - by intros [= <- <-].
  - apply begin_resolve_enter in Hb as (_ & _ & Hft & ->).
    assert (cache_buildable fs cached (entered c t)) as He by exact Hc.
    destruct (resolve_args (resolve fuel) (entered c t) (eval_order args)) as [[c2 [ps|e]]|] eqn:Hargs; [| |done].
    2:{ intros [= <- <-]. destruct (resolve_args_sound _ _ _ _ _ _ _ IH He Hargs) as [Hc2 _]. by split. }
    destruct (resolve_args_sound _ _ _ _ _ _ _ IH He Hargs) as [Hc2 Hps].
    specialize (Hps ps eq_refl). rewrite Hpermutes in Hps. apply buildable_args in Hps as [n Hn].
    assert (buildable_within fs cached (S n) t = true) as Ht.
    { cbn. destruct Hc as [<- _]. rewrite Hft. apply orb_true_iff. by right. }
    unfold construct_component. destruct (ctor_throws _ _); intros [= <- <-]; (split; [|by exists (S n)]); [done|].
    destruct Hc2 as [Hf Hk]. split; [done|]. intros k. cbn. destruct (decide (k = t)) as [->|Hne]; [by exists (S n)|].
    rewrite lookup_insert_ne by done. apply Hk.
Qed.
End proofs.

(** Resolution always ends, whatever the registrations (cycles, missing
    types, throwing constructors, any evaluation order of the arguments): the
    recursion is never deeper than the number of registered types. It leaves the
    registrations and the set of types being resolved as they were, keeps every
    cached singleton, and a type that was resolved is the same instance, without
    building anything, from then on. *)
Theorem resolve_total eval_order ctor_throws fuel c t :
  unentered c < fuel →
  ∃ c' r, resolve eval_order ctor_throws fuel c t = Some (c', r) ∧
    component_factories c' = component_factories c ∧ resolving c' = resolving c ∧ singletons c ⊆ singletons c' ∧
    (∀ p, r = Ret p → ∀ fuel', resolve eval_order ctor_throws (S fuel') c' t = Some (c', Ret p)).
Proof.
  intros Hu. destruct (resolve_all_ok eval_order ctor_throws fuel c t Hu) as (c' & r & Hr & (? & ? & ?) & Hp).
  exists c', r. split_and!; try done. intros p Hret fuel'. cbn [resolve]. unfold begin_resolve. by rewrite (Hp p Hret).
Qed.
(** A service and a repository over one database. *)
Definition demo_container : DI_Container :=
  register_component 3 [1; 2]%N (register_component 2 [1]%N (register_component 1 [] container_init)).
Theorem resolve_total_witness :
  ∃ c p, resolve id (λ _ _, false) 4 demo_container 3%N = Some (c, Ret p) ∧ resolving c = ∅ ∧
    heap c = [mk_object 1 []; mk_object 2 [0]; mk_object 3 [0; 1]].
Proof.
  destruct (resolve_total id (λ _ _, false) 4 demo_container 3%N) as (c & r & Hr & _ & Hres & _).
  { apply Nat.ltb_lt. by vm_compute. }
  assert (r = Ret 2) as ->.
  { assert ((λ x, x.2) <$> resolve id (λ _ _, false) 4 demo_container 3%N = Some (Ret 2)) as He by by vm_compute.
    rewrite Hr in He. by injection He. }
  exists c, 2. split_and!; [exact Hr|exact Hres|].
  assert ((λ x, heap x.1) <$> resolve id (λ _ _, false) 4 demo_container 3%N =
    Some [mk_object 1 []; mk_object 2 [0]; mk_object 3 [0; 1]]) as He by by vm_compute.
  rewrite Hr in He. by injection He.
Defined.

(** C26: with constructors that do not throw, and nothing being resolved, a type
    resolves exactly when it can be built: it is cached or registered and, down
    a finite tree, so are its arguments. So a cycle or a missing registration is
    always reported, and never where there is none (diamonds included). *)
Theorem resolve_iff_buildable eval_order ctor_throws fuel c t :
  (∀ args, eval_order args ≡ₚ args) → (∀ t args, ctor_throws t args = false) →
  resolving c = ∅ → unentered c < fuel →
  (∃ c' p, resolve eval_order ctor_throws fuel c t = Some (c', Ret p)) ↔ buildable c t.
Proof.
  intros Hperm Hctor He Hu. split.
  - intros (c' & p & Hr).
    destruct (resolve_sound_all eval_order ctor_throws Hperm (component_factories c) (singletons c) fuel c t c' (Ret p)) as [_ Hb].
    + split; [done|]. intros k Hk. exists 0. by apply buildable_cached.
    + done.
    + by apply (Hb p).
  - intros [n Hn]. eapply (resolve_complete_all eval_order ctor_throws Hperm Hctor (component_factories c) (singletons c) n); try done.
    rewrite He. set_solver.
Qed.
Theorem resolve_iff_buildable_witness :
  (∃ c' p, resolve reverse (λ _ _, false) 4 demo_container 3%N = Some (c', Ret p)) ∧
  ~ ∃ c' p, resolve reverse (λ _ _, false) 4 (register_component 1 [3]%N demo_container) 3%N = Some (c', Ret p).
Proof.
  split.
  - apply (resolve_iff_buildable reverse (λ _ _, false) 4 demo_container 3%N).
    + intros args. apply reverse_Permutation.
    + done.
    + reflexivity.
    + apply Nat.ltb_lt. by vm_compute.
    + exists 3. by vm_compute.
  - intros (c' & p & Hr).
    assert ((λ x, x.2) <$> resolve reverse (λ _ _, false) 4 (register_component 1 [3]%N demo_container) 3%N =
      Some (Throw (CircularDependency 3%N))) as He by by vm_compute.
    rewrite Hr in He. discriminate.
Defined.

(** The set of types being resolved belongs to the container, not to the call:
    a second thread that asks for a type while the first one is building it is
    told that there is a cycle. *)
Theorem concurrent_resolve_refused c t args c1 :
  begin_resolve c t = Enter args c1 → begin_resolve c1 t = Refused (CircularDependency t).
Proof.
  intros (Hs & Ht & Hf & ->)%begin_resolve_enter. unfold begin_resolve, entered. cbn. rewrite Hs.
  rewrite bool_decide_eq_true_2; [done|set_solver].
Qed.
