(* ===== verification/HttpProxySession.v ===== *)
(** * Streaming reverse proxy ([client/http_proxy_session.cpp])

    One inbound request is relayed to an upstream server and its response back.
    Every operation on the three streams is asynchronous; the machine is driven
    by their completions, one of which is outstanding at any time. *)
From S2P Require Import Prelude Text Http Websocket WebsocketTheorems.
Set Default Proof Using "Type*".

(** ** [filter_hop_by_hop] *)
Section filter_fields.
Context {F : Type} `{HttpFields F}.
Fixpoint erase_connection_tokens (tokens : bytes) (fuel : nat) (begin : nat) (f : F) : F :=
  match fuel with
  | O => f
  | S fuel =>
      if bool_decide (length tokens ≤ begin) then f else
      let e := find_char ","%char tokens begin in
      let token := trim_by is_blank (substr_to tokens begin e) in
      let f := if bool_decide (token = []) then f else field_erase token f in
      match e with None => f | Some e => erase_connection_tokens tokens fuel (e + 1) f end
  end.
Definition hop_by_hop_names : list bytes :=
  [str "Connection"; str "Keep-Alive"; str "Proxy-Authenticate"; str "Proxy-Authorization"; str "TE"; str "Trailer";
   str "Transfer-Encoding"; str "Upgrade"; str "Proxy-Connection"].
Definition filter_hop_by_hop (f : F) : F :=
  let chunked := get_chunked f in
  let f := match field_find (str "Connection") f with
           | Some connection =>
               if bool_decide (connection = []) then f
               else erase_connection_tokens connection (S (length connection)) 0 f
           | None => f
           end in
  let f := fold_left (λ f n, field_erase n f) hop_by_hop_names f in
  if chunked then set_chunked true f else f.
(** What [start] sends upstream. *)
Definition upstream_head (f : F) : F := filter_hop_by_hop (field_erase (str "Expect") f).
End filter_fields.

(** ** The session *)
Module HttpProxySession.
Section session.
Context {F : Type} `{HttpFields F}.
(** The outstanding operation; [done] is what the read before it reported. *)
Inductive phase :=
| Starting | ReadingRequest | WritingRequest (done : bool) | FinishingRequest
| ReadingHead | StartingResponse | ReadingResponse | WritingResponse (done : bool) | FinishingResponse
| Ended.
#[global] Instance phase_eq_dec : EqDecision phase.
Proof. solve_decision. Defined.
Inductive event :=
| EvDone (ec : bool)                                 (** an operation that only reports an error *)
| EvRead (ec : bool) (data : bytes) (done : bool)    (** [async_read_some] *)
| EvHead (ec : bool) (head : F).                     (** [async_read_response_head] *)
Inductive effect :=
| UpStart (head : F) | InRead | UpWrite (data : bytes) | UpFinish
| UpReadHead | DownStart (head : F) | UpRead | DownWrite (data : bytes) | DownFinish
| Cancel | Complete (ec : bool).
Record t := mk { at_phase : phase; completed : bool }.

Definition start (head : F) : t * list effect := (mk Starting false, [UpStart (upstream_head head)]).
Definition finish (ec : bool) (s : t) : t * list effect :=
  if completed s then (s, []) else (mk Ended true, (if ec then [Cancel] else []) ++ [Complete ec]).
Definition goto (p : phase) (e : effect) (s : t) : t * list effect := (mk p (completed s), [e]).
Definition pump_request := goto ReadingRequest InRead.
Definition finish_request := goto FinishingRequest UpFinish.
Definition read_response_head := goto ReadingHead UpReadHead.
Definition pump_response := goto ReadingResponse UpRead.
Definition finish_response := goto FinishingResponse DownFinish.
(** The callback of the outstanding operation. *)
Definition handle (s : t) (ev : event) : t * list effect :=
  match at_phase s, ev with
  | Starting, EvDone ec => if ec then finish ec s else pump_request s
  | ReadingRequest, EvRead ec data done =>
      if ec then finish ec s
      else if bool_decide (data ≠ []) then goto (WritingRequest done) (UpWrite data) s
      else if done then finish_request s else pump_request s
  | WritingRequest done, EvDone ec =>
      if ec then finish ec s else if done then finish_request s else pump_request s
  | FinishingRequest, EvDone ec => if ec then finish ec s else read_response_head s
  | ReadingHead, EvHead ec head =>
      if ec then finish ec s else goto StartingResponse (DownStart (filter_hop_by_hop head)) s
  | StartingResponse, EvDone ec => if ec then finish ec s else pump_response s
  | ReadingResponse, EvRead ec data done =>
      if ec then finish ec s
      else if bool_decide (data ≠ []) then goto (WritingResponse done) (DownWrite data) s
      else if done then finish_response s else pump_response s
  | WritingResponse done, EvDone ec =>
      if ec then finish ec s else if done then finish_response s else pump_response s
  | FinishingResponse, EvDone ec => finish ec s
  | _, _ => (s, [])
  end.
End session.
Arguments event : clear implicits.
Arguments effect : clear implicits.
End HttpProxySession.

(** ** Properties of the filter *)
Section filter_spec.
Context {F : Type} `{HttpFieldsLaws F}.
Definition erase_all (names : list bytes) (f : F) : F := fold_left (λ f n, field_erase n f) names f.
Lemma field_all_erase_all names name f :
  field_all name (erase_all names f) = if existsb (ieq name) names then [] else field_all name f.
Proof.
  revert f. induction names as [|n names IH]; intros f; [done|]. unfold erase_all in *. cbn [fold_left existsb].
  rewrite IH, field_all_erase. destruct (ieq name n), (existsb _ names); done.
Qed.
Lemma erase_all_app a b f : erase_all (a ++ b) f = erase_all b (erase_all a f).
Proof. apply fold_left_app. Qed.
(** The loop erases the tokens the comma-separated list names. *)
Definition tokens_of (v : bytes) : list bytes := filter (λ t, t ≠ []) (trim_by is_blank <$> split_on ","%char v).
Lemma erase_tokens_loop tokens fuel begin f acc :
  erase_all (subprotocol_loop tokens fuel begin acc) f = erase_connection_tokens tokens fuel begin (erase_all acc f).
Proof.
  revert begin acc. induction fuel as [|fuel IH]; intros begin acc; [done|]. cbn [subprotocol_loop erase_connection_tokens].
  case_bool_decide; [done|]. cbv zeta. set (token := trim_by _ _).
  assert (erase_all (if bool_decide (token = []) then acc else acc ++ [token]) f =
    if bool_decide (token = []) then erase_all acc f else field_erase token (erase_all acc f)) as Heq.
  { case_bool_decide; [done|]. by rewrite erase_all_app. }
  destruct (find_char _ _ _); [|done]. by rewrite IH, Heq.
Qed.
Lemma erase_connection_tokens_all v f : erase_connection_tokens v (S (length v)) 0 f = erase_all (tokens_of v) f.
Proof.
  transitivity (erase_connection_tokens v (S (length v)) 0 (erase_all [] f)); [done|].
  rewrite <-erase_tokens_loop, subprotocol_loop_split by lia. by rewrite drop_0.
Qed.
End filter_spec.

(** The relayed head has none of the standard hop-by-hop fields, nor any
    field named by a token of the (first) [Connection] field, compared without
    case; every other field keeps its values in order. The chunked coding is the
    one thing that is put back, for the proxy's own framing. *)
Theorem filter_hop_by_hop_spec {F} `{HttpFieldsLaws F} (f : F) name :
  is_framing name = false ∨ get_chunked f = false →
  field_all name (filter_hop_by_hop f) =
    if existsb (ieq name) (tokens_of (default [] (field_find (str "Connection") f)) ++ hop_by_hop_names)
    then [] else field_all name f.
Proof.
  intros Hname. unfold filter_hop_by_hop.
  set (f1 := match field_find _ f with Some _ => _ | None => _ end).
  assert (f1 = erase_all (tokens_of (default [] (field_find (str "Connection") f))) f) as ->.
  { unfold f1. destruct (field_find _ f) as [v|]; cbn [default from_option id]; [|done].
    case_bool_decide; [by subst|]. apply erase_connection_tokens_all. }
  fold (erase_all hop_by_hop_names (erase_all (tokens_of (default [] (field_find (str "Connection") f))) f)).
  rewrite <-erase_all_app.
  transitivity (field_all name (erase_all (tokens_of (default [] (field_find (str "Connection") f)) ++ hop_by_hop_names) f));
    [|apply field_all_erase_all].
  destruct (get_chunked f) eqn:Hc; [|done]. destruct Hname as [Hname|]; [|done]. by apply field_all_chunked.
Qed.
Theorem filter_hop_by_hop_spec_witness :
  let f := [(str "X-Id", str "7"); (str "Connection", str "close, X-Hop"); (str "x-hop", str "1"); (str "TE", str "gzip")] in
  field_all (str "X-Hop") (filter_hop_by_hop f) = [] ∧ field_all (str "X-Id") (filter_hop_by_hop f) = [str "7"].
Proof.
  intros f. split.
  - rewrite (filter_hop_by_hop_spec f) by (left; by vm_compute). by vm_compute.
  - rewrite (filter_hop_by_hop_spec f) by (left; by vm_compute). by vm_compute.
Defined.

(** Only the first [Connection] field is read: a field nominated by the second
    one is forwarded. *)
Theorem second_connection_field_ignored :
  let f := [(str "Connection", str "close"); (str "Connection", str "X-Hop"); (str "X-Hop", str "1")] in
  field_all (str "X-Hop") (filter_hop_by_hop f) = [str "1"].
Proof. by vm_compute. Qed.

(** ** Properties of the relay *)
Section relay.
Import HttpProxySession.
Context {F : Type} `{HttpFields F}.
Implicit Types (s : HttpProxySession.t).
Abbreviation event := (HttpProxySession.event F).
Abbreviation effect := (HttpProxySession.effect F).
Definition up_data (e : effect) : option bytes := match e with UpWrite d => Some d | _ => None end.
Definition down_data (e : effect) : option bytes := match e with DownWrite d => Some d | _ => None end.
Definition is_operation (e : effect) : bool := match e with Cancel | Complete _ => false | _ => true end.
Definition is_completion (e : effect) : bool := match e with Complete _ => true | _ => false end.
Definition operations (out : list effect) : nat := length (List.filter is_operation out).
Definition proxy_completions (out : list effect) : nat := length (List.filter is_completion out).
Definition sent_up (out : list effect) : bytes := concat (omap up_data out).
Definition sent_down (out : list effect) : bytes := concat (omap down_data out).

(** The completion an outstanding operation can have. *)
Definition answers (p : phase) (ev : event) : Prop :=
  match p, ev with
  | (ReadingRequest | ReadingResponse), EvRead _ _ _ => True
  | ReadingHead, EvHead _ _ => True
  | (Starting | WritingRequest _ | FinishingRequest | StartingResponse | WritingResponse _ | FinishingResponse), EvDone _ => True
  | _, _ => False
  end.
(** What the client and the upstream server sent in this completion. *)
Definition read_in (p : phase) (ev : event) : bytes :=
  match p, ev with ReadingRequest, EvRead false d _ => d | _, _ => [] end.
Definition read_up (p : phase) (ev : event) : bytes :=
  match p, ev with ReadingResponse, EvRead false d _ => d | _, _ => [] end.

Record relay := mk_relay { rl_state : HttpProxySession.t; rl_out : list effect; rl_done : nat; rl_in : bytes; rl_up : bytes }.
Inductive relay_step : relay → relay → Prop :=
| relay_event s out n rin rup ev :
    answers (at_phase s) ev →
    relay_step (mk_relay s out n rin rup)
      (mk_relay (handle s ev).1 (out ++ (handle s ev).2) (S n) (rin ++ read_in (at_phase s) ev) (rup ++ read_up (at_phase s) ev)).
Definition relay_start (head : F) : relay := mk_relay (start head).1 (start head).2 0 [] [].
Definition relay_inv (c : relay) : Prop :=
  let s := rl_state c in
  (completed s = true ↔ at_phase s = Ended) ∧
  operations (rl_out c) = (if completed s then 0 else 1) + rl_done c ∧
  proxy_completions (rl_out c) = (if completed s then 1 else 0) ∧
  sent_up (rl_out c) = rl_in c ∧ sent_down (rl_out c) = rl_up c.

(** Every handler emits one new operation, or completes, and writes what was read. *)
Lemma handle_effects s ev :
  (completed s = true ↔ at_phase s = Ended) → answers (at_phase s) ev →
  let '(s', out) := handle s ev in
  (completed s' = true ↔ at_phase s' = Ended) ∧ completed s = false ∧
  operations out = (if completed s' then 0 else 1) ∧ proxy_completions out = (if completed s' then 1 else 0) ∧
  sent_up out = read_in (at_phase s) ev ∧ sent_down out = read_up (at_phase s) ev.
Proof.
  destruct s as [p cp]. cbn [at_phase completed]. intros Hcp Ha.
  assert (cp = false) as -> by (destruct cp; [destruct p, ev; naive_solver|done]). clear Hcp.
  destruct p, ev; try done; unfold handle, finish, goto, pump_request, finish_request, read_response_head, pump_response, finish_response, goto;
    cbn [at_phase completed]; repeat (case_bool_decide || case_match); simplify_eq; cbn; rewrite ?app_nil_r; by split_and!.
Qed.
Lemma relay_step_inv c c' : relay_inv c → relay_step c c' → relay_inv c'.
Proof.
  intros (Hcp & Hop & Hco & Hu & Hd) Hs. destruct Hs as [s out n rin rup ev Ha]. cbn in *.
  pose proof (handle_effects s ev Hcp Ha) as He. destruct (handle s ev) as [s' o].
  destruct He as (Hcp' & Hrun & Hop' & Hco' & Hu' & Hd'). rewrite Hrun in *.
  unfold relay_inv, operations, proxy_completions, sent_up, sent_down in *. cbn.
  rewrite !List.filter_app, !length_app, !omap_app, !concat_app, Hop, Hop', Hco, Hco', Hu, Hu', Hd, Hd'.
  split_and!; [done|lia|lia|done|done].
Qed.
End relay.

(** Whatever the completions of the three streams (data, errors, ends, in
    any number of pieces): the bytes written upstream are exactly the bytes read
    from the client so far, those written to the client exactly the bytes read
    from the upstream response; one operation is outstanding until the session
    completes, none afterwards; and completion is reported exactly once. *)
Theorem proxy_relays {F} `{HttpFields F} (head : F) c :
  rtc relay_step (relay_start head) c →
  let ended := bool_decide (HttpProxySession.at_phase (rl_state c) = HttpProxySession.Ended) in
  sent_up (rl_out c) = rl_in c ∧ sent_down (rl_out c) = rl_up c ∧
  operations (rl_out c) = (if ended then 0 else 1) + rl_done c ∧
  proxy_completions (rl_out c) = (if ended then 1 else 0).
Proof.
  intros Hr ended. assert (relay_inv c) as (Hcp & Hop & Hco & Hu & Hd).
  { refine (rtc_invariant relay_step relay_inv _ _ _ Hr _); [intros x y; apply relay_step_inv|]. by split_and!. }
  assert (HttpProxySession.completed (rl_state c) = ended) as Hce.
  { unfold ended. case_bool_decide as He; [by apply Hcp|]. apply not_true_is_false. by intros ?%Hcp. }
  rewrite Hce in *. by split_and!.
Qed.
Theorem proxy_relays_witness :
  ∃ c : @relay FieldList.t, HttpProxySession.at_phase (rl_state c) = HttpProxySession.ReadingHead ∧ sent_up (rl_out c) = str "ping".
Proof.
  pose (s0 := relay_start (F := FieldList.t) []).
  assert (∃ c : @relay FieldList.t, rtc relay_step s0 c ∧ HttpProxySession.at_phase (rl_state c) = HttpProxySession.ReadingHead ∧ rl_in c = str "ping") as (c & Hr & Hp & Hi).
  { eexists. split.
    - eapply rtc_l; [refine (relay_event _ _ _ _ _ (HttpProxySession.EvDone false) _); exact I|].
      eapply rtc_l; [refine (relay_event _ _ _ _ _ (HttpProxySession.EvRead false (str "pi") false) _); exact I|].
      eapply rtc_l; [refine (relay_event _ _ _ _ _ (HttpProxySession.EvDone false) _); exact I|].
      eapply rtc_l; [refine (relay_event _ _ _ _ _ (HttpProxySession.EvRead false (str "ng") true) _); exact I|].
      eapply rtc_l; [refine (relay_event _ _ _ _ _ (HttpProxySession.EvDone false) _); exact I|].
      eapply rtc_l; [refine (relay_event _ _ _ _ _ (HttpProxySession.EvDone false) _); exact I|].
      apply rtc_refl.
    - split; by vm_compute. }
  exists c. split; [done|]. destruct (proxy_relays [] c Hr) as (Hu & _). by rewrite Hu.
Defined.
