(* ===== verification/HttpClient.v ===== *)
(** * HTTP client ([client/http_client.cpp])

    Request assembly over an interface to Boost.URL, and the session of one
    request (plain or TLS) as a machine over the completions of its operations
    and its two timers. *)
From S2P Require Import Prelude Text Http HostPool.
Set Default Proof Using "Type*".

(** ** Helpers *)
Definition replace_at (s : bytes) (pos len : nat) (by_ : bytes) : bytes := take pos s ++ by_ ++ drop (pos + len) s.
(** The loop of [replace_all]; [None]: out of fuel. *)
Fixpoint replace_loop (fuel : nat) (from to s : bytes) (start_pos : nat) : option bytes :=
  match fuel with
  | O => None
  | S fuel =>
      match find_str from s start_pos with
      | None => Some s
      | Some pos => replace_loop fuel from to (replace_at s pos (length from) to) (pos + length to)
      end
  end.
Definition replace_all (s from to : bytes) : option bytes :=
  if bool_decide (from = []) then Some s else replace_loop (S (length s)) from to s 0.

(** [verb_from_string]; PATCH is an [http::verb] of Beast's. *)
Definition verb_patch : verb := verb_other 29.
Definition verb_from_string (s : bytes) : verb :=
  if bool_decide (s = str "GET") || bool_decide (s = str "get") then verb_get
  else if bool_decide (s = str "POST") || bool_decide (s = str "post") then verb_post
  else if bool_decide (s = str "PUT") || bool_decide (s = str "put") then verb_put
  else if bool_decide (s = str "DELETE") || bool_decide (s = str "delete") then verb_delete
  else if bool_decide (s = str "PATCH") || bool_decide (s = str "patch") then verb_patch
  else if bool_decide (s = str "HEAD") || bool_decide (s = str "head") then verb_head
  else if bool_decide (s = str "OPTIONS") || bool_decide (s = str "options") then verb_options
  else verb_get.

(** ** Targets *)
Class BoostUrl (U : Type) := {
  url_empty : U;
  parse_uri : bytes → option U;
  url_relative_params : bytes → option (list (bytes * bytes));   (** [parse_relative_ref(s)->params()] *)
  url_path : U → bytes;
  url_set_path : bytes → U → U;
  url_params_clear : U → U;
  url_params_append : bytes → bytes → U → U;
  url_scheme : U → bytes; url_host : U → bytes; url_port : U → bytes; url_encoded_target : U → bytes;
}.
Record UrlParts := mk_parts { up_scheme : bytes; up_host : bytes; up_port : bytes; up_target : bytes }.
(** The part of [HttpClient] a request reads. *)
Record HttpClient (U F : Type) := mk_client {
  hc_base_url : option U; hc_host_pool : option HostPool; hc_default_headers : list (bytes * bytes);
  hc_timeouts : ClientTimeouts; hc_has_ssl : bool }.
Arguments mk_client {U F}. Arguments hc_base_url {U F}. Arguments hc_host_pool {U F}.
Arguments hc_default_headers {U F}. Arguments hc_timeouts {U F}. Arguments hc_has_ssl {U F}.

Section client.
Context {U F : Type} `{BoostUrl U} `{HttpFields F}.
Abbreviation client := (HttpClient U F).
Implicit Types (c : client) (u : U).

Definition with_base (b : option U) (p : option HostPool) c : client :=
  mk_client b p (hc_default_headers c) (hc_timeouts c) (hc_has_ssl c).
Definition set_base_url (url : bytes) c : client :=
  match parse_uri url with
  | Some u => with_base (Some u) None c
  | None =>
      if bool_decide (find_str (str "http") url 0 = Some 0) then with_base (hc_base_url c) None c
      else match parse_uri (str "http://" ++ url) with
           | Some u => with_base (Some u) None c
           | None => with_base (hc_base_url c) None c
           end
  end.
(** [None]: the pool's constructor overflows. *)
Definition set_base_url_pool (hosts : list HostEntry) c : option client :=
  match hosts with
  | [] => Some (with_base (hc_base_url c) None c)
  | [h] => Some (set_base_url (he_url h) c)
  | _ => p ← host_pool hosts; Some (with_base None (Some p) c)
  end.
Definition set_default_header (key value : bytes) c : client :=
  mk_client (hc_base_url c) (hc_host_pool c) (map_assign key value (hc_default_headers c)) (hc_timeouts c) (hc_has_ssl c).
Definition set_bearer_token (token : bytes) c : client :=
  set_default_header (str "Authorization") (str "Bearer " ++ token) c.
(** [None]: [std::invalid_argument], and the time-outs stay. *)
Definition set_timeouts (t : ClientTimeouts) c : option client :=
  if validate_client_timeouts t then None
  else Some (mk_client (hc_base_url c) (hc_host_pool c) (hc_default_headers c) t (hc_has_ssl c)).
Definition set_timeout (s : Z) c : option client := set_timeouts (mk_timeouts s s s s) c.

Definition min_pos (a b : option nat) : option nat :=
  match a, b with Some a, Some b => Some (Nat.min a b) | Some a, None => Some a | None, b => b end.
(** The path of the target is appended to the base, or replaces its path. *)
Definition apply_path (path_only : bytes) u : U :=
  match path_only with
  | [] => u
  | c :: _ =>
      if bool_decide (c ≠ "/"%char) then url_set_path (url_path u ++ str "/" ++ path_only) u
      else url_set_path path_only u
  end.
Definition append_params (ps : list (bytes * bytes)) u : U := fold_left (λ u p, url_params_append p.1 p.2 u) ps u.
(** [draw] is the random number of [HostPool::pick]; the result is [None] when it is out of range. *)
Definition base_of (draw : Z) c (path_only : bytes) : option U :=
  match hc_host_pool c with
  | Some p =>
      host_url ← pick p draw;
      let u := match parse_uri host_url with
               | Some u => u
               | None => default url_empty (parse_uri (str "http://" ++ host_url))
               end in
      Some (apply_path path_only u)
  | None => Some (match hc_base_url c with Some u => apply_path path_only u | None => url_empty end)
  end.
Definition parse_target (draw : Z) c (path_in : bytes) (query : list (bytes * bytes)) : option UrlParts :=
  let path_only := substr_to path_in 0 (min_pos (find_char "?"%char path_in 0) (find_char "#"%char path_in 0)) in
  u ← base_of draw c path_only;
  let u := match parse_uri path_in with
           | Some u => u
           | None =>
               if bool_decide (path_in = []) then u
               else match url_relative_params path_in with
                    | Some ps => append_params ps (url_params_clear u)
                    | None => u
                    end
           end in
  let u := append_params query u in
  let scheme := if bool_decide (url_scheme u = []) then str "http" else url_scheme u in
  Some (mk_parts scheme (url_host u)
    (if bool_decide (url_port u = []) then (if bool_decide (scheme = str "https") then str "443" else str "80") else url_port u)
    (if bool_decide (url_encoded_target u = []) then str "/" else url_encoded_target u)).

(** The message both [request] and [request_sync] send. *)
Definition client_request (request_prepare_payload : verb → bytes → F → F) (user_agent : bytes) (method : verb) (parts : UrlParts) (body : bytes)
    (default_headers headers : list (bytes * bytes)) : F :=
  let f := field_set (str "Host") (up_host parts) fields_empty in
  let f := field_set (str "User-Agent") user_agent f in
  let f := fold_left (λ f h, field_set h.1 h.2 f) default_headers f in
  let f := fold_left (λ f h, field_set h.1 h.2 f) headers f in
  if bool_decide (body = []) then f else request_prepare_payload method body f.
End client.

(** ** The session of one request *)
Module Session.
(** What the user's callback gets: an error, or the status of the response. *)
Inductive failure := IoError | TimedOut (phase : N) | SslSetup.
Inductive result := Failed (e : failure) | Response (st : N).
(** The outstanding operation; [Idle]: none. *)
Inductive stage := Resolving | Connecting | Handshaking | Writing | Reading | ShuttingDown (st : N) | Idle.
#[global] Instance stage_eq_dec : EqDecision stage.
Proof. solve_decision. Defined.
Inductive read_error := ReadOk | ReadFailed | ReadTruncated.   (** [stream_truncated] or [eof] *)
Inductive event :=
| EvOp (ec : bool)                                     (** resolve, connect, handshake or write *)
| EvRead (ec : read_error) (st : N) (is_done : bool)   (** [async_read]: the parser's message *)
| EvShutdown (ec : read_error)
| EvTimer (phase : N)                                  (** a timer expires *)
| EvCancel.                                            (** [request_sync] gives up *)
Inductive effect := Start (op : stage) | Arm (phase : N) (seconds : Z) | CancelIo | CancelTimers | Callback (r : result).
Record t := mk { op : stage; completed : bool }.

Section session.
Context (https : bool) (timeouts : ClientTimeouts).
Definition arm (phase : N) (seconds : Z) (s : t) : list effect :=
  if completed s || bool_decide (seconds = 0)%Z then [] else [Arm phase seconds].
Definition complete (r : result) (s : t) : t * list effect :=
  if completed s then (s, []) else (mk (op s) true, [CancelTimers; Callback r]).
Definition goto (o : stage) (s : t) : t := mk o (completed s).
(** The handler of an operation that ends the session. *)
Definition ends (r : result) (s : t) : t * list effect := complete r (goto Idle s).
Definition on_fail (s : t) : t * list effect := ends (Failed IoError) s.
Definition starts (o : stage) (arms : list effect) (s : t) : t * list effect := (goto o s, arms ++ [Start o]).

(** [run]: the timers, then [start]; [ssl_ok]: setting the server name worked. *)
Definition run (ssl_ok : bool) : t * list effect :=
  let s := mk Idle false in
  let arms := arm 1 (tm_total timeouts) s ++ arm 2 (tm_connect timeouts) s in
  if https && negb ssl_ok then let '(s, out) := ends (Failed SslSetup) s in (s, arms ++ out)
  else starts Resolving arms s.
Definition read_response (arms : list effect) (s : t) : t * list effect :=
  if completed s then (goto Idle s, arms) else starts Reading arms s.
Definition is_informational (st : N) : bool := (100 <=? st)%N && (st <? 200)%N && negb (st =? 101)%N.
Definition on_read (ec : read_error) (st : N) (is_done : bool) (s : t) : t * list effect :=
  match ec with
  | ReadOk =>
      if is_informational st then read_response [] s
      else if https then starts (ShuttingDown st) [] s
      else ends (Response st) s
  | ReadTruncated => if https && is_done then ends (Response st) s else on_fail s
  | ReadFailed => on_fail s
  end.
(** A handler that first tests [completed_], then the error. *)
Definition guarded (ec : bool) (k : t → t * list effect) (s : t) : t * list effect :=
  if completed s then (goto Idle s, []) else if ec then on_fail s else k s.
Definition handle (s : t) (ev : event) : t * list effect :=
  match op s, ev with
  | Resolving, EvOp ec => guarded ec (starts Connecting []) s
  | Connecting, EvOp ec =>
      guarded ec (if https then starts Handshaking [] else starts Writing (arm 4 (tm_write timeouts) s)) s
  | Handshaking, EvOp ec => guarded ec (starts Writing (arm 4 (tm_write timeouts) s)) s
  | Writing, EvOp ec => guarded ec (read_response (arm 3 (tm_read timeouts) s)) s
  | Reading, EvRead ec st is_done => on_read ec st is_done s
  | ShuttingDown st, EvShutdown ec =>
      ends (match ec with ReadFailed => Failed IoError | _ => Response st end) s
  | _, EvTimer phase =>
      if completed s then (s, [])
      else let '(s, out) := complete (Failed (TimedOut phase)) s in (s, out ++ [CancelIo])
  | _, EvCancel => (s, [CancelIo])
  | _, _ => (s, [])
  end.
End session.
End Session.
