(* ===== verification/HttpClientTheorems.v ===== *)
(** * HTTP client: properties

    [replace_all] is the one-pass replacement ([replace_all_spec]); a session
    tells its caller the outcome exactly once ([client_callback_once]). *)
From S2P Require Import Prelude Text Http HostPool HttpClient.
Set Default Proof Using "Type*".

(** ** [replace_all] *)
(** The reference: left to right, never looking at what was put in. [fuel]
    bounds the length of [s]. *)
Fixpoint replace_ref (fuel : nat) (from to s : bytes) : bytes :=
  match fuel, s with
  | O, _ | _, [] => s
  | S fuel, c :: rest =>
      if starts_with from s then to ++ replace_ref fuel from to (drop (length from) s)
      else c :: replace_ref fuel from to rest
  end.
Lemma replace_ref_find from to s fuel :
  from ≠ [] → length s ≤ fuel →
  replace_ref fuel from to s =
    match find_str_aux from s with
    | None => s
    | Some n => take n s ++ to ++ replace_ref (fuel - S n) from to (drop (n + length from) s)
    end.
Proof.
  intros Hf. revert fuel. induction s as [|c s IH]; intros fuel Hl.
  - destruct from; [done|]. by destruct fuel.
  - destruct fuel as [|fuel]; [cbn in Hl; lia|]. cbn [replace_ref find_str_aux].
    destruct (starts_with from (c :: s)); [by rewrite Nat.sub_succ, Nat.sub_0_r|].
    rewrite IH by (cbn in Hl; lia). destruct (find_str_aux from s) as [n|]; [|done].
    cbn [fmap option_fmap option_map take drop app Nat.add Nat.sub]. done.
Qed.
Lemma replace_ref_fuel from to fuel fuel' s :
  from ≠ [] → length s ≤ fuel → length s ≤ fuel' → replace_ref fuel from to s = replace_ref fuel' from to s.
Proof.
  intros Hf. revert fuel' s. induction fuel as [|fuel IH]; intros fuel' s Hl Hl'.
  { destruct s; [|cbn in Hl; lia]. by destruct fuel'. }
  destruct s as [|c s]; [by destruct fuel'|]. destruct fuel' as [|fuel']; [cbn in Hl'; lia|]. cbn [replace_ref].
  cbn in Hl, Hl'. destruct from as [|x from]; [done|].
  destruct (starts_with _ _); [f_equal|f_equal]; apply IH; cbn [length drop]; rewrite ?length_drop; lia.
Qed.
Lemma replace_loop_ref from to fuel done s :
  from ≠ [] → length s < fuel →
  replace_loop fuel from to (done ++ s) (length done) = Some (done ++ replace_ref (length s) from to s).
Proof.
  intros Hf. revert done s. induction fuel as [|fuel IH]; intros done s Hl; [lia|]. cbn [replace_loop].
  rewrite find_str_at, replace_ref_find by done.
  destruct (find_str_aux from s) as [n|] eqn:Hn; cbn [fmap option_fmap option_map]; [|done].
  pose proof (find_str_aux_length _ _ _ Hn) as Hlen.
  assert (0 < length from) by (destruct from; [done|cbn; lia]).
  assert (replace_at (done ++ s) (length done + n) (length from) to = (done ++ take n s ++ to) ++ drop (n + length from) s) as ->.
  { unfold replace_at. rewrite take_app_add, <-Nat.add_assoc, drop_app_add, <-!(assoc_L (++)). done. }
  replace (length done + n + length to) with (length (done ++ take n s ++ to)) by (rewrite !length_app, length_take; lia).
  rewrite IH by (rewrite length_drop; lia). rewrite <-!(assoc_L (++)). do 4 f_equal.
  apply replace_ref_fuel; rewrite ?length_drop; lia || done.
Qed.

(** [replace_all] ends for every input and replaces the occurrences of
    [from] from left to right in one pass: the text put in is never searched
    again, even where [to] contains [from]. *)
Theorem replace_all_spec s from to :
  replace_all s from to = Some (if bool_decide (from = []) then s else replace_ref (length s) from to s).
Proof.
  unfold replace_all. case_bool_decide as Hf; [done|].
  apply (replace_loop_ref from to (S (length s)) [] s Hf). lia.
Qed.
Theorem replace_all_growing : replace_all (str "a-a-b") (str "a") (str "aa") = Some (str "aa-aa-b").
Proof. by vm_compute. Qed.

(** ** The session *)
Section session.
Import HttpClient.Session.
Context (https : bool) (timeouts : ClientTimeouts).
Definition is_callback (e : effect) : bool := match e with Callback _ => true | _ => false end.
Definition callbacks (out : list effect) : nat := length (List.filter is_callback out).
(** Completions come for the outstanding operation; the timers and
    [request_sync] can interfere at any time, also late. *)
Definition possible (o : stage) (ev : event) : Prop :=
  match ev, o with
  | EvOp _, (Resolving | Connecting | Handshaking | Writing) => True
  | EvRead _ _ _, Reading => True
  | EvShutdown _, ShuttingDown _ => True
  | (EvTimer _ | EvCancel), _ => True
  | _, _ => False
  end.
Inductive cstep : t * list effect → t * list effect → Prop :=
| cstep_event s out ev : possible (op s) ev → cstep (s, out) ((handle https timeouts s ev).1, out ++ (handle https timeouts s ev).2).
Definition plain_final (out : list effect) : Prop :=
  https = false → ∀ st, Callback (Response st) ∈ out → is_informational st = false.
Definition cinv (c : t * list effect) : Prop :=
  callbacks c.2 = (if completed c.1 then 1 else 0) ∧ (op c.1 = Idle → completed c.1 = true) ∧
  (https = false → ∀ st, op c.1 ≠ ShuttingDown st) ∧ plain_final c.2.

(** What a handler keeps, from a state with [cp] as its [completed]. *)
Definition keeps (cp : bool) (r : t * list effect) : Prop :=
  callbacks r.2 + (if cp then 1 else 0) = (if completed r.1 then 1 else 0) ∧
  (op r.1 = Idle → completed r.1 = true) ∧ (https = false → ∀ st, op r.1 ≠ ShuttingDown st) ∧ plain_final r.2.
Lemma no_callback_final out : callbacks out = 0 → plain_final out.
Proof.
  intros H0 _ st Hin. exfalso. unfold callbacks in H0. apply list_elem_of_In in Hin.
  assert (In (Callback (Response st)) (List.filter is_callback out)) as Hf by (by apply filter_In).
  destruct (List.filter is_callback out); [done|discriminate].
Qed.
Lemma callbacks_arm phase sec s : callbacks (arm phase sec s) = 0.
Proof. unfold arm. by destruct (completed s || _). Qed.
Lemma keeps_starts o arms s :
  o ≠ Idle → (https = false → ∀ st, o ≠ ShuttingDown st) → callbacks arms = 0 → keeps (completed s) (starts o arms s).
Proof.
  intros Ho Hs Ha. unfold starts, keeps, goto. cbn [fst snd op completed].
  assert (callbacks (arms ++ [Start o]) = 0) as H0.
  { unfold callbacks in *. rewrite List.filter_app, length_app, Ha. done. }
  split_and!; [by rewrite H0|done|done|by apply no_callback_final].
Qed.
Lemma keeps_ends r s :
  (https = false → ∀ st, r = Response st → is_informational st = false) → keeps (completed s) (ends r s).
Proof.
  intros Hr. unfold ends, complete, goto, keeps. cbn [completed op]. destruct (completed s); cbn.
  - split_and!; [done..|]. by apply no_callback_final.
  - split_and!; [done..|]. intros Hh st [?|[Hin|?%not_elem_of_nil]%elem_of_cons]%elem_of_cons; [done| |done].
    injection Hin as Hin. by eapply Hr.
Qed.
Lemma keeps_idle s : completed s = true → keeps (completed s) (goto Idle s, []).
Proof. intros Hc. unfold keeps. cbn. rewrite Hc. split_and!; [done..|]. by apply no_callback_final. Qed.
Lemma keeps_guarded ec k s : (completed s = false → keeps (completed s) (k s)) → keeps (completed s) (guarded ec k s).
Proof.
  intros Hk. unfold guarded. destruct (completed s) eqn:Hc; [rewrite <-Hc; by apply keeps_idle|].
  destruct ec; [|by apply Hk]. rewrite <-Hc. by apply keeps_ends.
Qed.
Lemma keeps_read_response arms s : callbacks arms = 0 → keeps (completed s) (read_response arms s).
Proof.
  intros Ha. unfold read_response. destruct (completed s) eqn:Hc; rewrite <-Hc; [|by apply keeps_starts].
  unfold keeps. cbn [fst snd op completed goto]. rewrite Ha, Hc. split_and!; [done..|]. by apply no_callback_final.
Qed.
Lemma keeps_on_read ec st is_done s : keeps (completed s) (on_read https ec st is_done s).
Proof.
  unfold on_read. destruct ec; [|by apply keeps_ends|].
  - destruct (is_informational st) eqn:Hst; [by apply keeps_read_response|].
    destruct (sumbool_of_bool https) as [Hh|Hh]; rewrite Hh; [apply keeps_starts; congruence || done|].
    apply keeps_ends. intros _ ? [= <-]. done.
  - destruct (https && is_done) eqn:Hh; apply keeps_ends; [|done]. apply andb_prop in Hh as [Hh _]. congruence.
Qed.
(** The timers and [request_sync]. *)
Lemma keeps_interference s ev :
  (op s = Idle → completed s = true) → (https = false → ∀ st, op s ≠ ShuttingDown st) →
  match ev with EvTimer _ | EvCancel => keeps (completed s) (handle https timeouts s ev) | _ => True end.
Proof.
  intros Hi Hs. destruct ev as [| | |phase|]; try done.
  - assert (handle https timeouts s (EvTimer phase) = if completed s then (s, [])
      else (mk (op s) true, [CancelTimers; Callback (Failed (TimedOut phase)); CancelIo])) as ->.
    { unfold handle, complete. by destruct (op s), (completed s). }
    destruct (completed s) eqn:Hc; unfold keeps; cbn; rewrite ?Hc; split_and!; try done; [by apply no_callback_final|].
    intros _ st Hin. repeat (apply elem_of_cons in Hin as [Hin|Hin]; [done|]). by apply not_elem_of_nil in Hin.
  - assert (handle https timeouts s EvCancel = (s, [CancelIo])) as -> by (unfold handle; by destruct (op s)).
    unfold keeps. cbn. split_and!; try done. by apply no_callback_final.
Qed.

Lemma handle_keeps s ev :
  possible (op s) ev → (op s = Idle → completed s = true) → (https = false → ∀ st, op s ≠ ShuttingDown st) →
  keeps (completed s) (handle https timeouts s ev).
Proof.
  intros Hp Hi Hs. pose proof (keeps_interference s ev Hi Hs) as Hint.
  destruct ev as [ec|ec st is_done|ec|phase|]; [| | |exact Hint|exact Hint]; unfold handle; destruct (op s) as [| | | | |st'|] eqn:Ho; try done.
  - apply keeps_guarded. intros _. by apply keeps_starts.
  - apply keeps_guarded. intros _. destruct (sumbool_of_bool https) as [Hh|Hh]; rewrite Hh; apply keeps_starts; try done. apply callbacks_arm.
  - apply keeps_guarded. intros _. apply keeps_starts; try done. apply callbacks_arm.
  - apply keeps_guarded. intros _. apply keeps_read_response, callbacks_arm.
  - apply keeps_on_read.
  - apply keeps_ends. intros Hh. by destruct (Hs Hh st').
Qed.
Lemma cstep_inv c c' : cinv c → cstep c c' → cinv c'.
Proof.
  intros (Hc & Hi & Hs & Hf) Hst. destruct Hst as [s out ev Hp]. cbn in *.
  destruct (handle_keeps s ev Hp Hi Hs) as (Hc' & Hi' & Hs' & Hf').
  destruct (handle https timeouts s ev) as [s' o]. cbn in *. split_and!; [|done|done|].
  - unfold callbacks in *. cbn. rewrite List.filter_app, length_app. lia.
  - intros Hh st [Hin|Hin]%elem_of_app; [by apply (Hf Hh)|by apply (Hf' Hh)].
Qed.
Lemma run_cinv ssl_ok : cinv (Session.run https timeouts ssl_ok).
Proof.
  unfold Session.run, cinv, arm, starts, ends, complete, goto. cbn [completed orb].
  destruct https, ssl_ok; cbn; repeat case_bool_decide; cbn; split_and!; try done;
    intros Hh st Hin; repeat match goal with Hin : _ ∈ _ :: _ |- _ => apply elem_of_cons in Hin as [Hin|Hin] end;
    by try apply not_elem_of_nil in Hin.
Qed.
End session.

(** C12: whatever happens to the connection and whenever the timers fire, the
    caller is told the outcome at most once; as soon as no operation is
    outstanding it has been told (a session never ends silently); and a plain
    HTTP session never reports an informational (1xx) response as the answer. *)
Theorem client_callback_once https timeouts ssl_ok c :
  rtc (cstep https timeouts) (Session.run https timeouts ssl_ok) c →
  callbacks c.2 ≤ 1 ∧ (Session.op c.1 = Session.Idle → callbacks c.2 = 1) ∧
  (https = false → ∀ st, Session.Callback (Session.Response st) ∈ c.2 → Session.is_informational st = false).
Proof.
  intros Hr. assert (cinv https c) as (Hc & Hi & _ & Hf).
  { refine (rtc_invariant (cstep https timeouts) (cinv https) _ _ _ Hr _); [intros x y; apply cstep_inv|apply run_cinv]. }
  split_and!; [rewrite Hc; destruct (Session.completed c.1); lia| |done].
  intros Hidle. by rewrite Hc, (Hi Hidle).
Qed.
Theorem client_callback_once_witness :
  ∃ c, Session.op c.1 = Session.Idle ∧ last c.2 = Some (Session.Callback (Session.Response 200%N)) ∧ callbacks c.2 = 1.
Proof.
  pose (t := default_timeouts).
  assert (∃ c, rtc (cstep false t) (Session.run false t true) c ∧ Session.op c.1 = Session.Idle ∧
    last c.2 = Some (Session.Callback (Session.Response 200%N))) as (c & Hr & Ho & Hl).
  { eexists. split.
    - do 3 (eapply rtc_l; [refine (cstep_event _ _ _ _ (Session.EvOp false) _); exact I|]).
      eapply rtc_l; [refine (cstep_event _ _ _ _ (Session.EvRead Session.ReadOk 100 false) _); exact I|].
      eapply rtc_l; [refine (cstep_event _ _ _ _ (Session.EvRead Session.ReadOk 200 true) _); exact I|].
      eapply rtc_l; [refine (cstep_event _ _ _ _ (Session.EvTimer 1) _); exact I|].
      apply rtc_refl.
    - split; by vm_compute. }
  exists c. split; [done|]. split; [done|]. by apply (client_callback_once false t true c Hr).
Defined.

(** Over TLS a truncated stream ends with the parser's message even if that is
    an informational response. *)
Theorem tls_truncation_reports_informational :
  (Session.handle true default_timeouts (Session.mk Session.Reading false) (Session.EvRead Session.ReadTruncated 103 true)).2 =
    [Session.CancelTimers; Session.Callback (Session.Response 103%N)].
Proof. reflexivity. Qed.
