(* ===== verification/HttpClientCalls.v ===== *)
(** * The calls of the HTTP client ([client/http_client.cpp], [client_timeouts.hpp])

    [request] and [request_sync] around the session of [HttpClient.v]. The
    blocking call is a machine of two threads: the caller, waiting on the future,
    and the strand of the session, which runs the callback that sets it. *)
From S2P Require Import Prelude Text Numbers Http HostPool HttpClient HttpClientTheorems.
Set Default Proof Using "Type*".

(** ** [ClientTimeoutCategory] *)
Definition timeout_name : bytes := str "http.client.timeout".
Definition timeout_message (phase : Z) : bytes :=
  if bool_decide (phase = 1)%Z then str "HTTP client total timeout"
  else if bool_decide (phase = 2)%Z then str "HTTP client connect timeout"
  else if bool_decide (phase = 3)%Z then str "HTTP client read timeout"
  else if bool_decide (phase = 4)%Z then str "HTTP client write timeout"
  else str "HTTP client timeout".
(** The condition every code of the category is equivalent to. *)
Inductive error_condition := timed_out.
Definition default_error_condition (phase : Z) : error_condition := timed_out.
Definition client_timeout_error (phase : Z) : Z * bytes := (phase, timeout_name).

(** ** Arguments as text *)
Inductive argument := AText (s : bytes) | ANumber (z : Z).   (** convertible to [string_view]; integral *)
Definition to_string (v : argument) : bytes :=
  match v with
  | AText s => s
  | ANumber z => if (z <? 0)%Z then "-"%char :: to_dec (Z.to_N (- z)) else to_dec (Z.to_N z)
  end.
(** [serialize]: [boost::json::serialize] of the converted value. *)
Definition serialize_body (serialize : json → bytes) (value : bytes + json) : bytes :=
  match value with inl text => text | inr j => serialize j end.

(** ** [request] *)
Inductive call_error := operation_not_supported | invalid_argument.
Inductive call_start (F : Type) :=
| Reported (ec : call_error)                            (** the callback runs at once *)
| Run (https : bool) (host port : bytes) (req : Http.request F).   (** a session runs *)
Arguments Reported {F}. Arguments Run {F}.
Section request.
Context {U F : Type} `{BoostUrl U} `{HttpFields F}.
Context (prepare_payload : verb → bytes → F → F) (user_agent : bytes).
(** The part [request] and [request_sync] share. [raised]: a [std::exception] while
    the target or the message is put together; [draw] as in [parse_target]. *)
Definition prepare (raised : bool) (draw : Z) (c : HttpClient U F) (method : verb) (path : bytes)
    (query : list (bytes * bytes)) (body : bytes) (headers : list (bytes * bytes)) : option (call_start F) :=
  if raised then Some (Reported invalid_argument)
  else
    parts ← parse_target draw c path query;
    let req := mk_request method (up_target parts) 11 (client_request prepare_payload user_agent method parts body (hc_default_headers c) headers) body in
    Some (if bool_decide (up_scheme parts = str "https") then
            if negb (hc_has_ssl c) then Reported operation_not_supported else Run true (up_host parts) (up_port parts) req
          else Run false (up_host parts) (up_port parts) req).
Definition request (raised : bool) (draw : Z) (c : HttpClient U F) (method : verb) (path : bytes)
    (query : list (bytes * bytes)) (body : bytes) (headers : list (bytes * bytes)) : option (call_start F) :=
  prepare raised draw c method path query body headers.
End request.

(** ** [request_sync] *)
Module SyncCall.
Inductive sync_error := Start (e : call_error) | TotalTimeout | Session (e : Session.failure).
Inductive caller_state := Waiting | Returned (st : N) | Threw (e : sync_error).
Record t := mk {
  session : option Session.t;            (** [None] until the posted [run] was executed *)
  completed : bool;                      (** the shared [std::atomic<bool>] *)
  setting : option Session.result;       (** the callback won the exchange and is about to set the promise *)
  promise : option Session.result;
  caller : caller_state;
  cancel_posted : bool;
  elapsed : Z }.                         (** seconds since [wait_for] *)

(** The session's handlers with the callback [request_sync] passed. *)
Definition callback_in (out : list Session.effect) : option Session.result :=
  head (omap (λ e, match e with Session.Callback r => Some r | _ => None end) out).
Definition on_session (r : Session.t * list Session.effect) (c : t) : t :=
  match callback_in r.2 with
  | Some res => if completed c then mk (Some r.1) true (setting c) (promise c) (caller c) (cancel_posted c) (elapsed c)
                else mk (Some r.1) true (Some res) (promise c) (caller c) (cancel_posted c) (elapsed c)
  | None => mk (Some r.1) (completed c) (setting c) (promise c) (caller c) (cancel_posted c) (elapsed c)
  end.
Definition set_value (res : Session.result) (c : t) : t :=
  mk (session c) (completed c) None (Some res) (caller c) (cancel_posted c) (elapsed c).
(** The rest of the call once the future is ready. *)
Definition future_get (res : Session.result) : caller_state :=
  match res with Session.Response st => Returned st | Session.Failed e => Threw (Session e) end.
Definition wake (res : Session.result) (c : t) : t :=
  mk (session c) (completed c) (setting c) (promise c) (future_get res) (cancel_posted c) (elapsed c).
Definition time_out (c : t) : t := mk (session c) true (setting c) (promise c) (Threw TotalTimeout) true (elapsed c).
Definition run_cancel (r : Session.t * list Session.effect) (c : t) : t :=
  on_session r (mk (session c) (completed c) (setting c) (promise c) (caller c) false (elapsed c)).
Definition tick (k : Z) (c : t) : t := mk (session c) (completed c) (setting c) (promise c) (caller c) (cancel_posted c) (elapsed c + k).
Definition init : t := mk None false None None Waiting false 0.
(** Up to the wait: an error of the preparation is thrown, else a session was made
    and its [run] posted. *)
Definition request_sync {F} (started : call_start F) : sync_error + t :=
  match started with Reported e => inl (Start e) | Run _ _ _ _ => inr init end.
End SyncCall.

(** ** Properties of [request_sync] *)
Section sync.
Import SyncCall.
Context (https : bool) (timeouts : ClientTimeouts).
(** The call, what its session did, and how often the promise was set. *)
Record sync_run := mk_sync { sy_call : SyncCall.t; sy_did : list Session.effect; sy_sets : nat }.
Inductive sync_step : sync_run → sync_run → Prop :=
| sync_start c out n ssl_ok : session c = None →
    sync_step (mk_sync c out n) (mk_sync (on_session (Session.run https timeouts ssl_ok) c) (out ++ (Session.run https timeouts ssl_ok).2) n)
| sync_session c out n s ev : session c = Some s → possible (Session.op s) ev → ev ≠ Session.EvCancel →
    sync_step (mk_sync c out n) (mk_sync (on_session (Session.handle https timeouts s ev) c) (out ++ (Session.handle https timeouts s ev).2) n)
| sync_cancel c out n s : session c = Some s → cancel_posted c = true →
    sync_step (mk_sync c out n)
      (mk_sync (run_cancel (Session.handle https timeouts s Session.EvCancel) c) (out ++ (Session.handle https timeouts s Session.EvCancel).2) n)
| sync_set c out n res : setting c = Some res → sync_step (mk_sync c out n) (mk_sync (set_value res c) out (S n))
| sync_tick c out n k : (0 ≤ k)%Z → sync_step (mk_sync c out n) (mk_sync (tick k c) out n)
| sync_wake c out n res : caller c = Waiting → promise c = Some res → sync_step (mk_sync c out n) (mk_sync (wake res c) out n)
| sync_time_out c out n :
    caller c = Waiting → promise c = None → (0 < tm_total timeouts)%Z → (tm_total timeouts + 1 ≤ elapsed c)%Z →
    sync_step (mk_sync c out n) (mk_sync (time_out c) out n).
Definition gave_up (c : SyncCall.t) : bool := match caller c with Threw TotalTimeout => true | _ => false end.
Definition outcomes (c : SyncCall.t) : list Session.result := option_list (setting c) ++ option_list (promise c).
Definition sync_inv (r : sync_run) : Prop :=
  let c := sy_call r in
  (match session c with Some s => cinv https (s, sy_did r) | None => sy_did r = [] end) ∧
  length (outcomes c) ≤ 1 ∧ sy_sets r = length (option_list (promise c)) ∧
  (completed c = true → outcomes c ≠ [] ∨ gave_up c = true) ∧ (outcomes c ≠ [] → completed c = true) ∧
  (callbacks (sy_did r) ≠ 0 → completed c = true) ∧
  (∀ res, res ∈ outcomes c → Session.Callback res ∈ sy_did r) ∧
  (match caller c with
   | Waiting => True
   | Threw TotalTimeout => (0 < tm_total timeouts)%Z ∧ (tm_total timeouts + 1 ≤ elapsed c)%Z ∧ completed c = true
   | a => ∃ res, promise c = Some res ∧ a = future_get res
   end) ∧
  (gave_up c = true → cancel_posted c = true ∨ Session.CancelIo ∈ sy_did r).
Lemma callback_in_elem out : callbacks out ≤ 1 →
  match callback_in out with Some res => Session.Callback res ∈ out ∧ callbacks out = 1 | None => callbacks out = 0 end.
Proof using Type.
  unfold callbacks, callback_in. induction out as [|e out IH]; [done|]. destruct e as [| | | |r]; cbn; intros Hl; try (specialize (IH Hl); destruct (head _); [|exact IH]; destruct IH; split; [by right|done]).
  split; [by left|]. lia.
Qed.
Lemma callback_elem_count res out : Session.Callback res ∈ out → callbacks out ≠ 0.
Proof using Type.
  unfold callbacks. intros Hin%list_elem_of_In Hn. apply nil_length_inv in Hn.
  assert (In (Session.Callback res) (List.filter is_callback out)) as Hf by (by apply filter_In). by rewrite Hn in Hf.
Qed.
Lemma callbacks_app a b : callbacks (a ++ b) = callbacks a + callbacks b.
Proof using Type. unfold callbacks. by rewrite List.filter_app, length_app. Qed.
Lemma callbacks_le s out : cinv https (s, out) → callbacks out ≤ 1.
Proof using Type. intros (Hc & _). cbn [fst snd] in Hc. rewrite Hc. destruct (Session.completed s); lia. Qed.
Lemma on_session_inv r c out n :
  sync_inv (mk_sync c out n) → cinv https (r.1, out ++ r.2) → sync_inv (mk_sync (on_session r c) (out ++ r.2) n).
Proof using Type.
  intros (Hs & Hl & Hn & Hc & Ho & Hcb & Hin & Hcaller & Hg) Hr. unfold sync_inv in *. cbn [sy_call sy_did sy_sets] in *.
  pose proof (callbacks_le _ _ Hr) as Hle. rewrite callbacks_app in Hle. pose proof (callback_in_elem r.2 ltac:(lia)) as Hcall.
  assert (∀ res, res ∈ outcomes c → Session.Callback res ∈ out ++ r.2) as Hin' by (intros res Hres; apply elem_of_app; left; by apply Hin).
  assert (gave_up c = true → cancel_posted c = true ∨ Session.CancelIo ∈ out ++ r.2) as Hg' by (intros Hgu; rewrite elem_of_app; destruct (Hg Hgu); auto).
  unfold on_session. destruct (callback_in r.2) as [res|].
  - destruct Hcall as [Hcall H1]. assert (outcomes c = []) as Hempty.
    { destruct (outcomes c) as [|res' l] eqn:He; [done|]. pose proof (callback_elem_count res' out (Hin res' ltac:(by left))). lia. }
    destruct (completed c) eqn:Hcp; cbn.
    + by split_and!.
    + unfold outcomes in Hempty. apply app_nil in Hempty as [_ Hprom].
      assert (promise c = None) as Hp by (by destruct (promise c)). rewrite Hp in *. cbn. split_and!; try done.
      * intros _. by left.
      * intros res' Hres'. apply list_elem_of_singleton in Hres' as ->. apply elem_of_app. by right.
      * destruct (caller c) as [|st|[]]; try done; by destruct Hcaller as (? & ? & ?).
  - unfold outcomes in *. cbn. rewrite callbacks_app, Hcall, Nat.add_0_r. by split_and!.
Qed.
Lemma session_cinv s out ev : cinv https (s, out) → possible (Session.op s) ev →
  cinv https ((Session.handle https timeouts s ev).1, out ++ (Session.handle https timeouts s ev).2).
Proof using Type. intros Hi Hp. eapply (cstep_inv https timeouts _ _ Hi). by apply cstep_event. Qed.
Lemma cancel_handled s : Session.handle https timeouts s Session.EvCancel = (s, [Session.CancelIo]).
Proof using Type. unfold Session.handle. by destruct (Session.op s). Qed.
Lemma sync_step_inv r r' : sync_inv r → sync_step r r' → sync_inv r'.
Proof using Type.
  intros Hi Hs. destruct Hs as [c out n ssl_ok Hn|c out n s ev Hse Hp Hne|c out n s Hse Hcp|c out n res Hset|c out n k Hk|c out n res Hw Hprom|c out n Hw Hprom Ht He].
  - apply on_session_inv; [done|]. destruct Hi as (Hd & _). cbn in Hd. rewrite Hn in Hd. subst out. destruct (Session.run _ _ _) eqn:Hr. cbn. rewrite <-Hr. apply run_cinv.
  - apply on_session_inv; [done|]. destruct Hi as (Hd & _). cbn in Hd. rewrite Hse in Hd. by apply session_cinv.
  - pose proof Hi as (Hd & _). cbn [sy_call sy_did] in Hd. rewrite Hse in Hd. pose proof (session_cinv s out Session.EvCancel Hd) as Hd'.
    rewrite cancel_handled in *. destruct Hi as (_ & Hl & Hn & Hc & Ho & Hcb & Hin & Hcaller & _). unfold sync_inv in *. cbn in *.
    split_and!; try done; [apply Hd'; by destruct (Session.op s)| | |].
    + intros Hcall. apply Hcb. unfold callbacks in *. rewrite List.filter_app, length_app in Hcall. cbn in Hcall. lia.
    + intros res Hres. apply elem_of_app. left. by apply Hin.
    + intros _. right. apply elem_of_app. right. by left.
  - destruct Hi as (Hd & Hl & Hn & Hc & Ho & Hcb & Hin & Hcaller & Hg). unfold sync_inv, outcomes in *. cbn in *. rewrite Hset in *. cbn in *.
    destruct (promise c) as [p|] eqn:Hp; [cbn in Hl; lia|]. cbn in *. subst n. split_and!; try done.
    destruct (caller c) as [|st|[]]; try done; by destruct Hcaller as (? & ? & ?).
  - destruct Hi as (Hd & Hl & Hn & Hc & Ho & Hcb & Hin & Hcaller & Hg). unfold sync_inv, outcomes in *. cbn in *. split_and!; try done.
    destruct (caller c) as [|st|[]]; try done. destruct Hcaller as (? & ? & ?). split_and!; try done. lia.
  - destruct Hi as (Hd & Hl & Hn & Hc & Ho & Hcb & Hin & Hcaller & Hg). unfold sync_inv, outcomes in *. cbn in *. rewrite Hprom in *. cbn in *.
    split_and!; try done; [|destruct res; by eexists|by destruct res].
    intros Hcp. left. by destruct (setting c).
  - destruct Hi as (Hd & Hl & Hn & Hc & Ho & Hcb & Hin & Hcaller & Hg). unfold sync_inv, outcomes in *. cbn in *. rewrite Hprom in *. cbn in *.
    split_and!; try done; intros _; [by right|by left].
Qed.
(** What a waiting caller waits for. *)
Definition under_way (c : SyncCall.t) : Prop :=
  match session c with None => True | Some s => Session.op s ≠ Session.Idle end ∨ setting c ≠ None ∨ promise c ≠ None.
End sync.

(** C13: a blocking request. Whatever the session, the clock and the timers do:
    the promise is set at most once (a second time would throw in the strand);
    the caller gets exactly the outcome of the session's one callback, or, only
    with a total time-out, a time-out error more than a second after it, upon
    which the session is told to cancel; a caller that still waits waits for an
    operation in flight or for a result on its way, and when the time is over it
    can return. *)
Theorem request_sync_answers https timeouts r :
  rtc (sync_step https timeouts) (mk_sync SyncCall.init [] 0) r →
  let c := sy_call r in
  sy_sets r ≤ 1 ∧
  (match SyncCall.caller c with
   | SyncCall.Waiting => under_way c
   | SyncCall.Returned st => Session.Callback (Session.Response st) ∈ sy_did r
   | SyncCall.Threw (SyncCall.Session e) => Session.Callback (Session.Failed e) ∈ sy_did r
   | SyncCall.Threw SyncCall.TotalTimeout =>
       (0 < tm_total timeouts)%Z ∧ (tm_total timeouts + 1 ≤ SyncCall.elapsed c)%Z ∧
       (SyncCall.cancel_posted c = true ∨ Session.CancelIo ∈ sy_did r)
   | SyncCall.Threw (SyncCall.Start _) => False
   end) ∧
  (SyncCall.caller c = SyncCall.Waiting → (0 < tm_total timeouts)%Z → (tm_total timeouts + 1 ≤ SyncCall.elapsed c)%Z →
   ∃ r', sync_step https timeouts r r' ∧ SyncCall.caller (sy_call r') ≠ SyncCall.Waiting).
Proof.
  intros Hr c. assert (sync_inv https timeouts r) as (Hd & Hl & Hn & Hc & Ho & Hcb & Hin & Hcaller & Hg).
  { refine (rtc_invariant _ (sync_inv https timeouts) _ _ _ Hr _); [intros x y; apply sync_step_inv|]. unfold sync_inv. cbn. split_and!; try done; try lia. by intros res Hres%not_elem_of_nil. }
  destruct r as [c' out n]. subst c. cbn [sy_call sy_did sy_sets] in *. split_and!.
  - rewrite Hn. destruct (SyncCall.promise c'); cbn; lia.
  - unfold outcomes in *. destruct (SyncCall.caller c') as [|st|[e| |e]] eqn:Hca.
    + unfold under_way. destruct (SyncCall.session c') as [s|] eqn:Hs; [|by left].
      destruct (decide (Session.op s = Session.Idle)) as [Hidle|]; [right|by left].
      destruct Hd as (Hcount & Hi & _). cbn [fst snd] in Hcount, Hi. rewrite (Hi Hidle) in Hcount.
      assert (SyncCall.completed c' = true) as Hcp by (apply Hcb; lia).
      destruct (Hc Hcp) as [Hout|Hgu]; [|unfold gave_up in Hgu; by rewrite Hca in Hgu].
      destruct (SyncCall.setting c'); [by left|]. by destruct (SyncCall.promise c'); [right|].
    + destruct Hcaller as (res & Hp & Hres). destruct res; simplify_eq/=. apply Hin. rewrite Hp. apply elem_of_app. right. by left.
    + destruct Hcaller as (res & Hp & Hres). by destruct res.
    + destruct Hcaller as (? & ? & ?). split_and!; try done. apply Hg. unfold gave_up. by rewrite Hca.
    + destruct Hcaller as (res & Hp & Hres). destruct res; simplify_eq/=. apply Hin. rewrite Hp. apply elem_of_app. right. by left.
  - intros Hw Ht He. destruct (SyncCall.promise c') as [res|] eqn:Hp.
    + eexists. split; [by apply (sync_wake https timeouts c' out n res)|]. by destruct res.
    + eexists. split; [by apply (sync_time_out https timeouts c' out n)|]. done.
Qed.
Theorem request_sync_answers_witness :
  ∃ r, SyncCall.caller (sy_call r) = SyncCall.Returned 200 ∧ Session.Callback (Session.Response 200%N) ∈ sy_did r ∧ sy_sets r ≤ 1.
Proof.
  pose (t := default_timeouts).
  assert (∃ r, rtc (sync_step false t) (mk_sync SyncCall.init [] 0) r ∧ SyncCall.caller (sy_call r) = SyncCall.Returned 200) as (r & Hr & Hc).
  { eexists. split.
    - eapply rtc_l; [refine (sync_start _ _ _ _ _ true _); reflexivity|].
      do 3 (eapply rtc_l; [refine (sync_session _ _ _ _ _ _ (Session.EvOp false) _ _ _); [reflexivity|exact I|discriminate]|]).
    eapply rtc_l; [refine (sync_session _ _ _ _ _ _ (Session.EvRead Session.ReadOk 200 true) _ _ _); [reflexivity|exact I|discriminate]|].
    eapply rtc_l; [refine (sync_set _ _ _ _ _ (Session.Response 200) _); reflexivity|].
    eapply rtc_l; [refine (sync_wake _ _ _ _ _ (Session.Response 200) _ _); reflexivity|].
      apply rtc_refl.
    - by vm_compute. }
  exists r. destruct (request_sync_answers false t r Hr) as (Hs & Ha & _). cbv zeta in Ha. rewrite Hc in Ha. by split_and!.
Defined.
