(* ===== verification/ApiCall.v ===== *)
(** * Declared API clients ([client/macros.hpp], [client/api_macros.hpp])

    [API_CALL] declares a method of a client from a verb, a path template and the
    roles of its arguments; its body fills the template and calls [request] or
    [request_sync]. *)
From S2P Require Import Prelude Text Numbers PathPattern PathPatternProofs Http HostPool HttpClient HttpClientTheorems HttpClientCalls HttpRouter.
Set Default Proof Using "Type*".

(** ** The body of a call *)
Inductive api_argument :=
| QUERY (value : argument) (key : bytes)
| PATH (name : bytes) (value : argument)
| BODY (value : bytes + json)
| HEADER (value : argument) (key : bytes).
Record api_state := mk_api {
  path_str : bytes; query_params : list (bytes * bytes); header_map : list (bytes * bytes); body_str : bytes }.
(** [std::map::emplace]: an entry that is there stays. *)
Definition map_emplace (key value : bytes) (m : list (bytes * bytes)) : list (bytes * bytes) :=
  if bool_decide (is_Some (map_get key m)) then m else map_assign key value m.
Section body.
Context (serialize : json → bytes).
Definition PROC_DISPATCH (s : api_state) (a : api_argument) : option api_state :=
  match a with
  | QUERY value key => Some (mk_api (path_str s) (map_emplace key (to_string value) (query_params s)) (header_map s) (body_str s))
  | PATH name value =>
      p ← replace_all (path_str s) (":"%char :: name) (to_string value);
      Some (mk_api p (query_params s) (header_map s) (body_str s))
  | BODY value => Some (mk_api (path_str s) (query_params s) (header_map s) (serialize_body serialize value))
  | HEADER value key => Some (mk_api (path_str s) (query_params s) (map_emplace key (to_string value) (header_map s)) (body_str s))
  end.
Fixpoint proc_all (s : api_state) (args : list api_argument) : option api_state :=
  match args with [] => Some s | a :: args => s ← PROC_DISPATCH s a; proc_all s args end.
Definition API_FUNC_BODY (path_template : bytes) (args : list api_argument) : option api_state :=
  proc_all (mk_api path_template [] [] []) args.
Section call.
Context {U F : Type} `{BoostUrl U} `{HttpFields F}.
Context (prepare_payload : verb → bytes → F → F) (user_agent : bytes).
Definition API_CALL (method : verb) (path_template : bytes) (args : list api_argument) (raised : bool) (draw : Z) (c : HttpClient U F) : option (call_start F) :=
  s ← API_FUNC_BODY path_template args;
  request prepare_payload user_agent raised draw c method (path_str s) (query_params s) (body_str s) (header_map s).
(** [KHTTPD_API_CLIENT] and [KHTTPD_API_CLIENT_POOL]: the constructors. *)
Definition KHTTPD_API_CLIENT (host : bytes) (base : HttpClient U F) : HttpClient U F := set_base_url host base.
Definition KHTTPD_API_CLIENT_POOL (pool_hosts : list HostEntry) (base : HttpClient U F) : option (HttpClient U F) :=
  set_base_url_pool pool_hosts base.
End call.
End body.

(** ** Templates *)
(** A template as its literal pieces and parameters, with the values put in so far. *)
Definition fill_piece (env : list (bytes * bytes)) (p : bytes * bytes) : bytes :=
  p.1 ++ match map_get p.2 env with Some v => v | None => ":"%char :: p.2 end.
Definition filled (env : list (bytes * bytes)) (l : list (bytes * bytes)) (tail : bytes) : bytes :=
  mjoin (fill_piece env <$> l) ++ tail.
Definition template (l : list (bytes * bytes)) (tail : bytes) : bytes := filled [] l tail.
Definition plain (s : bytes) : Prop := ":"%char ∉ s ∧ "{"%char ∉ s.
Definition ends_ident (s : bytes) : Prop := match s with [] => True | c :: _ => ident_char c = false end.
(** Literal pieces begin with a slash, and a name ends where the next piece begins. *)
Definition template_ok (l : list (bytes * bytes)) (tail : bytes) : Prop :=
  Forall (λ p, plain p.1 ∧ head p.1 = Some "/"%char ∧ is_ident p.2) l ∧ plain tail ∧ ends_ident tail.
(** No name is the beginning of another one. *)
Definition prefix_free (names : list bytes) : Prop :=
  ∀ n n', n ∈ names → n' ∈ names → starts_with n n' = true → n = n'.

Lemma is_ident_chars name : is_ident name → Forall (λ c, ident_char c = true) name.
Proof.
  destruct name as [|c t]; [done|]. intros [Hc Ht]. constructor; [|done]. unfold ident_start, ident_char, isalnum in *.
  destruct (isalpha c); [done|]. cbn in Hc. by rewrite Hc, orb_true_r.
Qed.
Lemma ident_no_colon name : is_ident name → ":"%char ∉ name.
Proof. intros Hi%is_ident_chars Hin. rewrite Forall_forall in Hi. by specialize (Hi _ Hin). Qed.
(** Where one identifier meets the text after another one. *)
Lemma ident_starts name name' rest :
  Forall (λ c, ident_char c = true) name → ends_ident rest →
  starts_with name (name' ++ rest) = true → starts_with name name' = true.
Proof.
  revert name'. induction name as [|c name IH]; intros [|c' name'] Hi Hr; cbn; try done; inversion Hi as [|?? Hc]; subst.
  - destruct rest as [|x rest]; [done|]. cbn in Hr. intros [Hx%bool_decide_eq_true _]%andb_prop. congruence.
  - intros [Hx Hs]%andb_prop. rewrite Hx. by apply IH.
Qed.
Lemma filled_cons env p l tail : filled env (p :: l) tail = fill_piece env p ++ filled env l tail.
Proof. unfold filled. cbn. by rewrite <-(assoc_L (++)). Qed.
Lemma filled_ends env l tail : template_ok l tail → ends_ident (filled env l tail).
Proof.
  intros (Hl & _ & Ht). destruct Hl as [|[lit name] l (_ & Hh & _) _]; [done|]. rewrite filled_cons.
  unfold fill_piece. cbn [fst snd] in *. destruct lit as [|c lit]; [done|]. by injection Hh as ->.
Qed.

Section replacing.
Context (from to : bytes) (Hfrom : head from = Some ":"%char).
Definition replaced (s : bytes) : bytes := replace_ref (length s) from to s.
Lemma replaced_cons c s : starts_with from (c :: s) = false → replaced (c :: s) = c :: replaced s.
Proof using Type. unfold replaced. cbn [length replace_ref]. by intros ->. Qed.
Lemma replaced_skip a s : ":"%char ∉ a → replaced (a ++ s) = a ++ replaced s.
Proof.
  induction a as [|c a IH]; intros Ha; [done|]. cbn [app]. apply not_elem_of_cons in Ha as [Hc Ha].
  rewrite replaced_cons, IH; [done|done|]. destruct from as [|x f]; [done|]. injection Hfrom as ->. cbn. by rewrite bool_decide_eq_false_2.
Qed.
Lemma replaced_hit s : replaced (from ++ s) = to ++ replaced s.
Proof.
  assert (from ≠ []) as Hne by (by intros ->). assert (0 < length from) by (destruct from; [done|cbn; lia]).
  unfold replaced. rewrite (replace_ref_fuel from to _ (S (length s + length from))) by (done || rewrite length_app; lia).
  destruct (from ++ s) as [|c r] eqn:Hs; [by apply app_eq_nil in Hs as []|]. cbn [replace_ref]. rewrite <-Hs, starts_with_app, drop_app_length.
  f_equal. apply replace_ref_fuel; [done|lia|lia].
Qed.
Lemma replace_all_replaced s : replace_all s from to = Some (replaced s).
Proof.
  assert (from ≠ []) as Hne by (by intros ->). unfold replace_all. rewrite bool_decide_eq_false_2 by done.
  apply (replace_loop_ref from to (S (length s)) [] s Hne). lia.
Qed.
End replacing.

(** One [PROC_PATH_TAG] puts its value in place of its parameter and leaves the rest. *)
Lemma replace_param env l tail name value :
  template_ok l tail → prefix_free (name :: l.*2) → is_ident name →
  Forall (λ e, ":"%char ∉ e.2) env → map_get name env = None →
  replace_all (filled env l tail) (":"%char :: name) value = Some (filled ((name, value) :: env) l tail).
Proof.
  intros Hok Hpf Hname Henv Hnone. rewrite replace_all_replaced by done. f_equal.
  induction l as [|[lit n] l IH].
  { destruct Hok as (_ & [Ht _] & _). change (filled ?e [] tail) with tail.
    pose proof (replaced_skip (":"%char :: name) value eq_refl tail [] Ht) as Hr. rewrite !app_nil_r in Hr. exact Hr. }
  assert (template_ok l tail) as Hok' by (destruct Hok as ([_ ?]%Forall_cons & ? & ?); by split_and!).
  pose proof (filled_ends env _ _ Hok') as Hend.
  destruct Hok as ([((Hlit & _) & _ & Hn) _]%Forall_cons & _ & _). cbn [fst snd] in *.
  rewrite !filled_cons. unfold fill_piece. cbn [fst snd map_get]. rewrite <-!(assoc_L (++)), replaced_skip by done. f_equal.
  specialize (IH Hok' ltac:(unfold prefix_free in *; set_solver)). case_bool_decide as Heq.
  - subst n. rewrite Hnone. by rewrite replaced_hit, IH.
  - destruct (map_get n env) as [v|] eqn:Hv.
    + rewrite replaced_skip, IH; [done|done|].
      clear -Henv Hv. induction Henv as [|[k w] env Hw Henv IH]; [done|]. cbn in Hv. case_bool_decide; [by simplify_eq|by apply IH].
    + cbn [app]. rewrite replaced_cons, replaced_skip, IH; [done|done|by apply ident_no_colon|].
      apply not_true_iff_false. cbn. intros Hs. apply ident_starts in Hs; [|by apply is_ident_chars|done].
      apply Heq, Hpf; [set_solver|set_solver|done].
Qed.

(** ** A whole body *)
Definition path_args (args : list api_argument) : list (bytes * bytes) :=
  omap (λ a, match a with PATH name value => Some (name, to_string value) | _ => None end) args.
Lemma filled_ext env env' l tail :
  (∀ n, n ∈ l.*2 → map_get n env = map_get n env') → filled env l tail = filled env' l tail.
Proof.
  intros He. induction l as [|p l IH]; [done|]. rewrite !filled_cons. unfold fill_piece.
  rewrite He, IH by set_solver. done.
Qed.
Lemma map_get_last {A} name (value : A) env k :
  map_get name env = None → map_get k (env ++ [(name, value)]) = map_get k ((name, value) :: env).
Proof.
  induction env as [|[n v] env IH]; [done|]. cbn. destruct (decide (n = name)) as [->|Hne]; [by rewrite bool_decide_eq_true_2|].
  rewrite bool_decide_eq_false_2 by done. intros Hn. rewrite IH by done. cbn. repeat case_bool_decide; congruence || done.
Qed.
Lemma map_get_fresh {A} name (env : list (bytes * A)) : name ∉ env.*1 → map_get name env = None.
Proof. induction env as [|[n v] env IH]; cbn; [done|]. intros ?. case_bool_decide; set_solver. Qed.
Lemma map_get_in {A} name (value : A) env : NoDup env.*1 → (name, value) ∈ env → map_get name env = Some value.
Proof.
  induction env as [|[n v] env IH]; [by intros _ ?%not_elem_of_nil|]. cbn. intros [Hn Hnd]%NoDup_cons [Heq|Hin]%elem_of_cons.
  - simplify_eq. by rewrite bool_decide_eq_true_2.
  - rewrite bool_decide_eq_false_2; [by apply IH|]. intros ->. apply Hn, list_elem_of_fmap. by exists (name, value).
Qed.
Lemma proc_all_path serialize args env l tail s :
  template_ok l tail → prefix_free l.*2 → (env ++ path_args args).*1 ⊆ l.*2 → NoDup (env ++ path_args args).*1 →
  Forall (λ e, ":"%char ∉ e.2) (env ++ path_args args) → path_str s = filled env l tail →
  ∃ s', proc_all serialize s args = Some s' ∧ path_str s' = filled (env ++ path_args args) l tail.
Proof.
  intros Hok Hpf. revert env s. induction args as [|a args IH]; intros env s Hin Hnd Hc Hs.
  { exists s. split; [done|]. by rewrite Hs, app_nil_r. }
  destruct a as [v k|name value|v|v k]; cbn [proc_all PROC_DISPATCH path_args omap list_omap] in *;
    cbn [mbind option_bind]; try (by apply IH).
  change (omap _ args) with (path_args args) in *.
  assert (name ∉ env.*1) as Hfresh.
  { rewrite fmap_app in Hnd. apply NoDup_app in Hnd as (_ & Hd & _). intros Hx. apply (Hd _ Hx). cbn. set_solver. }
  assert (name ∈ l.*2) as Hname by (apply Hin; rewrite fmap_app; cbn; set_solver).
  pose proof (map_get_fresh _ _ Hfresh) as Hnone. apply Forall_app in Hc as Hc'.
  rewrite Hs, (replace_param env l tail name) by
    (done || apply Hc' || (destruct Hok as [Hl _]; apply list_elem_of_fmap in Hname as (p & -> & Hp);
       rewrite Forall_forall in Hl; by apply Hl) || (unfold prefix_free in *; set_solver)).
  cbn [mbind option_bind]. rewrite (cons_middle _ env), (assoc_L (++)) in Hin, Hnd, Hc.
  destruct (IH (env ++ [(name, to_string value)]) (mk_api (filled ((name, to_string value) :: env) l tail) (query_params s) (header_map s) (body_str s))
    Hin Hnd Hc) as (s' & Hs' & Hp).
  { cbn. apply filled_ext. intros n _. by rewrite map_get_last. }
  exists s'. split; [done|]. by rewrite Hp, <-(assoc_L (++)).
Qed.

(** ** Query, headers and body of a call *)
Definition query_args (args : list api_argument) : list (bytes * bytes) :=
  omap (λ a, match a with QUERY value key => Some (key, to_string value) | _ => None end) args.
Definition header_args (args : list api_argument) : list (bytes * bytes) :=
  omap (λ a, match a with HEADER value key => Some (key, to_string value) | _ => None end) args.
Definition body_args (args : list api_argument) : list (bytes + json) :=
  omap (λ a, match a with BODY value => Some value | _ => None end) args.
Definition emplace_all (kvs m : list (bytes * bytes)) : list (bytes * bytes) := fold_left (λ m kv, map_emplace kv.1 kv.2 m) kvs m.
(** Of several entries with one key the first is kept. *)
Lemma emplace_all_get kvs m k :
  map_get k (emplace_all kvs m) = match map_get k m with Some v => Some v | None => map_get k kvs end.
Proof.
  unfold emplace_all. revert m. induction kvs as [|[k' v] kvs IH]; intros m; cbn; [by destruct (map_get k m)|].
  rewrite IH. unfold map_emplace. case_bool_decide as Hk'.
  - case_bool_decide as Heq; [|done]. subst k'. by destruct Hk' as [w ->].
  - rewrite map_get_assign. case_bool_decide as Heq; [|done]. subst k'. destruct (map_get k m); [|done]. destruct Hk'. by eexists.
Qed.
Lemma emplace_all_sorted kvs m : StronglySorted key_lt m → StronglySorted key_lt (emplace_all kvs m).
Proof.
  unfold emplace_all. revert m. induction kvs as [|[k v] kvs IH]; intros m Hm; [done|]. cbn. apply IH.
  unfold map_emplace. case_bool_decide; [done|by apply map_assign_sorted].
Qed.
Lemma proc_all_parts serialize args s s' :
  proc_all serialize s args = Some s' →
  query_params s' = emplace_all (query_args args) (query_params s) ∧
  header_map s' = emplace_all (header_args args) (header_map s) ∧
  body_str s' = default (body_str s) (serialize_body serialize <$> last (body_args args)).
Proof.
  revert s. induction args as [|a args IH]; intros s; cbn [proc_all]; [by intros [= <-]|].
  destruct a as [v k|n v|v|v k]; cbn [PROC_DISPATCH mbind option_bind]; try (intros Hs%IH; exact Hs).
  - destruct (replace_all _ _ _) as [p|]; cbn [mbind option_bind]; [|done]. intros Hs%IH. exact Hs.
  - intros (Hq & Hh & Hb)%IH. split_and!; [exact Hq|exact Hh|]. rewrite Hb.
    change (body_args (BODY v :: args)) with (v :: body_args args). cbn [body_str]. rewrite last_cons. by destruct (last (body_args args)).
Qed.

(** ** The server's side of the template *)
Lemma scan_plain s : plain s → match_http_param s = None.
Proof.
  unfold plain. destruct s as [|c [|c' s]]; [done|done|]. intros [Hc Hb]. unfold match_http_param. cbn.
  rewrite !bool_decide_eq_false_2 by set_solver. done.
Qed.
Lemma scan_literal lit s fuel name l tail :
  plain lit → scan_params match_http_param fuel s = (([], name) :: l, tail) →
  scan_params match_http_param (length lit + fuel) (lit ++ s) = ((lit, name) :: l, tail).
Proof.
  intros [Hc Hb] Hs. induction lit as [|c lit IH]; [done|]. cbn [app length Nat.add scan_params].
  replace (match_http_param (c :: lit ++ s)) with (@None (bytes * bytes)); [by rewrite IH by set_solver|].
  unfold match_http_param. destruct (lit ++ s); [done|]. cbn. rewrite !bool_decide_eq_false_2 by set_solver. done.
Qed.
Lemma scan_tail tail fuel : plain tail → scan_params match_http_param fuel tail = ([], tail).
Proof.
  revert tail. induction fuel as [|fuel IH]; intros [|c tail] Ht; [done..|]. cbn [scan_params].
  rewrite scan_plain, IH by (done || (unfold plain in *; set_solver)). done.
Qed.
Lemma match_name name rest : is_ident name → ends_ident rest → match_http_param (":"%char :: name ++ rest) = Some (name, rest).
Proof.
  destruct name as [|c t]; [done|]. intros [Hc Ht] Hr. unfold match_http_param. cbn [app match_colon_param].
  rewrite bool_decide_eq_true_2, Hc by done. cbn [andb].
  assert (take_while ident_char (t ++ rest) = t ∧ drop_while ident_char (t ++ rest) = rest) as [-> ->]; [|done].
  clear Hc. induction Ht as [|x t Hx Ht IH]; cbn; [destruct rest as [|y r]; [done|]; by cbn in *; rewrite Hr|].
  rewrite Hx. destruct IH as [-> ->]. done.
Qed.
Lemma scan_template l tail fuel :
  template_ok l tail → length (template l tail) ≤ fuel →
  scan_params match_http_param fuel (template l tail) = (l, tail).
Proof.
  revert fuel. induction l as [|[lit n] l IH]; intros fuel Hok Hf.
  { apply scan_tail, Hok. }
  assert (template_ok l tail) as Hok' by (destruct Hok as ([_ ?]%Forall_cons & ? & ?); by split_and!).
  pose proof (filled_ends [] _ _ Hok') as Hend. destruct Hok as ([(Hlit & _ & Hn) _]%Forall_cons & _ & _). cbn [fst snd] in *.
  unfold template in *. rewrite filled_cons in *. unfold fill_piece in *. cbn [fst snd map_get] in *. rewrite <-(assoc_L (++)) in *.
  rewrite !length_app in Hf. cbn [length] in Hf. replace fuel with (length lit + S (fuel - S (length lit))) by lia.
  apply scan_literal; [done|]. cbn [app scan_params]. rewrite match_name, IH by (done || lia). done.
Qed.

(** ** The values come back *)
Definition path_values (env l : list (bytes * bytes)) : list bytes := (λ p, default [] (map_get p.2 env)) <$> l.
Lemma path_values_names env l : path_values env l = (λ n, default [] (map_get n env)) <$> l.*2.
Proof. exact (list_fmap_compose snd (λ n, default [] (map_get n env)) l). Qed.
Lemma pattern_starts l tail path vs : l ≠ [] → template_ok l tail → pattern_matches l tail path vs → head path = Some "/"%char.
Proof.
  destruct l as [|[lit n] l]; [done|]. intros _ ([(_ & Hh & _) _]%Forall_cons & _) Hm. destruct lit as [|c lit]; [done|].
  injection Hh as ->. by inversion Hm.
Qed.
Lemma segment_split v v' rest rest' :
  Forall (λ c, not_slash c = true) v → Forall (λ c, not_slash c = true) v' →
  head rest = Some "/"%char → head rest' = Some "/"%char → v ++ rest = v' ++ rest' → v = v' ∧ rest = rest'.
Proof.
  intros Hv. revert v'. induction Hv as [|c v Hc Hv IH]; intros v' Hv' Hr Hr' Heq; destruct Hv' as [|c' w Hc' Hw]; cbn in *.
  - done.
  - subst rest. injection Hr as ->. done.
  - subst rest'. injection Hr' as ->. done.
  - injection Heq as -> Heq. by destruct (IH w) as [-> ->].
Qed.
Lemma pattern_unique l tail path vs vs' :
  template_ok l tail → pattern_matches l tail path vs → pattern_matches l tail path vs' → vs = vs'.
Proof.
  intros Hok Hm. revert vs'. induction Hm as [|lit n tail v rest Hv Hr|lit n l tail v rest vs Hl Hne Hv Hm IH]; intros vs' Hm'.
  - by inversion Hm'.
  - inversion Hr; subst. inversion Hm' as [|? ? ? v' rest' Hv' Hr' Heq|]; subst; [|done].
    inversion Hr'; subst. match goal with H : lit ++ _ = _ |- _ => apply app_inv_head, app_inv_tail in H as -> end. done.
  - assert (template_ok l tail) as Hok' by (destruct Hok as ([_ ?]%Forall_cons & ? & ?); by split_and!).
    inversion Hm' as [| |? ? ? ? v' rest' ws ? ? Hv' Hm2]; subst; [done|].
    match goal with H : lit ++ _ = _ |- _ => apply app_inv_head in H as Heq end.
    destruct (segment_split v' v rest' rest) as [-> ->]; [done|done|by eapply pattern_starts..|done|]. by rewrite (IH Hok' ws).
Qed.
Lemma filled_matches env l tail :
  (∀ n, n ∈ l.*2 → ∃ v, map_get n env = Some v ∧ v ≠ [] ∧ Forall (λ c, not_slash c = true ∧ any_char c = true) v) →
  pattern_matches l tail (filled env l tail) (path_values env l).
Proof.
  induction l as [|[lit n] l IH]; intros He; [constructor|]. rewrite filled_cons. unfold fill_piece. cbn [fst snd path_values fmap list_fmap].
  destruct (He n) as (v & -> & Hne & Hv); [set_solver|]. rewrite <-(assoc_L (++)). cbn [default from_option].
  apply Forall_and in Hv as [Hs Ha]. destruct l as [|p l]; [by constructor; [|constructor]|].
  constructor; [done|done|done|]. apply IH. set_solver.
Qed.
Lemma bind_params_get (f : bytes → bytes) names n :
  n ∈ names → bind_params names (f <$> names) !! n = Some (f n).
Proof.
  unfold bind_params. intros Hn. assert (∀ m : gmap bytes bytes, (n ∈ names ∨ m !! n = Some (f n)) →
    fold_left (λ m nv, <[nv.1 := nv.2]> m) (zip names (f <$> names)) m !! n = Some (f n)) as Hgen; [|apply Hgen; by left].
  clear Hn. induction names as [|k names IH]; intros m Hm; cbn; [destruct Hm as [?%not_elem_of_nil|]; done|].
  apply IH. destruct (decide (k = n)) as [->|Hne]; [right; by rewrite lookup_insert_eq|].
  rewrite lookup_insert_ne by done. set_solver.
Qed.

(** A value that survives the template: something, on one line, without ':' and '/'. *)
Definition plain_value (v : bytes) : Prop :=
  v ≠ [] ∧ ":"%char ∉ v ∧ Forall (λ c, not_slash c = true ∧ any_char c = true) v.

(** The [PATH] arguments are the parameters of the template, in any order and
    among any other arguments. *)
Definition well_called (l : list (bytes * bytes)) (tail : bytes) (args : list api_argument) : Prop :=
  template_ok l tail ∧ prefix_free l.*2 ∧ (path_args args).*1 ⊆ l.*2 ∧ l.*2 ⊆ (path_args args).*1 ∧
  NoDup (path_args args).*1 ∧ Forall (λ a, plain_value a.2) (path_args args).
Lemma call_path serialize l tail args :
  well_called l tail args →
  ∃ s, API_FUNC_BODY serialize (template l tail) args = Some s ∧ path_str s = filled (path_args args) l tail.
Proof.
  intros (Hok & Hpf & Hin & _ & Hnd & Hv).
  apply (proc_all_path serialize args [] l tail (mk_api (template l tail) [] [] [])); try done.
  eapply Forall_impl; [exact Hv|]. by intros a (_ & ? & _).
Qed.
Lemma call_matches l tail args :
  well_called l tail args →
  regex_match (atoms_of l tail) (filled (path_args args) l tail) = Some (path_values (path_args args) l) ∧
  ∀ name value, PATH name value ∈ args →
    bind_params l.*2 (path_values (path_args args) l) !! name = Some (to_string value).
Proof.
  intros (Hok & Hpf & Hin & Hall & Hnd & Hv). split.
  - assert (pattern_matches l tail (filled (path_args args) l tail) (path_values (path_args args) l)) as Hm.
    { apply filled_matches. intros n Hn%Hall. apply list_elem_of_fmap in Hn as ([k v] & -> & Hkv).
      exists v. rewrite Forall_forall in Hv. destruct (Hv _ Hkv) as (? & _ & ?). cbn [fst]. by rewrite (map_get_in _ _ _ Hnd Hkv). }
    pose proof (regex_match_spec l tail (filled (path_args args) l tail)) as Hr. destruct (regex_match _ _) as [caps|]; [|by destruct (Hr _ Hm)].
    by rewrite (pattern_unique _ _ _ _ _ Hok Hm (proj1 Hr)).
  - intros name value Ha. assert ((name, to_string value) ∈ path_args args) as Hpa.
    { apply list_elem_of_omap. by exists (PATH name value). }
    rewrite path_values_names.
    rewrite (bind_params_get (λ n, default [] (map_get n (path_args args)))); [cbn beta; by rewrite (map_get_in _ _ _ Hnd Hpa)|].
    apply Hin, list_elem_of_fmap. by exists (name, to_string value).
Qed.
Lemma template_pattern l tail :
  template_ok l tail →
  pp_regex_str (http_parse_path_pattern (template l tail)) = pattern_regex l tail ∧
  pp_param_names (http_parse_path_pattern (template l tail)) = l.*2.
Proof. intros Hok. unfold http_parse_path_pattern, params_of. by rewrite scan_template. Qed.

(** A declared call is served by the route of the same template: when the
    [PATH] arguments of an [API_CALL] are the parameters of its template, in any
    order and among any other arguments, none the beginning of another, with
    values that survive it, the body fills the template, the pattern the HTTP
    router compiles from the very same template matches the path, and the router
    binds every parameter to the text of the argument. *)
Theorem api_call_served serialize l tail args :
  well_called l tail args →
  ∃ s r caps, API_FUNC_BODY serialize (template l tail) args = Some s ∧
    compile_regex (pp_regex_str (http_parse_path_pattern (template l tail))) = Some r ∧
    regex_match r (path_str s) = Some caps ∧
    ∀ name value, PATH name value ∈ args →
      bind_params (pp_param_names (http_parse_path_pattern (template l tail))) caps !! name = Some (to_string value).
Proof.
  intros Hw. destruct (call_path serialize l tail args Hw) as (s & Hs & Hp).
  destruct (call_matches l tail args Hw) as [Hm Hb]. destruct (template_pattern l tail) as [-> ->]; [apply Hw|].
  exists s, (atoms_of l tail), (path_values (path_args args) l). rewrite Hp. split_and!; [done|apply compile_pattern|done|done].
Qed.
Definition example_template : list (bytes * bytes) := [(str "/users/", str "user"); (str "/posts/", str "post")].
Definition example_args : list api_argument :=
  [PATH (str "post") (ANumber 7); QUERY (AText (str "a:b")) (str "q"); PATH (str "user") (AText (str "ann"))].
Lemma well_called_example : well_called example_template (str ".json") example_args.
Proof.
  split_and!.
  - split_and!; [repeat (apply Forall_cons; split); [split_and!..|apply Forall_nil]|split_and!|]; try done;
      try (apply (bool_decide_unpack _); by vm_compute); split; apply (bool_decide_unpack _); by vm_compute.
  - intros n n' Hn Hn'. cbn in Hn, Hn'. rewrite !elem_of_cons in Hn, Hn'.
    destruct Hn as [->|[->|?%not_elem_of_nil]]; [..|done]; destruct Hn' as [->|[->|?%not_elem_of_nil]]; done.
  - cbn. set_solver.
  - cbn. set_solver.
  - apply (bool_decide_unpack _). by vm_compute.
  - repeat constructor; cbn; (done || set_solver).
Qed.
Lemma api_call_served_witness :
  ∃ s r caps, API_FUNC_BODY (λ _, []) (str "/users/:user/posts/:post.json")
      example_args = Some s ∧
    compile_regex (pp_regex_str (http_parse_path_pattern (str "/users/:user/posts/:post.json"))) = Some r ∧
    regex_match r (path_str s) = Some caps ∧
    ∀ name value, PATH name value ∈ example_args →
      bind_params (pp_param_names (http_parse_path_pattern (str "/users/:user/posts/:post.json"))) caps !! name = Some (to_string value).
Proof.
  apply (api_call_served (λ _, []) example_template (str ".json") example_args), well_called_example.
Defined.

(** ** What the text replacement lets through *)
(** A parameter whose name begins another one's takes that one's place too. *)
Lemma path_prefix_clobbers :
  path_str <$> API_FUNC_BODY (λ _, []) (str "/:id/:id2") [PATH (str "id") (AText (str "7")); PATH (str "id2") (AText (str "x"))]
  = Some (str "/7/72").
Proof. by vm_compute. Qed.
(** A value is searched for the parameters that come after it. *)
Lemma path_value_rescanned :
  path_str <$> API_FUNC_BODY (λ _, []) (str "/:a/:b") [PATH (str "a") (AText (str ":b")); PATH (str "b") (AText (str "x"))]
  = Some (str "/x/x").
Proof. by vm_compute. Qed.
(** The first of two [QUERY] arguments with one key is kept. *)
Lemma query_first_kept serialize s v w key :
  query_params <$> proc_all serialize s [QUERY v key; QUERY w key] = query_params <$> proc_all serialize s [QUERY v key].
Proof.
  cbn. f_equal. unfold map_emplace at 1. rewrite bool_decide_eq_true_2; [done|].
  unfold map_emplace. case_bool_decide as Hk; [done|]. rewrite map_get_assign, bool_decide_eq_true_2 by done. by eexists.
Qed.
