(* ===== verification/ApiEndToEnd.v ===== *)
(** * A declared call and the route that serves it

    The two ends of the library meet in the request target: the client builds it
    through Boost.URL from a template ([ApiCall.v], [HttpClient.v]), the server
    splits it through Boost.URL and selects a route ([HttpContext.v],
    [HttpRouter.v]). [BoostUrlLaws] states what the documentation of Boost.URL
    promises to both; [PercentUrl] is a concrete URL type that keeps it. *)
From S2P Require Import Prelude Text Numbers PathPattern PathPatternProofs Http HttpContext HostPool HttpClient HttpClientTheorems HttpClientCalls TypedRoute HttpRouter HttpRouterTheorems HttpDispatch ApiCall.
Set Default Proof Using "Type*".

(** ** What both ends rely on *)
Definition rooted (p : bytes) : Prop := head p = Some "/"%char.
Class BoostUrlLaws (U : Type) `{BoostUrl U} `{Platform} := {
  url_params : U → list (bytes * bytes);
  (** a URI begins with its scheme *)
  parse_uri_rooted p : rooted p → parse_uri p = None;
  (** the parameters are what follows the question mark *)
  relative_params_none p ps : "?"%char ∉ p → url_relative_params p = Some ps → ps = [];
  url_path_set p u : rooted p → url_path (url_set_path p u) = p;
  url_params_set p u : url_params (url_set_path p u) = url_params u;
  url_path_clear u : url_path (url_params_clear u) = url_path u;
  url_params_cleared u : url_params (url_params_clear u) = [];
  url_path_append k v u : url_path (url_params_append k v u) = url_path u;
  url_params_appended k v u : url_params (url_params_append k v u) = url_params u ++ [(k, v)];
  (** [encoded_target] is the percent-encoded path and query, [parse_relative_ref]
      reads and decodes them; two slashes would begin an authority *)
  target_parses u : rooted (url_path u) → starts_with (str "//") (url_path u) = false →
    parse_relative_ref (url_encoded_target u) = Some (url_path u, url_params u);
  target_nonempty u : rooted (url_path u) → url_encoded_target u ≠ [];
}.

Section target.
Context {U F : Type} `{BoostUrlLaws U} `{HttpFields F}.
(** The client has a base URL, or a pool of them. *)
Definition based (c : HttpClient U F) : Prop := is_Some (hc_host_pool c) ∨ is_Some (hc_base_url c).
Lemma base_of_path draw (c : HttpClient U F) p u :
  based c → base_of draw c [] = Some u → base_of draw c p = Some (apply_path p u).
Proof.
  unfold base_of, based. intros Hb. destruct (hc_host_pool c) as [pool|].
  - destruct (pick pool draw); cbn; [|done]. by intros [= <-].
  - destruct (hc_base_url c); [by intros [= <-]|]. by destruct Hb as [[? [=]]|[? [=]]].
Qed.
Lemma append_params_spec ps u :
  url_path (append_params ps u) = url_path u ∧ url_params (append_params ps u) = url_params u ++ ps.
Proof.
  unfold append_params. revert u. induction ps as [|[k v] ps IH]; intros u; cbn; [by rewrite app_nil_r|].
  destruct (IH (url_params_append k v u)) as [-> ->]. by rewrite url_path_append, url_params_appended, <-(assoc_L (++)).
Qed.
Lemma find_char_none c s : c ∉ s → find_char c s 0 = None.
Proof.
  intros Hn. unfold find_char, find_if_from. rewrite drop_0.
  destruct (find_index _ s) as [n|] eqn:Hf; [|done]. apply find_index_Some in Hf as (x & Hs & Hx%bool_decide_eq_true & _).
  subst x. destruct Hn. rewrite Hs. apply elem_of_app. right. by left.
Qed.
(** A rooted path without query and fragment reaches the server as it is, with the
    query of the call, whatever the base. *)
Lemma parse_target_served draw (c : HttpClient U F) u p query parts :
  based c → base_of draw c [] = Some u → url_params u = [] →
  rooted p → "?"%char ∉ p → "#"%char ∉ p → starts_with (str "//") p = false →
  parse_target draw c p query = Some parts →
  parse_relative_ref (up_target parts) = Some (p, query).
Proof.
  intros Hb Hu Hps Hr Hq Hf Hs. unfold parse_target. rewrite !find_char_none by done. cbn [min_pos].
  change (substr_to p 0 None) with p. rewrite (base_of_path _ _ _ _ Hb Hu). cbn [mbind option_bind].
  rewrite parse_uri_rooted by done. rewrite (bool_decide_eq_false_2 (p = [])) by (by intros ->).
  assert (url_path (apply_path p u) = p ∧ url_params (apply_path p u) = []) as [Hp Hn].
  { unfold apply_path. destruct p as [|x p]; [done|]. injection Hr as ->. rewrite bool_decide_eq_false_2 by (intros []; done). rewrite url_path_set, url_params_set by done. by split. }
  set (v := match url_relative_params p with Some _ => _ | None => _ end).
  assert (url_path v = p ∧ url_params v = []) as [Hvp Hvn].
  { unfold v. destruct (url_relative_params p) as [ps|] eqn:Hrel; [|done]. rewrite (relative_params_none p ps Hq Hrel).
    cbn. by rewrite url_path_clear, url_params_cleared. }
  destruct (append_params_spec query v) as [Hap Han]. rewrite Hvp in Hap. rewrite Hvn in Han.
  intros [= <-]. cbn [up_target]. rewrite bool_decide_eq_false_2 by (apply target_nonempty; by rewrite Hap).
  rewrite target_parses by (by rewrite Hap). rewrite Hap, Han. done.
Qed.
End target.

(** ** The headers of the message *)
Section headers.
Context {F : Type} `{HttpFieldsLaws F}.
Lemma set_all_fields name hs (f : F) :
  field_all name (fold_left (λ f h, field_set h.1 h.2 f) hs f) =
  match last (filter (λ h, ieq name h.1 = true) hs) with Some h => [h.2] | None => field_all name f end.
Proof.
  revert f. induction hs as [|h hs IH]; intros f; [done|]. cbn [fold_left]. rewrite IH, filter_cons, field_all_set.
  case_decide as Hi; [rewrite last_cons|apply not_true_is_false in Hi]; rewrite Hi; by destruct (last _).
Qed.
Lemma last_elem {A} (l : list A) x : last l = Some x → x ∈ l.
Proof. intros (l' & ->)%last_Some. apply elem_of_app. right. by left. Qed.
Lemma map_get_names {A} k (l : list (bytes * A)) v : map_get k l = Some v → k ∈ l.*1.
Proof.
  induction l as [|[k' w] l IH]; [done|]. cbn. case_bool_decide as Hk; [intros _; subst; by left|]. intros Hg. right. by apply IH.
Qed.
(** A header of the call is the only one of its name in the message. *)
Lemma call_header serialize args s s' name value (f : F) :
  proc_all serialize s args = Some s' → header_map s = [] →
  map_get name (header_args args) = Some value →
  (∀ n, n ∈ (header_args args).*1 → ieq name n = true → n = name) →
  field_all name (fold_left (λ f h, field_set h.1 h.2 f) (header_map s') f) = [value].
Proof.
  intros (_ & Hh & _)%proc_all_parts Hn Hg Hu. rewrite Hn in Hh. rewrite set_all_fields.
  assert (∀ k, map_get k (header_map s') = map_get k (header_args args)) as Hk by (intros k; by rewrite Hh, emplace_all_get).
  assert (StronglySorted key_lt (header_map s')) as Hs by (rewrite Hh; apply emplace_all_sorted; constructor).
  assert ((name, value) ∈ filter (λ h, ieq name h.1 = true) (header_map s')) as Hin.
  { apply list_elem_of_filter. split; [apply ieq_refl|]. by rewrite map_get_elem, Hk. }
  destruct (last _) as [[k v]|] eqn:Hl; [|apply last_None in Hl; rewrite Hl in Hin; by apply not_elem_of_nil in Hin].
  apply last_elem, list_elem_of_filter in Hl as [Hi Hkv]. rewrite map_get_elem, Hk in Hkv by done. cbn in Hi |- *.
  rewrite (Hu k (map_get_names _ _ _ Hkv) Hi) in Hkv. congruence.
Qed.
End headers.

(** ** From the call to the handler *)
(** Nothing in the template or the values ends the path, and no authority begins it. *)
Definition path_safe (l : list (bytes * bytes)) (tail : bytes) (args : list api_argument) : Prop :=
  let safe s := "?"%char ∉ s ∧ "#"%char ∉ s in
  rooted (template l tail) ∧ starts_with (str "//") (template l tail) = false ∧
  safe (template l tail) ∧ Forall (λ a, safe a.2) (path_args args).
Lemma filled_elem c env l tail :
  c ∈ filled env l tail → c ∈ template l tail ∨ ∃ e, e ∈ env ∧ c ∈ e.2.
Proof.
  induction l as [|[lit n] l IH]; [by left|]. unfold template. rewrite !filled_cons, !elem_of_app. unfold fill_piece. cbn [fst snd map_get].
  rewrite !elem_of_app. intros [[Hc|Hc]|Hc]; [by left; left; left| |].
  - destruct (map_get n env) as [v|] eqn:Hv; [right|by left; left; right]. exists (n, v). split; [|done].
    clear -Hv. induction env as [|[k w] env IH]; [done|]. cbn in Hv. case_bool_decide; [simplify_eq; by left|right; by apply IH].
  - destruct (IH Hc) as [Ht|He]; [left; by right|by right].
Qed.
Lemma filled_rooted l tail args :
  well_called l tail args → path_safe l tail args →
  let p := filled (path_args args) l tail in
  rooted p ∧ "?"%char ∉ p ∧ "#"%char ∉ p ∧ starts_with (str "//") p = false.
Proof.
  intros (Hok & _ & _ & Hall & Hnd & Hv) (Hr & Hs & [Hq Hf] & Hsafe) p.
  assert (∀ c, c ∉ template l tail → Forall (λ a, c ∉ a.2) (path_args args) → c ∉ p) as Hno.
  { intros c Hc Ha [?|(e & He & Hce)]%filled_elem; [done|]. rewrite Forall_forall in Ha. by apply (Ha e). }
  split_and!.
  3: { apply Hno; [done|]. eapply Forall_impl; [exact Hsafe|]. by intros ? []. }
  2: { apply Hno; [done|]. eapply Forall_impl; [exact Hsafe|]. by intros ? []. }
  all: unfold p, template in *; destruct l as [|[lit n] l]; [done|]; destruct Hok as ([(_ & Hh & _) _]%Forall_cons & _);
    rewrite filled_cons in *; unfold fill_piece in *; cbn [fst snd map_get] in *; destruct lit as [|c lit]; [done|]; injection Hh as ->.
  - done.
  - destruct lit as [|c lit]; [|by cbn in *].
    destruct (list_elem_of_fmap_1 fst (path_args args) n) as ([n' v] & -> & Hkv); [apply Hall; by left|].
    cbn [fst]. rewrite (map_get_in _ _ _ Hnd Hkv). rewrite Forall_forall in Hv. destruct (Hv _ Hkv) as (Hne & _ & Hc).
    destruct v as [|c v]; [done|]. apply Forall_cons in Hc as [[Hc%negb_true_iff%bool_decide_eq_false _] _].
    change (bool_decide ("/"%char = "/"%char) && (bool_decide ("/"%char = c) && true) = false).
    by rewrite (bool_decide_eq_false_2 ("/"%char = c)) by congruence.
Qed.

Section served.
Context {U F : Type} `{BoostUrlLaws U} `{HttpFieldsLaws F} `{Verbs}.
(** [prepare_payload] of the client's message touches the framing fields only. *)
Context (prepare_payload : verb → bytes → F → F) (user_agent : bytes) (serialize : json → bytes).
Context (Hpayload : ∀ name m b f, is_framing name = false → field_all name (prepare_payload m b f) = field_all name f).

(** The request of a call, in terms of its arguments. *)
Definition carries (args : list api_argument) (m : verb) (path : bytes) (req : Http.request F) : Prop :=
  rq_method req = m ∧ (∃ query, parse_relative_ref (rq_target req) = Some (path, query) ∧
    ∀ key, map_get key query = map_get key (query_args args)) ∧
  rq_body req = default [] (serialize_body serialize <$> last (body_args args)) ∧
  ∀ name value, map_get name (header_args args) = Some value → is_framing name = false →
    (∀ n, n ∈ (header_args args).*1 → ieq name n = true → n = name) → field_all name (rq_fields req) = [value].
(** The message a call sends. *)
Lemma call_message (c : HttpClient U F) draw template args m https host port req :
  API_CALL serialize prepare_payload user_agent m template args false draw c = Some (Run https host port req) →
  ∃ s parts, API_FUNC_BODY serialize template args = Some s ∧ parse_target draw c (path_str s) (query_params s) = Some parts ∧
    req = mk_request m (up_target parts) 11
      (client_request prepare_payload user_agent m parts (body_str s) (hc_default_headers c) (header_map s)) (body_str s).
Proof using Type.
  unfold API_CALL. destruct (API_FUNC_BODY _ _ _) as [s|]; [|done]. cbn [mbind option_bind]. unfold HttpClientCalls.request, prepare.
  destruct (parse_target _ _ _ _) as [parts|] eqn:Hparts; [|done]. cbn [mbind option_bind]. intros Hc. exists s, parts. split_and!; [done..|].
  repeat case_bool_decide; destruct (hc_has_ssl c); cbn in Hc; congruence.
Qed.
Lemma call_request (c : HttpClient U F) draw u l tail args m https host port req :
  well_called l tail args → path_safe l tail args → based c → base_of draw c [] = Some u → url_params u = [] →
  API_CALL serialize prepare_payload user_agent m (template l tail) args false draw c = Some (Run https host port req) →
  carries args m (filled (path_args args) l tail) req.
Proof.
  intros Hw Hs Hb Hu Hp (s' & parts & Hbody & Hparts & ->)%call_message.
  destruct (call_path serialize l tail args Hw) as (s & Hbody' & Hpath). assert (s' = s) as -> by congruence.
  destruct (filled_rooted l tail args Hw Hs) as (Hr & Hq & Hf & Ha).
  destruct (proc_all_parts _ _ _ _ Hbody) as (Hqs & Hhs & Hbs). cbn in Hqs, Hhs, Hbs. rewrite Hpath in Hparts.
  apply (parse_target_served _ _ u) in Hparts; try done. unfold carries. cbn. split_and!; [done| |done|].
  - eexists. split; [exact Hparts|]. intros key. by rewrite Hqs, emplace_all_get.
  - intros name value Hg Hfr Hun. unfold client_request. case_bool_decide; rewrite ?Hpayload by done; by eapply call_header.
Qed.
(** A field that neither the call nor the client sets is not in the message. *)
Lemma call_header_absent (c : HttpClient U F) draw template args m https host port req name :
  API_CALL serialize prepare_payload user_agent m template args false draw c = Some (Run https host port req) →
  is_framing name = false → Forall (λ n, ieq name n = false) ([str "Host"; str "User-Agent"] ++ (hc_default_headers c).*1 ++ (header_args args).*1) →
  field_all name (rq_fields req) = [].
Proof.
  intros (s & parts & Hbody & _ & ->)%call_message Hfr Hno. destruct (proc_all_parts _ _ _ _ Hbody) as (_ & Hh & _). cbn in Hh.
  assert (∀ hs (f : F), Forall (λ n, ieq name n = false) hs.*1 → field_all name (fold_left (λ f h, field_set h.1 h.2 f) hs f) = field_all name f) as Hset.
  { intros hs f Hhs. rewrite set_all_fields. destruct (last _) as [h|] eqn:Hl; [|done].
    apply last_elem, list_elem_of_filter in Hl as [Hi Hin]. rewrite Forall_forall in Hhs. by rewrite (Hhs h.1) in Hi by (by apply list_elem_of_fmap_2). }
  apply Forall_app in Hno as [Hno [Hd Ha]%Forall_app]. assert (Forall (λ n, ieq name n = false) (header_map s).*1) as Hm.
  { rewrite Forall_forall in *. intros n ([k v] & -> & Hkv)%list_elem_of_fmap. apply Ha. rewrite map_get_elem, Hh, emplace_all_get in Hkv; [|rewrite Hh; apply emplace_all_sorted; constructor].
    by eapply map_get_names. }
  cbn [rq_fields]. unfold client_request.
  assert (field_all name (fold_left (λ f h, field_set h.1 h.2 f) (header_map s)
    (fold_left (λ f h, field_set h.1 h.2 f) (hc_default_headers c)
      (field_set (str "User-Agent") user_agent (field_set (str "Host") (up_host parts) fields_empty)))) = []) as Hf.
  { rewrite !Hset by done. apply Forall_cons in Hno as [Hh1 [Hh2 _]%Forall_cons]. rewrite !field_all_set, Hh1, Hh2. apply field_all_empty. }
  case_bool_decide; rewrite ?Hpayload; done.
Qed.

Lemma serves_unique m (hs : list (verb * M F unit)) h h' : serves m hs h → serves m hs h' → h = h'.
Proof using Type. unfold serves. intros [?|(? & ? & ?)] [?|(? & ? & ?)]; congruence. Qed.
(** What a handler finds in its context. *)
Definition delivered (args : list api_argument) (y : ctx F) : Prop :=
  (∀ name value, PATH name value ∈ args → get_path_param name y = Some (to_string value)) ∧
  (∀ key, (get_query_param key y).1 = map_get key (query_args args)) ∧
  body y = default [] (serialize_body serialize <$> last (body_args args)) ∧
  (∀ name value, map_get name (header_args args) = Some value → is_framing name = false →
    (∀ n, n ∈ (header_args args).*1 → ieq name n = true → n = name) → get_header name y = Some value).
Lemma assoc_find_get key (l : list (bytes * bytes)) : assoc_find key l = map_get key l.
Proof using Type. unfold assoc_find. induction l as [|[k v] l IH]; cbn; [done|]. by case_bool_decide. Qed.
Lemma carried_delivered args l tail m x :
  well_called l tail args → carries args m (filled (path_args args) l tail) (cx_req x) → cx_url x = None →
  method x = m ∧ (path x).1 = filled (path_args args) l tail ∧
  delivered args (set_path_params (bind_params l.*2 (path_values (path_args args) l)) (path x).2).
Proof using Type.
  intros Hw (Hm & (query & Ht & Hq) & Hb & Hh) Hu. unfold delivered, path, get_query_param, parse_url_components. rewrite Hu.
  unfold url_of. rewrite Ht. cbn. split_and!; [done|done| | |done|].
  - apply (call_matches l tail args Hw).
  - intros key. rewrite <-Hq. apply assoc_find_get.
  - intros name value Hg Hf Hun. unfold get_header, field_find. cbn. by rewrite (Hh _ _ Hg Hf Hun).
Qed.

(** A request whose path a call has filled in reaches the handler of its template's route. *)
Lemma route_reached l tail args m page (r : HttpRouter F) static_files e h x :
  well_called l tail args → method x = m → (path x).1 = filled (path_args args) l tail →
  table_ok (rt_routes r) → e ∈ rt_routes r → re_path e = template l tail → serves m (re_handlers e) h →
  (∀ e', e' ∈ rt_routes r → applicable m (path x).1 e' → re_path e' ≠ re_path e → more_specific e e' = true) →
  dispatch page r static_files x =
    (tryM h (λ ex, handle_exception r (Some ex)) ≫= λ _, mret true) (set_path_params (bind_params l.*2 (path_values (path_args args) l)) (path x).2).
Proof using Type.
  intros Hw Hm Hxp Ht He Hpath Hh Hbest.
  destruct (dispatch_dispatches page r static_files x Ht) as (result & Hres & ->).
  assert (∀ caps, route_matches (re_path e) (path x).1 caps ↔ pattern_matches l tail (path x).1 caps) as Hrm.
  { intros caps. unfold route_matches, params_of. rewrite Hpath, scan_template; [done|apply Hw|done]. }
  destruct (call_matches l tail args Hw) as [Hmatch _].
  pose proof (regex_match_spec l tail (path x).1) as Hspec. rewrite Hxp, Hmatch in Hspec. destruct Hspec as [Hspec _]. rewrite <-Hxp in Hspec.
  assert (applicable m (path x).1 e) as Happ by (split; [eexists; by apply Hrm|by exists h]).
  assert (∀ e', selected m (path x).1 (rt_routes r) e' → e' = e) as Hone.
  { intros e' (Hin & Ha & Hmax). destruct (decide (re_path e' = re_path e)) as [Heq|Hne].
    - destruct Ht as (Hnd & _ & _). apply list_elem_of_lookup in Hin as [i Hi]. apply list_elem_of_lookup in He as [j Hj].
      assert (i = j) as ->; [|congruence]. eapply NoDup_lookup; [exact Hnd|rewrite list_lookup_fmap, Hi; done|rewrite list_lookup_fmap, Hj; cbn; by rewrite Heq].
    - specialize (Hmax e He Happ). by rewrite (Hbest e' Hin Ha Hne) in Hmax. }
  rewrite Hm in Hres. destruct Hres as [(e' & caps & h' & Hsel & Hcaps & _ & Hh' & ->)|[(e' & Hsel & Hno & _)|(Hnone & _)]].
  - apply Hone in Hsel as ->. apply Hrm in Hcaps. rewrite (serves_unique _ _ _ _ Hh' Hh).
    rewrite (pattern_unique _ _ _ _ _ (proj1 Hw) Hcaps Hspec). unfold serve.
    destruct Ht as (_ & Hok & _). rewrite Forall_forall in Hok. destruct (Hok e He) as (_ & -> & _).
    destruct (template_pattern l tail) as [_ Hn]; [apply Hw|]. by rewrite Hpath, Hn.
  - apply Hone in Hsel as ->. by destruct (Hno h).
  - by destruct (Hnone e He).
Qed.

(** C18: a declared call reaches the handler of its route with its arguments. Let a
    client with a base URL call a method declared with a template, and a router,
    whatever else is registered, hold a route of the same template that is more
    specific than any other applicable one. When the message arrives, dispatch
    runs exactly that route's handler, in a context where every [PATH] argument is
    the path parameter of its name, the query parameters are the [QUERY] arguments
    (the first of each key) and nothing else, the body is the [BODY] argument, and
    every [HEADER] argument is the header of its name, default headers and base
    URL notwithstanding. *)
Theorem api_call_reaches_handler (c : HttpClient U F) draw u l tail args m https host port req page (r : HttpRouter F) static_files e h x :
  well_called l tail args → path_safe l tail args → based c → base_of draw c [] = Some u → url_params u = [] →
  API_CALL serialize prepare_payload user_agent m (template l tail) args false draw c = Some (Run https host port req) →
  table_ok (rt_routes r) → e ∈ rt_routes r → re_path e = template l tail → serves m (re_handlers e) h →
  (∀ e', e' ∈ rt_routes r → applicable m (path x).1 e' → re_path e' ≠ re_path e → more_specific e e' = true) →
  cx_req x = req → cx_url x = None →
  ∃ y, delivered args y ∧
    dispatch page r static_files x = (tryM h (λ ex, handle_exception r (Some ex)) ≫= λ _, mret true) y.
Proof.
  intros Hw Hs Hb Hu Hp Hc Ht He Hpath Hh Hbest <- Hx.
  pose proof (call_request c draw u l tail args m https host port (cx_req x) Hw Hs Hb Hu Hp Hc) as Hcar.
  destruct (carried_delivered args l tail m x Hw Hcar Hx) as (Hm & Hxp & Hd).
  eexists. split; [exact Hd|]. by apply (route_reached l tail args m page r static_files e h x).
Qed.
End served.

(** ** A URL type that keeps the laws *)
Module PercentUrl.
Record t := mk { scheme : bytes; host : bytes; port : bytes; upath : bytes; params : list (bytes * bytes) }.
Definition digits : bytes := str "0123456789ABCDEF".
Definition digit (n : N) : ascii := default NUL (digits !! N.to_nat n).
Definition digit_value (c : ascii) : N := N.of_nat (default 0 (fst <$> list_find (λ d, d = c) digits)).
Definition unreserved (c : ascii) : bool := isalnum c || bool_decide (c ∈ str "-._~").
Definition encode_char (c : ascii) : bytes := ["%"%char; digit (code c / 16); digit (code c mod 16)].
Definition encode (keep : ascii → bool) (s : bytes) : bytes := s ≫= λ c, if keep c then [c] else encode_char c.
Fixpoint decode (s : bytes) : bytes :=
  match s with
  | [] => []
  | c :: t =>
      match t with
      | a :: b :: u => if bool_decide (c = "%"%char) then chr (16 * digit_value a + digit_value b) :: decode u else c :: decode t
      | _ => c :: decode t
      end
  end.
Fixpoint break (c : ascii) (s : bytes) : bytes * option bytes :=
  match s with
  | [] => ([], None)
  | x :: s => if bool_decide (x = c) then ([], Some s) else let '(a, b) := break c s in (x :: a, b)
  end.
Fixpoint pieces (c : ascii) (s : bytes) : list bytes :=
  match s with
  | [] => [[]]
  | x :: s => if bool_decide (x = c) then [] :: pieces c s
              else match pieces c s with w :: ws => (x :: w) :: ws | [] => [[x]] end
  end.
Definition encode_param (p : bytes * bytes) : bytes := encode unreserved p.1 ++ str "=" ++ encode unreserved p.2.
Definition decode_param (s : bytes) : bytes * bytes := let '(k, v) := break "="%char s in (decode k, decode (default [] v)).
Definition path_char (c : ascii) : bool := unreserved c || bool_decide (c = "/"%char).
Definition encoded_target (u : t) : bytes :=
  encode path_char (upath u) ++ match params u with [] => [] | ps => str "?" ++ join (str "&") (encode_param <$> ps) end.
Definition relative_ref (s : bytes) : option (bytes * list (bytes * bytes)) :=
  if starts_with (str "//") s then None
  else let '(p, q) := break "?"%char s in
       Some (decode p, match q with None => [] | Some q => decode_param <$> pieces "&"%char q end).
Definition uri (s : bytes) : option t :=
  if starts_with (str "http://") s then
    let '(h, p) := break "/"%char (drop 7 s) in Some (mk (str "http") h [] (match p with None => [] | Some p => "/"%char :: p end) [])
  else None.
#[export] Instance percent_url : BoostUrl t := {
  url_empty := mk [] [] [] [] [];
  parse_uri := uri;
  url_relative_params s := snd <$> relative_ref s;
  url_path := upath;
  url_set_path p u := mk (scheme u) (host u) (port u) p (params u);
  url_params_clear u := mk (scheme u) (host u) (port u) (upath u) [];
  url_params_append k v u := mk (scheme u) (host u) (port u) (upath u) (params u ++ [(k, v)]);
  url_scheme := scheme; url_host := host; url_port := port; url_encoded_target := encoded_target }.
Definition percent_platform : Platform := {|
  parse_relative_ref := relative_ref; json_parse _ := None; json_serialize _ := []; beast_version := str "beast" |}.

Lemma decode_char c s : decode (encode_char c ++ s) = c :: decode s.
Proof. assert (chr (16 * digit_value (digit (code c / 16)) + digit_value (digit (code c mod 16))) = c) as Hc.
  { by destruct c as [[] [] [] [] [] [] [] []]; vm_compute. }
  cbn [encode_char app decode]. by rewrite bool_decide_eq_true_2, Hc.
Qed.
Lemma decode_plain c s : c ≠ "%"%char → decode (c :: s) = c :: decode s.
Proof. intros Hc. cbn [decode]. destruct s as [|a [|b s]]; [done..|]. by rewrite bool_decide_eq_false_2. Qed.
Lemma decode_encode keep s : keep "%"%char = false → decode (encode keep s) = s.
Proof.
  intros Hk. induction s as [|c s IH]; [done|]. change (encode keep (c :: s)) with ((if keep c then [c] else encode_char c) ++ encode keep s).
  destruct (keep c) eqn:Hc; [|by rewrite decode_char, IH]. cbn [app]. rewrite decode_plain, IH; [done|]. intros ->. congruence.
Qed.
(** An encoded text has no delimiter in it. *)
Definition delimiter (c : ascii) : bool := bool_decide (c ∈ str "?&=").
Lemma encode_delimiter keep s c : keep c = false → delimiter c = true → c ∉ encode keep s.
Proof.
  intros Hk Hd Hin. apply list_elem_of_bind in Hin as (x & Hx & _). destruct (keep x) eqn:Hkx.
  - apply list_elem_of_singleton in Hx as ->. congruence.
  - assert (∀ y : ascii, forallb (λ z, negb (delimiter z)) (encode_char y) = true) as Hall by (by intros [[] [] [] [] [] [] [] []]; vm_compute).
    apply list_elem_of_In in Hx. pose proof (proj1 (forallb_forall _ _) (Hall x) c Hx) as Hn. cbn beta in Hn. by rewrite Hd in Hn.
Qed.
Lemma break_none c a : c ∉ a → break c a = (a, None).
Proof. induction a as [|x a IH]; cbn; [done|]. intros Hn. rewrite bool_decide_eq_false_2, IH by set_solver. done. Qed.
Lemma break_app c a b : c ∉ a → break c (a ++ c :: b) = (a, Some b).
Proof.
  induction a as [|x a IH]; cbn; intros Hn; [by rewrite bool_decide_eq_true_2|]. rewrite bool_decide_eq_false_2, IH by set_solver. done.
Qed.
Lemma pieces_one c a : c ∉ a → pieces c a = [a].
Proof. induction a as [|x a IH]; cbn; [done|]. intros Hn. rewrite bool_decide_eq_false_2, IH by set_solver. done. Qed.
Lemma pieces_app c a b : c ∉ a → pieces c (a ++ c :: b) = a :: pieces c b.
Proof.
  induction a as [|x a IH]; cbn; intros Hn; [by rewrite bool_decide_eq_true_2|]. rewrite bool_decide_eq_false_2, IH by set_solver. done.
Qed.
Lemma pieces_join c l : l ≠ [] → Forall (λ w, c ∉ w) l → pieces c (join [c] l) = l.
Proof.
  intros Hne Hl. induction Hl as [|w l Hw Hl IH]; [done|]. destruct l as [|w' l]; [by apply pieces_one|].
  change (join [c] (w :: w' :: l)) with (w ++ c :: join [c] (w' :: l)). by rewrite pieces_app, IH.
Qed.
Lemma decode_encode_param p : decode_param (encode_param p) = p.
Proof.
  unfold decode_param, encode_param. change (str "=" ++ ?s) with ("="%char :: s).
  rewrite break_app by (by apply encode_delimiter). cbn [default from_option id]. rewrite !decode_encode by done. by destruct p.
Qed.
Lemma encode_param_delimiter p : "&"%char ∉ encode_param p.
Proof.
  unfold encode_param. rewrite !elem_of_app. intros [Hin|[Hin|Hin]]; [by apply encode_delimiter in Hin| |by apply encode_delimiter in Hin].
  by apply list_elem_of_singleton in Hin.
Qed.
Lemma encoded_parses u :
  rooted (upath u) → starts_with (str "//") (upath u) = false → relative_ref (encoded_target u) = Some (upath u, params u).
Proof.
  intros Hr Hs. unfold relative_ref. assert (starts_with (str "//") (encoded_target u) = false) as ->.
  { unfold encoded_target. destruct (upath u) as [|c p]; [done|]. injection Hr as ->.
    change (encode path_char ("/"%char :: p)) with ("/"%char :: encode path_char p). destruct p as [|c p].
    - by destruct (params u).
    - change (encode path_char (c :: p)) with ((if path_char c then [c] else encode_char c) ++ encode path_char p).
      destruct (path_char c); [exact Hs|done]. }
  unfold encoded_target. destruct (params u) as [|p ps] eqn:Hps.
  - rewrite app_nil_r, break_none by (by apply encode_delimiter). by rewrite decode_encode.
  - change (str "?" ++ ?q) with ("?"%char :: q). rewrite break_app by (by apply encode_delimiter). rewrite decode_encode by done.
    do 2 f_equal. rewrite pieces_join; [|done|].
    + rewrite <-list_fmap_compose. rewrite <-(list_fmap_id (p :: ps)) at 2. apply list_fmap_ext. intros i q _. apply decode_encode_param.
    + apply Forall_fmap, Forall_true. apply encode_param_delimiter.
Qed.
Lemma decode_rooted s : relative_ref s = None ∨ "?"%char ∈ s ∨ relative_ref s = Some (decode s, []).
Proof.
  destruct (decide ("?"%char ∈ s)) as [|Hn]; [by right; left|]. unfold relative_ref. destruct (starts_with _ s); [by left|].
  right; right. by rewrite break_none.
Qed.
#[export] Program Instance percent_url_laws : @BoostUrlLaws t percent_url percent_platform := {| url_params := params |}.
Next Obligation.
  intros p Hr. cbn. unfold uri. destruct (starts_with (str "http://") p) eqn:Hs; [|done].
  destruct p as [|c p]; [done|]. by injection Hr as ->.
Qed.
Next Obligation.
  intros p ps Hn. cbn. destruct (decode_rooted p) as [Hx|[?|Hx]]; [by rewrite Hx|done|rewrite Hx]. by intros [= <-].
Qed.
Next Obligation. done. Qed.
Next Obligation. done. Qed.
Next Obligation. done. Qed.
Next Obligation. done. Qed.
Next Obligation. done. Qed.
Next Obligation. done. Qed.
Next Obligation. intros u. apply encoded_parses. Qed.
Next Obligation.
  intros u Hr. cbn in *. unfold encoded_target. destruct (upath u) as [|c p]; [done|]. injection Hr as ->. discriminate.
Qed.
End PercentUrl.

(** *** An example *)
#[local] Existing Instance PercentUrl.percent_platform.
#[local] Existing Instance PercentUrl.percent_url.
#[local] Existing Instance PercentUrl.percent_url_laws.
#[local] Existing Instance demo_verbs.
Definition set_content_length (m : verb) (b : bytes) (f : FieldList.t) : FieldList.t :=
  field_set (str "Content-Length") (to_dec (N.of_nat (length b))) f.
Lemma content_length_framing name m b f : is_framing name = false → field_all name (set_content_length m b f) = field_all name f.
Proof.
  intros Hn. unfold set_content_length. rewrite field_all_set. unfold is_framing in Hn.
  by apply orb_false_iff in Hn as [[_ ->]%orb_false_iff _].
Qed.
Definition example_client : HttpClient PercentUrl.t FieldList.t :=
  set_base_url (str "http://api.test/v0") (mk_client None None [(str "Accept", str "*/*")] default_timeouts false).
Definition example_registrations : list (registration FieldList.t) :=
  [RegRoute KSync (template example_template (str ".json")) verb_get (demo_handler (str "one post"));
   RegRoute KSync (str "/users/:rest") verb_get (demo_handler (str "users"));
   RegRoute KSync (str "/:any") verb_get (demo_handler (str "any"))].
Definition example_router : HttpRouter FieldList.t :=
  match registrations (merge_std_sort more_specific) example_registrations router_init with Ret r => r | Throw _ => router_init end.
Definition example_call : option (call_start FieldList.t) :=
  API_CALL (λ _, []) set_content_length (str "beast") verb_get (template example_template (str ".json")) example_args false 0 example_client.
Definition example_message : Http.request FieldList.t :=
  match example_call with Some (Run _ _ _ req) => req | _ => mk_request verb_get [] 11 fields_empty [] end.
Definition example_context : ctx FieldList.t := context_init example_message response_empty.
Example example_target : rq_target example_message = str "/users/ann/posts/7.json?q=a%3Ab".
Proof. by vm_compute. Qed.
Lemma example_router_ok : table_ok (rt_routes example_router).
Proof.
  unfold example_router. destruct (registrations _ _ _) as [r|] eqn:Hr; [by apply (registrations_ok _ _ _ Hr)|].
  split_and!; [apply NoDup_nil_2|constructor|constructor].
Qed.
(** The most specific route of the table is the one of the template. *)
Lemma example_route : ∃ e, e ∈ rt_routes example_router ∧ re_path e = template example_template (str ".json") ∧
  serves verb_get (re_handlers e) (demo_handler (str "one post")) ∧
  ∀ e', e' ∈ rt_routes example_router → re_path e' ≠ re_path e → more_specific e e' = true.
Proof.
  assert (match rt_routes example_router with
    | [] => False
    | e :: es => re_path e = template example_template (str ".json") ∧ map_find verb_get (re_handlers e) = Some (demo_handler (str "one post")) ∧
        forallb (more_specific e) es = true end) as Hr by (vm_compute; split_and!; reflexivity).
  destruct (rt_routes example_router) as [|e es]; [done|]. destruct Hr as (Hp & Hh & Ha). exists e. split_and!; [by left|done|by left|].
  intros e' [->|Hin]%elem_of_cons Hne; [done|]. apply list_elem_of_In in Hin. by apply (proj1 (forallb_forall _ _) Ha).
Qed.
Theorem api_call_reaches_handler_witness :
  ∃ y, get_path_param (str "user") y = Some (str "ann") ∧ (get_query_param (str "q") y).1 = Some (str "a:b") ∧
    dispatch demo_page example_router None example_context =
    (tryM (demo_handler (str "one post")) (λ ex, handle_exception example_router (Some ex)) ≫= λ _, mret true) y.
Proof.
  destruct example_route as (e & He & Hp & Hh & Hbest).
  destruct (api_call_reaches_handler set_content_length (str "beast") (λ _, []) content_length_framing example_client 0
    (PercentUrl.mk (str "http") (str "api.test") [] (str "/v0") []) example_template (str ".json") example_args verb_get
    false (str "api.test") (str "80") example_message demo_page example_router None e (demo_handler (str "one post")) example_context)
    as (y & (Hpath & Hquery & _) & Hd); [..|].
  - apply well_called_example.
  - split_and!; apply (bool_decide_unpack _); by vm_compute.
  - right. by eexists.
  - reflexivity.
  - reflexivity.
  - reflexivity.
  - apply example_router_ok.
  - exact He.
  - exact Hp.
  - exact Hh.
  - intros e' Hin _. by apply Hbest.
  - reflexivity.
  - reflexivity.
  - exists y. split; [apply (Hpath (str "user") (AText (str "ann"))); by right; right; left|split; [by rewrite Hquery|exact Hd]].
Defined.
(** A question mark in a value ends the path: the rest becomes the query. *)
Theorem path_value_cut :
  match API_CALL (λ _, []) set_content_length (str "beast") verb_get (str "/users/:user") [PATH (str "user") (AText (str "a?b"))] false 0 example_client with
  | Some (Run _ _ _ req) => parse_relative_ref (rq_target req) = Some (str "/users/a", [(str "b", [])])
  | _ => False end.
Proof. by vm_compute. Qed.
