(* ===== verification/HttpClientStream.v ===== *)
(** * Streaming HTTP client ([client/http_client_stream.cpp])

    One request and its response, written and read piece by piece. The
    operations run on the strand of the stream; what Beast and the network
    answer are the events. Every operation ends in the callback it was given. *)
From S2P Require Import Prelude Text Http HttpClient.
Set Default Proof Using "Type*".

Module HttpClientStream.
Inductive error_code := NotSupported | Aborted | NeedBuffer | Failed (n : N).
#[global] Instance error_code_eq_dec : EqDecision error_code.
Proof. solve_decision. Defined.

(** ** The request *)
Record destination := mk_destination { use_tls : bool; host : bytes; port : bytes; target : bytes }.
Definition destination_of {U} `{BoostUrl U} (url : bytes) : error_code + destination :=
  match parse_uri url with
  | None => inl NotSupported
  | Some u =>
      let scheme := url_scheme u in
      if negb (bool_decide (scheme = str "http")) && negb (bool_decide (scheme = str "https")) then inl NotSupported
      else
        let use_tls := bool_decide (scheme = str "https") in
        let target := url_encoded_target u in
        inr (mk_destination use_tls (url_host u)
               (if bool_decide (url_port u = []) then (if use_tls then str "443" else str "80") else url_port u)
               (match target with
                | [] => str "/"
                | c :: _ => if bool_decide (c = "?"%char) then "/"%char :: target else target
                end))
  end.
Definition host_field (d : destination) : bytes :=
  if (use_tls d && bool_decide (port d = str "443")) || (negb (use_tls d) && bool_decide (port d = str "80"))
  then host d else host d ++ str ":" ++ port d.
(** The fields sent: [head] is the caller's, as the list of its entries, and
    [f] the fields of the request so far (empty on the first start). *)
Definition request_fields {F} `{HttpFields F} (version : N) (keep_alive : bool) (head : list (bytes * bytes)) (d : destination) (f : F) : F :=
  let f := set_keep_alive version keep_alive f in
  let f := fold_left (λ f h, field_insert h.1 h.2 f) head f in
  field_set (str "Host") (host_field d) f.

(** ** The operations *)
Inductive stage := Resolving | Connecting | Handshaking | WritingHead.
(** What an operation waits for, with the callback to run. *)
Inductive pending :=
| PStart (s : stage) (callback : N)
| PWrite (callback : N) | PHead (callback : N) | PRead (callback : N).
Inductive callback_result :=
| Done (ec : option error_code)
| Head (ec : option error_code) (st : N)               (** [result_int()] of the delivered head *)
| Body (ec : option error_code) (size : nat) (is_done : bool).
Inductive effect :=
| Resolve (d : destination) | Connect | Handshake | WriteHead | WriteBody (data : bytes) (more : bool)
| ReadHead (skip : bool) | ReadSome (capacity : nat)
| StartWriteHook                                        (** [start_write_callback] *)
| CloseSockets
| Callback (id : N) (r : callback_result).

Record t := mk {
  dest : option destination;
  is_head : bool;                       (** [request_method == verb::head] *)
  started : bool; request_finished : bool;
  response_parser : option bool;        (** present, and [is_done()] *)
  has_hook : bool;
  waiting : list pending }.
Definition init (hook : bool) : t := mk None false false false None hook [].
Definition set_waiting (w : list pending) (s : t) : t :=
  mk (dest s) (is_head s) (started s) (request_finished s) (response_parser s) (has_hook s) w.
Definition wait (p : pending) (s : t) : t := set_waiting (waiting s ++ [p]) s.
Definition set_parser (p : option bool) (s : t) : t :=
  mk (dest s) (is_head s) (started s) (request_finished s) p (has_hook s) (waiting s).
Definition uses_tls (s : t) : bool := match dest s with Some d => use_tls d | None => false end.

(** [sni]: what setting the server name for TLS answers. *)
Definition start_on_executor (parsed : error_code + destination) (head_method : bool) (sni : option error_code) (callback : N) (s : t) :
    t * list effect :=
  match parsed with
  | inl ec => (s, [Callback callback (Done (Some ec))])
  | inr d =>
      let s := mk (Some d) head_method (started s) (request_finished s) (response_parser s) (has_hook s) (waiting s) in
      match sni with
      | Some ec => if use_tls d then (s, [Callback callback (Done (Some ec))])
                   else (wait (PStart Resolving callback) s, [Resolve d])
      | None => (wait (PStart Resolving callback) s, [Resolve d])
      end
  end.
Definition async_write_header (callback : N) (s : t) : t * list effect :=
  (wait (PStart WritingHead callback) s, (if has_hook s then [StartWriteHook] else []) ++ [WriteHead]).
(** The completion of a step of [start]. *)
Definition on_start (stg : stage) (ec : option error_code) (callback : N) (s : t) : t * list effect :=
  match stg with
  | WritingHead =>
      (mk (dest s) (is_head s) (bool_decide (ec = None)) (request_finished s) (response_parser s) (has_hook s) (waiting s),
       [Callback callback (Done ec)])
  | _ =>
      match ec with
      | Some _ => (s, [Callback callback (Done ec)])
      | None =>
          match stg with
          | Resolving => (wait (PStart Connecting callback) s, [Connect])
          | Connecting => if uses_tls s then (wait (PStart Handshaking callback) s, [Handshake]) else async_write_header callback s
          | _ => async_write_header callback s
          end
      end
  end.
Definition write_on_executor (data : bytes) (callback : N) (s : t) : t * list effect :=
  if negb (started s) || request_finished s then (s, [Callback callback (Done (Some Aborted))])
  else (wait (PWrite callback) s, [WriteBody data true]).
(** [serializer_done]: [request_serializer->is_done()]. *)
Definition finish_on_executor (serializer_done : bool) (callback : N) (s : t) : t * list effect :=
  if negb (started s) || request_finished s then (s, [Callback callback (Done (Some Aborted))])
  else
    let s := mk (dest s) (is_head s) (started s) true (response_parser s) (has_hook s) (waiting s) in
    if serializer_done then (s, [Callback callback (Done None)])
    else (wait (PWrite callback) s, [WriteBody [] false]).
Definition on_written (ec : option error_code) (callback : N) (s : t) : t * list effect :=
  (s, [Callback callback (Done (if bool_decide (ec = Some NeedBuffer) then None else ec))]).
Definition async_read_head (callback : N) (s : t) : t * list effect :=
  (wait (PHead callback) (set_parser (Some false) s), [ReadHead (is_head s)]).
Definition read_head_on_executor (callback : N) (s : t) : t * list effect :=
  if negb (started s) then (s, [Callback callback (Head (Some Aborted) 0)]) else async_read_head callback s.
Definition is_interim (st : N) : bool := (100 <=? st)%N && (st <? 200)%N && negb (bool_decide (st = 101%N)).
(** [st]: the code of [source.result()], which is 0 for a code that Beast does
    not name; [is_done]: the parser after the head (no body, or HEAD). *)
Definition on_head (ec : option error_code) (st : N) (is_done : bool) (callback : N) (s : t) : t * list effect :=
  match ec with
  | None =>
      let s := set_parser (Some is_done) s in
      if is_interim st then async_read_head callback s else (s, [Callback callback (Head None st)])
  | Some _ => (s, [Callback callback (Head ec 0)])
  end.
Definition read_on_executor (capacity : nat) (callback : N) (s : t) : t * list effect :=
  if negb (started s) then (s, [Callback callback (Body (Some Aborted) 0 true)])
  else match response_parser s with
  | None => (s, [Callback callback (Body (Some Aborted) 0 true)])
  | Some true => (s, [Callback callback (Body None 0 true)])
  | Some false => (wait (PRead callback) s, [ReadSome capacity])
  end.
Definition on_body (ec : option error_code) (produced : nat) (is_done : bool) (callback : N) (s : t) : t * list effect :=
  (set_parser (Some is_done) s, [Callback callback (Body (if bool_decide (ec = Some NeedBuffer) then None else ec) produced is_done)]).
(** [cancel]: the pending operations complete with an error of their own. *)
Definition cancel (s : t) : t * list effect := (s, [CloseSockets]).

(** The calls of the owner, posted to the strand, and the completions. *)
Inductive call :=
| CStart (parsed : error_code + destination) (head_method : bool) (sni : option error_code)
| CWrite (data : bytes) | CFinish (serializer_done : bool) | CReadHead | CRead (capacity : nat).
Definition perform (c : call) (callback : N) (s : t) : t * list effect :=
  match c with
  | CStart parsed head_method sni => start_on_executor parsed head_method sni callback s
  | CWrite data => write_on_executor data callback s
  | CFinish serializer_done => finish_on_executor serializer_done callback s
  | CReadHead => read_head_on_executor callback s
  | CRead capacity => read_on_executor capacity callback s
  end.
Record answer := mk_answer { a_ec : option error_code; a_status : N; a_produced : nat; a_done : bool }.
Definition complete (p : pending) (a : answer) (s : t) : t * list effect :=
  match p with
  | PStart stg callback => on_start stg (a_ec a) callback s
  | PWrite callback => on_written (a_ec a) callback s
  | PHead callback => on_head (a_ec a) (a_status a) (a_done a) callback s
  | PRead callback => on_body (a_ec a) (a_produced a) (a_done a) callback s
  end.
End HttpClientStream.

(** ** Properties *)
Section properties.
Import HttpClientStream.
Definition callback_of (p : pending) : N := match p with PStart _ k | PWrite k | PHead k | PRead k => k end.
Definition called (out : list effect) : list N := omap (λ e, match e with Callback k _ => Some k | _ => None end) out.
(** The stream, what it did, and the callbacks handed to it so far. *)
Record stream_run := mk_stream_run { st_state : t; st_out : list effect; st_given : list N }.
Inductive stream_step : stream_run → stream_run → Prop :=
| stream_call s out given c callback :
    stream_step (mk_stream_run s out given)
      (mk_stream_run (perform c callback s).1 (out ++ (perform c callback s).2) (given ++ [callback]))
| stream_complete s out given l1 p l2 a :
    waiting s = l1 ++ p :: l2 →
    let s0 := set_waiting (l1 ++ l2) s in
    stream_step (mk_stream_run s out given) (mk_stream_run (complete p a s0).1 (out ++ (complete p a s0).2) given)
| stream_cancel s out given : stream_step (mk_stream_run s out given) (mk_stream_run (cancel s).1 (out ++ (cancel s).2) given).

(** Each handler answers its callback or waits on its behalf. *)
Definition answers (k : N) (s : t) (r : t * list effect) : Prop :=
  (called r.2 = [k] ∧ waiting r.1 = waiting s) ∨ (called r.2 = [] ∧ ∃ p, callback_of p = k ∧ waiting r.1 = waiting s ++ [p]).
Ltac waits := right; split; [done|eexists; split; [|reflexivity]; done].
Lemma answers_perform c k s : answers k s (perform c k s).
Proof.
  unfold answers. destruct c as [[ec|d] m [sni|]|data|b| |n]; cbn.
  1-2: by left.
  1: destruct (use_tls d); cbn; [by left|waits].
  1: waits.
  - unfold write_on_executor. destruct (_ || _); [by left|waits].
  - unfold finish_on_executor. destruct (_ || _); [by left|]. destruct b; [by left|waits].
  - unfold read_head_on_executor. destruct (negb _); [by left|waits].
  - unfold read_on_executor. destruct (negb _); [by left|]. destruct (response_parser s) as [[]|]; [by left|waits|by left].
Qed.
Lemma answers_complete p a s : answers (callback_of p) s (complete p a s).
Proof.
  assert (∀ k s, answers k s (async_write_header k s)) as Hw.
  { intros k s'. right. unfold async_write_header. cbn. destruct (has_hook s'); (split; [done|eexists; split; [|reflexivity]; done]). }
  destruct p as [stg k|k|k|k]; cbn.
  - unfold on_start. destruct stg, (a_ec a); try (by left); [waits| |apply Hw].
    destruct (uses_tls s); [waits|apply Hw].
  - by left.
  - unfold on_head. destruct (a_ec a); [by left|]. destruct (is_interim _); [waits|by left].
  - by left.
Qed.
Definition accounted (r : stream_run) : Prop :=
  st_given r ≡ₚ called (st_out r) ++ (callback_of <$> waiting (st_state r)).
Lemma called_app a b : called (a ++ b) = called a ++ called b.
Proof. apply omap_app. Qed.
Lemma accounted_step r r' : accounted r → stream_step r r' → accounted r'.
Proof.
  unfold accounted. intros Hi Hs. destruct Hs as [s out given c k|s out given l1 p l2 a Hw s0|s out given]; cbn [st_state st_out st_given] in *.
  - rewrite called_app, Hi. destruct (answers_perform c k s) as [[-> ->]|(-> & p & <- & ->)]; [solve_Permutation|]. rewrite fmap_app. cbn. solve_Permutation.
  - rewrite called_app, Hi, Hw, fmap_app, fmap_cons.
    destruct (answers_complete p a s0) as [[-> ->]|(-> & q & Hq & ->)]; unfold s0; cbn [waiting set_waiting].
    + rewrite fmap_app. solve_Permutation.
    + rewrite !fmap_app, fmap_cons, Hq. cbn. solve_Permutation.
  - rewrite called_app. cbn. by rewrite app_nil_r.
Qed.

(** Heads reported with success. *)
Definition interim_head (e : effect) : bool := match e with Callback _ (Head None st) => is_interim st | _ => false end.
Definition body_write (e : effect) : bool := match e with WriteBody _ _ => true | _ => false end.
Definition last_write (e : effect) : bool := match e with WriteBody _ more => negb more | _ => false end.
(** The body as it was written: nothing follows the write that ends it. *)
Definition stream_inv (r : stream_run) : Prop :=
  List.filter interim_head (st_out r) = [] ∧
  (request_finished (st_state r) = false → List.filter last_write (st_out r) = []) ∧
  (∀ l1 e l2, st_out r = l1 ++ e :: l2 → last_write e = true → List.filter body_write l2 = []).
(** What one handler writes. *)
Definition writes_ok (s : t) (r : t * list effect) : Prop :=
  List.filter interim_head r.2 = [] ∧
  (request_finished s = true → request_finished r.1 = true ∧ List.filter body_write r.2 = []) ∧
  (request_finished s = false → (request_finished r.1 = false → List.filter last_write r.2 = []) ∧ length (List.filter body_write r.2) ≤ 1).
Lemma last_is_write out : List.filter body_write out = [] → List.filter last_write out = [].
Proof. induction out as [|e out IH]; [done|]. destruct e; cbn; auto. discriminate. Qed.
Lemma writes_quiet s r :
  request_finished r.1 = request_finished s → List.filter interim_head r.2 = [] → List.filter body_write r.2 = [] → writes_ok s r.
Proof.
  intros Hf Hi Hb. split_and!; [done|by rewrite Hf|]. intros _. rewrite Hb. split; [|cbn; lia]. intros _. by apply last_is_write.
Qed.
Lemma writes_perform c k s : writes_ok s (perform c k s).
Proof.
  destruct c as [[ec|d] m [sni|]|data|b| |n]; cbn [perform]; unfold start_on_executor; try (by apply writes_quiet).
  - destruct (use_tls d); by apply writes_quiet.
  - unfold write_on_executor. destruct (negb (started s)) eqn:Hs; [by apply writes_quiet|]. destruct (request_finished s) eqn:Hf; [by apply writes_quiet|].
    cbn. split_and!; [done|by rewrite Hf|]. intros _. cbn. split; [done|lia].
  - unfold finish_on_executor. destruct (negb (started s)) eqn:Hs; [by apply writes_quiet|]. destruct (request_finished s) eqn:Hf; [by apply writes_quiet|].
    cbn. destruct b; (split_and!; [done|by rewrite Hf|]); intros _; cbn; (split; [done|lia]).
  - unfold read_head_on_executor. destruct (negb (started s)); by apply writes_quiet.
  - unfold read_on_executor. destruct (negb (started s)); [by apply writes_quiet|]. destruct (response_parser s) as [[]|]; by apply writes_quiet.
Qed.
Lemma writes_complete p a s : writes_ok s (complete p a s).
Proof.
  assert (∀ k s, writes_ok s (async_write_header k s)) as Hw.
  { intros k s'. unfold async_write_header. apply writes_quiet; cbn; by destruct (has_hook s'). }
  destruct p as [stg k|k|k|k]; cbn [complete]; try (by apply writes_quiet).
  - unfold on_start. destruct stg, (a_ec a); try (by apply writes_quiet); [|apply Hw]. destruct (uses_tls s); [by apply writes_quiet|apply Hw].
  - unfold on_head. destruct (a_ec a); [by apply writes_quiet|]. destruct (is_interim (a_status a)) eqn:Hi; apply writes_quiet; try done. cbn. by rewrite Hi.
Qed.
Lemma filter_app' {A} (f : A → bool) a b : List.filter f (a ++ b) = List.filter f a ++ List.filter f b.
Proof. apply List.filter_app. Qed.
Lemma stream_inv_append s out given given' r s' :
  stream_inv (mk_stream_run s out given) → request_finished s' = request_finished s → writes_ok s' r →
  stream_inv (mk_stream_run r.1 (out ++ r.2) given').
Proof.
  unfold stream_inv. cbn [st_state st_out]. intros (H1 & H2 & H3) Hs (W1 & W2 & W3). rewrite <-Hs in *. rewrite !filter_app'. split_and!.
  - by rewrite H1, W1.
  - intros Hr. destruct (request_finished s') eqn:Hf; [destruct (W2 eq_refl); congruence|]. destruct (W3 eq_refl) as [W3a _]. by rewrite H2, W3a.
  - intros l1 e l2 He Hlast. destruct (app_eq_inv out r.2 l1 (e :: l2) He) as [(k & Ho & Hk)|(k & Hl & Hr)].
    + destruct k as [|e' k]; cbn in Hk.
      * destruct r as [r1 r2]. cbn in *. subst r2. destruct (request_finished s'); [destruct (W2 eq_refl) as [_ Hb]|destruct (W3 eq_refl) as [_ Hb]]; destruct e as [| | | |? []| | | | |]; cbn in *; try done; apply nil_length_inv; lia.
      * injection Hk as <- ->. rewrite filter_app'. rewrite (H3 l1 e k Ho Hlast). destruct (request_finished s') eqn:Hf; [by destruct (W2 eq_refl) as [_ ->]|].
        exfalso. specialize (H2 eq_refl). rewrite Ho, filter_app' in H2. apply app_nil in H2 as [_ H2]. cbn in H2. by rewrite Hlast in H2.
    + rewrite Hr in W2, W3. destruct (request_finished s').
      * destruct (W2 eq_refl) as [_ Hb]. rewrite filter_app' in Hb. apply app_nil in Hb as [_ Hb]. destruct e as [| | | |? []| | | | |]; done.
      * destruct (W3 eq_refl) as [_ Hb]. rewrite filter_app', length_app in Hb. destruct e as [| | | |? []| | | | |]; cbn in *; try done. apply nil_length_inv. lia.
Qed.
(** C39: the protocol of a streamed exchange, for every order of calls, answers
    and cancellations. Every callback the owner passed was run once or is still
    waited for, none twice; no interim (1xx) head is ever delivered; and the
    body on the wire is the blocks written before the finishing block, after
    which nothing is written. *)
Theorem client_stream_protocol hook r :
  rtc stream_step (mk_stream_run (init hook) [] []) r →
  st_given r ≡ₚ called (st_out r) ++ (callback_of <$> waiting (st_state r)) ∧
  List.filter interim_head (st_out r) = [] ∧
  (∀ l1 e l2, st_out r = l1 ++ e :: l2 → last_write e = true → List.filter body_write l2 = []).
Proof.
  intros Hr. assert (accounted r ∧ stream_inv r) as [Ha (H1 & _ & H3)]; [|done].
  refine (rtc_invariant stream_step (λ r, accounted r ∧ stream_inv r) _ _ _ Hr _).
  - intros r1 r2 [Ha Hi] Hs. split; [by eapply accounted_step|]. destruct Hs as [s out given c k|s out given l1 p l2 a Hw s0|s out given].
    + eapply stream_inv_append; [exact Hi|reflexivity|apply writes_perform].
    + eapply (stream_inv_append s _ _ _ _ s0); [exact Hi|reflexivity|apply writes_complete].
    + eapply stream_inv_append; [exact Hi|reflexivity|by apply writes_quiet].
  - split; [unfold accounted; cbn; done|]. split_and!; try done. by intros [] ? ? ?.
Qed.
(** Refused operations touch nothing. *)
Lemma refused_quietly s k :
  started s = false ∨ request_finished s = true →
  (∀ data, perform (CWrite data) k s = (s, [Callback k (Done (Some Aborted))])) ∧
  (∀ b, perform (CFinish b) k s = (s, [Callback k (Done (Some Aborted))])).
Proof. intros Hs. unfold perform, write_on_executor, finish_on_executor. by destruct Hs as [-> | ->]; rewrite ?orb_true_r. Qed.
End properties.

Section witness.
Import HttpClientStream.
Definition sample_destination : destination := mk_destination false (str "host") (str "8080") (str "/").
Definition fine : answer := mk_answer None 200 3 true.
Theorem client_stream_protocol_witness :
  ∃ r, rtc stream_step (mk_stream_run (init false) [] []) r ∧ st_given r ≡ₚ called (st_out r) ∧ called (st_out r) = [1%N].
Proof.
  eassert (rtc stream_step (mk_stream_run (init false) [] []) _) as Hr.
  { eapply rtc_l; [exact (stream_call _ _ _ (CStart (inr sample_destination) false None) 1)|].
    eapply rtc_l; [refine (stream_complete _ _ _ [] (PStart Resolving 1) [] fine _); reflexivity|].
    eapply rtc_l; [refine (stream_complete _ _ _ [] (PStart Connecting 1) [] fine _); reflexivity|].
    eapply rtc_l; [refine (stream_complete _ _ _ [] (PStart WritingHead 1) [] fine _); reflexivity|]. apply rtc_refl. }
  destruct (client_stream_protocol _ _ Hr) as (Hg & _). eexists. split; [exact Hr|]. split; [|done]. rewrite app_nil_r in Hg. exact Hg.
Defined.
End witness.
