(* ===== verification/ProxyStreams.v ===== *)
(** * The proxy on its streams ([client/http_proxy_session.cpp] over
    [client/http_client_stream.cpp] and [session/http_session.cpp])

    [HttpProxySession] composed with the machines of the two connections it
    relays between: the client stream to the upstream server and the streaming
    route of the inbound connection. Every call is posted to the executor of its
    stream ([todo]) and answered there, at once or when Beast completes it. *)
From S2P Require Import Prelude Text Http Websocket WebsocketTheorems HttpProxySession HttpClient HttpClientStream HttpSession HttpConnection.
Set Default Proof Using "Type*".

Section streams.
Context {F : Type} `{HttpFields F}.
Abbreviation px_state := HttpProxySession.t.
Abbreviation px_effect := (HttpProxySession.effect F).
Abbreviation px_event := (HttpProxySession.event F).

(** What the inbound connection works on for the proxy. *)
Inductive down_op := DRead | DHead | DWrite | DEnd.
Record system := mk_system {
  px : px_state; up : HttpClientStream.t; down : HttpConnection.t;
  down_wait : option down_op;
  todo : list px_effect;                   (** calls posted, not executed yet *)
  up_out : list HttpClientStream.effect; down_out : list HttpConnection.effect;
  down_sent : bytes;                       (** given to [async_write] of the response stream *)
  from_client : bytes; from_upstream : bytes;
  reported : list bool;                    (** runs of the completion callback, with their error *)
  refusals : nat }.                        (** calls after [start] that a stream refused *)

Definition is_error {A} (ec : option A) : bool := match ec with Some _ => true | None => false end.
(** The callback of a stream as the proxy's lambda sees it; [head] and [data] are the
    message and the bytes Beast read. *)
Definition event_of (r : HttpClientStream.callback_result) (head : F) (data : bytes) : px_event :=
  match r with
  | HttpClientStream.Done ec => HttpProxySession.EvDone (is_error ec)
  | HttpClientStream.Head ec _ => HttpProxySession.EvHead (is_error ec) head
  | HttpClientStream.Body ec size is_done => HttpProxySession.EvRead (is_error ec) (take size data) is_done
  end.
Definition answer_of (out : list HttpClientStream.effect) : option HttpClientStream.callback_result :=
  last (omap (λ e, match e with HttpClientStream.Callback _ r => Some r | _ => None end) out).

Definition deliver (ev : px_event) (s : system) : system :=
  let r := HttpProxySession.handle (px s) ev in
  mk_system r.1 (up s) (down s) (down_wait s) (todo s ++ r.2) (up_out s) (down_out s) (down_sent s)
    (from_client s ++ read_in (HttpProxySession.at_phase (px s)) ev)
    (from_upstream s ++ read_up (HttpProxySession.at_phase (px s)) ev) (reported s) (refusals s).
(** A handler of the client stream has run. *)
Definition on_up (r : HttpClientStream.t * list HttpClientStream.effect) (head : F) (data : bytes) (s : system) : system :=
  let s := mk_system (px s) r.1 (down s) (down_wait s) (todo s) (up_out s ++ r.2) (down_out s) (down_sent s)
             (from_client s) (from_upstream s) (reported s) (refusals s) in
  match answer_of r.2 with Some a => deliver (event_of a head data) s | None => s end.
(** A handler of the connection has run; [wait]: what it started for the proxy. *)
Definition on_down (r : HttpConnection.t * list HttpConnection.effect) (wait : option down_op) (sent : bytes) (s : system) : system :=
  mk_system (px s) (up s) r.1 wait (todo s) (up_out s) (down_out s ++ r.2) (down_sent s ++ sent)
    (from_client s) (from_upstream s) (reported s) (refusals s).
Definition pop (s : system) (rest : list px_effect) : system :=
  mk_system (px s) (up s) (down s) (down_wait s) rest (up_out s) (down_out s) (down_sent s) (from_client s) (from_upstream s) (reported s) (refusals s).
Definition refuse (b : bool) (s : system) : system :=
  mk_system (px s) (up s) (down s) (down_wait s) (todo s) (up_out s) (down_out s) (down_sent s) (from_client s) (from_upstream s) (reported s)
    (if b then S (refusals s) else refusals s).

(** What the outside decides when a call is executed: the parsed URL, the method,
    the answer of TLS, whether the request's serializer is done, and what the
    response's head asks for. *)
Record choice := mk_choice {
  ch_parsed : HttpClientStream.error_code + HttpClientStream.destination; ch_head_method : bool;
  ch_sni : option HttpClientStream.error_code; ch_serializer_done : bool; ch_keep_alive : bool }.
Context (buffer_size : nat).
Definition call_up (c : HttpClientStream.call) (counted : bool) (s : system) : system :=
  let r := HttpClientStream.perform c 0 (up s) in
  let s := on_up r fields_empty [] s in
  refuse (counted && match answer_of r.2 with
                     | Some (HttpClientStream.Done ec | HttpClientStream.Head ec _ | HttpClientStream.Body ec _ _) => is_error ec
                     | None => false
                     end) s.
(** A call of the response or request stream answered at once, with [error], or started. *)
Definition call_down (r : HttpConnection.t * list HttpConnection.effect) (op : down_op) (sent : bytes) (answer : bool → px_event) (s : system) : system :=
  match omap (λ e, match e with HttpConnection.Callback error => Some error | _ => None end) r.2 with
  | error :: _ => refuse error (deliver (answer error) (on_down r None [] s))
  | [] => on_down r (Some op) sent s
  end.
Definition exec (ch : choice) (e : px_effect) (s : system) : system :=
  match e with
  | HttpProxySession.UpStart _ => call_up (HttpClientStream.CStart (ch_parsed ch) (ch_head_method ch) (ch_sni ch)) false s
  | HttpProxySession.UpWrite data => call_up (HttpClientStream.CWrite data) true s
  | HttpProxySession.UpFinish => call_up (HttpClientStream.CFinish (ch_serializer_done ch)) true s
  | HttpProxySession.UpReadHead => call_up HttpClientStream.CReadHead true s
  | HttpProxySession.UpRead => call_up (HttpClientStream.CRead buffer_size) true s
  | HttpProxySession.InRead =>
      call_down (HttpConnection.async_read_stream_body (down s)) DRead [] (λ error, HttpProxySession.EvRead error [] true) s
  | HttpProxySession.DownStart _ =>
      call_down (HttpConnection.start_stream_response (ch_keep_alive ch) (down s)) DHead [] HttpProxySession.EvDone s
  | HttpProxySession.DownWrite data => call_down (HttpConnection.write_stream_response (down s)) DWrite data HttpProxySession.EvDone s
  | HttpProxySession.DownFinish => call_down (HttpConnection.finish_stream_response (down s)) DEnd [] HttpProxySession.EvDone s
  | HttpProxySession.Cancel =>
      on_down (HttpConnection.cancel_session (down s)) (down_wait s) [] (on_up (HttpClientStream.cancel (up s)) fields_empty [] s)
  | HttpProxySession.Complete ec =>
      mk_system (px s) (up s) (down s) (down_wait s) (todo s) (up_out s) (down_out s) (down_sent s) (from_client s) (from_upstream s)
        (reported s ++ [ec]) (refusals s)
  end.
(** Beast completes what the connection works on. *)
Definition complete_down (op : down_op) (ec : bool) (data : bytes) (is_done : bool) (s : system) : system :=
  match op with
  | DRead => deliver (HttpProxySession.EvRead ec data is_done) (on_down (HttpConnection.on_stream_read ec is_done (down s)) None [] s)
  | DHead | DWrite => deliver (HttpProxySession.EvDone ec) (on_down (HttpConnection.on_stream_written ec is_done (down s)) None [] s)
  | DEnd => deliver (HttpProxySession.EvDone ec) (on_down (HttpConnection.after_stream ec (down s)) None [] s)
  end.
Inductive system_step : system → system → Prop :=
| sys_call s ch e rest : todo s = e :: rest → system_step s (exec ch e (pop s rest))
| sys_up s l1 p l2 a head data :
    HttpClientStream.waiting (up s) = l1 ++ p :: l2 → HttpClientStream.a_produced a = length data →
    system_step s (on_up (HttpClientStream.complete p a (HttpClientStream.set_waiting (l1 ++ l2) (up s))) head data s)
| sys_down s op ec data is_done : down_wait s = Some op → system_step s (complete_down op ec data is_done s)
| sys_cancel s : system_step s (exec (mk_choice (inl HttpClientStream.Aborted) false None false false) HttpProxySession.Cancel s).
(** The route handler has made the session and called [start]. *)
Definition system_start (hook : bool) (connection : HttpConnection.t) (head : F) : system :=
  mk_system (HttpProxySession.start head).1 (HttpClientStream.init hook) connection None (HttpProxySession.start head).2 [] [] [] [] [] [] 0.

(** ** The invariant: where the one outstanding operation is *)
Abbreviation pending := HttpClientStream.pending.
Abbreviation k0 := (0%N) (only parsing).
(** Phase of the proxy, calls posted, operations of the client stream and of the
    connection; [started], [request_finished] and the parser of the stream, the
    serializer of the connection; completions reported. *)
Inductive mode : HttpProxySession.phase → list px_effect → list pending → option down_op → bool → bool → option bool → option bool → list bool → Prop :=
| m_start h p ser : mode HttpProxySession.Starting [HttpProxySession.UpStart h] [] None false false p ser []
| m_starting stg p ser : mode HttpProxySession.Starting [] [HttpClientStream.PStart stg 0] None false false p ser []
| m_read p ser : mode HttpProxySession.ReadingRequest [HttpProxySession.InRead] [] None true false p ser []
| m_reading p ser : mode HttpProxySession.ReadingRequest [] [] (Some DRead) true false p ser []
| m_write d data p ser : mode (HttpProxySession.WritingRequest d) [HttpProxySession.UpWrite data] [] None true false p ser []
| m_writing d p ser : mode (HttpProxySession.WritingRequest d) [] [HttpClientStream.PWrite 0] None true false p ser []
| m_finish p ser : mode HttpProxySession.FinishingRequest [HttpProxySession.UpFinish] [] None true false p ser []
| m_finishing p ser : mode HttpProxySession.FinishingRequest [] [HttpClientStream.PWrite 0] None true true p ser []
| m_head p ser : mode HttpProxySession.ReadingHead [HttpProxySession.UpReadHead] [] None true true p ser []
| m_heading p ser : mode HttpProxySession.ReadingHead [] [HttpClientStream.PHead 0] None true true p ser []
| m_down h b ser : mode HttpProxySession.StartingResponse [HttpProxySession.DownStart h] [] None true true (Some b) ser []
| m_downing b c : mode HttpProxySession.StartingResponse [] [] (Some DHead) true true (Some b) (Some c) []
| m_body b c : mode HttpProxySession.ReadingResponse [HttpProxySession.UpRead] [] None true true (Some b) (Some c) []
| m_bodying b c : mode HttpProxySession.ReadingResponse [] [HttpClientStream.PRead 0] None true true (Some b) (Some c) []
| m_send d data b c : mode (HttpProxySession.WritingResponse d) [HttpProxySession.DownWrite data] [] None true true (Some b) (Some c) []
| m_sending d b c : mode (HttpProxySession.WritingResponse d) [] [] (Some DWrite) true true (Some b) (Some c) []
| m_end b c : mode HttpProxySession.FinishingResponse [HttpProxySession.DownFinish] [] None true true (Some b) (Some c) []
| m_ending b c : mode HttpProxySession.FinishingResponse [] [] (Some DEnd) true true (Some b) (Some c) []
| m_fail st fin p ser : mode HttpProxySession.Ended [HttpProxySession.Cancel; HttpProxySession.Complete true] [] None st fin p ser []
| m_failing st fin p ser : mode HttpProxySession.Ended [HttpProxySession.Complete true] [] None st fin p ser []
| m_failed st fin p ser : mode HttpProxySession.Ended [] [] None st fin p ser [true]
| m_close b : mode HttpProxySession.Ended [HttpProxySession.Complete false] [] None true true (Some b) None []
| m_closed b : mode HttpProxySession.Ended [] [] None true true (Some b) None [false].
Definition body_data (e : HttpClientStream.effect) : option bytes := match e with HttpClientStream.WriteBody d _ => Some d | _ => None end.
Definition up_sent (out : list HttpClientStream.effect) : bytes := concat (omap body_data out).
(** The proxy's own view of the run, closed under its events. *)
Context (reach : px_state → bytes → bytes → Prop).
Context (reach_event : ∀ p ev a b, reach p a b → HttpProxySession.answers (HttpProxySession.at_phase p) ev →
  reach (HttpProxySession.handle p ev).1 (a ++ read_in (HttpProxySession.at_phase p) ev) (b ++ read_up (HttpProxySession.at_phase p) ev)).
Definition system_inv (s : system) : Prop :=
  reach (px s) (from_client s) (from_upstream s) ∧
  mode (HttpProxySession.at_phase (px s)) (todo s) (HttpClientStream.waiting (up s)) (down_wait s) (HttpClientStream.started (up s))
    (HttpClientStream.request_finished (up s)) (HttpClientStream.response_parser (up s)) (HttpConnection.serializer (down s)) (reported s) ∧
  HttpProxySession.completed (px s) = bool_decide (HttpProxySession.at_phase (px s) = HttpProxySession.Ended) ∧
  HttpConnection.request_body_cancelled (down s) = false ∧ refusals s = 0 ∧
  up_sent (up_out s) ++ sent_up (todo s) = from_client s ∧ down_sent s ++ sent_down (todo s) = from_upstream s.
#[local] Arguments up_sent : simpl never.
Lemma up_sent_one e : up_sent [e] = default [] (body_data e).
Proof. unfold up_sent. destruct e; cbn; by rewrite ?app_nil_r. Qed.
Lemma up_sent_app a b : up_sent (a ++ b) = up_sent a ++ up_sent b.
Proof. unfold up_sent. by rewrite omap_app, concat_app. Qed.
(** An operation was answered and the proxy is about to be told. *)
Definition fails (ev : px_event) : bool := match ev with HttpProxySession.EvDone ec | HttpProxySession.EvRead ec _ _ | HttpProxySession.EvHead ec _ => ec end.
Inductive ready : HttpProxySession.phase → px_event → bool → bool → option bool → option bool → Prop :=
| r_fail ph ev st fin p ser : HttpProxySession.answers ph ev → fails ev = true → ready ph ev st fin p ser
| r_started p ser : ready HttpProxySession.Starting (HttpProxySession.EvDone false) true false p ser
| r_read data d p ser : ready HttpProxySession.ReadingRequest (HttpProxySession.EvRead false data d) true false p ser
| r_written d p ser : ready (HttpProxySession.WritingRequest d) (HttpProxySession.EvDone false) true false p ser
| r_finished p ser : ready HttpProxySession.FinishingRequest (HttpProxySession.EvDone false) true true p ser
| r_head h b ser : ready HttpProxySession.ReadingHead (HttpProxySession.EvHead false h) true true (Some b) ser
| r_downed b c : ready HttpProxySession.StartingResponse (HttpProxySession.EvDone false) true true (Some b) (Some c)
| r_body data d b c : ready HttpProxySession.ReadingResponse (HttpProxySession.EvRead false data d) true true (Some b) (Some c)
| r_sent d b c : ready (HttpProxySession.WritingResponse d) (HttpProxySession.EvDone false) true true (Some b) (Some c)
| r_ended b : ready HttpProxySession.FinishingResponse (HttpProxySession.EvDone false) true true (Some b) None.
Definition answered (ev : px_event) (s : system) : Prop :=
  reach (px s) (from_client s) (from_upstream s) ∧
  ready (HttpProxySession.at_phase (px s)) ev (HttpClientStream.started (up s)) (HttpClientStream.request_finished (up s))
    (HttpClientStream.response_parser (up s)) (HttpConnection.serializer (down s)) ∧
  HttpProxySession.completed (px s) = false ∧ todo s = [] ∧ HttpClientStream.waiting (up s) = [] ∧ down_wait s = None ∧ reported s = [] ∧
  HttpConnection.request_body_cancelled (down s) = false ∧ refusals s = 0 ∧
  up_sent (up_out s) = from_client s ∧ down_sent s = from_upstream s.
Ltac flat s := destruct s as [[ph cp] [dst ish std fin par hook wt] [rp bb ser ska sc rbc mx] dw td uo dn ds fc fu rep rf]; cbn in *.
Ltac modes := split_and!; try done; rewrite ?app_nil_r; try constructor; try done; congruence.
Lemma ready_answers ph ev st fin p ser : ready ph ev st fin p ser → HttpProxySession.answers ph ev.
Proof using Type. by destruct 1. Qed.
Lemma deliver_inv ev s : answered ev s → system_inv (deliver ev s).
Proof.
  intros (Hreach & Hr & Hcp & Htd & Hwt & Hdw & Hrep & Hrbc & Hrf & Hu & Hd). flat s. subst. unfold system_inv, deliver. cbn.
  split; [apply (reach_event _ _ _ _ Hreach); by apply (ready_answers _ _ _ _ _ _ Hr)|].
  inversion Hr; subst; [destruct ph, ev; try done; cbn in *; subst; modes|..];
    unfold HttpProxySession.handle, HttpProxySession.pump_request, HttpProxySession.finish_request, HttpProxySession.read_response_head,
      HttpProxySession.pump_response, HttpProxySession.finish_response, HttpProxySession.goto, HttpProxySession.finish; cbn;
    repeat case_bool_decide; subst; try (destruct d); cbn; modes.
Qed.
Lemma refuse_false s : refuse false s = s.
Proof. by destruct s. Qed.
(** A handler of the client stream without a callback, and with one. *)
Lemma on_up_waits r head data s :
  answer_of r.2 = None → system_inv (mk_system (px s) r.1 (down s) (down_wait s) (todo s) (up_out s ++ r.2) (down_out s) (down_sent s)
    (from_client s) (from_upstream s) (reported s) (refusals s)) → system_inv (on_up r head data s).
Proof. intros Ha Hi. unfold on_up. by rewrite Ha. Qed.
Lemma on_up_answers r a head data s :
  answer_of r.2 = Some a → answered (event_of a head data) (mk_system (px s) r.1 (down s) (down_wait s) (todo s) (up_out s ++ r.2) (down_out s) (down_sent s)
    (from_client s) (from_upstream s) (reported s) (refusals s)) → system_inv (on_up r head data s).
Proof. intros Ha Hi. unfold on_up. rewrite Ha. by apply deliver_inv. Qed.
Lemma call_up_inv c s :
  match answer_of (HttpClientStream.perform c 0 (up s)).2 with
  | Some (HttpClientStream.Done ec | HttpClientStream.Head ec _ | HttpClientStream.Body ec _ _) => is_error ec
  | None => false
  end = false →
  system_inv (on_up (HttpClientStream.perform c 0 (up s)) fields_empty [] s) → system_inv (call_up c true s).
Proof. intros He Hi. unfold call_up. by rewrite He, refuse_false. Qed.
Lemma call_down_waits r op sent answer s :
  omap (λ e, match e with HttpConnection.Callback error => Some error | _ => None end) r.2 = [] →
  system_inv (on_down r (Some op) sent s) → system_inv (call_down r op sent answer s).
Proof. intros He Hi. unfold call_down. by rewrite He. Qed.
Ltac bytes_done := rewrite ?up_sent_app, ?up_sent_one, ?app_nil_r in *; cbn [body_data default from_option id] in *; rewrite ?app_nil_r in *; try done; try congruence.
Ltac told := unfold answered; cbn; split_and!; try done; bytes_done; try (by constructor).
Ltac waits := unfold system_inv; cbn; split_and!; try done; bytes_done; try (by constructor).
(** Executing a call, by the stream it is for. *)
Lemma exec_inv ch e rest s : system_inv s → todo s = e :: rest → system_inv (exec ch e (pop s rest)).
Proof.
  intros (Hreach & Hm & Hcp & Hrbc & Hrf & Hu & Hd) Htd. flat s. subst. destruct ch as [prs hm sni sd ka]. inversion Hm; subst; cbn in *.
  all: try solve [unfold system_inv; cbn; modes].
  - unfold call_up. cbn [andb]. rewrite refuse_false. cbn [HttpClientStream.perform]. unfold HttpClientStream.start_on_executor.
    destruct prs as [ec|d]; [eapply on_up_answers; [done|told]|].
    destruct sni as [ec|]; [destruct (HttpClientStream.use_tls d); [eapply on_up_answers; [done|told]|]|]; (apply on_up_waits; [done|waits]).
  - unfold call_down, HttpConnection.async_read_stream_body. cbn [HttpConnection.request_body_cancelled HttpConnection.request_parser down pop].
    destruct rp as [[]|]; cbn [snd omap list_omap]; rewrite ?refuse_false; [apply deliver_inv; told| |apply deliver_inv; told].
    waits.
  - apply call_up_inv; [done|]. apply on_up_waits; [done|waits].
  - apply call_up_inv; [by destruct sd|]. cbn [HttpClientStream.perform]. unfold HttpClientStream.finish_on_executor.
    destruct sd; [eapply on_up_answers; [done|told]|apply on_up_waits; [done|waits]].
  - apply call_up_inv; [done|]. apply on_up_waits; [done|waits].
  - apply call_up_inv; [by destruct b|]. cbn [HttpClientStream.perform]. unfold HttpClientStream.read_on_executor.
    destruct b; [eapply on_up_answers; [done|told]|apply on_up_waits; [done|waits]].
  - destruct c; [|apply call_down_waits; [done|waits]].
    unfold call_down, HttpConnection.finish_stream_response. cbn [HttpConnection.serializer down pop].
    unfold HttpConnection.after_stream. cbn [HttpConnection.streaming_keep_alive].
    destruct (stream_finished ska false); cbn [HttpConnection.next HttpConnection.do_read HttpConnection.do_close fst snd omap list_omap]; rewrite refuse_false; apply deliver_inv; told.
  - waits.
Qed.
(** [HttpProxySession::cancel], from outside at any time. *)
Lemma cancel_inv ch s : system_inv s → system_inv (exec ch HttpProxySession.Cancel s).
Proof.
  intros (Hreach & Hm & Hcp & Hrbc & Hrf & Hu & Hd). destruct s as [p u [] dw td uo dn ds fc fu rep rf]. unfold system_inv, on_up in *. cbn in *.
  split_and!; try done; [rewrite <-Hu; bytes_done|by rewrite app_nil_r].
Qed.
Lemma singleton_split {A} (x p : A) l1 l2 : [x] = l1 ++ p :: l2 → l1 = [] ∧ l2 = [] ∧ p = x.
Proof. destruct l1 as [|y [|z l1]]; intros [=]; by subst. Qed.
(** Beast completes an operation of the client stream. *)
Lemma up_inv s l1 p l2 a head data :
  system_inv s → HttpClientStream.waiting (up s) = l1 ++ p :: l2 →
  system_inv (on_up (HttpClientStream.complete p a (HttpClientStream.set_waiting (l1 ++ l2) (up s))) head data s).
Proof.
  intros (Hreach & Hm & Hcp & Hrbc & Hrf & Hu & Hd) Hw. flat s. subst. destruct a as [ec st n dn'].
  inversion Hm; subst; try (by destruct l1);
    match goal with He : [_] = l1 ++ _ |- _ => apply singleton_split in He as (-> & -> & ->) end; cbn [app HttpClientStream.complete].
  all: cbn [HttpClientStream.a_ec HttpClientStream.a_status HttpClientStream.a_produced HttpClientStream.a_done].
  - unfold HttpClientStream.on_start, HttpClientStream.async_write_header.
    destruct stg, ec as [ec|]; try (eapply on_up_answers; [done|told]); try (apply on_up_waits; [done|waits]).
    + destruct (HttpClientStream.uses_tls _); [apply on_up_waits; [done|waits]|]. destruct hook; (apply on_up_waits; [done|waits]).
    + destruct hook; (apply on_up_waits; [done|waits]).
  - unfold HttpClientStream.on_written. destruct (bool_decide (ec = _)); [|destruct ec]; (eapply on_up_answers; [done|told]).
  - unfold HttpClientStream.on_written. destruct (bool_decide (ec = _)); [|destruct ec]; (eapply on_up_answers; [done|told]).
  - unfold HttpClientStream.on_head. destruct ec; [eapply on_up_answers; [done|told]|].
    destruct (HttpClientStream.is_interim st); [apply on_up_waits; [done|waits]|eapply on_up_answers; [done|told]].
  - unfold HttpClientStream.on_body. destruct (bool_decide (ec = _)); [|destruct ec]; (eapply on_up_answers; [done|told]).
Qed.
Lemma down_inv s op ec data is_done : system_inv s → down_wait s = Some op → system_inv (complete_down op ec data is_done s).
Proof.
  intros (Hreach & Hm & Hcp & Hrbc & Hrf & Hu & Hd) Hw. flat s. subst.
  inversion Hm; subst; unfold complete_down, HttpConnection.after_stream; apply deliver_inv.
  1-3: destruct ec; told.
  cbn [HttpConnection.streaming_keep_alive down]. destruct ec; [rewrite (eq_refl : stream_finished ska true = NextClose)|destruct (stream_finished ska false)]; told.
Qed.
Lemma system_step_inv s s' : system_inv s → system_step s s' → system_inv s'.
Proof.
  intros Hi Hs. destruct Hs; [by apply exec_inv|by apply up_inv|by apply down_inv|by apply cancel_inv].
Qed.
Lemma system_start_inv hook connection h s :
  HttpConnection.request_body_cancelled connection = false →
  reach (HttpProxySession.start h).1 [] [] → rtc system_step (system_start hook connection h) s → system_inv s.
Proof.
  intros Hc Hr Hs. refine (rtc_invariant system_step system_inv _ _ _ Hs _); [intros x y; apply system_step_inv|].
  unfold system_inv. cbn. split_and!; try done. constructor.
Qed.
End streams.

(** ** Each component runs by its own steps *)
Section projections.
Context {F : Type} `{HttpFields F} (buffer_size : nat).
Implicit Types (s : @system F).
Abbreviation step := (system_step buffer_size).
(** What calls and handlers change of the two streams. *)
Definition streams s : (HttpClientStream.t * list HttpClientStream.effect) * (HttpConnection.t * list HttpConnection.effect) :=
  ((up s, up_out s), (down s, down_out s)).
Lemma streams_up r head data s : streams (on_up r head data s) = ((r.1, up_out s ++ r.2), (down s, down_out s)).
Proof. unfold on_up. by destruct (answer_of r.2). Qed.
Lemma streams_call_up c b s :
  streams (call_up c b s) = (((HttpClientStream.perform c 0 (up s)).1, up_out s ++ (HttpClientStream.perform c 0 (up s)).2), (down s, down_out s)).
Proof. unfold call_up. apply streams_up. Qed.
Lemma streams_call_down r op sent answer s :
  streams (call_down r op sent answer s) = ((up s, up_out s), (r.1, down_out s ++ r.2)).
Proof. unfold call_down. by destruct (omap _ _). Qed.

(** The client stream. *)
Definition up_run s (given : list N) : stream_run := mk_stream_run (streams s).1.1 (streams s).1.2 given.
Lemma system_step_up s s' given : step s s' → ∃ given', rtc stream_step (up_run s given) (up_run s' given').
Proof.
  intros Hs. unfold up_run. destruct Hs as [s ch e rest Htd|s l1 p l2 a head data Hw Ha|s op ec data is_done Hdw|s].
  - destruct e; cbn [exec]; rewrite ?streams_call_up, ?streams_call_down.
    all: try (eexists; apply rtc_once, stream_call). all: try (exists given; apply rtc_refl).
    exists given. apply rtc_once, (stream_cancel (up s)).
  - rewrite streams_up. exists given. apply rtc_once, (HttpClientStream.stream_complete (up s) (up_out s) given l1 p l2 a Hw).
  - exists given. destruct op; apply rtc_refl.
  - exists given. apply rtc_once, (stream_cancel (up s)).
Qed.

(** The connection: whose turn it is on it while the proxy is in a phase, and
    after the operation of the phase was answered. *)
Definition turn_for (p : HttpProxySession.phase) (wait : option down_op) : turn :=
  match p, wait with
  | HttpProxySession.StartingResponse, Some _ | HttpProxySession.WritingResponse _, Some _ => StreamOpen true
  | (HttpProxySession.ReadingResponse | HttpProxySession.WritingResponse _ | HttpProxySession.FinishingResponse), None => StreamOpen false
  | HttpProxySession.FinishingResponse, Some _ => StreamEnding
  | HttpProxySession.Ended, _ => Ended
  | _, _ => StreamIdle
  end.
Definition turn_answered (p : HttpProxySession.phase) : turn :=
  match p with
  | HttpProxySession.StartingResponse | HttpProxySession.ReadingResponse | HttpProxySession.WritingResponse _ => StreamOpen false
  | HttpProxySession.FinishingResponse | HttpProxySession.Ended => Ended
  | _ => StreamIdle
  end.
Definition in_turn s (u : turn) : Prop :=
  HttpProxySession.at_phase (px s) = HttpProxySession.Ended ∨ u = turn_for (HttpProxySession.at_phase (px s)) (down_wait s).
Lemma handle_turn (p : HttpProxySession.t) (ev : HttpProxySession.event F) :
  HttpProxySession.completed p = false →
  let p' := (HttpProxySession.handle p ev).1 in
  HttpProxySession.at_phase p' = HttpProxySession.Ended ∨ p' = p ∨
  turn_answered (HttpProxySession.at_phase p) = turn_for (HttpProxySession.at_phase p') None.
Proof.
  destruct p as [ph cp]. cbn [HttpProxySession.at_phase HttpProxySession.completed]. intros ->.
  destruct ph, ev; unfold HttpProxySession.handle, HttpProxySession.finish; cbn [HttpProxySession.at_phase HttpProxySession.completed];
    repeat (case_match || case_bool_decide); (by left) || (by right; left) || (by right; right).
Qed.
(** The operations of the client stream leave the turn on the connection alone. *)
Definition up_phase (p : HttpProxySession.phase) : bool :=
  match p with
  | HttpProxySession.Starting | HttpProxySession.WritingRequest _ | HttpProxySession.FinishingRequest
  | HttpProxySession.ReadingHead | HttpProxySession.ReadingResponse => true
  | _ => false
  end.
Lemma on_up_turn r head data s u :
  HttpProxySession.completed (px s) = false → down_wait s = None → up_phase (HttpProxySession.at_phase (px s)) = true →
  in_turn s u → in_turn (on_up r head data s) u.
Proof.
  unfold in_turn. intros Hc Hd Hp [He|Hu]; [by rewrite He in Hp|]. unfold on_up. destruct (answer_of r.2) as [a|]; [|by right].
  unfold deliver. cbn [px down_wait]. rewrite Hd in *. destruct (handle_turn (px s) (event_of a head data) Hc) as [H1|[H1|H1]]; [by left|right; by rewrite H1|right].
  rewrite <-H1, Hu. by destruct (HttpProxySession.at_phase (px s)).
Qed.
(** Answers of the connection. *)
Lemma deliver_turn ev s u :
  HttpProxySession.completed (px s) = false → down_wait s = None → HttpProxySession.answers (HttpProxySession.at_phase (px s)) ev →
  u = turn_answered (HttpProxySession.at_phase (px s)) → in_turn (deliver ev s) u.
Proof.
  unfold in_turn, deliver. cbn [px down_wait]. destruct (px s) as [ph cp]. cbn [HttpProxySession.at_phase HttpProxySession.completed].
  intros -> -> Ha ->. destruct ph, ev; try done; unfold HttpProxySession.handle, HttpProxySession.finish;
    cbn [HttpProxySession.at_phase HttpProxySession.completed]; repeat (case_match || case_bool_decide); (by left) || (by right).
Qed.
Lemma call_down_turn r op sent answer s u :
  HttpProxySession.completed (px s) = false → (∀ b, HttpProxySession.answers (HttpProxySession.at_phase (px s)) (answer b)) →
  (match omap (λ e, match e with HttpConnection.Callback error => Some error | _ => None end) r.2 with
   | [] => u = turn_for (HttpProxySession.at_phase (px s)) (Some op)
   | _ => u = turn_answered (HttpProxySession.at_phase (px s))
   end) → in_turn (call_down r op sent answer s) u.
Proof.
  intros Hc Ha Hu. unfold call_down. destruct (omap _ _) as [|b l]; [by right|]. unfold in_turn, refuse.
  by apply (deliver_turn (answer b) (on_down r None [] s)).
Qed.
(** What the mode says of a posted call and of the operations in flight. *)
Definition phase_of_call (e : HttpProxySession.effect F) (p : HttpProxySession.phase) : Prop :=
  match e with
  | HttpProxySession.UpStart _ => p = HttpProxySession.Starting
  | HttpProxySession.InRead => p = HttpProxySession.ReadingRequest
  | HttpProxySession.UpWrite _ => ∃ d, p = HttpProxySession.WritingRequest d
  | HttpProxySession.UpFinish => p = HttpProxySession.FinishingRequest
  | HttpProxySession.UpReadHead => p = HttpProxySession.ReadingHead
  | HttpProxySession.DownStart _ => p = HttpProxySession.StartingResponse
  | HttpProxySession.UpRead => p = HttpProxySession.ReadingResponse
  | HttpProxySession.DownWrite _ => ∃ d, p = HttpProxySession.WritingResponse d
  | HttpProxySession.DownFinish => p = HttpProxySession.FinishingResponse
  | HttpProxySession.Cancel | HttpProxySession.Complete _ => p = HttpProxySession.Ended
  end.
Definition phase_of_wait (op : down_op) (p : HttpProxySession.phase) : Prop :=
  match op with
  | DRead => p = HttpProxySession.ReadingRequest
  | DHead => p = HttpProxySession.StartingResponse
  | DWrite => ∃ d, p = HttpProxySession.WritingResponse d
  | DEnd => p = HttpProxySession.FinishingResponse
  end.
Lemma mode_call ph e rest wt dw st fin p ser rep : mode ph (e :: rest) wt dw st fin p ser rep → dw = None ∧ wt = [] ∧ phase_of_call e ph.
Proof. by inversion 1; subst; (split; [done|]); (split; [done|]); try (by eexists). Qed.
Lemma mode_up ph td l1 q l2 dw st fin p ser rep :
  mode (F := F) ph td (l1 ++ q :: l2) dw st fin p ser rep → td = [] ∧ dw = None ∧ up_phase ph = true.
Proof. by inversion 1; destruct l1. Qed.
Lemma mode_down ph td wt op st fin p ser rep : mode (F := F) ph td wt (Some op) st fin p ser rep → td = [] ∧ wt = [] ∧ phase_of_wait op ph.
Proof. inversion 1; subst; (split; [done|]); (split; [done|]); by try eexists. Qed.
Definition down_run s (out : list HttpConnection.effect) (u : turn) : connection := mk_connection (streams s).2.1 (out ++ (streams s).2.2) u.
Definition follows s s' (out : list HttpConnection.effect) (u : turn) : Prop :=
  ∃ u', rtc connection_step (down_run s out u) (down_run s' out u') ∧ in_turn s' u'.
Lemma follows_stay s s' out u : (streams s').2 = (streams s).2 → in_turn s' u → follows s s' out u.
Proof. intros He Ht. exists u. split; [|done]. unfold down_run. rewrite He. apply rtc_refl. Qed.
Lemma follows_step s s' out u u' :
  connection_step (down_run s out u) (down_run s' out u') → in_turn s' u' → follows s s' out u.
Proof. intros Hs Ht. exists u'. split; [by apply rtc_once|done]. Qed.
(** [r] on the connection, as the step it is there. *)
Lemma follows_down s s' out u u' r :
  (streams s').2 = (r.1, down_out s ++ r.2) →
  connection_step (mk_connection (down s) (out ++ down_out s) u) (mk_connection r.1 ((out ++ down_out s) ++ r.2) u') →
  in_turn s' u' → follows s s' out u.
Proof.
  intros He Hs Ht. exists u'. split; [|done]. apply rtc_once. unfold down_run. rewrite He. cbn. by rewrite app_assoc.
Qed.
Lemma exec_follows ch e rest s out u :
  HttpProxySession.completed (px s) = bool_decide (HttpProxySession.at_phase (px s) = HttpProxySession.Ended) →
  down_wait s = None → phase_of_call e (HttpProxySession.at_phase (px s)) → in_turn s u → follows s (exec buffer_size ch e (pop s rest)) out u.
Proof.
  intros Hcp Hd Hph Hu.
  assert (∀ c b, up_phase (HttpProxySession.at_phase (px s)) = true → follows s (call_up c b (pop s rest)) out u) as Hup.
  { intros c b Hp. apply follows_stay; [by rewrite streams_call_up|]. apply (on_up_turn _ _ _ (pop s rest)); [|done..].
    cbn [pop px]. rewrite Hcp. by destruct (HttpProxySession.at_phase (px s)). }
  destruct e; cbn [exec phase_of_call] in *; try (apply Hup; first [by rewrite Hph|by destruct Hph as [d ->]]).
  all: destruct Hu as [He|Hu]; [try (rewrite He in Hph; by (discriminate Hph || destruct Hph))|].
  - rewrite Hph, Hd in Hu. cbn in Hu. subst u.
    eapply (follows_down _ _ _ _ StreamIdle); [exact (f_equal snd (streams_call_down _ _ _ _ (pop s rest)))|by eexists; apply cs_read|].
    apply call_down_turn; cbn [pop px]; rewrite ?Hcp, ?Hph; [done|done|]. by destruct (omap _ _).
  - rewrite Hph, Hd in Hu. cbn in Hu. subst u.
    eapply (follows_down _ _ _ _ (StreamOpen true)); [exact (f_equal snd (streams_call_down _ _ _ _ (pop s rest)))|by eexists; apply cs_start|].
    apply call_down_turn; cbn [pop px]; rewrite ?Hcp, ?Hph; done.
  - destruct Hph as [d Hph]. rewrite Hph, Hd in Hu. cbn in Hu. subst u.
    eapply follows_down; [exact (f_equal snd (streams_call_down _ _ _ _ (pop s rest)))|by eexists; apply cs_write|].
    apply call_down_turn; cbn [pop px]; rewrite ?Hcp, ?Hph; [done|done|]. cbn [down]. unfold HttpConnection.write_stream_response. by destruct (HttpConnection.serializer _).
  - rewrite Hph, Hd in Hu. cbn in Hu. subst u.
    eapply follows_down; [exact (f_equal snd (streams_call_down _ _ _ _ (pop s rest)))|by eexists; apply cs_finish|].
    unfold in_turn, call_down, HttpConnection.finish_stream_response. cbn [down pop].
    destruct (px s) as [ph cp] eqn:Hpx. cbn in Hph, Hcp. subst ph cp.
    destruct (HttpConnection.serializer (down s)) as [[]|] eqn:Hser; [left|right|left]; cbn; rewrite ?Hpx, ?Hser; done.
  - eapply (follows_down _ _ _ u u); [done|by eexists; apply (cs_cancel (mk_connection _ _ _))|by left].
  - eapply (follows_down _ _ _ u u); [done|by eexists; apply (cs_cancel (mk_connection _ _ _))|by right].
  - apply follows_stay; [done|by left].
  - apply follows_stay; [done|by right].
Qed.
Lemma system_step_down s s' out u :
  system_inv (λ _ _ _, True) s → step s s' → in_turn s u → follows s s' out u.
Proof.
  intros (_ & Hm & Hcp & _) Hs Hu. destruct Hs as [s ch e rest Htd|s l1 p l2 a head data Hw Ha|s op ec data is_done Hdw|s].
  - rewrite Htd in Hm. apply mode_call in Hm as (Hd & _ & Hph). by apply exec_follows.
  - rewrite Hw in Hm. apply mode_up in Hm as (_ & Hd & Hph). apply follows_stay; [by rewrite streams_up|].
    apply on_up_turn; [|done..]. rewrite Hcp. by destruct (HttpProxySession.at_phase (px s)).
  - rewrite Hdw in Hm. apply mode_down in Hm as (_ & _ & Hph).
    destruct Hu as [He|Hu]; [rewrite He in Hph; destruct op; by (discriminate Hph || destruct Hph)|]. rewrite Hdw in Hu.
    destruct op; cbn [phase_of_wait complete_down] in *; [| |destruct Hph as [d Hph]|]; rewrite Hph in Hu, Hcp; cbn in Hu, Hcp; subst u.
    + eapply (follows_down _ _ _ _ StreamIdle); [done|by eexists; apply (cs_read_done (mk_connection _ _ _))|].
      apply deliver_turn; cbn; rewrite ?Hph; done.
    + eapply follows_down; [done|by eexists; apply (cs_stream_written (mk_connection _ _ _))|]. apply deliver_turn; cbn; rewrite ?Hph; done.
    + eapply follows_down; [done|by eexists; apply (cs_stream_written (mk_connection _ _ _))|]. apply deliver_turn; cbn; rewrite ?Hph; done.
    + eapply follows_down; [done|by eexists; apply (cs_finished (mk_connection _ _ _))|]. left. cbn.
      destruct (px s) as [ph cp]. cbn in *. by subst.
  - eapply (follows_down _ _ _ u u); [done|by eexists; apply (cs_cancel (mk_connection _ _ _))|exact Hu].
Qed.
Lemma relay_reach_event h (p : HttpProxySession.t) ev a b :
  (∃ out n, rtc relay_step (relay_start h) (mk_relay p out n a b)) → HttpProxySession.answers (HttpProxySession.at_phase p) ev →
  ∃ out n, rtc relay_step (relay_start (F := F) h)
    (mk_relay (HttpProxySession.handle p ev).1 out n (a ++ read_in (HttpProxySession.at_phase p) ev) (b ++ read_up (HttpProxySession.at_phase p) ev)).
Proof. intros (out & n & Hr) Ha. eexists _, _. eapply rtc_r; [exact Hr|]. by apply relay_event. Qed.
Definition in_flight s : nat :=
  length (List.filter HttpProxySession.is_operation (todo s)) + length (HttpClientStream.waiting (up s)) +
  (match down_wait s with Some _ => 1 | None => 0 end).
End projections.

(** C10: the proxy on its two connections, refined to its parts. Every run of the
    proxy over the client stream and the inbound connection, with any answers,
    errors and cancellations, is at once a run of the proxy's own machine on the
    bytes that were read, a run of the client stream under calls it allows, and
    a run of the connection in which the response stream is used in sequence, as
    the connection requires of a streaming route. *)
Theorem proxy_refines_streams {F} `{HttpFields F} buffer_size hook connection (h : F) s :
  HttpConnection.request_body_cancelled connection = false →
  rtc (system_step buffer_size) (system_start hook connection h) s →
  (∃ out n, rtc relay_step (relay_start h) (mk_relay (px s) out n (from_client s) (from_upstream s))) ∧
  (∃ given, rtc stream_step (mk_stream_run (HttpClientStream.init hook) [] []) (mk_stream_run (up s) (up_out s) given)) ∧
  (∃ u, rtc connection_step (mk_connection connection [] StreamIdle) (mk_connection (down s) (down_out s) u)).
Proof.
  intros Hc Hr. split_and!.
  - eapply (system_start_inv buffer_size (λ p a b, ∃ out n, rtc relay_step (relay_start h) (mk_relay p out n a b))); [apply relay_reach_event|exact Hc| |exact Hr].
    exists (relay_start h).(rl_out), 0. apply rtc_refl.
  - refine (rtc_invariant (system_step buffer_size) (λ s, ∃ given, rtc stream_step (mk_stream_run (HttpClientStream.init hook) [] []) (up_run s given)) _ _ _ Hr _); [|exists []; apply rtc_refl].
    intros x y (g & Hg) Hs. destruct (system_step_up _ _ _ g Hs) as (g' & Hg'). exists g'. by etransitivity.
  - assert (system_inv (λ _ _ _, True) s ∧ ∃ u, rtc connection_step (mk_connection connection [] StreamIdle) (down_run s [] u) ∧ in_turn s u) as (_ & u & Hu & _); [|by exists u].
    refine (rtc_invariant (system_step buffer_size) (λ s, system_inv (λ _ _ _, True) s ∧ ∃ u, rtc connection_step (mk_connection connection [] StreamIdle) (down_run s [] u) ∧ in_turn s u) _ _ _ Hr _).
    + intros x y (Hi & u & Hu & Ht) Hs. split; [by eapply (system_step_inv buffer_size (λ _ _ _, True))|].
      destruct (system_step_down _ _ _ [] u Hi Hs Ht) as (u' & Hu' & Ht'). exists u'. split; [by etransitivity|done].
    + split; [by apply (system_start_inv buffer_size (λ _ _ _, True) (λ _ _ _ _ _ _, I) hook connection h); [| |apply rtc_refl]|]. exists StreamIdle. split; [apply rtc_refl|by right].
Qed.

(** C11: what the proxy does on its two connections, whatever they answer. No
    call after [start] is refused by a stream (a write before the head, after the
    end, a read without a head, ...); exactly one operation is under way until
    the session is over, so it never stalls and never overlaps; the bytes handed
    to the upstream connection are a prefix of what the client sent, those handed
    to the client's a prefix of what the server sent, and they are all of them,
    with both messages ended, when success is reported; the outcome is reported
    once. *)
Theorem proxy_on_streams {F} `{HttpFields F} buffer_size hook connection (h : F) s :
  HttpConnection.request_body_cancelled connection = false →
  rtc (system_step buffer_size) (system_start hook connection h) s →
  refusals s = 0 ∧
  in_flight s = (if bool_decide (HttpProxySession.at_phase (px s) = HttpProxySession.Ended) then 0 else 1) ∧
  up_sent (up_out s) `prefix_of` from_client s ∧ down_sent s `prefix_of` from_upstream s ∧
  length (reported s) ≤ 1 ∧ (todo s = [] → in_flight s = 0 → ∃ ec, reported s = [ec]) ∧
  (reported s = [false] → up_sent (up_out s) = from_client s ∧ down_sent s = from_upstream s ∧
     HttpClientStream.request_finished (up s) = true ∧ HttpConnection.serializer (down s) = None).
Proof.
  intros Hc Hr.
  destruct (system_start_inv buffer_size (λ _ _ _, True) (λ _ _ _ _ _ _, I) hook connection h s Hc I Hr) as (_ & Hm & _ & _ & Hrf & Hu & Hd).
  destruct s as [[ph cp] [] [] dw td uo dn ds fc fu rep rf]. unfold in_flight. cbn in *. subst.
  inversion Hm; subst; cbn; rewrite ?app_nil_r; split_and!; try done; try (by apply prefix_app_r); try (by eexists); try lia.
Qed.

Section witnesses.
(** A POST of "ping" answered by "pong". *)
Definition sample_connection : HttpConnection.t := HttpConnection.mk (Some false) [] None false false false 1024.
Definition sample_choice : choice := mk_choice (inr sample_destination) false None false true.
Definition answer_with (n : nat) (is_done : bool) : HttpClientStream.answer := HttpClientStream.mk_answer None 200 n is_done.
(** A schedule of calls and completions, run as a program. *)
Inductive action := ACall | AUp (n : nat) (is_done : bool) (text : string) | ADown (text : string) (is_done : bool).
Definition act (a : action) (s : @system FieldList.t) : option system :=
  match a with
  | ACall => match todo s with e :: rest => Some (exec 4096 sample_choice e (pop s rest)) | [] => None end
  | AUp n d text =>
      match HttpClientStream.waiting (up s) with
      | [p] => if bool_decide (n = length (str text))
               then Some (on_up (HttpClientStream.complete p (answer_with n d) (HttpClientStream.set_waiting [] (up s))) [] (str text) s) else None
      | _ => None
      end
  | ADown text d => op ← down_wait s; Some (complete_down op false (str text) d s)
  end.
Fixpoint act_all (l : list action) (s : @system FieldList.t) : option system :=
  match l with [] => Some s | a :: l => s ← act a s; act_all l s end.
Lemma act_step a s s' : act a s = Some s' → system_step 4096 s s'.
Proof.
  destruct a as [|n d text|text d]; cbn.
  - destruct (todo s) as [|e rest] eqn:Ht; [done|]. intros [= <-]. by apply sys_call.
  - destruct (HttpClientStream.waiting (up s)) as [|p [|q l]] eqn:Hw; [done| |done]. case_bool_decide as Hn; [|done]. intros [= <-].
    by apply (sys_up 4096 s [] p [] (answer_with n d)).
  - destruct (down_wait s) as [op|] eqn:Hw; [|done]. intros [= <-]. by apply sys_down.
Qed.
Lemma act_all_steps l s s' : act_all l s = Some s' → rtc (system_step 4096) s s'.
Proof.
  revert s. induction l as [|a l IH]; intros s; cbn; [intros [= ->]; apply rtc_refl|].
  destruct (act a s) as [s1|] eqn:Ha; [|done]. intros Hl. eapply rtc_l; [by apply (act_step a)|by apply IH].
Qed.
Definition sample_schedule : list action :=
  [ACall; AUp 0 false ""; AUp 0 false ""; AUp 0 false ""; ACall; ADown "ping" true; ACall; AUp 0 false ""; ACall; AUp 0 false "";
   ACall; AUp 0 false ""; ACall; ADown "" false; ACall; AUp 4 true "pong"; ACall; ADown "" false; ACall; ADown "" false; ACall].
Lemma sample_run : ∃ s : @system FieldList.t, rtc (system_step 4096) (system_start false sample_connection []) s ∧
  reported s = [false] ∧ up_sent (up_out s) = str "ping" ∧ down_sent s = str "pong".
Proof.
  assert (∃ s, act_all sample_schedule (system_start false sample_connection []) = Some s ∧
    reported s = [false] ∧ up_sent (up_out s) = str "ping" ∧ down_sent s = str "pong") as (s & Hs & H).
  { eexists. by vm_compute. }
  exists s. split; [by apply (act_all_steps sample_schedule)|exact H].
Qed.
Theorem proxy_on_streams_witness :
  ∃ s : @system FieldList.t, from_client s = str "ping" ∧ from_upstream s = str "pong" ∧ refusals s = 0 ∧ HttpConnection.serializer (down s) = None.
Proof.
  destruct sample_run as (s & Hr & Hrep & Hu & Hd). exists s.
  destruct (proxy_on_streams 4096 false sample_connection [] s eq_refl Hr) as (Hf & _ & _ & _ & _ & _ & Hend).
  destruct (Hend Hrep) as (Hu' & Hd' & _ & Hs). by rewrite <-Hu', <-Hd', Hu, Hd, Hf, Hs.
Defined.
Theorem proxy_refines_streams_witness :
  ∃ s : @system FieldList.t, reported s = [false] ∧
    ∃ given, rtc stream_step (mk_stream_run (HttpClientStream.init false) [] []) (mk_stream_run (up s) (up_out s) given).
Proof.
  destruct sample_run as (s & Hr & Hrep & _). exists s. split; [done|].
  by destruct (proxy_refines_streams 4096 false sample_connection [] s eq_refl Hr) as (_ & Hg & _).
Defined.
End witnesses.
