(* ===== verification/SseClient.v ===== *)
(** * SSE client ([client/sse_client.cpp])

    [SseClient::Impl] as a machine over the calls of its owner and the
    completions of its [HttpClientStream]; the bytes it reads go through
    [SseParser.feed]. The locked regions of [emit] and [finish] are one step
    each, since a callback may call back into the client. *)
From S2P Require Import Prelude Text Http SseFormat SseParser.
Set Default Proof Using "Type*".

(** [is_event_stream_content_type]. *)
Definition is_event_stream_content_type (value : bytes) : bool :=
  let media_type := substr_to value 0 (find_char ";"%char value 0) in
  let media_type := drop_while_end isspace media_type in
  let media_type := drop_while isspace media_type in
  bool_decide ((tolower <$> media_type) = str "text/event-stream").

Module SseClient.
Inductive error_code := Eof | Aborted | ProtocolError | MessageSize | InProgress | Other (n : N).
#[global] Instance error_code_eq_dec : EqDecision error_code.
Proof. solve_decision. Defined.
(** What the event callback does: return, throw, or call [cancel]. *)
Inductive reaction := Returns | Throws | Cancels.

Inductive event :=
| EvConnect                                                    (** the owner's call *)
| EvStarted (ec : option error_code)                           (** [async_start] *)
| EvRequestFinished (ec : option error_code)
| EvHead (ec : option error_code) (st : status) (content_type : bytes)
| EvRead (ec : option error_code) (data : bytes) (done : bool)
| EvCancel | EvAbandon.
Inductive effect :=
| StreamStart | StreamFinishRequest | StreamReadHead | StreamRead | StreamCancel
| Deliver (e : SseEvent)
| Closed (ec : option error_code)        (** the close callback *)
| Rejected.                              (** the close callback of a second [connect] *)
Record t := mk {
  parser : SseParser.t; connect_started : bool; terminal : bool; has_handlers : bool }.
Definition init (max_event_bytes : Z) : t := mk (SseParser.init max_event_bytes) false false false.

Section client.
Context (on_event : SseEvent → reaction).
Definition set_parser (p : SseParser.t) (s : t) : t := mk p (connect_started s) (terminal s) (has_handlers s).
Definition connect (s : t) : t * list effect :=
  if connect_started s then (s, [Rejected])
  else (mk (parser s) true (terminal s) true, [StreamStart]).
Definition finish (ec : option error_code) (s : t) : t * list effect :=
  if terminal s then (s, [])
  else (mk (parser s) (connect_started s) true false,
        (if bool_decide (ec ≠ None) then [StreamCancel] else []) ++ (if has_handlers s then [Closed ec] else [])).
Definition cancel (s : t) : t * list effect :=
  let '(s, out) := finish (Some Aborted) s in (s, StreamCancel :: out).
Definition abandon (s : t) : t * list effect :=
  (mk (parser s) (connect_started s) true false, [StreamCancel]).
Definition emit (e : SseEvent) (s : t) : t * list effect :=
  if terminal s || negb (has_handlers s) then (s, [])
  else match on_event e with
  | Returns => (s, [Deliver e])
  | Throws => let '(s, out) := finish (Some Aborted) s in (s, Deliver e :: out)
  | Cancels => let '(s, out) := cancel s in (s, Deliver e :: out)
  end.
Fixpoint emit_all (events : list SseEvent) (s : t) : t * list effect :=
  match events with
  | [] => (s, [])
  | e :: events =>
      let '(s, out1) := emit e s in
      let '(s, out2) := emit_all events s in (s, out1 ++ out2)
  end.
(** After the events of a read were delivered. *)
Definition after_read (ec : option error_code) (done : bool) (s : t) : t * list effect :=
  if terminal s then (s, [])
  else if done then finish None s
  else match ec with
  | Some Eof => finish None s
  | Some ec => finish (Some ec) s
  | None => (s, [StreamRead])
  end.
Definition on_read (ec : option error_code) (data : bytes) (done : bool) (s : t) : t * list effect :=
  if bool_decide (data = []) then after_read ec done s
  else match SseParser.feed (parser s) data with
  | Throw _ => finish (Some MessageSize) s
  | Ret (p, events) =>
      let '(s, out1) := emit_all events (set_parser p s) in
      let '(s, out2) := after_read ec done s in (s, out1 ++ out2)
  end.
Definition handle (s : t) (ev : event) : t * list effect :=
  match ev with
  | EvConnect => connect s
  | EvStarted None => (s, [StreamFinishRequest])
  | EvRequestFinished None => (s, [StreamReadHead])
  | EvStarted ec | EvRequestFinished ec => finish ec s
  | EvHead (Some ec) _ _ => finish (Some ec) s
  | EvHead None st content_type =>
      if bool_decide (st ≠ status_ok) || negb (is_event_stream_content_type content_type)
      then finish (Some ProtocolError) s
      else (s, [StreamRead])
  | EvRead ec data done => on_read ec data done s
  | EvCancel => cancel s
  | EvAbandon => abandon s
  end.
End client.

(** The request [connect] sends: the caller's headers first. *)
Definition request_fields {F} `{HttpFields F} (headers : list (bytes * bytes)) : F :=
  let f := set_keep_alive 11 true fields_empty in
  let f := fold_left (λ f h, field_set h.1 h.2 f) headers f in
  let f := field_set (str "Accept") (str "text/event-stream") f in
  field_set (str "Cache-Control") (str "no-cache") f.
End SseClient.
