(* ===== verification/SseClientTheorems.v ===== *)
(** * SSE client: properties

    A connection reports its end once, delivers nothing after it and never
    stalls ([sse_client_safe]); composed with the formatter of the server the
    client hands its owner exactly the events that were sent
    ([sse_end_to_end]). *)
From S2P Require Import Prelude Text Numbers Http SseFormat SseParser SseParserProofs SseRoundTrip SseTheorems SseClient.
Set Default Proof Using "Type*".

Section safety.
Import SseClient.
Context (on_event : SseEvent → reaction).
Definition is_closed (e : effect) : bool := match e with Closed _ => true | _ => false end.
Definition is_deliver (e : effect) : bool := match e with Deliver _ => true | _ => false end.
Definition is_stream_op (e : effect) : bool :=
  match e with StreamStart | StreamFinishRequest | StreamReadHead | StreamRead => true | _ => false end.
Definition closes (out : list effect) : nat := length (List.filter is_closed out).
Definition stream_ops (out : list effect) : nat := length (List.filter is_stream_op out).
Definition silent (out : list effect) : Prop := Forall (λ e, is_deliver e = false ∧ is_closed e = false) out.
(** Nothing is delivered after the end was reported. *)
Definition sealed (out : list effect) : Prop :=
  ∀ l1 ec l2, out = l1 ++ Closed ec :: l2 → Forall (λ e, is_deliver e = false) l2.

Lemma closes_app a b : closes (a ++ b) = closes a + closes b.
Proof. unfold closes. by rewrite List.filter_app, length_app. Qed.
Lemma stream_ops_app a b : stream_ops (a ++ b) = stream_ops a + stream_ops b.
Proof. unfold stream_ops. by rewrite List.filter_app, length_app. Qed.
Lemma silent_closes out : silent out → closes out = 0.
Proof. unfold closes. induction 1 as [|e out [_ He] _ IH]; [done|]. cbn. by rewrite He. Qed.
Lemma closes_0 out : closes out = 0 → Forall (λ e, is_closed e = false) out.
Proof.
  unfold closes. induction out as [|e out IH]; [by constructor|]. cbn. destruct (is_closed e) eqn:He; [done|]. intros ?. constructor; auto.
Qed.
Lemma sealed_no_close out : closes out = 0 → sealed out.
Proof.
  intros H0 l1 ec l2 ->. rewrite closes_app in H0. unfold closes in H0. cbn in H0. lia.
Qed.
Lemma sealed_app_silent a b : sealed a → silent b → sealed (a ++ b).
Proof.
  intros Ha Hb l1 ec l2 He. destruct (app_eq_inv a b l1 (Closed ec :: l2) He) as [(k & Ha' & Hk)|(k & Hl & Hb')].
  - destruct k as [|e k]; cbn in Hk.
    + rewrite <-Hk in Hb. apply Forall_cons in Hb as [[_ ?] _]. done.
    + injection Hk as <- ->. apply Forall_app. split; [by eapply Ha|]. eapply Forall_impl; [exact Hb|]. naive_solver.
  - rewrite Hb' in Hb. apply Forall_app in Hb as [_ Hb]. apply Forall_cons in Hb as [[_ ?] _]. done.
Qed.
Lemma sealed_app_open a b : closes a = 0 → sealed b → sealed (a ++ b).
Proof.
  intros Ha Hb l1 ec l2 He. apply closes_0 in Ha. destruct (app_eq_inv a b l1 (Closed ec :: l2) He) as [(k & -> & Hk)|(k & -> & Hb')].
  - apply Forall_app in Ha as [_ Ha]. destruct k as [|e k]; cbn in Hk; [by eapply (Hb [] ec l2)|].
    injection Hk as <- _. by apply Forall_cons in Ha as [? _].
  - by eapply Hb.
Qed.

(** What each step keeps, from a connected client. *)
Definition steps_ok (s : t) (r : t * list effect) : Prop :=
  connect_started r.1 = connect_started s ∧
  (terminal s = true → terminal r.1 = true ∧ silent r.2) ∧
  (terminal s = false → has_handlers s = true →
     closes r.2 = (if terminal r.1 then 1 else 0) ∧ sealed r.2 ∧ (terminal r.1 = false → has_handlers r.1 = true)).
Lemma steps_ok_seq s s1 o1 s2 o2 :
  steps_ok s (s1, o1) → steps_ok s1 (s2, o2) → steps_ok s (s2, o1 ++ o2).
Proof.
  unfold steps_ok. cbn [fst snd]. intros (Hc1 & Ht1 & Hn1) (Hc2 & Ht2 & Hn2). split; [congruence|]. split.
  - intros Ht. destruct (Ht1 Ht) as [Ht' Hs1]. destruct (Ht2 Ht'). split; [done|]. by apply Forall_app.
  - intros Ht Hh. destruct (Hn1 Ht Hh) as (Hk & Hse & Hnext). rewrite closes_app. destruct (terminal s1) eqn:Ht'.
    + destruct (Ht2 eq_refl) as [-> Hs2]. rewrite Hk, (silent_closes _ Hs2). split_and!; [done|by apply sealed_app_silent|done].
    + destruct (Hn2 eq_refl (Hnext eq_refl)) as (Hk2 & Hse2 & ?). rewrite Hk, Hk2. split_and!; [done|by apply sealed_app_open|done].
Qed.
Lemma steps_ok_silent s out : silent out → steps_ok s (s, out).
Proof.
  intros Hs. unfold steps_ok; cbn [fst snd]. split_and!; [done|done|]. intros Ht Hh. rewrite Ht, (silent_closes _ Hs).
  split_and!; [done|by apply sealed_no_close, silent_closes|done].
Qed.
Lemma steps_ok_finish ec s : steps_ok s (finish ec s).
Proof.
  unfold finish. destruct (terminal s) eqn:Ht.
  - by apply steps_ok_silent, Forall_nil.
  - split_and!; [done|congruence|]. intros _ Hh. cbn. rewrite Hh. case_bool_decide; cbn; split_and!; try done.
    + intros l1 ec' l2 He. destruct l1 as [|? [|? [|? l1]]]; cbn in He; simplify_eq; by constructor.
    + intros l1 ec' l2 He. destruct l1 as [|? [|? l1]]; cbn in He; simplify_eq; by constructor.
Qed.
Lemma steps_ok_cons s e r : is_closed e = false → terminal s = false ∨ is_deliver e = false → steps_ok s r → steps_ok s (r.1, e :: r.2).
Proof.
  intros He Hd (Hc & Ht & Hn). split_and!; [done| |]; cbn.
  - intros H1. destruct (Ht H1). split; [done|]. apply Forall_cons. destruct Hd; [congruence|done].
  - intros H1 Hh. destruct (Hn H1 Hh) as (Hk & Hs & ?). split_and!; [|by apply (sealed_app_open [e]); [unfold closes; cbn; rewrite He|]|done].
    unfold closes in *. cbn. by rewrite He.
Qed.
Lemma steps_ok_cancel s : steps_ok s (cancel s).
Proof.
  unfold cancel. pose proof (steps_ok_finish (Some Aborted) s) as Hf. destruct (finish (Some Aborted) s) as [s' out].
  by apply (steps_ok_cons s StreamCancel (s', out)); [|right|].
Qed.
Lemma steps_ok_emit e s : steps_ok s (emit on_event e s).
Proof.
  unfold emit. destruct (terminal s) eqn:Ht; cbn [orb]; [by apply steps_ok_silent, Forall_nil|].
  destruct (has_handlers s) eqn:Hh; cbn [negb]; [|by apply steps_ok_silent, Forall_nil]. destruct (on_event e).
  - apply (steps_ok_cons s (Deliver e) (s, [])); [done|by left|]. by apply steps_ok_silent, Forall_nil.
  - pose proof (steps_ok_finish (Some Aborted) s) as Hf. destruct (finish (Some Aborted) s) as [s' out].
    by apply (steps_ok_cons s (Deliver e) (s', out)); [|left|].
  - pose proof (steps_ok_cancel s) as Hf. destruct (cancel s) as [s' out].
    by apply (steps_ok_cons s (Deliver e) (s', out)); [|left|].
Qed.
Lemma steps_ok_emit_all events s : steps_ok s (emit_all on_event events s).
Proof.
  revert s. induction events as [|e events IH]; intros s; cbn [emit_all]; [by apply steps_ok_silent, Forall_nil|].
  pose proof (steps_ok_emit e s) as He. destruct (emit on_event e s) as [s1 o1]. specialize (IH s1).
  destruct (emit_all on_event events s1) as [s2 o2]. by eapply steps_ok_seq.
Qed.
Lemma steps_ok_after_read ec done s : steps_ok s (after_read ec done s).
Proof.
  unfold after_read. destruct (terminal s); [by apply steps_ok_silent, Forall_nil|]. destruct done; [apply steps_ok_finish|].
  destruct ec as [[]|]; try apply steps_ok_finish. by apply steps_ok_silent, Forall_singleton.
Qed.
Lemma steps_ok_on_read ec data done s : steps_ok s (on_read on_event ec data done s).
Proof.
  unfold on_read. case_bool_decide; [apply steps_ok_after_read|].
  destruct (SseParser.feed (parser s) data) as [[p events]|e]; [|apply steps_ok_finish].
  assert (steps_ok s (emit_all on_event events (set_parser p s))) as He by exact (steps_ok_emit_all events (set_parser p s)).
  destruct (emit_all on_event events (set_parser p s)) as [s1 o1]. pose proof (steps_ok_after_read ec done s1) as Ha.
  destruct (after_read ec done s1) as [s2 o2]. by eapply steps_ok_seq.
Qed.

(** *** Runs *)
Inductive stream_op := OpStart | OpFinishRequest | OpReadHead | OpRead.
Definition op_of_effect (e : effect) : option stream_op :=
  match e with
  | StreamStart => Some OpStart | StreamFinishRequest => Some OpFinishRequest
  | StreamReadHead => Some OpReadHead | StreamRead => Some OpRead | _ => None
  end.
Definition next_op (out : list effect) : option stream_op := head (omap op_of_effect out).
Definition completes (k : stream_op) (ev : event) : Prop :=
  match k, ev with
  | OpStart, EvStarted _ | OpFinishRequest, EvRequestFinished _ | OpReadHead, EvHead _ _ _ | OpRead, EvRead _ _ _ => True
  | _, _ => False
  end.
(** The client, what it did, the stream operation in flight, and whether the
    owner's connection was neither abandoned nor cancelled before it began. *)
Record client_run := mk_run { cl_state : t; cl_out : list effect; cl_op : option stream_op; cl_regular : bool }.
Inductive client_step : client_run → client_run → Prop :=
| step_completion s out k reg ev :
    completes k ev →
    client_step (mk_run s out (Some k) reg)
      (mk_run (handle on_event s ev).1 (out ++ (handle on_event s ev).2) (next_op (handle on_event s ev).2) reg)
| step_connect s out k reg :
    client_step (mk_run s out k reg)
      (mk_run (connect s).1 (out ++ (connect s).2) (if connect_started s then k else next_op (connect s).2)
         (if connect_started s then reg else reg && negb (terminal s)))
| step_cancel s out k reg :
    client_step (mk_run s out k reg) (mk_run (cancel s).1 (out ++ (cancel s).2) k reg)
| step_abandon s out k reg :
    client_step (mk_run s out k reg) (mk_run (abandon s).1 (out ++ (abandon s).2) k false).

Definition client_inv (c : client_run) : Prop :=
  let s := cl_state c in
  closes (cl_out c) ≤ 1 ∧ sealed (cl_out c) ∧
  (terminal s = false → closes (cl_out c) = 0 ∧ has_handlers s = connect_started s) ∧
  (connect_started s = false → cl_op c = None ∧ closes (cl_out c) = 0) ∧
  (connect_started s = true → cl_op c = None → terminal s = true) ∧
  (cl_regular c = true → connect_started s = true → terminal s = true → closes (cl_out c) = 1).

(** A completion starts the next operation or ends the connection. *)
Lemma completion_continues s k ev :
  completes k ev → let r := handle on_event s ev in next_op r.2 = None → terminal r.1 = true.
Proof.
  assert (∀ ec s, terminal (finish ec s).1 = true) as Hf.
  { intros ec s'. unfold finish. by destruct (terminal s') eqn:Ht. }
  assert (∀ a b, next_op (a ++ b) = match next_op a with Some o => Some o | None => next_op b end) as Happ.
  { intros a b. unfold next_op. rewrite omap_app. by destruct (omap op_of_effect a). }
  assert (∀ ec done s, let r := after_read ec done s in next_op r.2 = None → terminal r.1 = true) as Har.
  { intros ec done s' r. unfold r, after_read. destruct (terminal s') eqn:Ht; [done|]. destruct done; [auto|].
    destruct ec as [[]|]; auto. intros Hn. by cbn in Hn. }
  intros Hc r. unfold r. destruct k, ev as [|[]|[]|[] ? ?|ec data done| |]; cbn in Hc; try (by destruct Hc); cbn [handle]; auto; try (intros Hn; by cbn in Hn).
  - destruct (_ || _); [auto|]. intros Hn. by cbn in Hn.
  - unfold on_read. case_bool_decide; [apply Har|]. destruct (SseParser.feed (parser s) data) as [[p events]|e]; [|auto].
    destruct (emit_all on_event events (set_parser p s)) as [s1 o1]. pose proof (Har ec done s1) as Ha.
    destruct (after_read ec done s1) as [s2 o2]. cbn in *. rewrite Happ. by destruct (next_op o1).
Qed.
(** Every completion is a step of a connected client. *)
Lemma completion_ok s k ev : completes k ev → steps_ok s (handle on_event s ev).
Proof.
  intros Hc. destruct k, ev as [|[]|[]|[] ? ?|ec data done| |]; cbn in Hc; try (by destruct Hc); cbn [handle]; try apply steps_ok_finish; try (by apply steps_ok_silent, Forall_singleton).
  - destruct (_ || _); [apply steps_ok_finish|]. by apply steps_ok_silent, Forall_singleton.
  - apply steps_ok_on_read.
Qed.
(** What [steps_ok] says of a run. *)
Lemma inv_steps s out k reg r k' :
  client_inv (mk_run s out k reg) → steps_ok s r → connect_started s = true →
  (k' = None → terminal r.1 = true) → client_inv (mk_run r.1 (out ++ r.2) k' reg).
Proof.
  intros (Hc1 & Hse & Hnt & _ & Hst & Hreg) (Hcs & Ht & Hn) Hconn Hk'. 
  cbn [cl_state cl_out cl_op cl_regular] in *.
  unfold client_inv. cbn [cl_state cl_out cl_op cl_regular]. rewrite closes_app, Hcs, Hconn. destruct (terminal s) eqn:Hts.
  - destruct (Ht eq_refl) as [Htr Hsil]. rewrite (silent_closes _ Hsil), Nat.add_0_r, Htr.
    split_and!; try done; [by apply sealed_app_silent|auto].
  - destruct (Hnt eq_refl) as [H0 Hh]. destruct (Hn eq_refl ltac:(congruence)) as (Hk & Hso & Hhr). rewrite H0, Hk.
    split_and!; try done.
    + destruct (terminal r.1); cbn; lia.
    + by apply sealed_app_open.
    + intros Htr. rewrite Htr, (Hhr Htr). done.
    + intros _ _ Htr. by rewrite Htr.
Qed.
Lemma client_step_inv c c' : client_inv c → client_step c c' → client_inv c'.
Proof.
  intros Hi Hs. destruct Hs as [s out k reg ev Hc|s out k reg|s out k reg|s out k reg].
  - apply (inv_steps s out (Some k)); [done|by eapply completion_ok| |by eapply completion_continues].
    destruct Hi as (_ & _ & _ & Hn & _). cbn in Hn. destruct (connect_started s); [done|]. by destruct (Hn eq_refl).
  - unfold connect. destruct (connect_started s) eqn:Hcs.
    + apply (inv_steps s out k reg (s, [Rejected]) k Hi); [by apply steps_ok_silent, Forall_singleton|done|].
      destruct Hi as (_ & _ & _ & _ & Hst & _). cbn in Hst. auto.
    + destruct Hi as (H1 & Hse & Hnt & Hn & _ & _).
      cbn [cl_state cl_out cl_op cl_regular] in *. destruct (Hn Hcs) as [-> H0].
      unfold client_inv. cbn [cl_state cl_out cl_op cl_regular fst snd terminal connect_started has_handlers]. rewrite closes_app, H0. split_and!; try done.
      * cbn. lia.
      * by apply sealed_app_silent; [|by apply Forall_singleton].
      * intros Hreg _ Ht. rewrite Ht, andb_false_r in Hreg. done.
  - destruct (connect_started s) eqn:Hcs.
    + apply (inv_steps s out k); [done|apply steps_ok_cancel|done|]. intros _.
      unfold cancel, finish. by destruct (terminal s) eqn:Ht.
    + destruct Hi as (H1 & Hse & Hnt & Hn & _ & _).
      cbn [cl_state cl_out cl_op cl_regular] in *. destruct (Hn Hcs) as [-> H0].
      assert (closes (cancel s).2 = 0 ∧ silent (cancel s).2 ∧ terminal (cancel s).1 = true ∧ connect_started (cancel s).1 = false) as (Hz & Hsil & Ht' & Hc').
      { unfold cancel, finish. destruct (terminal s) eqn:Ht; cbn; [by split_and!; [|by apply Forall_singleton|..]|].
        destruct (Hnt eq_refl) as [_ ->]. rewrite Hcs. cbn. split_and!; try done. by repeat constructor. }
      unfold client_inv. cbn [cl_state cl_out cl_op cl_regular]. rewrite closes_app, H0, Hz, Ht', Hc'.
      split_and!; try done; [lia|by apply sealed_app_silent].
  - destruct Hi as (H1 & Hse & Hnt & Hn & Hst & _).
    cbn [cl_state cl_out cl_op cl_regular] in *. unfold client_inv, abandon. cbn [cl_state cl_out cl_op cl_regular terminal connect_started fst snd].
    assert (silent [StreamCancel]) as Hsil by (by apply Forall_singleton).
    rewrite closes_app, (silent_closes _ Hsil), Nat.add_0_r. split_and!; try done. by apply sealed_app_silent.
Qed.
(** C30: whatever the completions of the stream, the answers of the event
    callback, and the moments at which the owner connects, cancels or drops the
    client: the close callback of the connection runs at most once, no event is
    delivered after it, a connected client always has a stream operation in
    flight until it is terminal, and (unless it was cancelled before it
    connected, or dropped) it has reported its end by then. *)
Theorem sse_client_safe m c :
  rtc client_step (mk_run (init m) [] None true) c →
  closes (cl_out c) ≤ 1 ∧ sealed (cl_out c) ∧
  (connect_started (cl_state c) = true → cl_op c = None → terminal (cl_state c) = true) ∧
  (cl_regular c = true → connect_started (cl_state c) = true → terminal (cl_state c) = true → closes (cl_out c) = 1).
Proof.
  intros Hr. assert (client_inv c) as (H1 & H2 & _ & _ & H5 & H6); [|done].
  refine (rtc_invariant client_step client_inv _ _ _ Hr _); [intros ? ? ? ?; by eapply client_step_inv|].
  split_and!; try done; [cbn; lia|by apply sealed_no_close].
Qed.

(** ** The client and the server's formatter *)
Definition client_run_events : t → list event → t * list effect :=
  fix go s evs :=
    match evs with
    | [] => (s, [])
    | ev :: evs => let '(s, o1) := handle on_event s ev in let '(s, o2) := go s evs in (s, o1 ++ o2)
    end.
Lemma client_run_events_app s a b :
  (client_run_events s (a ++ b)).2 = (client_run_events s a).2 ++ (client_run_events (client_run_events s a).1 b).2.
Proof.
  revert s. induction a as [|ev a IH]; intros s; cbn [app client_run_events fst snd]; [done|].
  destruct (handle on_event s ev) as [s1 o1]. specialize (IH s1). destruct (client_run_events s1 (a ++ b)) as [s2 o2].
  destruct (client_run_events s1 a) as [s3 o3]. cbn [fst snd] in *. by rewrite IH, (assoc_L (++)).
Qed.
Definition reports (out : list effect) : list effect := List.filter (λ e, is_deliver e || is_closed e) out.
Lemma reports_app a b : reports (a ++ b) = reports a ++ reports b.
Proof. apply List.filter_app. Qed.
Lemma reports_cons e l : is_deliver e || is_closed e = false → reports (e :: l) = reports l.
Proof. intros He. unfold reports. cbn [List.filter]. by rewrite He. Qed.
Lemma emit_all_returns events s :
  (∀ e, on_event e = Returns) → terminal s = false → has_handlers s = true →
  emit_all on_event events s = (s, Deliver <$> events).
Proof.
  intros Hret Ht Hh. induction events as [|e events IH]; [done|]. cbn [emit_all]. unfold emit.
  rewrite Ht, Hh, Hret. cbn [orb negb]. by rewrite IH.
Qed.
(** Reading an open stream in chunks: the events of the parser, in order. *)
Lemma client_reads s p' events chunks :
  (∀ e, on_event e = Returns) → terminal s = false → has_handlers s = true →
  feed_all (parser s) chunks = Ret (p', events) →
  Forall (λ c, c ≠ []) chunks →
  ∃ out, client_run_events s ((λ c, EvRead None c false) <$> chunks) = (set_parser p' s, out) ∧ reports out = Deliver <$> events.
Proof.
  intros Hret. revert s events. induction chunks as [|c chunks IH]; intros s events Ht Hh Hf Hne.
  - injection Hf as <- <-. exists []. split; [|done]. by destruct s.
  - apply Forall_cons in Hne as [Hc Hne]. cbn [feed_all] in Hf.
    destruct (SseParser.feed (parser s) c) as [[p1 e1]|] eqn:H1; [|done].
    cbn in Hf. destruct (feed_all p1 chunks) as [[p2 e2]|] eqn:H2; [|done]. injection Hf as <- <-.
    destruct (IH (set_parser p1 s) e2 Ht Hh H2 Hne) as (out & Hrun & Hrep).
    cbn [client_run_events fmap list_fmap handle]. unfold on_read. rewrite bool_decide_eq_false_2, H1 by done.
    rewrite emit_all_returns by done.
    assert (after_read None false (set_parser p1 s) = (set_parser p1 s, [StreamRead])) as ->.
    { unfold after_read. cbn [terminal set_parser]. rewrite Ht. reflexivity. }
    rewrite Hrun. eexists. split; [done|]. rewrite !reports_app, Hrep, fmap_app.
    assert (reports (Deliver <$> e1) = Deliver <$> e1) as ->; [|by rewrite app_nil_r].
    clear. unfold reports. induction e1 as [|e e1 IHe]; [done|]. cbn. by f_equal.
Qed.
(** End to end. What the server's formatter writes for a list of events,
    delivered to the client in any non-empty pieces after a successful head
    and followed by the end of the stream, reaches the event callback as
    exactly those events, in order and in their normal form; then the close
    callback runs once, without an error. *)
Theorem sse_end_to_end m es chunks content_type :
  (0 ≤ m < size_max)%Z → (∀ e, on_event e = Returns) →
  is_event_stream_content_type content_type = true →
  Forall (λ e, (∀ n, SseEvent.retry e = Some n → n < 2 ^ 64)%N ∧ (zlen (format_sse_event e) ≤ m)%Z) es →
  Forall (λ c, c ≠ []) chunks → concat chunks = concat (format_sse_event <$> es) →
  reports (client_run_events (init m)
    ([EvConnect; EvStarted None; EvRequestFinished None; EvHead None status_ok content_type] ++
     ((λ c, EvRead None c false) <$> chunks) ++ [EvRead None [] true])).2
  = (Deliver <$> received_all [] es) ++ [Closed None].
Proof.
  intros Hm Hret Hct Hes Hne Hcat.
  assert (idle (SseParser.init m)) as Hi by (by split; [apply wf_init|..]).
  destruct (fold_formatted_all (SseParser.init m) es Hi Hes) as (p' & Hf & _). rewrite <-Hcat, <-feed_all_fold in Hf by apply Hi.
  destruct (client_reads (mk (SseParser.init m) true false true) p' _ chunks Hret eq_refl eq_refl Hf Hne) as (out & Hrun & Hrep).
  cbn [app client_run_events handle]. rewrite Hct, bool_decide_eq_false_2 by (by intros []). cbn [orb negb].
  cbn [connect init connect_started parser terminal].
  pose proof (client_run_events_app (mk (SseParser.init m) true false true) ((λ c, EvRead None c false) <$> chunks) [EvRead None [] true]) as Hsplit.
  destruct (client_run_events _ (_ ++ _)) as [s' o'] eqn:Hall. cbn [snd] in *. rewrite Hsplit, Hrun.
  cbn [fst snd app]. rewrite !reports_cons by done. by rewrite reports_app, Hrep.
Qed.

(** A client cancelled before it connects still opens the stream, but never
    reports anything: the close handler of that connection is lost. *)
Lemma cancelled_before_connect m :
  let '(s, out) := client_run_events (init m) [EvCancel; EvConnect] in
  out = [StreamCancel; StreamCancel; StreamStart] ∧ terminal s = true ∧ has_handlers s = true.
Proof. done. Qed.
Lemma terminal_is_silent s ev : terminal s = true → ev ≠ EvConnect → reports (handle on_event s ev).2 = [].
Proof.
  intros Ht Hev. assert (∀ r, steps_ok s r → reports r.2 = []) as H.
  { intros r (_ & Hs & _). destruct (Hs Ht) as [_ Hsil]. clear Hs. unfold reports. induction Hsil as [|e l [Hd Hc] _ IH]; [done|]. cbn [List.filter]. rewrite Hd, Hc. by cbn. }
  destruct ev as [|[]|[]|[] ? ?|ec data done| |]; cbn [handle]; try reflexivity; try (by destruct Hev); try (apply H; apply steps_ok_finish).
  - destruct (_ || _); [apply H, steps_ok_finish|done].
  - apply H, steps_ok_on_read.
  - apply H, steps_ok_cancel.
Qed.
End safety.

Definition sample_run_events (on_event : SseEvent → SseClient.reaction) : SseClient.t * list SseClient.effect :=
  client_run_events on_event (SseClient.init 64)
    [SseClient.EvConnect; SseClient.EvStarted None; SseClient.EvRequestFinished None; SseClient.EvHead None status_ok (str "Text/Event-Stream ; charset=utf-8")].
Theorem sse_client_safe_witness :
  ∃ c, rtc (client_step (λ _, SseClient.Returns)) (mk_run (SseClient.init 64) [] None true) c ∧
       SseClient.connect_started (cl_state c) = true ∧ SseClient.terminal (cl_state c) = true ∧ closes (cl_out c) = 1.
Proof.
  assert (rtc (client_step (λ _, SseClient.Returns)) (mk_run (SseClient.init 64) [] None true)
    (mk_run (SseClient.mk (SseParser.init 64) true true false)
       [SseClient.StreamStart; SseClient.StreamFinishRequest; SseClient.StreamCancel; SseClient.Closed (Some SseClient.ProtocolError)]
       None true)) as Hr.
  { eapply rtc_l; [exact (step_connect _ _ _ _ _)|]. eapply rtc_l; [exact (step_completion _ _ _ OpStart _ (SseClient.EvStarted None) I)|].
    eapply rtc_l; [exact (step_completion _ _ _ OpFinishRequest _ (SseClient.EvRequestFinished (Some SseClient.ProtocolError)) I)|]. apply rtc_refl. }
  eexists. split; [exact Hr|]. destruct (sse_client_safe _ _ _ Hr) as (_ & _ & _ & H4). split_and!; [done|done|]. by apply H4.
Defined.
Theorem sse_end_to_end_witness :
  reports (client_run_events (λ _, SseClient.Returns) (SseClient.init 64)
    ([SseClient.EvConnect; SseClient.EvStarted None; SseClient.EvRequestFinished None;
      SseClient.EvHead None status_ok (str "Text/Event-Stream ; charset=utf-8")] ++
     ((λ c, SseClient.EvRead None c false) <$> [take 20 (format_sse_event sample_event); drop 20 (format_sse_event sample_event)]) ++
     [SseClient.EvRead None [] true])).2
  = [SseClient.Deliver (SseEvent.mk (str "tick") (str "a" ++ [LF] ++ str "b") (str "9") (Some 5%N)); SseClient.Closed None].
Proof.
  rewrite (sse_end_to_end (λ _, SseClient.Returns) 64 [sample_event]); try done.
  - apply Forall_singleton. split; [by intros n [= <-]|by vm_compute].
  - by repeat constructor.
Defined.
