(* ===== verification/SseStream.v ===== *)
(** * Server-sent events, end to end

    The pieces of the stream composed: the session of the server
    ([SseSession], [sse/sse_session.cpp]) queues and writes what its owner
    sends, the transport cuts the bytes anywhere and may lose their end, and
    the client ([SseClient], [client/sse_client.cpp]) parses them. A stream run
    is executable ([serve]); [stream_end_to_end] says what the client's owner
    is told. *)
From S2P Require Import Prelude Text Numbers Http SseFormat SseParser SseParserProofs SseRoundTrip SseTheorems.
From S2P Require Import SseClient SseClientTheorems SseSession SseSessionTheorems.
Set Default Proof Using "Type*".

(** ** What the owner of a session sends *)
Inductive message := Event (e : SseEvent) | Comment (c : bytes).
Definition text_of (m : message) : bytes :=
  match m with Event e => format_sse_event e | Comment c => format_sse_comment c end.
Definition sse_event_of (m : message) : option SseEvent := match m with Event e => Some e | Comment _ => None end.
(** The retry time is a [std::uint64_t]. *)
Definition retry_fits (m : message) : Prop :=
  match m with Event e => ∀ n, SseEvent.retry e = Some n → (n < 2 ^ 64)%N | Comment _ => True end.

(** *** A parser reads a sequence of messages *)
Section messages.
Import SseParser.
Lemma fold_message p m :
  idle p → retry_fits m → (zlen (text_of m) ≤ max_event_bytes_ p)%Z →
  ∃ p' es, fold_bytes step_byte p (text_of m) = Ret (p', es) ∧ idle p' ∧ max_event_bytes_ p' = max_event_bytes_ p ∧
    ∀ ms, es ++ received_all (last_event_id_ p') ms = received_all (last_event_id_ p) (option_list (sse_event_of m) ++ ms).
Proof.
  intros Hi Hr Hlen. destruct m as [e|c]; cbn [text_of sse_event_of] in *.
  - destruct (fold_formatted p e Hi Hr Hlen) as (p' & Hf & Hi' & Hid & Hm). exists p', [received (last_event_id_ p) e].
    split_and!; [done..|]. intros ms. cbn. by rewrite Hid.
  - destruct (fold_comment p c Hi Hlen) as (p' & Hf & Hi' & Hid & Hm). exists p', []. split_and!; [done..|]. intros ms. by rewrite Hid.
Qed.
Lemma fold_messages p ms :
  idle p → Forall (λ m, retry_fits m ∧ (zlen (text_of m) ≤ max_event_bytes_ p)%Z) ms →
  ∃ p', fold_bytes step_byte p (concat (text_of <$> ms)) = Ret (p', received_all (last_event_id_ p) (omap sse_event_of ms)) ∧ idle p'.
Proof.
  intros Hi Hms. revert p Hi Hms. induction ms as [|m ms IH]; intros p Hi Hms; [by exists p|].
  apply Forall_cons in Hms as [[Hr Hlen] Hms].
  destruct (fold_message p m Hi Hr Hlen) as (p1 & es & H1 & Hi1 & Hmx & Hes).
  destruct (IH p1 Hi1) as (p2 & H2 & Hi2); [by rewrite Hmx|]. exists p2. split; [|done].
  rewrite fmap_cons. cbn [concat]. rewrite fold_bytes_app, H1. cbn [mbind outcome_bind]. rewrite H2. cbn [mbind outcome_bind].
  rewrite Hes. cbn [omap list_omap]. by destruct (sse_event_of m).
Qed.
(** The events of a part of the bytes are the first events of the whole. *)
Lemma fold_prefix step p s1 s p' es :
  s1 `prefix_of` s → fold_bytes step p s = Ret (p', es) →
  ∃ p1 es1, fold_bytes step p s1 = Ret (p1, es1) ∧ es1 `prefix_of` es ∧ (s1 = s → es1 = es).
Proof.
  intros [s2 ->]. rewrite fold_bytes_app. destruct (fold_bytes step p s1) as [[p1 es1]|]; [|done]. cbn [mbind outcome_bind].
  destruct (fold_bytes step p1 s2) as [[p2 es2]|] eqn:H2; [|done]. intros [= <- <-]. exists p1, es1.
  split_and!; [done|by exists es2|]. intros He. assert (s2 = []) as -> by (apply (f_equal length) in He; rewrite length_app in He; destruct s2; [done|cbn in He; lia]).
  cbn in H2. injection H2 as <- <-. by rewrite app_nil_r.
Qed.
End messages.

(** ** Runs of the session *)
Section serve.
Import SseSession.
Definition start_config (maximum : Z) : config := mk_config (init maximum) [] [] [].
(** [None] when a completion comes without its operation. *)
Definition serve1 (c : config) (ev : event) : option config :=
  match completes ev (cf_ops c) with
  | Some ops =>
      let r := handle (cf_session c) ev in
      Some (mk_config r.1 (cf_out c ++ r.2) (ops ++ omap op_of r.2) (cf_accepted c ++ accepted_by ev r.2))
  | None => None
  end.
Fixpoint serve (c : config) (evs : list event) : option config :=
  match evs with [] => Some c | ev :: evs => match serve1 c ev with Some c => serve c evs | None => None end end.
Definition message_of (ev : event) : option message :=
  match ev with EvSend e => Some (Event e) | EvComment c => Some (Comment c) | _ => None end.
(** The messages whose [send] returned true. *)
Fixpoint accepted (s : t) (evs : list event) : list message :=
  match evs with
  | [] => []
  | ev :: evs =>
      let r := handle s ev in
      match message_of ev, last r.2 with Some m, Some (Returned true) => [m] | _, _ => [] end ++ accepted r.1 evs
  end.
(** The bytes handed to the response stream. *)
Definition wire (c : config) : bytes := concat (omap written_by (cf_out c)).

Lemma serve1_step c ev c' : serve1 c ev = Some c' → step c c'.
Proof.
  unfold serve1. destruct c as [s out ops acc]; cbn [cf_ops cf_session cf_out cf_accepted].
  destruct (completes ev ops) as [ops'|] eqn:Hc; [|done]. intros [= <-]. by apply step_event.
Qed.
Lemma serve_inv maximum evs c : (0 ≤ maximum ≤ size_max)%Z → serve (start_config maximum) evs = Some c → inv c.
Proof.
  intros Hm. assert (inv (start_config maximum)) as Hi.
  { split; cbn; try done; try lia; [|by exists []|by intros ?%elem_of_nil].
    intros _. split_and!; try done. apply not_elem_of_nil. }
  revert Hi. generalize (start_config maximum). induction evs as [|ev evs IH]; intros c0 Hi; cbn [serve]; [by intros [= <-]|].
  destruct (serve1 c0 ev) as [c1|] eqn:H1; [|done]. apply IH. by apply (step_inv _ _ Hi), (serve1_step _ ev).
Qed.
Lemma accepted_by_message s ev :
  accepted_by ev (handle s ev).2 =
    text_of <$> match message_of ev, last (handle s ev).2 with Some m, Some (Returned true) => [m] | _, _ => [] end.
Proof. unfold accepted_by, payload, message_of. destruct ev; try done; by destruct (last _) as [[| | | | | | | |[]]|]. Qed.
Lemma serve_accepted c evs c' : serve c evs = Some c' → cf_accepted c' = cf_accepted c ++ (text_of <$> accepted (cf_session c) evs).
Proof.
  revert c. induction evs as [|ev evs IH]; intros c; cbn [serve accepted]; [intros [= <-]; by rewrite app_nil_r|].
  unfold serve1. destruct (completes ev (cf_ops c)) as [ops|]; [|done]. intros Hs. apply IH in Hs. rewrite Hs.
  cbn [cf_accepted cf_session]. by rewrite accepted_by_message, fmap_app, (assoc_L (++)).
Qed.

(** *** What is accepted fits the bound of the session *)
Lemma write_next_max s : max_pending_bytes (write_next s).1 = max_pending_bytes s.
Proof. unfold write_next. destruct (_ || _); [done|]. destruct (queue s); [by destruct (closing s)|done]. Qed.
Lemma finish_max ec s : max_pending_bytes (finish ec s).1 = max_pending_bytes s.
Proof. unfold finish. by destruct (closed s). Qed.
(** Handlers that end in [write_next]. *)
Ltac via_write_next := match goal with |- context [write_next ?x] => etrans; [|exact (write_next_max x)]; by destruct (write_next x) end.
Lemma enqueue_max v s : max_pending_bytes (enqueue v s).1 = max_pending_bytes s.
Proof.
  unfold enqueue. destruct (closing s || closed s); [done|]. destruct (_ || _); [done|].
  via_write_next.
Qed.
Lemma handle_max s ev : max_pending_bytes (handle s ev).1 = max_pending_bytes s.
Proof.
  destruct ev as [|[ec|]|ec|e|c| | |h|[ec|]|ec]; cbn [handle]; try apply finish_max; try apply enqueue_max.
  - unfold start. by destruct (_ || _).
  - unfold on_started. via_write_next.
  - unfold on_disconnect, finish. case_bool_decide; [done|]. by destruct (closed s).
  - unfold close. via_write_next.
  - unfold cancel, finish. by destruct (closed s).
  - unfold on_close. by destruct (closed s).
  - unfold on_written. by destruct (queue s); (etrans; [apply write_next_max|]).
Qed.
Lemma enqueue_fits v s : last (enqueue v s).2 = Some (Returned true) → (zlen v ≤ max_pending_bytes s)%Z.
Proof.
  unfold enqueue. destruct (closing s || closed s); [done|]. destruct (_ <? zlen v)%Z eqn:Hlt; [done|]. intros _. lia.
Qed.
Lemma accepted_fits s evs : Forall (λ m, (zlen (text_of m) ≤ max_pending_bytes s)%Z) (accepted s evs).
Proof.
  revert s. induction evs as [|ev evs IH]; intros s; cbn [accepted]; [constructor|]. apply Forall_app. split.
  - destruct ev; cbn [message_of handle]; try constructor;
      destruct (last _) as [[| | | | | | | |[]]|] eqn:Hl; try constructor; try done; by apply enqueue_fits.
  - specialize (IH (handle s ev).1). by rewrite handle_max in IH.
Qed.
Lemma accepted_sent s evs : Forall (λ m, ∃ ev, ev ∈ evs ∧ message_of ev = Some m) (accepted s evs).
Proof.
  revert s. induction evs as [|ev evs IH]; intros s; cbn [accepted]; [constructor|]. apply Forall_app. split.
  - destruct (message_of ev) as [m|] eqn:Hm; [|constructor]. destruct (last _) as [[| | | | | | | |[]]|]; repeat constructor. exists ev. split; [by left|done].
  - eapply Forall_impl; [apply IH|]. intros m (ev' & Hin & Hm). exists ev'. split; [by right|done].
Qed.
(** A session that is closing or closed accepts nothing any more. *)
Lemma shut_enqueue v s : closing s = true ∨ closed s = true → enqueue v s = (s, [Returned false]).
Proof. intros Hs. unfold enqueue. by destruct Hs as [-> | ->]; rewrite ?orb_true_r. Qed.
Lemma shut_write_next s : closing s = true ∨ closed s = true → closing (write_next s).1 = true ∨ closed (write_next s).1 = true.
Proof.
  assert (closing (write_next s).1 = closing s ∧ closed (write_next s).1 = closed s) as [-> ->]; [|done].
  unfold write_next. destruct (_ || _); [done|]. destruct (queue s); [by destruct (closing s) eqn:?|done].
Qed.
Lemma shut_finish ec s : closing s = true ∨ closed s = true → closing (finish ec s).1 = true ∨ closed (finish ec s).1 = true.
Proof. intros Hs. unfold finish. destruct (closed s) eqn:Hc; [by right|by right]. Qed.
Lemma close_shuts s : closing (close s).1 = true ∨ closed (close s).1 = true.
Proof.
  unfold close. match goal with |- context [write_next ?x] => pose proof (shut_write_next x (or_introl eq_refl)) as Hx; destruct (write_next x) end. exact Hx.
Qed.
Lemma shut_handle s ev : closing s = true ∨ closed s = true → closing (handle s ev).1 = true ∨ closed (handle s ev).1 = true.
Proof.
  intros Hs. assert (∀ (pre : list effect → list effect) (r : t * list effect), closing r.1 = true ∨ closed r.1 = true →
    closing (let '(s, out) := r in (s, pre out)).1 = true ∨ closed (let '(s, out) := r in (s, pre out)).1 = true) as Hpre by by intros ? [].
  destruct ev as [|[ec|]|ec|e|c| | |h|[ec|]|ec]; cbn [handle]; try by apply shut_finish.
  - unfold start. by destruct (_ || _).
  - unfold on_started. by apply (Hpre (λ out, _ ++ out)), shut_write_next.
  - unfold on_disconnect. case_bool_decide; [done|]. by apply (Hpre (cons CancelResponse)), shut_finish.
  - unfold send. by rewrite shut_enqueue.
  - unfold send_comment. by rewrite shut_enqueue.
  - apply close_shuts.
  - unfold cancel. by apply (Hpre (cons CancelResponse)), shut_finish.
  - unfold on_close. destruct (closed s) eqn:Hc; cbn; rewrite ?Hc; tauto.
  - unfold on_written. destruct (queue s); by apply shut_write_next.
Qed.
Lemma shut_accepted s evs : closing s = true ∨ closed s = true → accepted s evs = [].
Proof.
  revert s. induction evs as [|ev evs IH]; intros s Hs; cbn [accepted]; [done|]. rewrite IH by by apply shut_handle.
  destruct ev; try done; cbn [message_of handle]; unfold send, send_comment; by rewrite shut_enqueue.
Qed.
End serve.

(** ** The head of the response is one the client takes *)
Section head.
Context {F} `{HttpFieldsLaws F}.
Definition head_content_type (r : response F) : bytes := default [] (field_find (str "Content-Type") (rs_fields r)).
Lemma head_accepted version keep_alive :
  let head := SseSession.response_head version keep_alive : response F in
  rs_status head = status_ok ∧ is_event_stream_content_type (head_content_type head) = true.
Proof.
  split; [done|]. unfold head_content_type, SseSession.response_head, rs_set, rs_on_fields. cbn [rs_fields].
  rewrite !field_find_set_ne, field_find_set by done. done.
Qed.
End head.

(** ** The stream *)
Section stream.
Context {F} `{HttpFieldsLaws F} (on_event : SseEvent → SseClient.reaction).
Definition opening (head : response F) : list SseClient.event :=
  [SseClient.EvConnect; SseClient.EvStarted None; SseClient.EvRequestFinished None;
   SseClient.EvHead None (rs_status head) (head_content_type head)].
Definition reads (chunks : list bytes) : list SseClient.event := (λ c, SseClient.EvRead None c false) <$> chunks.
(** How a read that ends the stream is reported. *)
Definition end_of (ec : option SseClient.error_code) (done : bool) : option SseClient.error_code :=
  if done then None else match ec with Some SseClient.Eof => None | _ => ec end.
(** The client reads the pieces and then the end of an accepted stream. *)
Lemma client_stream m head chunks p' events ec done :
  (∀ e, on_event e = SseClient.Returns) → rs_status head = status_ok →
  is_event_stream_content_type (head_content_type head) = true →
  Forall (λ c, c ≠ []) chunks → feed_all (SseParser.init m) chunks = Ret (p', events) → done = true ∨ ec ≠ None →
  reports (client_run_events on_event (SseClient.init m) (opening head ++ reads chunks ++ [SseClient.EvRead ec [] done])).2
  = (SseClient.Deliver <$> events) ++ [SseClient.Closed (end_of ec done)].
Proof.
  intros Hret Hst Hct Hne Hf Hend. pose (s0 := SseClient.mk (SseParser.init m) true false true).
  destruct (client_reads on_event s0 p' events chunks Hret eq_refl eq_refl Hf Hne) as (out & Hrun & Hrep).
  pose proof (client_run_events_app on_event s0 (reads chunks) [SseClient.EvRead ec [] done]) as Hsplit.
  unfold opening. cbn [app client_run_events SseClient.handle]. rewrite Hst, Hct, bool_decide_eq_false_2 by (by intros []). cbn [orb negb].
  change (SseClient.connect (SseClient.init m)) with (s0, [SseClient.StreamStart]). cbn iota beta.
  destruct (client_run_events on_event s0 (reads chunks ++ _)) as [s' o'] eqn:Hall. cbn [snd app] in *. rewrite Hsplit.
  unfold reads. rewrite Hrun. cbn [fst snd]. rewrite !reports_cons by done. rewrite reports_app, Hrep. f_equal.
  cbn. unfold SseClient.on_read, SseClient.after_read. cbn. unfold end_of. destruct done; [done|]. by destruct ec as [[]|], Hend.
Qed.

Lemma stream_delivers m maximum evs c chunks version keep_alive ec done :
  (0 ≤ maximum ≤ m)%Z → (m < size_max)%Z →
  serve (start_config maximum) evs = Some c →
  (∀ e n, SseSession.EvSend e ∈ evs → SseEvent.retry e = Some n → (n < 2 ^ 64)%N) →
  (∀ e, on_event e = SseClient.Returns) →
  Forall (λ x, x ≠ []) chunks → concat chunks `prefix_of` wire c → done = true ∨ ec ≠ None →
  let head : response F := SseSession.response_head version keep_alive in
  let sent := omap sse_event_of (accepted (SseSession.init maximum) evs) in
  ∃ got, got `prefix_of` received_all [] sent ∧
    reports (client_run_events on_event (SseClient.init m) (opening head ++ reads chunks ++ [SseClient.EvRead ec [] done])).2
    = (SseClient.Deliver <$> got) ++ [SseClient.Closed (end_of ec done)] ∧
    (SseSession.AsyncFinish ∈ cf_out c → concat chunks = wire c → got = received_all [] sent).
Proof.
  intros Hmax Hm Hs Hretry Hret Hne Hpre Hend head sent. destruct (head_accepted version keep_alive) as [Hst Hct].
  assert (idle (SseParser.init m)) as Hi by (by split; [apply wf_init; lia|..]).
  pose proof (serve_inv maximum evs c ltac:(lia) Hs) as Hinv.
  pose proof (serve_accepted _ _ _ Hs) as Hacc. cbn in Hacc.
  destruct (fold_messages (SseParser.init m) (accepted (SseSession.init maximum) evs) Hi) as (p' & Hf & _).
  { rewrite Forall_forall. intros x Hx. split.
    - pose proof (accepted_sent (SseSession.init maximum) evs) as Ha. rewrite Forall_forall in Ha. destruct (Ha x Hx) as (ev & Hin & Hev).
      destruct ev; try done; injection Hev as <-; [|done]. intros n Hn. by eapply Hretry.
    - pose proof (accepted_fits (SseSession.init maximum) evs) as Ha. rewrite Forall_forall in Ha. specialize (Ha x Hx). cbn in *. lia. }
  destruct (inv_prefix _ Hinv) as [rest Hrest]. rewrite Hacc in Hrest.
  assert (concat chunks `prefix_of` concat (text_of <$> accepted (SseSession.init maximum) evs)) as Hp.
  { etrans; [exact Hpre|]. rewrite Hrest, concat_app. by eexists. }
  destruct (fold_prefix _ _ _ _ _ _ Hp Hf) as (p1 & got & Hgot & Hgp & Hall).
  exists got. split_and!; [done| |].
  - apply (client_stream m head chunks p1); try done. rewrite feed_all_fold; [done|apply Hi].
  - intros Hfin Hw. apply Hall. destruct (inv_finish _ Hinv Hfin) as [He _]. by rewrite Hw, <-Hacc, He.
Qed.

(** C15: the stream end to end. Whatever the owner of a session does and however
    the response stream answers, a client whose limit is at least that of the
    session accepts the head of the response, and whatever part of the written
    bytes reaches it, cut anywhere, its event callback gets the first of the
    events whose [send] returned true, in order and in their normal form, and
    its close callback runs once, after them; comments are never seen, no
    message that the session accepts is too large for the client, and a stream
    the session finished and the transport delivered whole gives every accepted
    event. *)
Theorem stream_end_to_end m maximum evs c chunks version keep_alive ec done :
  (0 ≤ maximum ≤ m)%Z → (m < size_max)%Z →
  serve (start_config maximum) evs = Some c →
  (∀ e n, SseSession.EvSend e ∈ evs → SseEvent.retry e = Some n → (n < 2 ^ 64)%N) →
  (∀ e, on_event e = SseClient.Returns) →
  Forall (λ x, x ≠ []) chunks → concat chunks `prefix_of` wire c → done = true ∨ ec ≠ None →
  let head : response F := SseSession.response_head version keep_alive in
  let sent := omap sse_event_of (accepted (SseSession.init maximum) evs) in
  ∃ got, got `prefix_of` received_all [] sent ∧
    reports (client_run_events on_event (SseClient.init m) (opening head ++ reads chunks ++ [SseClient.EvRead ec [] done])).2
    = (SseClient.Deliver <$> got) ++ [SseClient.Closed (end_of ec done)] ∧
    (SseSession.AsyncFinish ∈ cf_out c → concat chunks = wire c → got = received_all [] sent).
Proof. apply stream_delivers. Qed.
End stream.

(** ** Witness: an event, a comment, a close, and a cut in the middle *)
Definition sample_evs : list SseSession.event :=
  [SseSession.EvSend sample_event; SseSession.EvStart; SseSession.EvStarted None; SseSession.EvComment (str "still here");
   SseSession.EvWritten None; SseSession.EvClose; SseSession.EvWritten None].
Definition sample_config : config := default (start_config 64) (serve (start_config 64) sample_evs).
Lemma cut_in_two n (w : bytes) : concat [take n w; drop n w] = w.
Proof. cbn [concat]. by rewrite app_nil_r, take_drop. Qed.
Lemma sample_finished : SseSession.AsyncFinish ∈ cf_out sample_config.
Proof. apply list_elem_of_In. vm_compute. tauto. Qed.
Definition sample_head : response FieldList.t := SseSession.response_head 11 true.
Theorem stream_end_to_end_witness :
  reports (client_run_events (λ _, SseClient.Returns) (SseClient.init 64)
    (opening sample_head ++ reads [take 20 (wire sample_config); drop 20 (wire sample_config)] ++ [SseClient.EvRead None [] true])).2
  = [SseClient.Deliver (SseEvent.mk (str "tick") (str "a" ++ [LF] ++ str "b") (str "9") (Some 5%N)); SseClient.Closed None].
Proof.
  assert (concat [take 20 (wire sample_config); drop 20 (wire sample_config)] = wire sample_config) as Hw by apply cut_in_two.
  destruct (stream_end_to_end (F:=FieldList.t) (λ _, SseClient.Returns) 64 64 sample_evs sample_config
    [take 20 (wire sample_config); drop 20 (wire sample_config)] 11 true None true) as (got & _ & Hrep & Hall).
  - lia.
  - unfold size_max. lia.
  - by vm_compute.
  - intros e n Hin Hn. apply list_elem_of_In in Hin. cbn in Hin. destruct_or! Hin; try discriminate Hin; injection Hin as <-; injection Hn as <-; reflexivity.
  - done.
  - repeat constructor; by vm_compute.
  - by rewrite Hw.
  - by left.
  - unfold sample_head. rewrite Hrep, (Hall sample_finished Hw). by vm_compute.
Defined.
