(* ===== verification/SseDemo.v ===== *)
(** * The SSE demo of the example application ([example/SseDemo.hpp])

    The handler of [/events] greets the client and then publishes a numbered
    event every second until the session refuses one. Composed with the session
    and the client of the library: whatever the stream and the timer do, a
    client sees the greeting and then the numbers from 1 on, without a gap. *)
From S2P Require Import Prelude Text Numbers Http SseFormat SseParser SseRoundTrip SseTheorems.
From S2P Require Import SseClient SseClientTheorems SseSession SseSessionTheorems SseStream.
Set Default Proof Using "Type*".

Module SseDemo.
(** [State]: the sequence number, an [unsigned int]; [waiting]: the timer's
    [async_wait] has not completed. *)
Record t := mk { session : SseSession.t; sequence : Z; waiting : bool }.
Definition u32 (z : Z) : Z := (z mod 2 ^ 32)%Z.
Definition welcome : SseEvent :=
  SseEvent.mk (str "welcome") (htm "{'message':'Connected to the khttpd SSE demo'}") (str "1") (Some 1000%N).
Definition tick (number : Z) : SseEvent :=
  SseEvent.mk (str "tick") (htm "{'sequence':" ++ to_dec_Z number ++ str "}") [] None.

(** The result of [send]. *)
Definition accepts (out : list SseSession.effect) : bool :=
  match last out with Some (SseSession.Returned b) => b | _ => false end.
(** The calls on the session are returned in their order. *)
Definition publish_tick (d : t) : t * list SseSession.event :=
  if negb (SseSession.is_open (session d)) then (d, [])
  else
    let event := tick (sequence d) in
    let next := u32 (sequence d + 1) in
    let '(s, out) := SseSession.send event (session d) in
    if accepts out
    then (mk s next true, [SseSession.EvSend event])
    else (mk (SseSession.close s).1 next (waiting d), [SseSession.EvSend event; SseSession.EvClose]).
(** The handler of [/events], and [session->start()] after it. The close handler
    only cancels the timer: its wait completes, cancelled or just expired. *)
Definition run_calls (s : SseSession.t) (calls : list SseSession.event) : SseSession.t :=
  fold_left (λ s ev, (SseSession.handle s ev).1) calls s.
Definition open_stream (maximum : Z) : t * list SseSession.event :=
  let greeting := [SseSession.EvOnClose 0; SseSession.EvSend welcome] in
  let '(d, calls) := publish_tick (mk (run_calls (SseSession.init maximum) greeting) 1 false) in
  (mk (run_calls (session d) [SseSession.EvStart]) (sequence d) (waiting d), greeting ++ calls ++ [SseSession.EvStart]).

(** What happens afterwards: the wait of the timer completes, or an operation of
    the response stream does. *)
Inductive completion := Started (ec : option sse_error) | Disconnected (ec : option sse_error) | Written (ec : option sse_error) | Finished (ec : option sse_error).
Definition session_event (k : completion) : SseSession.event :=
  match k with
  | Started ec => SseSession.EvStarted ec | Disconnected ec => SseSession.EvDisconnect ec
  | Written ec => SseSession.EvWritten ec | Finished ec => SseSession.EvFinished ec
  end.
Inductive happening := Timer (cancelled : bool) | Stream (k : completion).
Definition on_happening (h : happening) (d : t) : t * list SseSession.event :=
  match h with
  | Timer cancelled =>
      if negb (waiting d) then (d, [])
      else let d := mk (session d) (sequence d) false in if cancelled then (d, []) else publish_tick d
  | Stream k => (mk (SseSession.handle (session d) (session_event k)).1 (sequence d) (waiting d), [session_event k])
  end.
Fixpoint continue (hs : list happening) (d : t) : list SseSession.event :=
  match hs with [] => [] | h :: hs => let '(d, calls) := on_happening h d in calls ++ continue hs d end.
(** Everything that happens to the session of one client. *)
Definition demo (maximum : Z) (hs : list happening) : list SseSession.event :=
  let '(d, calls) := open_stream maximum in calls ++ continue hs d.
End SseDemo.

(** ** The events of a client *)
Section demo.
Import SseDemo.
Implicit Types (d : SseDemo.t).
Definition ticks (n : nat) : list SseEvent := (λ k, tick (u32 (Z.of_nat k))) <$> seq 1 n.
(** [k] events were published so far. *)
Definition ticks_from (k n : nat) : list message := (λ k, Event (tick (u32 (Z.of_nat k)))) <$> seq (S k) n.

Lemma accepted_app s a b : accepted s (a ++ b) = accepted s a ++ accepted (run_calls s a) b.
Proof.
  revert s. induction a as [|ev a IH]; intros s; cbn [app accepted run_calls fold_left]; [done|]. by rewrite IH, (assoc_L (++)).
Qed.
Lemma is_open_false s : SseSession.is_open s = false ↔ SseSession.closing s = true ∨ SseSession.closed s = true.
Proof. unfold SseSession.is_open. destruct (SseSession.closing s), (SseSession.closed s); naive_solver. Qed.
Lemma send_accepts e s : accepted s [SseSession.EvSend e] = if accepts (SseSession.send e s).2 then [Event e] else [].
Proof.
  cbn [accepted message_of SseSession.handle]. rewrite app_nil_r. unfold accepts. by destruct (last _) as [[| | | | | | | |[]]|].
Qed.
Lemma u32_next k : u32 (u32 (Z.of_nat k) + 1) = u32 (Z.of_nat (S k)).
Proof. unfold u32. rewrite Zplus_mod_idemp_l. f_equal. lia. Qed.
Lemma u32_idem k : u32 (u32 k) = u32 k.
Proof. unfold u32. by rewrite Z.mod_mod. Qed.

(** One call of [publish_tick]: nothing is accepted, or the next number is and
    the sequence goes on; after a refusal the session takes nothing more. *)
Lemma publish_accepts k d calls d' :
  sequence d = u32 (Z.of_nat (S k)) → publish_tick d = (d', calls) →
  run_calls (session d) calls = session d' ∧
  (accepted (session d) calls = [] ∧ SseSession.is_open (session d') = false ∨
   accepted (session d) calls = ticks_from k 1 ∧ sequence d' = u32 (Z.of_nat (S (S k)))).
Proof.
  intros Hk. unfold publish_tick. destruct (SseSession.is_open (session d)) eqn:Ho; cbn [negb].
  2: { intros [= <- <-]. split; [done|]. by left. }
  pose proof (send_accepts (tick (sequence d)) (session d)) as Hs.
  destruct (SseSession.send (tick (sequence d)) (session d)) as [s out] eqn:Hsend. cbn [snd] in Hs.
  destruct (accepts out) eqn:Ha; intros [= <- <-].
  - split; [cbn; by rewrite Hsend|]. right. rewrite Hs, Hk. split; [done|]. cbn [sequence]. apply u32_next.
  - split; [cbn; by rewrite Hsend|]. left. split.
    + change [SseSession.EvSend ?e; SseSession.EvClose] with ([SseSession.EvSend (tick (sequence d))] ++ [SseSession.EvClose]).
      by rewrite accepted_app, Hs.
    + cbn [session]. apply is_open_false, close_shuts.
Qed.
Lemma ticks_from_cons k n : ticks_from k 1 ++ ticks_from (S k) n = ticks_from k (S n).
Proof. done. Qed.
Lemma continue_accepts hs k d :
  sequence d = u32 (Z.of_nat (S k)) → ∃ n, accepted (session d) (continue hs d) = ticks_from k n.
Proof.
  revert k d. induction hs as [|h hs IH]; intros k d Hk; cbn [continue]; [by exists 0|].
  destruct h as [cancelled|c]; cbn [on_happening].
  - destruct (waiting d); cbn [negb]; [|by apply IH]. destruct cancelled; [by apply (IH k (mk (session d) (sequence d) false))|].
    destruct (publish_tick (mk (session d) (sequence d) false)) as [d' calls] eqn:Hp.
    destruct (publish_accepts k (mk (session d) (sequence d) false) calls d' Hk Hp) as [Hs Hor]. cbn [session] in *. rewrite accepted_app, Hs.
    destruct Hor as [[-> Ho]|[-> Hk']].
    + exists 0. rewrite shut_accepted; [done|]. by apply is_open_false.
    + destruct (IH (S k) d' Hk') as [n ->]. exists (S n). apply ticks_from_cons.
  - rewrite accepted_app.
    assert (accepted (session d) [session_event c] = []) as -> by by destruct c.
    apply (IH k (mk (SseSession.handle (session d) (session_event c)).1 (sequence d) (waiting d)) Hk).
Qed.
(** What the session of a client accepts. *)
Lemma demo_accepted hs :
  ∃ n, accepted (SseSession.init SseSession.default_max_pending_bytes) (demo SseSession.default_max_pending_bytes hs)
       = Event welcome :: ticks_from 0 n.
Proof.
  unfold demo, open_stream. set (s0 := SseSession.init SseSession.default_max_pending_bytes).
  set (greeting := [SseSession.EvOnClose 0; SseSession.EvSend welcome]).
  destruct (publish_tick (mk (run_calls s0 greeting) 1 false)) as [d calls] eqn:Hp.
  destruct (publish_accepts 0 (mk (run_calls s0 greeting) 1 false) calls d eq_refl Hp) as [Hs Hor]. cbn [session] in Hs, Hor.
  assert (accepted s0 greeting = [Event welcome]) as Hg by (vm_compute; reflexivity).
  set (d1 := mk (run_calls (session d) [SseSession.EvStart]) (sequence d) (waiting d)).
  assert (∀ k, sequence d = u32 (Z.of_nat (S k)) → ∃ n, accepted (session d) ([SseSession.EvStart] ++ continue hs d1) = ticks_from k n) as Hrest.
  { intros k Hk. rewrite accepted_app. destruct (continue_accepts hs k d1 Hk) as [n Hn]. exists n. exact Hn. }
  rewrite <-!(assoc_L (++)), accepted_app, Hg, accepted_app, Hs. cbn [app]. destruct Hor as [[-> Ho]|[-> Hk]].
  - exists 0. rewrite shut_accepted; [done|]. by apply is_open_false.
  - destruct (Hrest 1 Hk) as [n Hn]. exists (S n). by rewrite <-(ticks_from_cons 0 n), <-Hn.
Qed.

(** *** As the client receives them: a tick keeps the identifier of the greeting *)
Definition welcome_received : SseEvent := welcome.
Definition tick_received (k : nat) : SseEvent :=
  SseEvent.mk (str "tick") (htm "{'sequence':" ++ to_dec_Z (u32 (Z.of_nat k)) ++ str "}") (str "1") None.
Lemma tick_data_line z : (0 ≤ z)%Z → Forall (λ c, is_eol c = false) (SseEvent.data (tick z)).
Proof.
  intros Hz. unfold tick, to_dec_Z. cbn [SseEvent.data]. rewrite bool_decide_eq_false_2 by lia.
  apply Forall_app. split; [by repeat constructor|]. apply Forall_app. split; [|by repeat constructor].
  eapply Forall_impl; [apply to_dec_digits|]. intros c Hc.
  pose proof (forall_bytes (λ c, negb (isdigit c) || negb (is_eol c)) ltac:(vm_compute; reflexivity) c) as Hb. cbn in Hb.
  rewrite Hc in Hb. by destruct (is_eol c).
Qed.
Lemma received_tick k : received (str "1") (tick (u32 (Z.of_nat k))) = tick_received k.
Proof.
  unfold received. rewrite (split_lines_plain (SseEvent.data _)) by (apply tick_data_line, Z.mod_pos_bound; lia).
  unfold join_lines. cbn [fmap list_fmap concat]. rewrite app_nil_r, removelast_last. done.
Qed.
Lemma received_demo n :
  received_all [] (omap sse_event_of (Event welcome :: ticks_from 0 n)) = welcome_received :: (tick_received <$> seq 1 n).
Proof.
  cbn [omap list_omap sse_event_of received_all].
  change (received_id [] (SseEvent.id welcome)) with (str "1"). change (received [] welcome) with welcome_received. f_equal. unfold ticks_from.
  generalize 1 as k. induction n as [|n IH]; intros k; [done|]. cbn [seq fmap list_fmap omap list_omap sse_event_of received_all].
  rewrite received_tick. change (received_id (str "1") (SseEvent.id (tick (u32 (Z.of_nat k))))) with (str "1"). by f_equal.
Qed.
Lemma demo_retries maximum hs e n : SseSession.EvSend e ∈ demo maximum hs → SseEvent.retry e = Some n → (n < 2 ^ 64)%N.
Proof.
  assert (∀ e, e = welcome ∨ (∃ z, e = tick z) → ∀ n, SseEvent.retry e = Some n → (n < 2 ^ 64)%N) as Hgood.
  { intros ? [->|[z ->]] ? [= <-]. by vm_compute. }
  assert (∀ d e, SseSession.EvSend e ∈ (publish_tick d).2 → ∃ z, e = tick z) as Hpub.
  { intros d e' Hin. exists (sequence d). unfold publish_tick in Hin. destruct (negb _); [by apply elem_of_nil in Hin|].
    destruct (SseSession.send _ _) as [s out]. destruct (accepts out); cbn in Hin; rewrite !elem_of_cons, elem_of_nil in Hin; naive_solver. }
  assert (∀ hs d e, SseSession.EvSend e ∈ continue hs d → ∃ z, e = tick z) as Hcont.
  { intros l. induction l as [|h l IH]; intros d e'; cbn [continue]; [by intros ?%elem_of_nil|].
    destruct h as [cancelled|k]; cbn [on_happening].
    - destruct (negb (waiting d)); [apply IH|]. destruct cancelled; [apply IH|]. specialize (Hpub (mk (session d) (sequence d) false)).
      destruct (publish_tick _) as [d' calls]. intros [?|?]%elem_of_app; [by apply Hpub|by eapply IH].
    - intros [Hin|?]%elem_of_app; [|by eapply IH]. apply elem_of_cons in Hin as [Hin|?%elem_of_nil]; [|done]. by destruct k. }
  intros Hin. apply Hgood. unfold demo, open_stream in Hin.
  pose proof (Hpub (mk (run_calls (SseSession.init maximum) [SseSession.EvOnClose 0; SseSession.EvSend welcome]) 1 false)) as Hp.
  destruct (publish_tick _) as [d calls]. rewrite !elem_of_app, !elem_of_cons, !elem_of_nil in Hin.
  destruct_or! Hin; try done; [left; by injection Hin|right; by apply Hp|right; by eapply Hcont].
Qed.
End demo.

(** ** The property *)
(** The demo end to end, with the limits of the library: whatever the timer and
    the operations of the response stream do, and whatever part of the bytes
    reaches the client, it accepts the stream and its event callback gets a
    beginning of the greeting followed by the ticks 1, 2, 3, ... without a gap
    (the number of the tick modulo [2^32]), then one end report; all of them
    when the session finished and every byte arrived. *)
Theorem demo_stream {F} `{HttpFieldsLaws F} on_event hs c chunks version keep_alive ec done :
  serve (start_config SseSession.default_max_pending_bytes) (SseDemo.demo SseSession.default_max_pending_bytes hs) = Some c →
  (∀ e, on_event e = SseClient.Returns) →
  Forall (λ x, x ≠ []) chunks → concat chunks `prefix_of` wire c → done = true ∨ ec ≠ None →
  let head : response F := SseSession.response_head version keep_alive in
  ∃ n got, got `prefix_of` welcome_received :: (tick_received <$> seq 1 n) ∧
    reports (client_run_events on_event (SseClient.init SseParser.default_max_event_bytes)
      (opening head ++ reads chunks ++ [SseClient.EvRead ec [] done])).2
    = (SseClient.Deliver <$> got) ++ [SseClient.Closed (end_of ec done)] ∧
    (SseSession.AsyncFinish ∈ cf_out c → concat chunks = wire c → got = welcome_received :: (tick_received <$> seq 1 n)).
Proof.
  intros Hs Hret Hne Hpre Hend head. destruct (demo_accepted hs) as [n Hn]. exists n.
  destruct (stream_delivers (F := F) on_event SseParser.default_max_event_bytes SseSession.default_max_pending_bytes
    (SseDemo.demo SseSession.default_max_pending_bytes hs) c chunks version keep_alive ec done) as (got & Hp & Hrep & Hall);
    [unfold SseSession.default_max_pending_bytes, SseParser.default_max_event_bytes; lia|by vm_compute|exact Hs|
     intros e n'; apply demo_retries|exact Hret|exact Hne|exact Hpre|exact Hend|].
  rewrite Hn, received_demo in Hp, Hall. exists got. exact (conj Hp (conj Hrep Hall)).
Qed.
