(* ===== verification/OpenApiAssets.v ===== *)
(** * The fixed texts of the documentation page ([router/openapi.cpp])

    The markup around the values, with the style sheet, and the script of the
    page, byte for byte; [web] reads a back quote as a double quote. *)
From S2P Require Import Prelude.

Definition web (s : string) : bytes := (λ c, if decide (c = "`"%char) then DQ else c) <$> str s.
Arguments web s%_string : simpl never.

Definition page_open : bytes :=
  web "<!doctype html><html lang=`en`><head><meta charset=`utf-8`><meta name=`viewport` content=`width=device-width,i" ++
  web "nitial-scale=1`><meta name=`color-scheme` content=`light`><title>".
Definition page_style : bytes :=
  web " · API documentation</title><style>:root{--ink:#162033;--muted:#657085;--line:#dce3ed;--surface:#fff;--soft:#f" ++
  web "5f7fb;--brand:#3157d5}*{box-sizing:border-box}html{scroll-behavior:smooth}body{margin:0;background:var(--soft)" ++
  web ";color:var(--ink);font:15px/1.55 Inter,ui-sans-serif,system-ui,-apple-system,BlinkMacSystemFont,`Segoe UI`,san" ++
  web "s-serif}a{color:var(--brand)}code,pre{font-family:ui-monospace,SFMono-Regular,Menlo,Consolas,monospace}.topbar" ++
  web "{background:linear-gradient(120deg,#eff6ff,#dbeafe 60%,#bfdbfe);color:#172554;padding:46px max(24px,calc((100v" ++
  web "w - 1320px)/2)) 38px}.eyebrow{margin:0 0 8px;color:#3157d5;font-size:12px;font-weight:800;letter-spacing:.13em" ++
  web ";text-transform:uppercase}.topbar h1{margin:0;font-size:clamp(30px,4vw,44px);letter-spacing:-.035em}.topbar-co" ++
  web "py{display:flex;align-items:center;justify-content:space-between;gap:24px}.version{margin:9px 0 0;color:#47556" ++
  web "9}.spec-link{display:inline-flex;align-items:center;gap:8px;border:1px solid #93c5fd;border-radius:9px;padding" ++
  web ":10px 14px;color:#1e40af;text-decoration:none;font-weight:700;background:rgba(255,255,255,.72)}.layout{display" ++
  web ":grid;grid-template-columns:260px minmax(0,1fr);gap:30px;max-width:1320px;margin:0 auto;padding:30px 24px 70px" ++
  web "}.sidebar{position:sticky;top:20px;align-self:start;max-height:calc(100vh - 40px);overflow:auto}.overview{disp" ++
  web "lay:grid;grid-template-columns:1fr 1fr;gap:10px;margin-bottom:22px}.stat{background:var(--surface);border:1px " ++
  web "solid var(--line);border-radius:12px;padding:14px}.stat strong{display:block;font-size:24px;line-height:1.1}.s" ++
  web "tat span{color:var(--muted);font-size:12px}.sidebar h2{font-size:12px;letter-spacing:.1em;text-transform:upper" ++
  web "case;color:var(--muted);margin:0 0 8px}.sidebar nav{display:flex;flex-direction:column;gap:4px}.nav-item{displ" ++
  web "ay:flex;align-items:center;gap:9px;padding:8px 10px;border-radius:8px;color:#334155;text-decoration:none;min-w" ++
  web "idth:0}.nav-item:hover{background:#e9edf7;color:#172554}.nav-method{width:47px;flex:none;border:1px solid curr" ++
  web "entColor;border-radius:5px;padding:1px 3px;text-align:center;font-size:9px;font-weight:900}.nav-method.get{col" ++
  web "or:#147d64}.nav-method.post{color:#2563eb}.nav-method.put{color:#a76208}.nav-method.patch{color:#7c3aed}.nav-m" ++
  web "ethod.delete{color:#dc3545}.nav-method.options,.nav-method.head,.nav-method.other{color:#64748b}.nav-path{over" ++
  web "flow:hidden;text-overflow:ellipsis;white-space:nowrap;font:12px ui-monospace,monospace}.content{min-width:0}.i" ++
  web "ntro{margin:0 0 18px}.intro h2{font-size:22px;margin:0 0 4px}.intro p{margin:0;color:var(--muted)}.operation{-" ++
  web "-method:#64748b;background:var(--surface);border:1px solid var(--line);border-left:5px solid var(--method);bor" ++
  web "der-radius:14px;margin:0 0 20px;overflow:hidden;box-shadow:0 6px 22px rgba(23,37,84,.045);scroll-margin-top:18" ++
  web "px}.operation-head{display:flex;align-items:center;gap:13px;padding:18px 20px;border-bottom:1px solid var(--li" ++
  web "ne);background:linear-gradient(90deg,color-mix(in srgb,var(--method) 7%,white),white 55%)}.operation-head h2{f" ++
  web "ont-size:16px;margin:0;min-width:0}.operation-head code{overflow-wrap:anywhere}.method{display:inline-flex;jus" ++
  web "tify-content:center;min-width:68px;padding:6px 10px;border-radius:7px;background:var(--method);color:#fff;font" ++
  web "-size:11px;font-weight:900;letter-spacing:.06em}.operation-summary{margin:16px 0 0;font-size:15px;font-weight:" ++
  web "750;}.operation-description{margin:7px 0 0;color:var(--muted);font-size:13px}.operation-body{padding:4px 20px " ++
  web "20px}.operation-section{padding:15px 0;border-bottom:1px solid #edf0f5}.operation-section h3{font-size:13px;ma" ++
  web "rgin:0 0 10px;letter-spacing:.02em}.empty,.section-meta{color:var(--muted);margin:0;font-size:13px}.section-me" ++
  web "ta{margin-bottom:8px}.table-wrap{overflow:auto}table{width:100%;border-collapse:collapse;font-size:13px}th{tex" ++
  web "t-align:left;color:var(--muted);font-size:11px;text-transform:uppercase;letter-spacing:.05em}th,td{padding:8px" ++
  web " 10px;border-bottom:1px solid #edf0f5;vertical-align:top}td code{overflow-wrap:anywhere}.media-type{margin:8px" ++
  web " 0 6px}.media-type span{display:inline-block;border-radius:999px;background:#e8eefc;color:#2949a3;padding:3px " ++
  web "9px;font:11px ui-monospace,monospace}.schema{margin:6px 0 10px;padding:13px 14px;border:1px solid #e2e8f0;bord" ++
  web "er-radius:9px;background:#f8fafc;color:#334155;overflow:auto;font-size:12px}.schema-view{margin:8px 0 12px;bor" ++
  web "der:1px solid #e2e8f0;border-radius:10px;background:#fbfcfe;overflow:hidden}.schema-summary{display:flex;align" ++
  web "-items:center;gap:8px;padding:10px 12px;background:#f1f5f9}.schema-type,.property-type{font:700 11px ui-monosp" ++
  web "ace,monospace;color:#334155}.schema-format{font:11px ui-monospace,monospace;color:var(--muted)}.schema-fields{" ++
  web "padding:0 12px}.schema-property{padding:11px 0;border-top:1px solid #e8edf4}.schema-property:first-child{borde" ++
  web "r-top:0}.property-head{display:flex;align-items:center;gap:8px;flex-wrap:wrap}.property-name{font-weight:750;c" ++
  web "olor:#172554}.property-type{border-radius:5px;background:#e8eefc;color:#2949a3;padding:2px 6px}.required{borde" ++
  web "r-radius:5px;background:#fff1f2;color:#be123c;padding:2px 6px;font-size:10px;font-weight:800}.property-descrip" ++
  web "tion{margin:6px 0 0;color:var(--muted);font-size:12px}.schema-property .schema-view{margin:9px 0 0}.array-item" ++
  web "s{margin:8px 0 0;padding-left:12px;border-left:2px solid #dbe3f0}.array-items>span{color:var(--muted);font-siz" ++
  web "e:11px;font-weight:700}.schema-empty{padding:10px 12px}.schema-raw{margin:0;border-top:1px solid #e2e8f0;paddi" ++
  web "ng:8px 12px}.schema-raw summary{font-size:11px}.response{margin-top:10px}.response-heading{display:flex;align-" ++
  web "items:center;gap:10px}.response-heading code{border-radius:6px;background:#dcfce7;color:#166534;padding:3px 8p" ++
  web "x;font-weight:800}.response-heading span{color:var(--muted);font-size:13px}.try-panel{margin-top:18px;border:1" ++
  web "px solid #cbd8fa;border-radius:12px;background:#f5f8ff;overflow:hidden}.try-toggle{padding:13px 18px;color:#29" ++
  web "49a3;font-size:13px;font-weight:800}.try-panel[open]>.try-toggle{border-bottom:1px solid #d6e0f7}.try-content{" ++
  web "padding:5px 18px 18px}.try-note{margin:8px 0 13px;color:var(--muted);font-size:12px}.try-field{display:block;m" ++
  web "argin:10px 0}.try-field>span{display:block;margin-bottom:5px;font-size:12px;font-weight:750}.try-field small{c" ++
  web "olor:var(--muted);font-weight:500}.try-field input,.try-field textarea{width:100%;border:1px solid #bdc8da;bor" ++
  web "der-radius:8px;background:#fff;color:var(--ink);padding:9px 11px;font:13px ui-monospace,monospace;outline:none" ++
  web "}.try-field textarea{resize:vertical;min-height:90px}.try-field input:focus,.try-field textarea:focus{border-c" ++
  web "olor:#4f6fde;box-shadow:0 0 0 3px rgba(79,111,222,.13)}.try-actions{display:flex;align-items:center;gap:8px;fl" ++
  web "ex-wrap:wrap;margin-top:12px}.button{border:0;border-radius:8px;padding:8px 12px;font:700 12px system-ui;curso" ++
  web "r:pointer}.button:disabled{cursor:wait;opacity:.65}.button.primary{background:#3157d5;color:#fff}.button.secon" ++
  web "dary{border:1px solid #9aabd0;background:#fff;color:#2949a3}.try-feedback{color:#166534;font-size:12px}.try-fe" ++
  web "edback.error{color:#b91c1c}.curl-preview,.try-response pre{margin:12px 0 0;padding:12px;border:1px solid #d8e2" ++
  web "ef;border-radius:9px;background:#f8fafc;color:#334155;overflow:auto;font-size:11px;white-space:pre-wrap;overfl" ++
  web "ow-wrap:anywhere}.try-response{margin-top:14px}.response-result-head{font-size:13px}.try-response code{display" ++
  web ":block}.try-response [data-response-headers]{color:#1e40af}details{margin-top:14px}summary{cursor:pointer;colo" ++
  web "r:var(--muted);font-size:12px;font-weight:700}details pre{margin:8px 0 0;padding:13px;border:1px solid #d8e2ef" ++
  web ";border-radius:9px;background:#f8fafc;color:#334155;overflow:auto;font-size:11px}.operation.get{--method:#147d" ++
  web "64}.operation.post{--method:#2563eb}.operation.put{--method:#c8790a}.operation.patch{--method:#7c3aed}.operati" ++
  web "on.delete{--method:#dc3545}.operation.options{--method:#64748b}.operation.head{--method:#0891b2}@media(max-wid" ++
  web "th:780px){.topbar{padding:32px 20px}.topbar-copy{align-items:flex-start;flex-direction:column}.layout{grid-tem" ++
  web "plate-columns:1fr;padding:22px 16px 50px}.sidebar{position:static;max-height:none}.sidebar nav{display:flex;fl" ++
  web "ex-direction:row;gap:8px;overflow-x:auto;padding:2px 0 10px;scrollbar-width:thin}.nav-item{flex:0 0 auto;max-w" ++
  web "idth:260px;border:1px solid var(--line);background:var(--surface)}.operation-head{align-items:flex-start;flex-" ++
  web "direction:column;gap:9px}.operation-body{padding-left:15px;padding-right:15px}}</style></head><body><header cl" ++
  web "ass=`topbar`><div class=`topbar-copy`><div><p class=`eyebrow`>OpenAPI 3.1</p><h1>".
Definition page_version : bytes := web "</h1><p class=`version`>Version ".
Definition page_spec_link : bytes := web "</p></div><a class=`spec-link` href=`".
Definition page_stats : bytes :=
  web "`>View raw specification&nbsp; ↗</a></div></header><div class=`layout`><aside class=`sidebar`><div class=`over" ++
  web "view`><div class=`stat`><strong>".
Definition page_operations_stat : bytes := web "</strong><span>Paths</span></div><div class=`stat`><strong>".
Definition page_nav : bytes := web "</strong><span>Operations</span></div></div><h2>Endpoints</h2><nav aria-label=`Endpoints`>".
Definition documentation_script : bytes :=
  web "(() => {" ++ [LF] ++
  web "  const shellQuote = value => `'` + value.replace(/'/g, `'\\''`) + `'`;" ++ [LF] ++
  [LF] ++
  web "  function requestFor(panel, requireParameters) {" ++ [LF] ++
  web "    let path = panel.dataset.path;" ++ [LF] ++
  web "    let missingParameter = ``;" ++ [LF] ++
  web "    panel.querySelectorAll(`[data-path-param]`).forEach(input => {" ++ [LF] ++
  web "      const marker = `{` + input.dataset.pathParam + `}`;" ++ [LF] ++
  web "      if (input.value.length === 0) {" ++ [LF] ++
  web "        if (requireParameters) missingParameter = input.dataset.pathParam;" ++ [LF] ++
  web "      } else {" ++ [LF] ++
  web "        path = path.replace(marker, encodeURIComponent(input.value));" ++ [LF] ++
  web "      }" ++ [LF] ++
  web "    });" ++ [LF] ++
  web "    if (missingParameter) throw new Error(`Enter path parameter: ` + missingParameter);" ++ [LF] ++
  [LF] ++
  web "    const headers = {Accept: `application/json`};" ++ [LF] ++
  web "    let missingHeader = ``;" ++ [LF] ++
  web "    panel.querySelectorAll(`[data-header-name]`).forEach(input => {" ++ [LF] ++
  web "      const value = input.value.trim();" ++ [LF] ++
  web "      if (value) {" ++ [LF] ++
  web "        headers[input.dataset.headerName] = value;" ++ [LF] ++
  web "      } else if (requireParameters && input.dataset.headerRequired === `true`) {" ++ [LF] ++
  web "        missingHeader = input.dataset.headerName;" ++ [LF] ++
  web "      }" ++ [LF] ++
  web "    });" ++ [LF] ++
  web "    if (missingHeader) throw new Error(`Enter request header: ` + missingHeader);" ++ [LF] ++
  [LF] ++
  web "    const method = panel.dataset.method;" ++ [LF] ++
  web "    const url = window.location.origin + (path.startsWith(`/`) ? path : `/` + path);" ++ [LF] ++
  web "    const bodyInput = panel.querySelector(`[data-request-body]`);" ++ [LF] ++
  web "    const body = bodyInput ? bodyInput.value.trim() : ``;" ++ [LF] ++
  web "    let command = `curl -i -X ` + method + ` ` + shellQuote(url);" ++ [LF] ++
  web "    Object.entries(headers).forEach(([name, value]) => {" ++ [LF] ++
  web "      if (name !== `Accept`) command += ` \\\n  -H ` + shellQuote(name + `: ` + value);" ++ [LF] ++
  web "    });" ++ [LF] ++
  web "    if (body && method !== `GET` && method !== `HEAD`) {" ++ [LF] ++
  web "      command += ` \\\n  -H ` + shellQuote(`Content-Type: application/json`) +" ++ [LF] ++
  web "        ` \\\n  --data-binary ` + shellQuote(body);" ++ [LF] ++
  web "    }" ++ [LF] ++
  web "    panel.querySelector(`[data-curl-output]`).textContent = command;" ++ [LF] ++
  web "    return {method, url, body, headers, command};" ++ [LF] ++
  web "  }" ++ [LF] ++
  [LF] ++
  web "  function feedback(panel, message, error = false) {" ++ [LF] ++
  web "    const output = panel.querySelector(`[data-feedback]`);" ++ [LF] ++
  web "    output.textContent = message;" ++ [LF] ++
  web "    output.classList.toggle(`error`, error);" ++ [LF] ++
  web "  }" ++ [LF] ++
  [LF] ++
  web "  async function copyText(value) {" ++ [LF] ++
  web "    if (navigator.clipboard && window.isSecureContext) {" ++ [LF] ++
  web "      await navigator.clipboard.writeText(value);" ++ [LF] ++
  web "      return;" ++ [LF] ++
  web "    }" ++ [LF] ++
  web "    const temporary = document.createElement(`textarea`);" ++ [LF] ++
  web "    temporary.value = value;" ++ [LF] ++
  web "    temporary.setAttribute(`readonly`, ``);" ++ [LF] ++
  web "    document.body.appendChild(temporary);" ++ [LF] ++
  web "    temporary.select();" ++ [LF] ++
  web "    const copied = document.execCommand(`copy`);" ++ [LF] ++
  web "    temporary.remove();" ++ [LF] ++
  web "    if (!copied) throw new Error(`Clipboard is unavailable`);" ++ [LF] ++
  web "  }" ++ [LF] ++
  [LF] ++
  web "  document.querySelectorAll(`[data-try-panel]`).forEach(panel => {" ++ [LF] ++
  web "    requestFor(panel, false);" ++ [LF] ++
  web "    panel.addEventListener(`input`, () => {" ++ [LF] ++
  web "      try {" ++ [LF] ++
  web "        requestFor(panel, false);" ++ [LF] ++
  web "        feedback(panel, ``);" ++ [LF] ++
  web "      } catch (error) {" ++ [LF] ++
  web "        feedback(panel, error.message, true);" ++ [LF] ++
  web "      }" ++ [LF] ++
  web "    });" ++ [LF] ++
  web "  });" ++ [LF] ++
  [LF] ++
  web "  document.addEventListener(`click`, async event => {" ++ [LF] ++
  web "    const button = event.target.closest(`[data-action]`);" ++ [LF] ++
  web "    if (!button) return;" ++ [LF] ++
  web "    const panel = button.closest(`[data-try-panel]`);" ++ [LF] ++
  web "    if (!panel) return;" ++ [LF] ++
  [LF] ++
  web "    try {" ++ [LF] ++
  web "      const request = requestFor(panel, button.dataset.action === `send-request`);" ++ [LF] ++
  web "      if (button.dataset.action === `copy-curl`) {" ++ [LF] ++
  web "        await copyText(request.command);" ++ [LF] ++
  web "        feedback(panel, `cURL copied`);" ++ [LF] ++
  web "        return;" ++ [LF] ++
  web "      }" ++ [LF] ++
  [LF] ++
  web "      if (request.body) JSON.parse(request.body);" ++ [LF] ++
  web "      button.disabled = true;" ++ [LF] ++
  web "      feedback(panel, `Sending…`);" ++ [LF] ++
  web "      const options = {" ++ [LF] ++
  web "        method: request.method," ++ [LF] ++
  web "        credentials: `omit`," ++ [LF] ++
  web "        cache: `no-store`," ++ [LF] ++
  web "        redirect: `manual`," ++ [LF] ++
  web "        headers: request.headers" ++ [LF] ++
  web "      };" ++ [LF] ++
  web "      if (request.body && request.method !== `GET` && request.method !== `HEAD`) {" ++ [LF] ++
  web "        options.headers[`Content-Type`] = `application/json`;" ++ [LF] ++
  web "        options.body = request.body;" ++ [LF] ++
  web "      }" ++ [LF] ++
  web "      const response = await fetch(request.url, options);" ++ [LF] ++
  web "      const responseBody = await response.text();" ++ [LF] ++
  web "      const responsePanel = panel.querySelector(`[data-response]`);" ++ [LF] ++
  web "      responsePanel.hidden = false;" ++ [LF] ++
  web "      panel.querySelector(`[data-response-status]`).textContent =" ++ [LF] ++
  web "        response.status + ` ` + response.statusText;" ++ [LF] ++
  web "      panel.querySelector(`[data-response-headers]`).textContent =" ++ [LF] ++
  web "        Array.from(response.headers.entries()).map(entry => entry[0] + `: ` + entry[1]).join(`\n`);" ++ [LF] ++
  web "      panel.querySelector(`[data-response-body]`).textContent = responseBody;" ++ [LF] ++
  web "      feedback(panel, `Request completed`);" ++ [LF] ++
  web "    } catch (error) {" ++ [LF] ++
  web "      feedback(panel, error instanceof SyntaxError ? `Request body is not valid JSON` : error.message, true);" ++ [LF] ++
  web "    } finally {" ++ [LF] ++
  web "      button.disabled = false;" ++ [LF] ++
  web "    }" ++ [LF] ++
  web "  });" ++ [LF] ++
  web "})();".
