(* ===== verification/OpenApi.v ===== *)
(** * The OpenAPI document ([router/openapi.cpp], [router/openapi_schema.hpp])

    [generate_openapi] and its parts over the route descriptors of the router,
    and the checks of [install_openapi_routes] and [export_openapi]. The pages
    are in [OpenApiPage]. A [boost::json::object] is the list of its entries in
    insertion order; [emplace] keeps the entry that is there. *)
From S2P Require Import Prelude Text Numbers PathPattern Http HttpContext TypedRoute HttpRouter.
Set Default Proof Using "Type*".

(** ** JSON objects *)
Abbreviation object := (list (bytes * json)).
Definition emplace (key : bytes) (v : json) (o : object) : object :=
  if bool_decide (key ∈ o.*1) then o else o ++ [(key, v)].
Definition if_contains (key : string) (o : object) : option json := map_get (str key) o.
Definition contains_key (key : string) (o : object) : bool := bool_decide (is_Some (if_contains key o)).
Definition is_string (v : option json) : option bytes := match v with Some (JString s) => Some s | _ => None end.
Definition is_object (v : option json) : option object := match v with Some (JObject o) => Some o | _ => None end.
Definition is_array (v : option json) : option (list json) := match v with Some (JArray l) => Some l | _ => None end.
Definition is_true_bool (v : option json) : bool := match v with Some (JBool b) => b | _ => false end.

(** ** Paths and operations *)
Record DocumentedPath := mk_documented { dp_path : bytes; dp_parameters : list bytes }.
Definition document_path (route_path : bytes) : DocumentedPath :=
  let '(l, tail) := params_of match_http_param route_path in
  mk_documented (concat ((λ p, p.1 ++ str "{" ++ p.2 ++ str "}") <$> l) ++ tail) l.*2.

Section document.
Context `{Verbs}.
Definition method_name (method : verb) : bytes := tolower <$> verb_to_string method.

Definition string_schema : json := JObject [(str "type", JString (str "string"))].
Definition find_parameter (location : RouteParameterLocation) (name : bytes) (parameters : list RouteParameterDocumentation) :
    option RouteParameterDocumentation :=
  head (List.filter (λ p, bool_decide (pd_location p = location) && bool_decide (pd_name p = name)) parameters).
Definition path_parameter (d : RouteDescriptor) (last : bool) (name : bytes) : json :=
  JObject ([(str "name", JString name); (str "in", JString (str "path")); (str "required", JBool true);
            (str "schema", match find_parameter loc_path name (de_parameters d) with Some p => pd_schema p | None => string_schema end)]
           ++ (if last then [(str "x-khttpd-greedy", JBool true)] else [])).
Fixpoint path_parameters_json (d : RouteDescriptor) (names : list bytes) : list json :=
  match names with
  | [] => []
  | name :: names => path_parameter d (bool_decide (names = [])) name :: path_parameters_json d names
  end.
Definition query_parameter (p : RouteParameterDocumentation) : list json :=
  if negb (bool_decide (pd_location p = loc_query)) then []
  else [JObject [(str "name", JString (pd_name p)); (str "in", JString (str "query")); (str "required", JBool (pd_required p));
                 (str "schema", pd_schema p)]].
Definition header_parameter (h : RouteHeader) : list json :=
  if bool_decide (rh_name h = []) then []
  else [JObject ([(str "name", JString (rh_name h)); (str "in", JString (str "header"))]
          ++ (if bool_decide (rh_description h = []) then [] else [(str "description", JString (rh_description h))])
          ++ [(str "required", JBool (rh_required h)); (str "schema", string_schema)])].
Definition json_content (schema : json) : json :=
  JObject [(str "application/json", JObject [(str "schema", schema)])].
Definition make_operation (d : RouteDescriptor) (path_parameters : list bytes) : object :=
  let doc := de_documentation d in
  let operation := if bool_decide (rd_summary doc = []) then [] else emplace (str "summary") (JString (rd_summary doc)) [] in
  let operation := if bool_decide (rd_description doc = []) then operation
                   else emplace (str "description") (JString (rd_description doc)) operation in
  let parameters := path_parameters_json d path_parameters ++ (de_parameters d ≫= query_parameter)
                    ++ (rd_headers doc ≫= header_parameter) in
  let operation := match parameters with [] => operation | _ => emplace (str "parameters") (JArray parameters) operation end in
  let operation := match de_request_schema d with
                   | Some s => emplace (str "requestBody") (JObject [(str "required", JBool true); (str "content", json_content s)]) operation
                   | None => operation
                   end in
  let response := (str "description", JString (str "Successful response")) ::
                  match de_response_schema d with Some s => [(str "content", json_content s)] | None => [] end in
  emplace (str "responses") (JObject [(str "200", JObject response)]) operation.

Record OpenApiInfo := mk_info { oi_title : bytes; oi_version : bytes }.
Definition default_info : OpenApiInfo := mk_info (str "khttpd API") (str "1.0.0").
(** [std::map<std::string, std::map<std::string, object>>] *)
Definition document_one (m : list (bytes * list (bytes * object))) (d : RouteDescriptor) : list (bytes * list (bytes * object)) :=
  let path := document_path (de_path d) in
  map_assign (dp_path path)
    (map_assign (method_name (de_method d)) (make_operation d (dp_parameters path)) (default [] (map_get (dp_path path) m))) m.
Definition documented_paths (ds : list RouteDescriptor) : list (bytes * list (bytes * object)) := fold_left document_one ds [].
Definition paths_json (documented : list (bytes * list (bytes * object))) : object :=
  fold_left (λ paths p, emplace p.1 (JObject (fold_left (λ item o, emplace o.1 (JObject o.2) item) p.2 [])) paths) documented [].
Definition generate_openapi (ds : list RouteDescriptor) (info : OpenApiInfo) : object :=
  [(str "openapi", JString (str "3.1.0"));
   (str "info", JObject [(str "title", JString (oi_title info)); (str "version", JString (oi_version info))]);
   (str "paths", JObject (paths_json (documented_paths ds)))].
End document.

(** ** Paths of the documentation itself *)
Definition literal_character (c : ascii) : bool := isalnum c || bool_decide (c ∈ ["/"%char; "."%char; "_"%char; "-"%char; "~"%char]).
Definition validate_documentation_path (path name : bytes) : outcome exn unit :=
  if bool_decide (head path = Some "/"%char) && forallb literal_character path then Ret tt
  else Throw (InvalidArgument (name ++ str " must be an absolute literal HTTP path")).

(** ** Texts *)
Definition uppercase (input : bytes) : bytes := toupper <$> input.
Definition shell_single_quote (input : bytes) : bytes :=
  str "'" ++ (input ≫= λ c, if bool_decide (c = "'"%char) then str "'\''" else [c]) ++ str "'".
Fixpoint anchor_loop (path : bytes) (last_was_separator : bool) : bytes :=
  match path with
  | [] => []
  | c :: path =>
      if isalnum c then tolower c :: anchor_loop path false
      else if negb last_was_separator then "-"%char :: anchor_loop path true
      else anchor_loop path last_was_separator
  end.
Definition operation_anchor (method path : bytes) : bytes :=
  drop_while_end (λ c, bool_decide (c = "-"%char)) (method ++ anchor_loop path false).
Definition method_class (method : bytes) : bytes :=
  if bool_decide (method ∈ [str "get"; str "post"; str "put"; str "patch"; str "delete"; str "options"; str "head"]) then method
  else str "other".
(** Sixteen draws of [std::random_device]. *)
Definition hexadecimal (n : N) : ascii := default "0"%char (str "0123456789abcdef" !! N.to_nat (N.land n 15)).
Definition make_csp_nonce (draws : list N) : bytes :=
  take 16 draws ≫= λ value, [hexadecimal (N.shiftr value 4); hexadecimal value].

(** ** Schemas of C++ types ([openapi_schema]) *)
Inductive cpp_type :=
| TBool | TIntegral | TFloating | TString | TEnum
| TOptional (t : cpp_type) | TVector (t : cpp_type)
| TDescribed (members : list (bytes * bytes * cpp_type))    (** name, description, type *)
| TOpaque.
Definition is_optional_type (t : cpp_type) : bool := match t with TOptional _ => true | _ => false end.
Definition typed_object (type : string) : object := [(str "type", JString (str type))].
Fixpoint openapi_schema (t : cpp_type) : object :=
  match t with
  | TOptional t => openapi_schema t
  | TBool => typed_object "boolean"
  | TIntegral => typed_object "integer"
  | TFloating => typed_object "number"
  | TString | TEnum => typed_object "string"
  | TVector t => emplace (str "items") (JObject (openapi_schema t)) (typed_object "array")
  | TDescribed members =>
      let fix properties (ms : list (bytes * bytes * cpp_type)) (acc : object) : object :=
        match ms with
        | [] => acc
        | (name, description, m) :: ms =>
            let property_schema := openapi_schema m in
            let property_schema := if bool_decide (description = []) then property_schema
                                   else emplace (str "description") (JString description) property_schema in
            properties ms (emplace name (JObject property_schema) acc)
        end in
      let required := (λ m : bytes * bytes * cpp_type, JString m.1.1) <$> List.filter (λ m, negb (is_optional_type m.2)) members in
      let schema := emplace (str "properties") (JObject (properties members [])) (typed_object "object") in
      match required with [] => schema | _ => emplace (str "required") (JArray required) schema end
  | TOpaque => emplace (str "properties") (JObject []) (typed_object "object")
  end.

(** ** Examples of a schema *)
Definition schema_type_name (schema : object) : bytes :=
  match is_string (if_contains "type" schema) with
  | Some type => type
  | None => if contains_key "properties" schema then str "object"
            else if contains_key "items" schema then str "array" else str "value"
  end.
(** [budget]: nine less the depth, so the ninth level is cut off. *)
Fixpoint schema_example_within (budget : nat) (schema_value : json) : json :=
  match budget, schema_value with
  | S budget, JObject schema =>
      match if_contains "example" schema, if_contains "default" schema, is_array (if_contains "enum" schema) with
      | Some example, _, _ => example
      | None, Some default_value, _ => default_value
      | None, None, Some (v :: _) => v
      | None, None, _ =>
          let type := schema_type_name schema in
          if bool_decide (type = str "object") then
            JObject (fold_left (λ result p, emplace p.1 (schema_example_within budget p.2) result)
                       (default [] (is_object (if_contains "properties" schema))) [])
          else if bool_decide (type = str "array") then JArray []
          else if bool_decide (type = str "string") then JString []
          else if bool_decide (type = str "integer") || bool_decide (type = str "number") then JInt 0
          else if bool_decide (type = str "boolean") then JBool false
          else JNull
      end
  | _, _ => JNull
  end.
Definition schema_example (schema_value : json) (depth : nat) : json := schema_example_within (9 - depth) schema_value.
Definition json_request_schema (operation : object) : option json :=
  request_body ← is_object (if_contains "requestBody" operation);
  content ← is_object (if_contains "content" request_body);
  media_type ← is_object (if_contains "application/json" content);
  if_contains "schema" media_type.
