(* ===== verification/OpenApiPage.v ===== *)
(** * The documentation page ([router/openapi.cpp])

    The renderers of schemas, parameters, bodies, responses and the request
    panel, the page, and the two routes that serve document and page. *)
From S2P Require Import Prelude Text Numbers Http HttpContext TypedRoute HttpRouter OpenApiAssets OpenApi.
Set Default Proof Using "Type*".

Section render.
Context `{Platform} `{Verbs}.
Abbreviation serialize := json_serialize.

(** ** Schemas *)
Definition schema_property_is_required (schema : object) (property_name : bytes) : bool :=
  match is_array (if_contains "required" schema) with
  | None => false
  | Some values => existsb (λ v, match v with JString s => bool_decide (s = property_name) | _ => false end) values
  end.
Definition escaped_string (v : option json) : bytes := escape_html (default [] (is_string v)).
Section property.
Context (render : json → bytes) (schema : object).
Definition render_items (items : option json) : bytes :=
  match items with
  | Some items => htm "<div class='array-items'><span>Items</span>" ++ render items ++ htm "</div>"
  | None => []
  end.
Definition render_property (property : bytes * json) : bytes :=
  htm "<div class='schema-property'><div class='property-head'><code class='property-name'>" ++ escape_html property.1 ++ htm "</code>" ++
  (match property.2 with
   | JObject o => htm "<span class='property-type'>" ++ escape_html (schema_type_name o) ++ htm "</span>"
   | _ => [] end) ++
  (if schema_property_is_required schema property.1 then htm "<span class='required'>required</span>" else []) ++
  htm "</div>" ++
  (match property.2 with
   | JObject property_schema =>
       (match is_string (if_contains "description" property_schema) with
        | Some description => htm "<p class='property-description'>" ++ escape_html description ++ htm "</p>"
        | None => [] end) ++
       (if contains_key "properties" property_schema then render property.2 else []) ++
       render_items (if_contains "items" property_schema)
   | _ => [] end) ++
  htm "</div>".
Definition render_fields : bytes :=
  let type := schema_type_name schema in
  match is_object (if_contains "properties" schema) with
  | Some properties =>
      if bool_decide (type = str "object") then
        match properties with
        | [] => htm "<p class='empty schema-empty'>Object fields are not reflected.</p>"
        | _ => htm "<div class='schema-fields'>" ++ (properties ≫= render_property) ++ htm "</div>"
        end
      else if bool_decide (type = str "array") then render_items (if_contains "items" schema) else []
  | None => if bool_decide (type = str "array") then render_items (if_contains "items" schema) else []
  end.
End property.
Fixpoint render_schema_within (budget : nat) (schema_value : json) (include_raw : bool) : bytes :=
  match budget, schema_value with
  | S budget, JObject schema =>
      htm "<div class='schema-view'><div class='schema-summary'><span class='schema-type'>" ++ escape_html (schema_type_name schema) ++ htm "</span>" ++
      (match is_string (if_contains "format" schema) with
       | Some format => htm "<span class='schema-format'>" ++ escape_html format ++ htm "</span>"
       | None => [] end) ++
      htm "</div>" ++
      render_fields (λ v, render_schema_within budget v false) schema ++
      (if include_raw
       then htm "<details class='schema-raw'><summary>JSON Schema</summary><pre><code>" ++ escape_html (serialize schema_value) ++ htm "</code></pre></details>"
       else []) ++
      htm "</div>"
  | _, _ => htm "<pre class='schema'><code>" ++ escape_html (serialize schema_value) ++ htm "</code></pre>"
  end.
Definition render_schema_view (schema_value : json) (include_raw : bool) (depth : nat) : bytes :=
  render_schema_within (9 - depth) schema_value include_raw.

(** ** Operations *)
Definition render_parameter (parameter_value : json) : bytes :=
  match parameter_value with
  | JObject parameter =>
      htm "<tr><td><code>" ++ escaped_string (if_contains "name" parameter) ++ htm "</code></td><td>" ++
      escaped_string (if_contains "in" parameter) ++ htm "</td><td>" ++
      escaped_string (if_contains "description" parameter) ++ htm "</td><td>" ++
      (if is_true_bool (if_contains "required" parameter) then htm "Yes" else htm "No") ++ htm "</td><td>" ++
      (match if_contains "schema" parameter with
       | Some schema => htm "<code>" ++ escape_html (serialize schema) ++ htm "</code>"
       | None => str "—" end) ++
      htm "</td></tr>"
  | _ => []
  end.
Definition render_parameters (operation : object) : bytes :=
  let result := htm "<section class='operation-section'><h3>Parameters</h3>" in
  match is_array (if_contains "parameters" operation) with
  | None | Some [] => result ++ htm "<p class='empty'>No parameters.</p></section>"
  | Some parameters =>
      result ++ htm "<div class='table-wrap'><table><thead><tr><th>Name</th><th>Location</th><th>Description</th><th>Required</th><th>Schema</th></tr></thead><tbody>" ++
      (parameters ≫= render_parameter) ++ htm "</tbody></table></div></section>"
  end.
Definition render_media_type (media_type : bytes * json) : bytes :=
  htm "<div class='media-type'><span>" ++ escape_html media_type.1 ++ htm "</span></div>" ++
  match is_object (Some media_type.2) ≫= if_contains "schema" with
  | Some schema => render_schema_view schema true 0
  | None => []
  end.
Definition render_content (content : option json) : bytes := default [] (is_object content) ≫= render_media_type.
Definition render_request_body (operation : object) : bytes :=
  let result := htm "<section class='operation-section'><h3>Request body</h3>" in
  match is_object (if_contains "requestBody" operation) with
  | None => result ++ htm "<p class='empty'>No request body.</p></section>"
  | Some request_body =>
      result ++ htm "<p class='section-meta'>" ++
      (if is_true_bool (if_contains "required" request_body) then htm "Required" else htm "Optional") ++ htm "</p>" ++
      render_content (if_contains "content" request_body) ++ htm "</section>"
  end.
Definition render_response (entry : bytes * json) : bytes :=
  htm "<div class='response'><div class='response-heading'><code>" ++ escape_html entry.1 ++ htm "</code>" ++
  (match entry.2 with
   | JObject response =>
       (match is_string (if_contains "description" response) with
        | Some description => htm "<span>" ++ escape_html description ++ htm "</span>"
        | None => [] end) ++
       htm "</div>" ++ render_content (if_contains "content" response)
   | _ => htm "</div>" end) ++
  htm "</div>".
Definition render_responses (operation : object) : bytes :=
  let result := htm "<section class='operation-section'><h3>Responses</h3>" in
  match is_object (if_contains "responses" operation) with
  | None | Some [] => result ++ htm "<p class='empty'>No responses documented.</p></section>"
  | Some responses => result ++ (responses ≫= render_response) ++ htm "</section>"
  end.
Definition render_operation_description (operation : object) : bytes :=
  (match is_string (if_contains "summary" operation) with
   | Some summary => htm "<p class='operation-summary'>" ++ escape_html summary ++ htm "</p>" | None => [] end) ++
  (match is_string (if_contains "description" operation) with
   | Some description => htm "<p class='operation-description'>" ++ escape_html description ++ htm "</p>" | None => [] end).

(** ** The request panel *)
Definition curl_command (upper_method path request_body : bytes) : bytes :=
  str "curl -i -X " ++ upper_method ++ str " " ++ shell_single_quote path ++
  (if negb (bool_decide (request_body = [])) && negb (bool_decide (upper_method = str "GET")) && negb (bool_decide (upper_method = str "HEAD"))
   then str " \" ++ [LF] ++ str "  -H " ++ shell_single_quote (str "Content-Type: application/json") ++
        str " \" ++ [LF] ++ str "  --data-binary " ++ shell_single_quote request_body
   else []).
Definition render_try_field (parameter_value : json) : bytes :=
  match parameter_value with
  | JObject parameter =>
      match is_string (if_contains "in" parameter), is_string (if_contains "name" parameter) with
      | Some location, Some parameter_name =>
          if bool_decide (location = str "path") then
            htm "<label class='try-field'><span>" ++ escape_html parameter_name ++ htm " <small>path</small></span><input type='text' data-path-param='" ++
            escape_html parameter_name ++ htm "' placeholder='Enter " ++ escape_html parameter_name ++ htm "' autocomplete='off'></label>"
          else if bool_decide (location = str "header") then
            htm "<label class='try-field'><span>" ++ escape_html parameter_name ++ htm " <small>header</small></span><input type='text' data-header-name='" ++
            escape_html parameter_name ++ htm "' data-header-required='" ++
            (if is_true_bool (if_contains "required" parameter) then htm "true" else htm "false") ++ htm "' placeholder='Enter " ++
            escape_html parameter_name ++ htm "' autocomplete='off'></label>"
          else []
      | _, _ => []
      end
  | _ => []
  end.
Definition render_try_panel (operation : object) (method path : bytes) : bytes :=
  let upper_method := uppercase method in
  let request_schema := json_request_schema operation in
  let request_body := match request_schema with Some s => serialize (schema_example s 0) | None => [] end in
  htm "<details class='try-panel' data-try-panel data-method='" ++ escape_html upper_method ++ htm "' data-path='" ++ escape_html path ++ htm "'>" ++
  htm "<summary class='try-toggle'>Try request</summary><div class='try-content'><p class='try-note'>Requests are sent to this server without browser credentials.</p>" ++
  (default [] (is_array (if_contains "parameters" operation)) ≫= render_try_field) ++
  (if bool_decide (is_Some request_schema)
   then htm "<label class='try-field'><span>JSON request body</span><textarea rows='7' data-request-body spellcheck='false'>" ++
        escape_html request_body ++ htm "</textarea></label>"
   else []) ++
  htm "<div class='try-actions'><button type='button' class='button secondary' data-action='copy-curl'>Copy cURL</button><button type='button' class='button primary' data-action='send-request'>Send request</button><span class='try-feedback' data-feedback role='status' aria-live='polite'></span></div><pre class='curl-preview'><code data-curl-output>" ++
  escape_html (curl_command upper_method path request_body) ++
  htm "</code></pre><div class='try-response' data-response hidden><div class='response-result-head'><strong data-response-status></strong></div><pre><code data-response-headers></code><code data-response-body></code></pre></div></div></details>".

(** ** The page *)
Record OperationView := mk_view { ov_path : bytes; ov_method : bytes; ov_anchor : bytes; ov_operation : object }.
Definition add_view (path : bytes) (acc : list OperationView * list (bytes * nat)) (operation : bytes * json) :
    list OperationView * list (bytes * nat) :=
  let anchor := operation_anchor operation.1 path in
  let occurrence := S (default 0 (map_get anchor acc.2)) in
  let suffix := if bool_decide (1 < occurrence) then str "-" ++ to_dec (N.of_nat occurrence) else [] in
  (acc.1 ++ [mk_view path operation.1 (anchor ++ suffix) (default [] (is_object (Some operation.2)))], map_assign anchor occurrence acc.2).
Definition operation_views (paths : object) : list OperationView :=
  (fold_left (λ acc p, fold_left (add_view p.1) (default [] (is_object (Some p.2))) acc) paths ([], [])).1.
Definition render_nav_item (o : OperationView) : bytes :=
  htm "<a class='nav-item' href='#" ++ ov_anchor o ++ htm "'><span class='nav-method " ++ method_class (ov_method o) ++ htm "'>" ++
  escape_html (uppercase (ov_method o)) ++ htm "</span><span class='nav-path'>" ++ escape_html (ov_path o) ++ htm "</span></a>".
Definition render_operation (o : OperationView) : bytes :=
  htm "<article class='operation " ++ method_class (ov_method o) ++ htm "' id='" ++ ov_anchor o ++
  htm "'><header class='operation-head'><span class='method'>" ++ escape_html (uppercase (ov_method o)) ++ htm "</span><h2><code>" ++
  escape_html (ov_path o) ++ htm "</code></h2></header><div class='operation-body'>" ++
  render_operation_description (ov_operation o) ++ render_parameters (ov_operation o) ++ render_request_body (ov_operation o) ++
  render_responses (ov_operation o) ++ render_try_panel (ov_operation o) (ov_method o) (ov_path o) ++
  htm "<details><summary>Raw operation JSON</summary><pre><code>" ++ escape_html (serialize (JObject (ov_operation o))) ++
  htm "</code></pre></details></div></article>".
Definition make_documentation_page (document : object) (info : OpenApiInfo) (spec_path script_nonce : bytes) : bytes :=
  let paths := default [] (is_object (if_contains "paths" document)) in
  let operations := operation_views paths in
  page_open ++ escape_html (oi_title info) ++ page_style ++ escape_html (oi_title info) ++ page_version ++
  escape_html (oi_version info) ++ page_spec_link ++ escape_html spec_path ++ page_stats ++ to_dec (N.of_nat (length paths)) ++
  page_operations_stat ++ to_dec (N.of_nat (length operations)) ++ page_nav ++
  (operations ≫= render_nav_item) ++
  htm "</nav></aside><main class='content'><div class='intro'><h2>API reference</h2><p>Select an endpoint to inspect its contract and schemas.</p></div>" ++
  (operations ≫= render_operation) ++
  htm "</main></div><script nonce='" ++ script_nonce ++ htm "'>" ++ documentation_script ++ htm "</script></body></html>".
End render.

(** ** Installation and export *)
Section install.
Context {F : Type} `{HttpFields F} `{Platform} `{Verbs} (sort : list (RouteEntry F) → list (RouteEntry F)).
Definition serve_document (document : bytes) : M F unit :=
  _ ← doM (λ x, set_header (str "X-Content-Type-Options") (str "nosniff") (set_content_type (str "application/json") (set_status status_ok x)));
  set_body document.
Definition serve_page (page nonce : bytes) : M F unit :=
  _ ← doM (λ x, set_header (str "Referrer-Policy") (str "no-referrer")
    (set_header (str "Content-Security-Policy")
       (str "default-src 'none'; style-src 'unsafe-inline'; base-uri 'none'; script-src 'nonce-" ++ nonce ++
        str "'; connect-src 'self'; form-action 'none'; frame-ancestors 'none'")
    (set_header (str "X-Content-Type-Options") (str "nosniff") (set_content_type (str "text/html") (set_status status_ok x)))));
  set_body page.
Definition conflicts (spec_path docs_path : bytes) (d : RouteDescriptor) : bool :=
  bool_decide (de_method d = verb_get) && (bool_decide (de_path d = spec_path) || bool_decide (de_path d = docs_path)).
Definition install_openapi_routes (draws : list N) (info : OpenApiInfo) (spec_path docs_path : bytes) (enabled : bool) (router : HttpRouter F) :
    outcome exn (HttpRouter F) :=
  if negb enabled then Ret router
  else
    _ ← validate_documentation_path spec_path (str "OpenAPI specification path");
    _ ← validate_documentation_path docs_path (str "OpenAPI documentation path");
    if bool_decide (spec_path = docs_path) then
      Throw (InvalidArgument (str "OpenAPI specification and documentation paths must differ"))
    else match List.find (conflicts spec_path docs_path) (rt_descriptors router) with
    | Some d => Throw (InvalidArgument (str "OpenAPI documentation path conflicts with an existing GET route: " ++ de_path d))
    | None =>
        let document := generate_openapi (rt_descriptors router) info in
        router ← add_route sort spec_path verb_get (serve_document (json_serialize (JObject document))) None None false empty_doc [] router;
        let script_nonce := make_csp_nonce draws in
        let page := make_documentation_page document info spec_path script_nonce in
        add_route sort docs_path verb_get (serve_page page script_nonce) None None false empty_doc [] router
    end.
(** What is written to the file; [opened], [written]: the stream's answers. *)
Definition export_openapi (router : HttpRouter F) (output_path : bytes) (info : OpenApiInfo) (opened written : bool) : outcome exn bytes :=
  if bool_decide (output_path = []) then Throw (InvalidArgument (str "OpenAPI output path must not be empty"))
  else if negb opened then Throw (StdException (str "Unable to open OpenAPI output path: " ++ output_path))
  else if negb written then Throw (StdException (str "Unable to write OpenAPI output path: " ++ output_path))
  else Ret (json_serialize (JObject (generate_openapi (rt_descriptors router) info)) ++ [LF]).
End install.
