(* ===== verification/OpenApiTheorems.v ===== *)
(** * The OpenAPI document: properties

    The document holds, for every path and method, the operation of the last
    descriptor that documents them ([generate_openapi_spec]); a documented path
    is the same route pattern as the one it documents
    ([documented_path_same_route]); the shell quoting of the request panel
    reads back ([shell_quote_roundtrip]). *)
From S2P Require Import Prelude Text Numbers PathPattern PathPatternProofs Http HttpContext TypedRoute HttpRouter OpenApi.
Set Default Proof Using "Type*".

(** ** The document *)
Section document.
Context `{Verbs}.
Lemma documented_sorted ds :
  StronglySorted key_lt (documented_paths ds) ∧ Forall (λ p, StronglySorted key_lt p.2) (documented_paths ds).
Proof.
  unfold documented_paths. assert (∀ m, StronglySorted key_lt m → Forall (λ p, StronglySorted key_lt p.2) m →
    StronglySorted key_lt (fold_left document_one ds m) ∧ Forall (λ p, StronglySorted key_lt p.2) (fold_left document_one ds m)) as Hg;
    [|apply Hg; constructor].
  induction ds as [|d ds IH]; intros m Hm Hi; [done|]. cbn [fold_left]. apply IH; unfold document_one; [by apply map_assign_sorted|].
  rewrite Forall_forall in *. intros p [->|Hp]%map_assign_elem; [|by apply Hi]. cbn. apply map_assign_sorted.
  destruct (map_get _ m) as [ops|] eqn:Hg; [|constructor]. apply (map_get_elem m _ _ Hm) in Hg. exact (Hi _ Hg).
Qed.
Definition documents (p m : bytes) (d : RouteDescriptor) : Prop :=
  dp_path (document_path (de_path d)) = p ∧ method_name (de_method d) = m.
#[local] Instance documents_dec p m d : Decision (documents p m d) := _.
Definition operation_for (d : RouteDescriptor) : object := make_operation d (dp_parameters (document_path (de_path d))).
Lemma documented_lookup ds p m :
  map_get m (default [] (map_get p (documented_paths ds))) = operation_for <$> last (filter (documents p m) ds).
Proof.
  unfold documented_paths. induction ds as [|d ds IH] using rev_ind; [done|]. rewrite fold_left_app. cbn [fold_left].
  set (acc := fold_left document_one ds []) in *. unfold document_one.
  rewrite map_get_assign, filter_app, last_app. rewrite (filter_cons _ d), filter_nil.
  case_bool_decide as Hp; [|rewrite decide_False by (intros [? _]; done); done]. cbn [default from_option id].
  rewrite map_get_assign. case_bool_decide as Hm; [rewrite decide_True by done; done|]. rewrite decide_False by (intros [_ ?]; done).
  subst p. cbn. exact IH.
Qed.
(** Emplacing entries with distinct keys keeps them all. *)
Lemma emplace_all {A} (f : A → bytes) (g : A → json) (l : list A) (o : object) :
  NoDup (o.*1 ++ (f <$> l)) → fold_left (λ o x, emplace (f x) (g x) o) l o = o ++ ((λ x, (f x, g x)) <$> l).
Proof.
  revert o. induction l as [|x l IH]; intros o Hn; cbn [fold_left]; [by rewrite app_nil_r|].
  assert (f x ∉ o.*1) as Hx.
  { apply NoDup_app in Hn as (_ & Hn & _). intros Hin. apply (Hn _ Hin). by left. }
  unfold emplace at 2. rewrite bool_decide_eq_false_2 by done. rewrite IH; [by rewrite <-(assoc_L (++))|].
  rewrite fmap_app, <-(assoc_L (++)). exact Hn.
Qed.
Lemma paths_json_entries ds :
  paths_json (documented_paths ds) =
    (λ p : bytes * list (bytes * object), (p.1, JObject ((λ o : bytes * object, (o.1, JObject o.2)) <$> p.2))) <$> documented_paths ds.
Proof.
  destruct (documented_sorted ds) as [Hs Hi]. unfold paths_json.
  rewrite (emplace_all fst (λ p, JObject (fold_left (λ item o, emplace o.1 (JObject o.2) item) p.2 []))); [|by apply map_keys_nodup].
  cbn [app]. apply list_fmap_ext. intros i p Hp. rewrite Forall_forall in Hi. apply list_elem_of_lookup_2, Hi in Hp. do 2 f_equal.
  rewrite (emplace_all fst (λ o, JObject o.2)); [done|]. by apply map_keys_nodup.
Qed.
Lemma map_get_fmap {A B} (f : A → B) k (m : list (bytes * A)) : map_get k ((λ h, (h.1, f h.2)) <$> m) = f <$> map_get k m.
Proof. induction m as [|h m IH]; [done|]. cbn. rewrite IH. by case_bool_decide. Qed.

(** Reading the operation of a path and method out of the document. *)
Definition operation_of (document : object) (p m : bytes) : option object :=
  paths ← is_object (if_contains "paths" document);
  item ← is_object (map_get p paths);
  is_object (map_get m item).
(** C35: the document describes the routes. For every path and method it holds
    the operation of the last registered route whose documented path and method
    they are, built from that route alone, and no other operation. *)
Theorem generate_openapi_spec ds info p m :
  operation_of (generate_openapi ds info) p m = operation_for <$> last (filter (documents p m) ds).
Proof.
  rewrite <-documented_lookup. unfold operation_of.
  change (is_object (if_contains "paths" (generate_openapi ds info))) with (Some (paths_json (documented_paths ds))). cbn [mbind option_bind]. rewrite paths_json_entries.
  rewrite (map_get_fmap (λ o, JObject ((λ o : bytes * object, (o.1, JObject o.2)) <$> o))).
  destruct (map_get p (documented_paths ds)) as [ops|]; [|done]. cbn [fmap option_fmap option_map is_object mbind option_bind default from_option id].
  rewrite (map_get_fmap JObject). by destruct (map_get m ops).
Qed.
(** Every operation of the document comes from a descriptor. *)
Lemma document_entry ds p o m op :
  (p, JObject o) ∈ paths_json (documented_paths ds) → (m, op) ∈ o → ∃ d, d ∈ ds ∧ m = method_name (de_method d).
Proof.
  destruct (documented_sorted ds) as [Hs Hi]. rewrite paths_json_entries. intros ((p' & ops) & [= -> ->] & Hin)%list_elem_of_fmap ((m' & op') & [= -> ->] & Hin')%list_elem_of_fmap.
  apply (map_get_elem _ _ _ Hs) in Hin as Hg. rewrite Forall_forall in Hi. apply (map_get_elem _ _ _ (Hi _ Hin)) in Hin'.
  pose proof (documented_lookup ds p' m') as Hl. rewrite Hg in Hl. cbn in Hl. cbn in Hin'; rewrite Hin' in Hl.
  destruct (last _) as [d|] eqn:Hd; [|done]. apply last_Some_elem_of, list_elem_of_filter in Hd as [[_ Hm] Hd]. by exists d.
Qed.
End document.

(** ** Documented paths *)
Lemma drop_while_app_in (p : ascii → bool) s k c r : drop_while p s = c :: r → drop_while p (s ++ k) = (c :: r) ++ k.
Proof. induction s as [|a s IH]; cbn; [done|]. destruct (p a) eqn:Ha; [exact IH|]. by intros [= -> ->]. Qed.
Lemma drop_while_app_all (p : ascii → bool) s k : drop_while p s = [] → drop_while p (s ++ k) = drop_while p k.
Proof. induction s as [|a s IH]; cbn; [done|]. by destruct (p a). Qed.
(** Whether a parameter begins inside a literal does not depend on how the
    parameter after the literal is spelt. *)
Lemma no_param_before x k z :
  x ≠ [] → (∃ c r, k = c :: r ∧ (c = ":"%char ∨ c = "{"%char)) →
  match_http_param (x ++ k) = None → match_http_param (x ++ "{"%char :: z) = None.
Proof.
  intros Hx (c1 & r1 & -> & Hc1). assert (∀ d, d = ":"%char ∨ d = "{"%char → ident_start d = false ∧ ident_char d = false ∧ d ≠ "}"%char) as Hd by (by intros d [->| ->]).
  destruct (Hd c1 Hc1) as (Hs1 & Hi1 & Hb1). destruct x as [|c0 [|c t]]; [done| |].
  { unfold match_http_param, match_colon_param, match_brace_param. cbn [app].
    change (ident_start "{"%char) with false. by rewrite !andb_false_r. }
  unfold match_http_param, match_colon_param, match_brace_param. cbn [app].
  destruct (bool_decide (c0 = ":"%char) && ident_start c); [done|]. destruct (bool_decide (c0 = "{"%char) && ident_start c); [|done].
  destruct (drop_while ident_char t) as [|d r] eqn:Ht.
  - rewrite !(drop_while_app_all _ _ _ Ht). intros _. done.
  - rewrite !(drop_while_app_in _ _ _ _ _ Ht). cbn [app]. by case_bool_decide.
Qed.
Lemma brace_matches name rest : is_ident name → match_http_param (brace_token name ++ rest) = Some (name, rest).
Proof.
  destruct name as [|c t]; [done|]. intros [Hc Ht]. unfold match_http_param, brace_token, match_colon_param, match_brace_param. cbn [app].
  rewrite Hc. cbn [andb bool_decide]. rewrite (bool_decide_eq_false_2 ("{"%char = ":"%char)) by done. cbn [andb].
  rewrite (bool_decide_eq_true_2 ("{"%char = "{"%char)) by done. cbn [andb].
  assert (∀ t, Forall (λ c, ident_char c = true) t → drop_while ident_char ((t ++ str "}") ++ rest) = str "}" ++ rest ∧ take_while ident_char ((t ++ str "}") ++ rest) = t) as Hw.
  { clear. induction 1 as [|c t Hc _ [IH1 IH2]]; [done|]. cbn. rewrite Hc. split; [exact IH1|]. f_equal. exact IH2. }
  destruct (Hw t Ht) as [-> ->]. done.
Qed.
Definition brace_tok (t name : bytes) : Prop := t = brace_token name ∧ is_ident name.
Lemma scanned_unique l tail s : scanned match_http_param brace_tok l tail s → ∀ fuel, length s ≤ fuel → scan_params match_http_param fuel s = (l, tail).
Proof.
  induction 1 as [tail Hno|literal t name l tail s [-> Hid] Hs IH Hno].
  - induction tail as [|c tail IH]; intros [|fuel] Hf; cbn [scan_params]; try done; try (cbn in Hf; lia).
    pose proof (Hno 0 ltac:(cbn; lia)) as H0. cbn [drop] in H0. rewrite H0, IH; [done| |cbn in Hf; lia].
    intros n Hn. apply (Hno (S n)). cbn. lia.
  - induction literal as [|c literal IHl]; intros fuel Hf.
    + cbn [app] in *. pose proof (brace_matches name s Hid) as Hm. destruct fuel as [|fuel]; [unfold brace_token in Hf; cbn in Hf; lia|].
      unfold brace_token in *. cbn [app scan_params] in *. rewrite Hm, IH; [done|]. cbn in Hf. rewrite !length_app in Hf. lia.
    + destruct fuel as [|fuel]; [cbn in Hf; lia|]. cbn [app scan_params]. pose proof (Hno 0 ltac:(cbn; lia)) as H0. cbn [drop app] in H0. rewrite H0.
      rewrite IHl; [done| |cbn [app length] in Hf; lia]. intros n Hn. apply (Hno (S n)). cbn. lia.
Qed.
Definition documented (l : list (bytes * bytes)) (tail : bytes) : bytes := concat ((λ p, p.1 ++ str "{" ++ p.2 ++ str "}") <$> l) ++ tail.
Lemma documented_scanned l tail s :
  scanned match_http_param (λ t name, (t = colon_token name ∨ t = brace_token name) ∧ is_ident name) l tail s →
  scanned match_http_param brace_tok l tail (documented l tail).
Proof.
  induction 1 as [tail Hno|literal t name l tail s [Ht Hid] Hs IH Hno]; [by constructor|].
  unfold documented. rewrite fmap_cons. cbn [concat fst snd]. fold (documented l tail).
  replace (((literal ++ str "{" ++ name ++ str "}") ++ concat ((λ p, p.1 ++ str "{" ++ p.2 ++ str "}") <$> l)) ++ tail)
    with (literal ++ brace_token name ++ documented l tail) by (unfold documented, brace_token; change (str "{") with ["{"%char]; cbn [app]; rewrite <-!(assoc_L (++)); cbn [app]; by rewrite <-!(assoc_L (++))).
  constructor; [done|exact IH|]. intros n Hn. specialize (Hno n Hn).
  rewrite drop_app_le in Hno |- * by lia. unfold brace_token. cbn [app].
  eapply no_param_before; [|exists (match t with c :: _ => c | [] => ":"%char end), (tl t ++ s)|exact Hno].
  - intros He. apply (f_equal length) in He. rewrite length_drop in He. cbn in He. lia.
  - destruct Ht as [->| ->]; cbn; auto.
Qed.
(** A documented path is the route it documents. Rewriting every [:name] to
    [{name}] gives a route pattern with the same parameters in the same order
    and the same regular expression and specificity, so a client that follows
    the document reaches the route. *)
Theorem documented_path_same_route route_path :
  http_parse_path_pattern (dp_path (document_path route_path)) = http_parse_path_pattern route_path ∧
  dp_parameters (document_path route_path) = pp_param_names (http_parse_path_pattern route_path).
Proof.
  pose proof (params_of_scanned match_http_param _ route_path http_token_of) as Hs.
  unfold document_path, http_parse_path_pattern. destruct (params_of match_http_param route_path) as [l tail]. cbn [dp_path dp_parameters].
  fold (documented l tail). unfold params_of. rewrite (scanned_unique l tail); [done|by eapply documented_scanned|done].
Qed.

(** ** The request panel *)
(** A POSIX shell's reading of one word: single quotes, backslash, and plain
    characters of no meaning to it. *)
Definition shell_plain (c : ascii) : bool := isalnum c || bool_decide (c ∈ ["/"%char; "."%char; "_"%char; "-"%char; ":"%char; "{"%char; "}"%char]).
Fixpoint shell_word (quoted : bool) (s : bytes) : option bytes :=
  match s with
  | [] => if quoted then None else Some []
  | c :: s =>
      if quoted then (if bool_decide (c = "'"%char) then shell_word false s else cons c <$> shell_word true s)
      else if bool_decide (c = "'"%char) then shell_word true s
      else if bool_decide (c = "\"%char) then match s with c :: s => cons c <$> shell_word false s | [] => None end
      else if shell_plain c then cons c <$> shell_word false s else None
  end.
(** Round trip. A shell that reads the quoted text as a word gets exactly
    the text, whatever characters it holds: the commands of the request panel
    cannot run anything else. *)
Theorem shell_quote_roundtrip input : shell_word false (shell_single_quote input) = Some input.
Proof.
  unfold shell_single_quote. set (q := λ c : ascii, _).
  assert (shell_word true ((input ≫= q) ++ str "'") = Some input) as Hq; [|exact Hq].
  induction input as [|c input IH]; [done|]. change ((c :: input) ≫= q) with (q c ++ (input ≫= q)). rewrite <-(assoc_L (++)).
  set (rest := (input ≫= q) ++ str "'") in *. unfold q. case_bool_decide as Hc.
  - subst. change (shell_word true (str "'\''" ++ rest)) with (cons "'"%char <$> shell_word true rest). by rewrite IH.
  - cbn [app shell_word]. by rewrite bool_decide_eq_false_2, IH.
Qed.
