(* ===== verification/TagInvoke.v ===== *)
(** * Data transfer objects ([dto/TagInvoke.hpp], [router/openapi_schema.hpp])

    The two [tag_invoke] templates convert described structs to and from JSON;
    their members go through Boost.JSON's own conversions, modelled as
    documented: scalars exactly, [std::optional] as null or its value,
    [std::vector] as an array, a described enumeration as its name. Reflection
    is a type description; floating point members are left out. *)
From S2P Require Import Prelude Text Numbers Http TypedRoute HttpRouter OpenApi.
Set Default Proof Using "Type*".
#[local] Open Scope Z_scope.

#[warnings="-register-all"]
Inductive dto :=
| DBool
| DInt (lo hi : Z)                        (** an integral type with its limits *)
| DString
| DEnum (names : list bytes)
| DOptional (t : dto)
| DVector (t : dto)
| DStruct (members : list (bytes * bytes * dto)).   (** name, documentation, type *)
(** Values of the described types; the members of a struct in their order. *)
#[warnings="-register-all"]
Inductive cvalue :=
| CBool (b : bool) | CInt (z : Z) | CString (s : bytes) | CEnum (name : bytes)
| CNone | CSome (v : cvalue) | CVector (l : list cvalue) | CStruct (l : list cvalue).

(** ** [tag_invoke(value_from_tag, ...)] *)
Section from_members.
Context (value_from : dto → cvalue → json).
Fixpoint from_members (ms : list (bytes * bytes * dto)) (l : list cvalue) (obj : object) : object :=
  match ms, l with
  | (name, _, t) :: ms, v :: l => from_members ms l (emplace name (value_from t v) obj)
  | _, _ => obj
  end.
End from_members.
Fixpoint value_from (t : dto) (v : cvalue) : json :=
  match t, v with
  | DBool, CBool b => JBool b
  | DInt _ _, CInt z => JInt z
  | DString, CString s | DEnum _, CEnum s => JString s
  | DOptional t, CSome v => value_from t v
  | DVector t, CVector l => JArray (value_from t <$> l)
  | DStruct ms, CStruct l => JObject (from_members value_from ms l [])
  | _, _ => JNull
  end.

(** ** [tag_invoke(value_to_tag, ...)] *)
Inductive conversion_error := not_bool | not_integer | out_of_range | not_string | unknown_name | not_array | not_object.
#[export] Instance conversion_error_eq_dec : EqDecision conversion_error.
Proof. solve_decision. Defined.
Abbreviation conversion := (outcome conversion_error).
Section to_members.
Context (value_to : dto → json → conversion cvalue).
(** A member whose key is absent keeps the value it has in [t]. *)
Fixpoint to_members (ms : list (bytes * bytes * dto)) (t : list cvalue) (obj : object) : conversion (list cvalue) :=
  match ms, t with
  | (name, _, ty) :: ms, initial :: t =>
      v ← match map_get name obj with Some j => value_to ty j | None => Ret initial end;
      rest ← to_members ms t obj;
      Ret (v :: rest)
  | _, _ => Ret []
  end.
End to_members.
Section to_elements.
Context (value_to : json → conversion cvalue).
Fixpoint to_elements (l : list json) : conversion (list cvalue) :=
  match l with
  | [] => Ret []
  | j :: l => v ← value_to j; rest ← to_elements l; Ret (v :: rest)
  end.
End to_elements.
Section value_to.
(** The members of [T t{}]. *)
Context (initial : list (bytes * bytes * dto) → list cvalue).
Fixpoint value_to (t : dto) (jv : json) : conversion cvalue :=
  match t with
  | DBool => match jv with JBool b => Ret (CBool b) | _ => Throw not_bool end
  | DInt lo hi => match jv with
                  | JInt z => if (lo <=? z) && (z <=? hi) then Ret (CInt z) else Throw out_of_range
                  | _ => Throw not_integer
                  end
  | DString => match jv with JString s => Ret (CString s) | _ => Throw not_string end
  | DEnum names => match jv with
                   | JString s => if bool_decide (s ∈ names) then Ret (CEnum s) else Throw unknown_name
                   | _ => Throw not_string
                   end
  | DOptional t => match jv with JNull => Ret CNone | _ => v ← value_to t jv; Ret (CSome v) end
  | DVector t => match jv with JArray l => vs ← to_elements (value_to t) l; Ret (CVector vs) | _ => Throw not_array end
  | DStruct ms => match jv with JObject obj => vs ← to_members value_to ms (initial ms) obj; Ret (CStruct vs) | _ => Throw not_object end
  end.
End value_to.

(** ** Typing *)
Section all_members.
Context (has_type : dto → cvalue → bool).
Fixpoint all_members (ms : list (bytes * bytes * dto)) (l : list cvalue) : bool :=
  match ms, l with
  | [], [] => true
  | m :: ms, v :: l => has_type m.2 v && all_members ms l
  | _, _ => false
  end.
End all_members.
Fixpoint has_type (t : dto) (v : cvalue) : bool :=
  match t, v with
  | DBool, CBool _ | DString, CString _ | DOptional _, CNone => true
  | DInt lo hi, CInt z => (lo <=? z) && (z <=? hi)
  | DEnum names, CEnum s => bool_decide (s ∈ names)
  | DOptional t, CSome v => has_type t v
  | DVector t, CVector l => forallb (has_type t) l
  | DStruct ms, CStruct l => all_members has_type ms l
  | _, _ => false
  end.
Definition is_optional_dto (t : dto) : bool := match t with DOptional _ => true | _ => false end.
(** Member names differ and limits are around zero, as C++ has it; an enumeration
    has a name; and no optional of an optional, whose empty value JSON cannot tell
    apart. *)
Fixpoint wf_dto (t : dto) : bool :=
  match t with
  | DInt lo hi => (lo <=? 0) && (0 <=? hi)
  | DEnum names => negb (bool_decide (names = []))
  | DOptional t => negb (is_optional_dto t) && wf_dto t
  | DVector t => wf_dto t
  | DStruct ms => bool_decide (NoDup ((λ m : bytes * bytes * dto, m.1.1) <$> ms)) && forallb (λ m : bytes * bytes * dto, wf_dto m.2) ms
  | _ => true
  end.
(** No optional inside is empty. *)
Fixpoint present (v : cvalue) : bool :=
  match v with
  | CNone => false
  | CSome v => present v
  | CVector l | CStruct l => forallb present l
  | _ => true
  end.

(** ** The schema of the same type *)
Fixpoint reflected (t : dto) : cpp_type :=
  match t with
  | DBool => TBool | DInt _ _ => TIntegral | DString => TString | DEnum _ => TEnum
  | DOptional t => TOptional (reflected t) | DVector t => TVector (reflected t)
  | DStruct ms => TDescribed ((λ m : bytes * bytes * dto, (m.1, reflected m.2)) <$> ms)
  end.
(** JSON Schema, for the keywords the generator writes; others are annotations. *)
Definition instance_of (type : bytes) (j : json) : bool :=
  if bool_decide (type = str "boolean") then match j with JBool _ => true | _ => false end
  else if bool_decide (type = str "integer") || bool_decide (type = str "number") then match j with JInt _ => true | _ => false end
  else if bool_decide (type = str "string") then match j with JString _ => true | _ => false end
  else if bool_decide (type = str "array") then match j with JArray _ => true | _ => false end
  else if bool_decide (type = str "object") then match j with JObject _ => true | _ => false end
  else false.
Section validates_keywords.
Context (validates : json → json → bool).
Fixpoint validates_properties (properties obj : object) : bool :=
  match properties with
  | [] => true
  | (name, schema) :: properties =>
      match map_get name obj with Some j => validates schema j | None => true end && validates_properties properties obj
  end.
Definition has_required (names : list json) (obj : object) : bool :=
  forallb (λ n, match n with JString n => bool_decide (is_Some (map_get n obj)) | _ => true end) names.
Definition validates_keyword (key : bytes) (value j : json) : bool :=
  if bool_decide (key = str "type") then match value with JString type => instance_of type j | _ => true end
  else if bool_decide (key = str "items") then match j with JArray l => forallb (validates value) l | _ => true end
  else if bool_decide (key = str "properties") then
    match value, j with JObject properties, JObject obj => validates_properties properties obj | _, _ => true end
  else if bool_decide (key = str "required") then
    match value, j with JArray names, JObject obj => has_required names obj | _, _ => true end
  else true.
Fixpoint validates_keywords (schema : object) (j : json) : bool :=
  match schema with [] => true | (key, value) :: schema => validates_keyword key value j && validates_keywords schema j end.
End validates_keywords.
Fixpoint validates (schema j : json) {struct schema} : bool :=
  match schema with JObject s => validates_keywords validates s j | _ => true end.
