(* ===== verification/TagInvokeTheorems.v ===== *)
(** * Data transfer objects: properties

    Values survive the trip through JSON ([value_roundtrip]); conversion
    succeeds exactly for the JSON that denotes a value ([denotes]), and what is sent
    satisfies the schema published for the type unless an optional is empty
    ([conversions_typed]). *)
From S2P Require Import Prelude Text Numbers Http TypedRoute HttpRouter OpenApi OpenApiTheorems TagInvoke.
Set Default Proof Using "Type*".

(** ** Induction on type descriptions *)
Section dto_induction.
Context (P : dto → Prop).
Context (Hbool : P DBool) (Hint : ∀ lo hi, P (DInt lo hi)) (Hstring : P DString) (Henum : ∀ names, P (DEnum names)).
Context (Hopt : ∀ t, P t → P (DOptional t)) (Hvec : ∀ t, P t → P (DVector t)).
Context (Hstruct : ∀ ms, Forall (λ m, P m.2) ms → P (DStruct ms)).
Fixpoint dto_nested (t : dto) : P t :=
  match t with
  | DBool => Hbool | DInt lo hi => Hint lo hi | DString => Hstring | DEnum names => Henum names
  | DOptional t => Hopt t (dto_nested t) | DVector t => Hvec t (dto_nested t)
  | DStruct ms =>
      Hstruct ms ((fix members (ms : list (bytes * bytes * dto)) : Forall (λ m, P m.2) ms :=
        match ms with [] => Forall_nil_2 _ | m :: ms => Forall_cons_2 _ m ms (dto_nested m.2) (members ms) end) ms)
  end.
End dto_induction.

(** ** What a struct is written as *)
Definition names_of (ms : list (bytes * bytes * dto)) : list bytes := (λ m : bytes * bytes * dto, m.1.1) <$> ms.
Lemma from_members_zip (f : dto → cvalue → json) ms : ∀ l obj,
  length ms = length l → NoDup (obj.*1 ++ names_of ms) →
  from_members f ms l obj = obj ++ zip (names_of ms) (zip_with (λ m v, f m.2 v) ms l).
Proof.
  induction ms as [|[[name doc] t] ms IH]; intros [|v l] obj Hl Hn; try done; [by rewrite app_nil_r|].
  cbn [from_members]. unfold emplace. cbn in Hn, Hl. apply NoDup_app in Hn as Hn'. destruct Hn' as (Ho & Hd & Hm).
  rewrite bool_decide_eq_false_2 by (intros Hin; apply (Hd _ Hin); by left).
  rewrite IH; [by rewrite <-app_assoc|lia|]. rewrite fmap_app, <-app_assoc. done.
Qed.
Lemma all_members_Forall2 f ms l : all_members f ms l = true ↔ Forall2 (λ m v, f m.2 v = true) ms l.
Proof.
  split.
  - revert l. induction ms as [|m ms IH]; intros [|v l] Hl; try done. cbn in Hl. apply andb_prop in Hl as [Hv Hl].
    constructor; [done|by apply IH].
  - induction 1; [done|]. cbn. by apply andb_true_intro.
Qed.
Lemma map_get_zip {V} k (x : V) names : ∀ values i,
  NoDup names → names !! i = Some k → values !! i = Some x → map_get k (zip names values) = Some x.
Proof.
  induction names as [|n names IH]; intros [|v values] i Hn Hk Hx; [done|done|by destruct i|]. apply NoDup_cons in Hn as [Hni Hn].
  destruct i as [|i]; cbn in *; [injection Hk as ->; injection Hx as ->; by rewrite bool_decide_eq_true_2|].
  rewrite bool_decide_eq_false_2; [by apply (IH values i)|]. intros ->. by apply list_elem_of_lookup_2 in Hk.
Qed.
(** Member by member, in the object a struct is written as. *)
Lemma from_members_get (f : dto → cvalue → json) ms l i m v :
  length ms = length l → NoDup (names_of ms) → ms !! i = Some m → l !! i = Some v →
  map_get m.1.1 (from_members f ms l []) = Some (f m.2 v).
Proof.
  intros Hl Hn Hm Hv. rewrite from_members_zip by done. cbn [app].
  apply (map_get_zip _ _ _ _ i); [done| |]; unfold names_of; rewrite ?list_lookup_fmap, ?lookup_zip_with, Hm; [done|by rewrite Hv].
Qed.
Lemma wf_struct ms : wf_dto (DStruct ms) = true → NoDup (names_of ms) ∧ Forall (λ m, wf_dto m.2 = true) ms.
Proof.
  cbn. intros [Hn%bool_decide_eq_true_1 Hm]%andb_prop. split; [done|]. apply Forall_forall. intros m Hin.
  by apply (proj1 (forallb_forall _ _) Hm), list_elem_of_In.
Qed.
Lemma value_from_not_null t v : wf_dto t = true → is_optional_dto t = false → has_type t v = true → value_from t v ≠ JNull.
Proof. by destruct t, v. Qed.

(** ** Back and forth *)
Section conversions.
Context (initial : list (bytes * bytes * dto) → list cvalue).
Context (initial_typed : ∀ ms, wf_dto (DStruct ms) = true → has_type (DStruct ms) (CStruct (initial ms)) = true).
Lemma to_elements_map t l : Forall (λ v, value_to initial t (value_from t v) = Ret v) l → to_elements (value_to initial t) (value_from t <$> l) = Ret l.
Proof. induction 1 as [|v l Hv Hl IH]; [done|]. cbn. rewrite Hv. cbn. by rewrite IH. Qed.
Lemma to_members_written ms obj : ∀ l init,
  length init = length ms → Forall2 (λ m v, map_get m.1.1 obj = Some (value_from m.2 v) ∧ value_to initial m.2 (value_from m.2 v) = Ret v) ms l →
  to_members (value_to initial) ms init obj = Ret l.
Proof.
  induction ms as [|[[n d] t] ms IH]; intros l init Hi Hf; [by inversion Hf|].
  destruct init as [|i0 init]; [done|]. inversion Hf as [|m v ms' l' [Hg Hv] Hf']; subst. cbn in *. rewrite Hg, Hv. cbn.
  by rewrite (IH l' init); [|lia|].
Qed.
Lemma initial_length ms : wf_dto (DStruct ms) = true → length (initial ms) = length ms.
Proof. intros Hw%initial_typed. cbn in Hw. apply all_members_Forall2, Forall2_length in Hw. done. Qed.
Lemma value_there_and_back t : ∀ v, wf_dto t = true → has_type t v = true → value_to initial t (value_from t v) = Ret v.
Proof.
  induction t as [|lo hi| |names|t IH|t IH|ms IH] using dto_nested; intros v Hw Ht; destruct v as [b|z|s|s| |v|l|l]; try done; cbn [value_from value_to has_type] in *.
  - by rewrite Ht.
  - by rewrite Ht.
  - cbn [wf_dto] in Hw. apply andb_prop in Hw as [Ho Hw]. apply negb_true_iff in Ho.
    destruct (value_from t v) eqn:Hj; [by destruct (value_from_not_null t v Hw Ho Ht)|..]; rewrite <-Hj, (IH v Hw Ht); done.
  - rewrite to_elements_map; [done|]. apply Forall_forall. intros v Hin. apply IH; [done|]. by apply (proj1 (forallb_forall _ _) Ht), list_elem_of_In.
  - pose proof (wf_struct _ Hw) as [Hn Hwm]. apply all_members_Forall2 in Ht. pose proof (Forall2_length _ _ _ Ht) as Hl.
    rewrite (to_members_written ms _ l); [done|by apply initial_length|].
    apply Forall2_same_length_lookup_2; [done|]. intros i m v Hm Hv. split; [by apply (from_members_get _ _ _ i)|].
    rewrite Forall_forall in IH, Hwm. apply IH; [by eapply list_elem_of_lookup_2|apply Hwm; by eapply list_elem_of_lookup_2|].
    by apply (Forall2_lookup_lr _ _ _ _ _ _ Ht Hm Hv).
Qed.
(** Conversion from any JSON. *)
Lemma to_elements_typed t l vs :
  (∀ j v, value_to initial t j = Ret v → has_type t v = true) → to_elements (value_to initial t) l = Ret vs → forallb (has_type t) vs = true.
Proof.
  intros Ht. revert vs. induction l as [|j l IH]; intros vs; cbn; [by intros [= <-]|].
  intros (v & Hv & Hr)%bind_Ret_inv. apply bind_Ret_inv in Hr as (rest & Hr & [= <-]). cbn. by rewrite (Ht _ _ Hv), (IH _ Hr).
Qed.
Lemma to_members_typed ms obj : ∀ init vs,
  Forall (λ m, ∀ j v, value_to initial m.2 j = Ret v → has_type m.2 v = true) ms → all_members has_type ms init = true →
  to_members (value_to initial) ms init obj = Ret vs → all_members has_type ms vs = true.
Proof.
  induction ms as [|[[n d] t] ms IH]; intros [|i0 init] vs Hf Hi; try done; [by intros [= <-]|]. cbn in Hi. apply andb_prop in Hi as [Hi0 Hi].
  inversion Hf as [|? ? Ht Hf']; subst. cbn in Ht |- *. intros (v & Hv & Hr)%bind_Ret_inv. apply bind_Ret_inv in Hr as (rest & Hr & [= <-]).
  cbn. rewrite (IH _ _ Hf' Hi Hr), andb_true_r. destruct (map_get n obj); [by apply (Ht _ _ Hv)|by injection Hv as <-].
Qed.
Lemma value_to_typed t : ∀ j v, wf_dto t = true → value_to initial t j = Ret v → has_type t v = true.
Proof.
  induction t as [|lo hi| |names|t IH|t IH|ms IH] using dto_nested; intros j v Hw; cbn [value_to].
  - destruct j; try done. by intros [= <-].
  - destruct j as [| |z| | |]; try done. destruct (_ && _) eqn:Hz; [|done]. by intros [= <-].
  - destruct j; try done. by intros [= <-].
  - destruct j; try done. destruct (bool_decide _) eqn:Hs; [|done]. by intros [= <-].
  - cbn [wf_dto] in Hw. apply andb_prop in Hw as [_ Hw].
    destruct j; [by intros [= <-]|..]; intros (v' & Hv & [= <-])%bind_Ret_inv; by apply (IH _ _ Hw Hv).
  - destruct j as [| | | |l|]; try done. intros (vs & Hvs & [= <-])%bind_Ret_inv. cbn. eapply to_elements_typed; [|exact Hvs]. intros j v. by apply IH.
  - destruct j as [| | | | |obj]; try done. intros (vs & Hvs & [= <-])%bind_Ret_inv. cbn [has_type].
    pose proof (wf_struct _ Hw) as [_ Hwm]. eapply to_members_typed; [|by apply initial_typed|exact Hvs].
    rewrite Forall_forall in *. intros m Hin j v. by apply IH, Hwm.
Qed.
End conversions.

(** ** What JSON denotes *)
Section denotes.
Context (initial : list (bytes * bytes * dto) → list cvalue).
(** The value of a type that a JSON value stands for. *)
Inductive denotes : dto → json → cvalue → Prop :=
| denotes_bool b : denotes DBool (JBool b) (CBool b)
| denotes_int lo hi z : (lo ≤ z ≤ hi)%Z → denotes (DInt lo hi) (JInt z) (CInt z)
| denotes_string s : denotes DString (JString s) (CString s)
| denotes_enum names s : s ∈ names → denotes (DEnum names) (JString s) (CEnum s)
| denotes_none t : denotes (DOptional t) JNull CNone
| denotes_some t j v : j ≠ JNull → denotes t j v → denotes (DOptional t) j (CSome v)
| denotes_vector t l vs :
    length l = length vs → (∀ i j v, l !! i = Some j → vs !! i = Some v → denotes t j v) → denotes (DVector t) (JArray l) (CVector vs)
| denotes_struct ms obj vs :
    length ms = length vs →
    (∀ i m v j, ms !! i = Some m → vs !! i = Some v → map_get m.1.1 obj = Some j → denotes m.2 j v) →
    (∀ i m v, ms !! i = Some m → vs !! i = Some v → map_get m.1.1 obj = None → initial ms !! i = Some v) →
    denotes (DStruct ms) (JObject obj) (CStruct vs).
Lemma to_elements_lookup t l vs :
  to_elements (value_to initial t) l = Ret vs ↔
  length l = length vs ∧ ∀ i j v, l !! i = Some j → vs !! i = Some v → value_to initial t j = Ret v.
Proof.
  revert vs. induction l as [|j l IH]; intros vs; cbn [to_elements].
  { split; [by intros [= <-]|]. intros [Hl _]. by destruct vs. }
  split.
  - intros (v & Hv & Hr)%bind_Ret_inv. apply bind_Ret_inv in Hr as (rest & Hr & [= <-]). apply IH in Hr as [Hl Hr].
    split; [cbn; lia|]. intros [|i] j' v'; [by intros [= <-] [= <-]|apply Hr].
  - intros [Hl Hall]. destruct vs as [|v vs]; [done|]. rewrite (Hall 0%nat j v) by done. rewrite bind_Ret.
    rewrite (proj2 (IH vs)); [done|]. split; [by injection Hl|]. intros i. apply (Hall (S i)).
Qed.
Lemma to_members_lookup ms obj init vs :
  length init = length ms →
  to_members (value_to initial) ms init obj = Ret vs ↔
  length ms = length vs ∧ ∀ i m v, ms !! i = Some m → vs !! i = Some v →
    match map_get m.1.1 obj with Some j => value_to initial m.2 j = Ret v | None => init !! i = Some v end.
Proof.
  revert init vs. induction ms as [|[[name doc] t] ms IH]; intros init vs Hi; cbn [to_members].
  { split; [by intros [= <-]|]. intros [Hl _]. by destruct vs. }
  destruct init as [|i0 init]; [done|]. cbn in Hi. split.
  - intros (v & Hv & Hr)%bind_Ret_inv. apply bind_Ret_inv in Hr as (rest & Hr & [= <-]). apply IH in Hr as [Hl Hr]; [|lia].
    split; [cbn; lia|]. intros [|i] m v'; [|apply Hr]. intros [= <-] [= <-]. cbn. destruct (map_get name obj); [done|]. by injection Hv as <-.
  - intros [Hl Hall]. destruct vs as [|v vs]; [done|]. pose proof (Hall 0%nat _ v eq_refl eq_refl) as H0. cbn in H0.
    assert (match map_get name obj with Some j => value_to initial t j | None => Ret i0 end = Ret v) as ->.
    { destruct (map_get name obj); [done|by injection H0 as ->]. }
    rewrite bind_Ret. rewrite (proj2 (IH init vs ltac:(lia))); [done|]. split; [by injection Hl|]. intros i. apply (Hall (S i)).
Qed.
Context (initial_typed : ∀ ms, wf_dto (DStruct ms) = true → has_type (DStruct ms) (CStruct (initial ms)) = true).
Lemma denotes_optional t j v :
  denotes (DOptional t) j v ↔ (j = JNull ∧ v = CNone) ∨ (j ≠ JNull ∧ ∃ w, v = CSome w ∧ denotes t j w).
Proof using Type.
  split; [inversion 1; subst; eauto|]. intros [[-> ->]|(Hj & w & -> & Hw)]; by constructor.
Qed.
Lemma value_to_denotes t : ∀ j v, wf_dto t = true → value_to initial t j = Ret v ↔ denotes t j v.
Proof.
  induction t as [|lo hi| |names|t IH|t IH|ms IH] using dto_nested; intros j v Hw; cbn [value_to].
  - split; [destruct j; try done; intros [= <-]; constructor|by inversion 1].
  - split.
    + destruct j; try done. destruct (_ && _) eqn:Hz; [|done]. intros [= <-]. apply andb_prop in Hz. constructor. lia.
    + inversion 1; subst. by rewrite (proj2 (Z.leb_le lo z)), (proj2 (Z.leb_le z hi)) by lia.
  - split; [destruct j; try done; intros [= <-]; constructor|by inversion 1].
  - split.
    + destruct j; try done. case_bool_decide; [|done]. intros [= <-]. by constructor.
    + inversion 1; subst. by rewrite bool_decide_eq_true_2.
  - cbn [wf_dto] in Hw. apply andb_prop in Hw as [_ Hw]. rewrite denotes_optional.
    assert (j ≠ JNull → (w ← value_to initial t j; Ret (CSome w)) = Ret v ↔ ∃ w, v = CSome w ∧ denotes t j w) as Hsome.
    { intros _. setoid_rewrite <-(λ w, IH j w Hw). split.
      - intros (w & Hv & [= <-])%bind_Ret_inv. by exists w.
      - intros (w & -> & ->). done. }
    destruct j; [split; [intros [= <-]; by left|by intros [[_ ->]|[? _]]]|..]; rewrite Hsome by done; naive_solver.
  - split.
    + destruct j as [| | | |l|]; try done. intros (vs & [Hl Hvs]%to_elements_lookup & [= <-])%bind_Ret_inv.
      constructor; [done|]. intros i j v Hj Hv. apply IH; [done|by eapply Hvs].
    + inversion 1 as [| | | | | |? l vs Hl Hall|]; subst. rewrite (proj2 (to_elements_lookup t l vs)); [done|]. split; [done|].
      intros i j v Hj Hv. apply IH; [done|by eapply Hall].
  - pose proof (wf_struct _ Hw) as [_ Hwm]. assert (length (initial ms) = length ms) as Hlen.
    { pose proof (initial_typed ms Hw) as Ht. cbn in Ht. by apply all_members_Forall2, Forall2_length in Ht. }
    rewrite Forall_forall in IH, Hwm. split.
    + destruct j as [| | | | |obj]; try done. intros (vs & Hvs & [= <-])%bind_Ret_inv. apply to_members_lookup in Hvs as [Hl Hvs]; [|done].
      constructor; [done|..].
      * intros i m v j Hm Hv Hg. specialize (Hvs i m v Hm Hv). rewrite Hg in Hvs. apply list_elem_of_lookup_2 in Hm. apply IH; auto.
      * intros i m v Hm Hv Hg. specialize (Hvs i m v Hm Hv). by rewrite Hg in Hvs.
    + inversion 1 as [| | | | | | |? obj vs Hl Hp Ha]; subst. rewrite (proj2 (to_members_lookup ms obj (initial ms) vs Hlen)); [done|]. split; [done|].
      intros i m v Hm Hv. destruct (map_get m.1.1 obj) as [j|] eqn:Hg; [|by eapply Ha].
      apply list_elem_of_lookup_2 in Hm as Hin. apply IH; [done|by apply Hwm|by eapply Hp].
Qed.
End denotes.

(** ** The schema of the type *)
Definition documented (description : bytes) (schema : object) : object :=
  if bool_decide (description = []) then schema else emplace (str "description") (JString description) schema.
Definition property (m : bytes * bytes * cpp_type) : json := JObject (documented m.1.2 (openapi_schema m.2)).
Lemma openapi_schema_struct ms :
  NoDup ((λ m : bytes * bytes * cpp_type, m.1.1) <$> ms) →
  openapi_schema (TDescribed ms) =
    let required := (λ m : bytes * bytes * cpp_type, JString m.1.1) <$> List.filter (λ m, negb (is_optional_type m.2)) ms in
    let schema := [(str "type", JString (str "object")); (str "properties", JObject ((λ m : bytes * bytes * cpp_type, (m.1.1, property m)) <$> ms))] in
    match required with [] => schema | _ => schema ++ [(str "required", JArray required)] end.
Proof.
  intros Hn. cbn [openapi_schema]. match goal with |- context [JObject (?f ms [])] => set (properties := f) end.
  assert (∀ ms acc, properties ms acc = fold_left (λ o m, emplace m.1.1 (property m) o) ms acc) as Hp.
  { intros l. induction l as [|[[n d] t] l IH]; intros acc; [done|]. by apply IH. }
  rewrite Hp, emplace_all by done. by destruct (List.filter _ _).
Qed.
Lemma validates_keywords_app a b j : validates_keywords validates (a ++ b) j = validates_keywords validates a j && validates_keywords validates b j.
Proof. induction a as [|[k v] a IH]; [done|]. cbn [app validates_keywords]. by rewrite IH, andb_assoc. Qed.
Lemma validates_documented d schema j : validates (JObject (documented d schema)) j = validates (JObject schema) j.
Proof.
  unfold documented. case_bool_decide; [done|]. unfold emplace. case_bool_decide; [done|]. cbn [validates].
  rewrite validates_keywords_app. apply andb_true_r.
Qed.
Lemma validates_properties_spec properties obj :
  (∀ name schema, (name, schema) ∈ properties → ∀ j, map_get name obj = Some j → validates schema j = true) →
  validates_properties validates properties obj = true.
Proof.
  induction properties as [|[n s] ps IH]; intros Hp; [done|]. cbn [validates_properties]. rewrite IH, andb_true_r.
  - destruct (map_get n obj) eqn:Hg; [|done]. apply (Hp n s); [by left|done].
  - intros n' s' Hin. apply Hp. by right.
Qed.
Lemma keyword_type ty j : validates_keyword validates (str "type") (JString ty) j = instance_of ty j.
Proof. done. Qed.
Lemma keyword_items schema l : validates_keyword validates (str "items") schema (JArray l) = forallb (validates schema) l.
Proof. done. Qed.
Lemma keyword_properties ps obj : validates_keyword validates (str "properties") (JObject ps) (JObject obj) = validates_properties validates ps obj.
Proof. done. Qed.
Lemma keyword_required names obj : validates_keyword validates (str "required") (JArray names) (JObject obj) = has_required names obj.
Proof. done. Qed.
Lemma names_reflected ms :
  (λ m : bytes * bytes * cpp_type, m.1.1) <$> ((λ m : bytes * bytes * dto, (m.1, reflected m.2)) <$> ms) = names_of ms.
Proof. rewrite <-list_fmap_compose. by apply list_fmap_ext. Qed.
Lemma value_conforms t : ∀ v, wf_dto t = true → has_type t v = true → present v = true →
  validates (JObject (openapi_schema (reflected t))) (value_from t v) = true.
Proof.
  induction t as [|lo hi| |names|t IH|t IH|ms IH] using dto_nested; intros v Hw Ht Hp; destruct v as [b|z|s|s| |v|l|l]; try done; cbn [value_from has_type present] in *.
  - cbn [wf_dto] in Hw. apply andb_prop in Hw as [_ Hw]. by apply IH.
  - cbn [reflected openapi_schema]. change (emplace _ _ _) with (typed_object "array" ++ [(str "items", JObject (openapi_schema (reflected t)))]).
    cbn [validates]. rewrite validates_keywords_app. cbn [validates_keywords typed_object]. rewrite keyword_type, keyword_items, !andb_true_r.
    apply forallb_forall. intros j Hin. apply list_elem_of_In, list_elem_of_fmap in Hin as (v & -> & Hin). apply list_elem_of_In in Hin.
    apply IH; [done|by apply (proj1 (forallb_forall _ _) Ht)|by apply (proj1 (forallb_forall _ _) Hp)].
  - pose proof (wf_struct _ Hw) as [Hn Hwm]. apply all_members_Forall2 in Ht. pose proof (Forall2_length _ _ _ Ht) as Hl.
    cbn [reflected]. rewrite openapi_schema_struct by (by rewrite names_reflected).
    assert (∀ i m v, ms !! i = Some m → l !! i = Some v → map_get m.1.1 (from_members value_from ms l []) = Some (value_from m.2 v)) as Hget.
    { intros i m v Hm Hv. by apply (from_members_get _ _ _ i). }
    set (obj := from_members value_from ms l []) in *.
    assert (∀ m, m ∈ ms → ∃ v, map_get m.1.1 obj = Some (value_from m.2 v) ∧ validates (JObject (openapi_schema (reflected m.2))) (value_from m.2 v) = true) as Hmem.
    { intros m Hin. apply list_elem_of_lookup in Hin as (i & Hm). destruct (lookup_lt_is_Some_2 l i) as [v Hv]; [rewrite <-Hl; by eapply lookup_lt_Some|].
      exists v. split; [by apply (Hget i)|]. apply list_elem_of_lookup_2 in Hm as Hin. apply list_elem_of_lookup_2 in Hv as Hinv.
      rewrite Forall_forall in IH, Hwm. apply IH; [done|by apply Hwm|by apply (Forall2_lookup_lr _ _ _ _ _ _ Ht Hm Hv)|].
      by apply (proj1 (forallb_forall _ _) Hp), list_elem_of_In. }
    assert (validates_properties validates ((λ m : bytes * bytes * cpp_type, (m.1.1, property m)) <$> ((λ m : bytes * bytes * dto, (m.1, reflected m.2)) <$> ms)) obj = true) as Hprops.
    { apply validates_properties_spec. intros n sch Hin j Hj. rewrite <-list_fmap_compose in Hin.
      apply list_elem_of_fmap in Hin as (m & [= -> ->] & Hin). destruct (Hmem m Hin) as (v & Hg & Hval). rewrite Hg in Hj. injection Hj as <-.
      unfold property. by rewrite validates_documented. }
    cbv zeta. set (required := _ <$> List.filter _ _).
    assert (has_required required obj = true) as Hreq.
    { apply forallb_forall. intros x Hin. apply list_elem_of_In in Hin. unfold required in Hin.
      apply list_elem_of_fmap in Hin as (m' & -> & Hin). apply list_elem_of_In, filter_In in Hin as [Hin _]. apply list_elem_of_In, list_elem_of_fmap in Hin as (m & -> & Hin).
      apply bool_decide_eq_true_2. destruct (Hmem m Hin) as (v & Hg & _). by exists (value_from m.2 v). }
    destruct required as [|r required]; cbn [app validates validates_keywords]; rewrite keyword_type, keyword_properties, ?keyword_required, Hprops, ?Hreq; done.
Qed.

(** ** The theorems *)
(** [T{}] when no member has an initialiser of its own. *)
Fixpoint zero_value (t : dto) : cvalue :=
  match t with
  | DBool => CBool false | DInt _ _ => CInt 0 | DString => CString [] | DEnum names => CEnum (default [] (head names))
  | DOptional _ => CNone | DVector _ => CVector [] | DStruct ms => CStruct ((λ m : bytes * bytes * dto, zero_value m.2) <$> ms)
  end.
Definition zero_members (ms : list (bytes * bytes * dto)) : list cvalue := (λ m : bytes * bytes * dto, zero_value m.2) <$> ms.
Lemma zero_typed t : wf_dto t = true → has_type t (zero_value t) = true.
Proof.
  induction t as [|lo hi| |names|t IH|t IH|ms IH] using dto_nested; intros Hw; try done; cbn [zero_value has_type].
  - destruct names as [|n names]; [done|]. apply bool_decide_eq_true_2. by left.
  - pose proof (wf_struct _ Hw) as [_ Hwm]. apply all_members_Forall2. clear Hw. induction ms as [|m ms IHm]; [constructor|].
    inversion IH; inversion Hwm; subst. constructor; [auto|by apply IHm].
Qed.

(** C21: a value of a described type (scalars, enumerations, optionals, vectors
    and structs, nested at will) written as JSON is read back as itself. *)
Theorem value_roundtrip initial t v :
  (∀ ms, wf_dto (DStruct ms) = true → has_type (DStruct ms) (CStruct (initial ms)) = true) →
  wf_dto t = true → has_type t v = true → value_to initial t (value_from t v) = Ret v.
Proof. intros Hi. by apply value_there_and_back. Qed.
Definition person : dto :=
  DStruct [((str "name", str "full name"), DString); ((str "age", []), DInt 0 255);
           ((str "tags", []), DVector DString); ((str "role", []), DOptional (DEnum [str "admin"; str "guest"]))].
Definition ada : cvalue := CStruct [CString (str "Ada"); CInt 36; CVector [CString (str "x"); CString []]; CSome (CEnum (str "admin"))].
Theorem value_roundtrip_witness : value_to zero_members person (value_from person ada) = Ret ada.
Proof. apply (value_roundtrip zero_members person ada); [intros ms; exact (zero_typed (DStruct ms))|reflexivity|by vm_compute]. Defined.

(** C22: reading is exact, and writing meets the published schema. Whatever JSON
    a client sends, [value_to] returns a value exactly when the JSON denotes it
    ([denotes]: scalars, limits and enumeration names as the type has them, every
    member whose key is present read from it, every other one left at its
    initial value), and that value is of the type; in every other case it is an
    error. What is written for a value whose optionals are all present
    satisfies, under JSON Schema, the schema that the documentation publishes for
    its type; an empty optional does not ([empty_optional_breaks_schema]). *)
Theorem conversions_typed initial t :
  (∀ ms, wf_dto (DStruct ms) = true → has_type (DStruct ms) (CStruct (initial ms)) = true) →
  wf_dto t = true →
  (∀ j v, (value_to initial t j = Ret v ↔ denotes initial t j v) ∧ (denotes initial t j v → has_type t v = true)) ∧
  (∀ v, has_type t v = true → present v = true → validates (JObject (openapi_schema (reflected t))) (value_from t v) = true).
Proof.
  intros Hi Hw. split; [|intros v; by apply value_conforms]. intros j v.
  assert (value_to initial t j = Ret v ↔ denotes initial t j v) as Hd by by apply value_to_denotes.
  split; [done|]. intros Hv%Hd. by eapply value_to_typed.
Qed.
Theorem conversions_typed_witness :
  denotes zero_members person (JObject [(str "age", JInt 36)]) (CStruct [CString []; CInt 36; CVector []; CNone]) ∧
  (∀ v, ¬ denotes zero_members person (JObject [(str "age", JInt 256)]) v) ∧
  validates (JObject (openapi_schema (reflected person))) (value_from person ada) = true.
Proof.
  destruct (conversions_typed zero_members person) as [Hto Hfrom]; [intros ms; exact (zero_typed (DStruct ms))|reflexivity|].
  split_and!.
  - apply (proj1 (Hto _ _)). by vm_compute.
  - intros v Hv%(proj1 (Hto _ _)). by vm_compute in Hv.
  - apply Hfrom; by vm_compute.
Defined.

(** An empty optional is written as null, which the schema of its member does not
    allow. *)
Theorem empty_optional_breaks_schema :
  let t := DStruct [((str "nick", []), DOptional DString)] in
  value_from t (CStruct [CNone]) = JObject [(str "nick", JNull)] ∧
  validates (JObject (openapi_schema (reflected t))) (value_from t (CStruct [CNone])) = false.
Proof. by vm_compute. Qed.
(** A body without a member the schema requires is accepted: the member keeps its
    initial value. *)
Theorem missing_required_accepted :
  let t := DStruct [((str "age", []), DInt 0 255)] in
  validates (JObject (openapi_schema (reflected t))) (JObject []) = false ∧
  value_to zero_members t (JObject []) = Ret (CStruct [CInt 0]).
Proof. by vm_compute. Qed.
