(* ===== verification/TypedCalls.v ===== *)
(** * A declared call with a described body and the typed route that reads it

    The client writes a described struct as JSON ([dto/TagInvoke.hpp],
    [client/macros.hpp]), the router's typed handler reads it back
    ([router/typed_route.hpp]). Between them are the message and the selection of the
    route ([ApiEndToEnd.v]). The client does not say that its body is JSON. *)
From S2P Require Import Prelude Text Numbers PathPattern PathPatternProofs Http HttpContext HostPool HttpClient HttpClientTheorems HttpClientCalls TypedRoute HttpRouter HttpRouterTheorems HttpDispatch TypedOverloads ApiCall ApiEndToEnd OpenApi TagInvoke TagInvokeTheorems.
Set Default Proof Using "Type*".

Section typed_call.
Context {U F : Type} `{BoostUrlLaws U} `{HttpFieldsLaws F} `{Verbs}.
Context (prepare_payload : verb → bytes → F → F) (user_agent : bytes) (serialize : json → bytes).
Context (Hpayload : ∀ name m b f, is_framing name = false → field_all name (prepare_payload m b f) = field_all name f).
(** The handler's argument type, and the members of a new object of a struct. *)
Context (initial : list (bytes * bytes * dto) → list cvalue) (t : dto).

(** [value_to<T>], and a handler of a [const T&]. *)
Definition typed_body (response_schema : option json) : body_types :=
  mk_body_types (λ j, match value_to initial t j with Ret _ => Some j | Throw _ => None end)
    (JObject (openapi_schema (reflected t))) response_schema.
Definition with_value (g : cvalue → M F typed_response) (j : json) : M F typed_response :=
  match value_to initial t j with Ret v => g v | Throw _ => throwM TypedRequestValidationError end.
Definition typed_handler (g : cvalue → M F typed_response) : M F unit := handler_of (Typed (typed_body None) (with_value g)).
Definition content_type : bytes := str "Content-Type".

Lemma tryM_ext {A} (m n : M F A) k x : m x = n x → tryM m k x = tryM n k x.
Proof using Type. unfold tryM. by intros ->. Qed.
(** What the typed handler does with a request. *)
Lemma typed_handler_reads g y ct v j :
  get_header content_type y = Some ct → is_json_media_type ct = true → json_parse (body y) = Some j → value_to initial t j = Ret v →
  typed_handler g y = (g v ≫= λ res, apply_typed_response res) y.
Proof using Type.
  intros Hct Hm Hj Hv. unfold typed_handler. cbn [handler_of]. unfold read_body. unfold content_type in Hct. rewrite Hct, Hm, Hj.
  cbn [bt_value_to typed_body]. unfold with_value. by rewrite !Hv.
Qed.
Lemma typed_handler_rejects g y :
  (get_header content_type y = None ∨ ∃ j e, json_parse (body y) = Some j ∧ value_to initial t j = Throw e) →
  typed_handler g y = (y, Throw TypedRequestValidationError).
Proof using Type.
  intros Hr. unfold typed_handler. cbn [handler_of]. assert (read_body (bt_value_to (typed_body None)) y = Throw TypedRequestValidationError) as ->; [|done].
  unfold read_body. fold content_type. destruct Hr as [->|(j & e & Hj & Hv)]; [done|].
  destruct (get_header content_type y); [|done]. destruct (is_json_media_type _); [|done]. rewrite Hj. cbn [bt_value_to typed_body]. by rewrite Hv.
Qed.
(** Without handlers of its own a router answers 400 to an unreadable body. *)
Lemma unreadable_body_page r y : rt_exception_handlers r = [] →
  ∃ z, handle_exception (F := F) r (Some TypedRequestValidationError) y = (z, Ret tt) ∧ rs_status (cx_res z) = status_bad_request.
Proof using Type*.
  intros Hr. unfold handle_exception. rewrite Hr. unfold mbind, M_bind. cbn [try_handlers mret M_ret default_exception_page].
  unfold write_invalid_request_body, write_error, set_body_json, mbind, M_bind, doM.
  rewrite set_body_accepted; [by eexists|]. apply payload_accepted. by right.
Qed.

(** C19: a declared call with a body of a described type, and the typed route of the same template
    for that type. When the call names a JSON media type in a [HEADER] argument,
    the handler runs on exactly the value the caller passed, whatever its type
    (limits, enumerations, optionals, vectors and structs in structs), and its
    result is applied. When neither the call nor the client's default headers
    name a media type, or when the JSON passed is not of the type, the handler does not
    run and the answer is 400. *)
Theorem typed_call (c : HttpClient U F) draw u l tail args m https host port page (r : HttpRouter F) static_files e g x :
  (∀ ms, wf_dto (DStruct ms) = true → has_type (DStruct ms) (CStruct (initial ms)) = true) → wf_dto t = true →
  well_called l tail args → path_safe l tail args → based c → base_of draw c [] = Some u → url_params u = [] →
  API_CALL serialize prepare_payload user_agent m (template l tail) args false draw c = Some (Run https host port (cx_req x)) →
  table_ok (rt_routes r) → e ∈ rt_routes r → re_path e = template l tail → serves m (re_handlers e) (typed_handler g) →
  (∀ e', e' ∈ rt_routes r → applicable m (path x).1 e' → re_path e' ≠ re_path e → more_specific e e' = true) →
  cx_url x = None →
  (∀ v ct, has_type t v = true → last (body_args args) = Some (inr (value_from t v)) →
    json_parse (serialize (value_from t v)) = Some (value_from t v) →
    map_get content_type (header_args args) = Some ct → is_json_media_type ct = true →
    (∀ n, n ∈ (header_args args).*1 → ieq content_type n = true → n = content_type) →
    ∃ y, delivered serialize args y ∧
      dispatch page r static_files x =
      (tryM (g v ≫= λ res, apply_typed_response res) (λ ex, handle_exception r (Some ex)) ≫= λ _, mret true) y) ∧
  (rt_exception_handlers r = [] →
    Forall (λ n, ieq content_type n = false) ((hc_default_headers c).*1 ++ (header_args args).*1) ∨
    (∃ j err, last (body_args args) = Some (inr j) ∧ json_parse (serialize j) = Some j ∧ value_to initial t j = Throw err) →
    (dispatch page r static_files x).2 = Ret true ∧ rs_status (cx_res (dispatch page r static_files x).1) = status_bad_request).
Proof.
  intros Hi Hwf Hw Hs Hb Hu Hp Hc Ht He Hpath Hh Hbest Hx.
  pose proof (call_request prepare_payload user_agent serialize Hpayload c draw u l tail args m https host port (cx_req x) Hw Hs Hb Hu Hp Hc) as Hcar.
  destruct (carried_delivered serialize args l tail m x Hw Hcar Hx) as (Hm & Hxp & Hd).
  rewrite (route_reached l tail args m page r static_files e (typed_handler g) x Hw Hm Hxp Ht He Hpath Hh Hbest).
  set (y := set_path_params _ _) in *. pose proof Hd as (_ & _ & Hbody & Hhead). split.
  - intros v ct Hv Hl Hj Hg Hjson Hun. exists y. split; [exact Hd|]. unfold mbind, M_bind.
    rewrite (tryM_ext (typed_handler g) (g v ≫= λ res, apply_typed_response res)); [done|].
    eapply typed_handler_reads; [by apply Hhead|done|rewrite Hbody, Hl; exact Hj|]. by apply value_there_and_back.
  - intros Hr Hbad. assert (typed_handler g y = (y, Throw TypedRequestValidationError)) as Hthrow.
    { apply typed_handler_rejects. destruct Hbad as [Hno|(j & err & Hl & Hj & Hv)].
      - left. unfold get_header, field_find. assert (cx_req y = cx_req x) as ->.
        { unfold y, path, parse_url_components. by rewrite Hx. }
        rewrite (call_header_absent prepare_payload user_agent serialize Hpayload c draw _ args m https host port _ content_type Hc); [done|done|].
        apply Forall_app. split; [by repeat constructor|exact Hno].
      - right. exists j, err. by rewrite Hbody, Hl. }
    unfold mbind, M_bind, tryM. rewrite Hthrow. destruct (unreadable_body_page r y Hr) as (z & -> & Hz). by split.
Qed.
End typed_call.

(** *** An example: a person is posted *)
Definition person_text : bytes := str "a person".
Definition person_platform : Platform := {|
  parse_relative_ref := PercentUrl.relative_ref;
  json_parse s := if bool_decide (s = person_text) then Some (value_from person ada) else None;
  json_serialize _ := []; beast_version := str "beast" |}.
#[local] Existing Instance person_platform.
#[local] Existing Instance PercentUrl.percent_url.
#[local] Existing Instance demo_verbs.
#[local] Program Instance person_url_laws : BoostUrlLaws PercentUrl.t := {| url_params := PercentUrl.params |}.
Next Obligation. exact (parse_uri_rooted (BoostUrlLaws := PercentUrl.percent_url_laws)). Qed.
Next Obligation. exact (relative_params_none (BoostUrlLaws := PercentUrl.percent_url_laws)). Qed.
Next Obligation. done. Qed.
Next Obligation. done. Qed.
Next Obligation. done. Qed.
Next Obligation. done. Qed.
Next Obligation. done. Qed.
Next Obligation. done. Qed.
Next Obligation. exact (target_parses (BoostUrlLaws := PercentUrl.percent_url_laws)). Qed.
Next Obligation. exact (target_nonempty (BoostUrlLaws := PercentUrl.percent_url_laws)). Qed.
Definition greet (v : cvalue) : M FieldList.t typed_response := mret (Result (mk_result 201%N None [])).
Definition post_args (headers : list api_argument) : list api_argument := example_args ++ BODY (inr (value_from person ada)) :: headers.
Definition post_router_of (h : M FieldList.t unit) : HttpRouter FieldList.t :=
  match registrations (merge_std_sort more_specific)
    [RegRoute KSync (template example_template (str ".json")) verb_post h;
     RegRoute KSync (str "/:any") verb_post (demo_handler (str "any"))] router_init with Ret r => r | Throw _ => router_init end.
Definition post_router : HttpRouter FieldList.t := post_router_of (typed_handler zero_members person greet).
Definition post_context (headers : list api_argument) : ctx FieldList.t :=
  match API_CALL (λ _, person_text) set_content_length (str "beast") verb_post (template example_template (str ".json")) (post_args headers) false 0 example_client with
  | Some (Run _ _ _ req) => context_init req response_empty | _ => context_init (mk_request verb_post [] 11 fields_empty []) response_empty end.
Lemma post_router_ok h : table_ok (rt_routes (post_router_of h)).
Proof.
  unfold post_router_of. destruct (registrations _ _ _) as [r|] eqn:Hr; [by apply (registrations_ok _ _ _ Hr)|].
  split_and!; [apply NoDup_nil_2|constructor|constructor].
Qed.
Lemma post_route h : ∃ e, e ∈ rt_routes (post_router_of h) ∧ re_path e = template example_template (str ".json") ∧
  serves verb_post (re_handlers e) h ∧
  ∀ e', e' ∈ rt_routes (post_router_of h) → re_path e' ≠ re_path e → more_specific e e' = true.
Proof.
  assert (match rt_routes (post_router_of h) with
    | [] => False
    | e :: es => re_path e = template example_template (str ".json") ∧
        map_find verb_post (re_handlers e) = Some h ∧ forallb (more_specific e) es = true end) as Hr
    by (vm_compute; split_and!; reflexivity).
  destruct (rt_routes (post_router_of h)) as [|e es]; [done|]. destruct Hr as (Hp & Hh & Ha). exists e. split_and!; [by left|done|by left|].
  intros e' [->|Hin]%elem_of_cons Hne; [done|]. apply list_elem_of_In in Hin. by apply (proj1 (forallb_forall _ _) Ha).
Qed.
(** With the header the handler gets the person and creates it; as documented, without it, 400. *)
Theorem typed_call_witness :
  let answer headers := rs_status (cx_res (dispatch demo_page post_router None (post_context headers)).1) in
  (∃ y, dispatch demo_page post_router None (post_context [HEADER (AText (str "application/json")) content_type]) =
    (tryM (greet ada ≫= λ res, apply_typed_response res) (λ ex, handle_exception post_router (Some ex)) ≫= λ _, mret true) y) ∧
  answer [] = 400%N.
Proof.
  intros answer. destruct (post_route (typed_handler zero_members person greet)) as (e & He & Hp & Hh & Hbest).
  assert (∀ headers, path_args (post_args headers) = path_args example_args → well_called example_template (str ".json") (post_args headers) ∧ path_safe example_template (str ".json") (post_args headers)) as Hcalled.
  { intros headers Hpa. unfold well_called, path_safe. rewrite Hpa. split; [exact well_called_example|]. split_and!; apply (bool_decide_unpack _); by vm_compute. }
  pose proof (λ headers https port Hpa Hc, typed_call set_content_length (str "beast") (λ _, person_text) content_length_framing zero_members person
    example_client 0 (PercentUrl.mk (str "http") (str "api.test") [] (str "/v0") []) example_template (str ".json") (post_args headers) verb_post
    https (str "api.test") port demo_page post_router None e greet (post_context headers) (λ ms, zero_typed (DStruct ms)) eq_refl
    (proj1 (Hcalled headers Hpa)) (proj2 (Hcalled headers Hpa)) (or_intror (ex_intro _ _ eq_refl)) eq_refl eq_refl Hc (post_router_ok _) He Hp Hh
    (λ e' Hin _, Hbest e' Hin)) as Hall.
  split.
  - destruct (Hall [HEADER (AText (str "application/json")) content_type] false (str "80") eq_refl eq_refl eq_refl) as [Hgood _].
    destruct (Hgood ada (str "application/json")) as (y & _ & Hd); [by vm_compute|reflexivity|by vm_compute|reflexivity|by vm_compute|..].
    + by intros n ->%list_elem_of_singleton.
    + by exists y.
  - destruct (Hall [] false (str "80") eq_refl eq_refl eq_refl) as [_ Hbad]. apply Hbad; [reflexivity|]. left. by repeat constructor.
Defined.
