(* ===== verification/OpenApiPageTheorems.v ===== *)
(** * The documentation page: properties

    A reader of markup ([run]) that follows elements, attributes and quotes:
    whatever texts the routes, their documentation and their schemas carry,
    the page opens and closes exactly the elements of its templates
    ([documentation_page_well_formed]). *)
From S2P Require Import Prelude Text Numbers Http HttpContext TypedRoute HttpRouter HttpRouterTheorems HttpDispatch OpenApiAssets OpenApi OpenApiPage OpenApiTheorems.
Set Default Proof Using "Type*".

(** ** Reading markup *)
Inductive mode :=
| InText
| InName (name : bytes) (closing : bool)       (** after [<] *)
| InTag (name : bytes) (closing : bool)        (** between attributes *)
| InQuotes (name : bytes) (closing : bool).
Definition void_element (name : bytes) : bool :=
  bool_decide (name ∈ [str "meta"; str "input"; str "!doctype"]).
Definition close_tag (name : bytes) (closing : bool) (open : list bytes) : option (mode * list bytes) :=
  if closing then match open with top :: open => if bool_decide (top = name) then Some (InText, open) else None | [] => None end
  else Some (InText, if void_element name then open else name :: open).
Definition step (s : mode * list bytes) (c : ascii) : option (mode * list bytes) :=
  let '(m, open) := s in
  match m with
  | InText => Some (if bool_decide (c = "<"%char) then InName [] false else InText, open)
  | InName name closing =>
      if bool_decide (c = "/"%char) && bool_decide (name = []) && negb closing then Some (InName [] true, open)
      else if bool_decide (c = ">"%char) then if bool_decide (name = []) then None else close_tag name closing open
      else if bool_decide (c = SP) then if bool_decide (name = []) then None else Some (InTag name closing, open)
      else if bool_decide (c ∈ ["<"%char; DQ; "'"%char]) then None
      else Some (InName (name ++ [c]) closing, open)
  | InTag name closing =>
      if bool_decide (c = ">"%char) then close_tag name closing open
      else if bool_decide (c = DQ) then Some (InQuotes name closing, open)
      else if bool_decide (c ∈ ["<"%char; "'"%char]) then None
      else Some (m, open)
  | InQuotes name closing =>
      if bool_decide (c = DQ) then Some (InTag name closing, open)
      else if bool_decide (c = "<"%char) then None
      else Some (m, open)
  end.
Definition run (s : mode * list bytes) (text : bytes) : option (mode * list bytes) :=
  fold_left (λ s c, s ← s; step s c) text (Some s).
(** A fragment that leaves every surrounding element open as it was. *)
Definition fragment (text : bytes) : Prop := ∀ open, run (InText, open) text = Some (InText, open).

Lemma run_none text : fold_left (λ s c, s ← s; step s c) text None = None.
Proof. by induction text. Qed.
Lemma markup_app s a b : run s (a ++ b) = (s ← run s a; run s b).
Proof.
  unfold run. rewrite fold_left_app. destruct (fold_left _ a (Some s)) as [s'|]; [done|]. apply run_none.
Qed.
Lemma markup_app_some s s' a b : run s a = Some s' → run s (a ++ b) = run s' b.
Proof. intros Ha. by rewrite markup_app, Ha. Qed.
(** Texts without the characters that matter where they stand. *)
Definition inert (c : ascii) : bool := negb (bool_decide (c = "<"%char)) && negb (bool_decide (c = DQ)).
Lemma run_text text open : Forall (λ c, c ≠ "<"%char) text → run (InText, open) text = Some (InText, open).
Proof.
  unfold run. induction 1 as [|c text Hc _ IH]; [done|]. cbn [fold_left]. cbn [mbind option_bind step]. by rewrite bool_decide_eq_false_2.
Qed.
Lemma run_quoted text name closing open :
  Forall (λ c, inert c = true) text → run (InQuotes name closing, open) text = Some (InQuotes name closing, open).
Proof.
  unfold run. induction 1 as [|c text Hc _ IH]; [done|]. cbn [fold_left]. cbn [mbind option_bind step].
  unfold inert in Hc. apply andb_true_iff in Hc as [H1%negb_true_iff H2%negb_true_iff]. by rewrite H1, H2.
Qed.
Lemma markup_inert c : markup c = false → c ≠ "<"%char ∧ inert c = true.
Proof. revert c. assert (∀ c, implb (negb (markup c)) (negb (bool_decide (c = "<"%char)) && inert c) = true) as Hb by (apply forall_bytes; by vm_compute).
  intros c Hc. specialize (Hb c). rewrite Hc in Hb. cbn in Hb. apply andb_true_iff in Hb as [H1%negb_true_iff%bool_decide_eq_false ?]. done.
Qed.
Lemma fragment_escaped value : fragment (escape_html value).
Proof. intros open. apply run_text. eapply Forall_impl; [apply escape_html_plain|]. intros c Hc. by apply markup_inert. Qed.
Lemma run_quoted_escaped value name closing open :
  run (InQuotes name closing, open) (escape_html value) = Some (InQuotes name closing, open).
Proof. apply run_quoted. eapply Forall_impl; [apply escape_html_plain|]. intros c Hc. by apply markup_inert. Qed.
Lemma fragment_nil : fragment [].
Proof. by intros open. Qed.
Lemma fragment_app a b : fragment a → fragment b → fragment (a ++ b).
Proof. intros Ha Hb open. by rewrite (markup_app_some _ _ _ _ (Ha open)). Qed.
Lemma fragment_bind {A} (l : list A) (f : A → bytes) : (∀ x, x ∈ l → fragment (f x)) → fragment (l ≫= f).
Proof.
  induction l as [|x l IH]; intros Hf; [apply fragment_nil|]. cbn. apply fragment_app; [apply Hf; by left|]. apply IH. intros y Hy. apply Hf. by right.
Qed.
(** A text that stays inside the quotes of an attribute. *)
Definition attribute (text : bytes) : Prop := Forall (λ c, inert c = true) text.
Create HintDb markup.
#[export] Hint Resolve fragment_escaped fragment_nil fragment_app : markup.
(** Reads the next piece: an escaped text, a fragment, or a literal. *)
Ltac read_piece :=
  cbn beta iota zeta;
  lazymatch goal with
  | |- run (InText, ?open) ([] ++ ?rest) = _ => cbn [app]
  | |- run ?s ((?a ++ ?b) ++ ?rest) = _ => rewrite <-(assoc_L (++) a b rest)
  | |- run (InQuotes ?n ?c, ?open) (escape_html ?v ++ ?rest) = _ => rewrite (markup_app_some _ _ _ rest (run_quoted_escaped v n c open))
  | |- run (InQuotes ?n ?c, ?open) (?a ++ ?rest) = _ =>
      lazymatch a with
      | htm ?t => let r := eval vm_compute in (run (InQuotes n c, open) a) in
          lazymatch r with Some ?s' => rewrite (markup_app_some _ s' a rest) by (vm_compute; reflexivity) end
      | _ => let H := fresh in assert (attribute a) as H by eauto with markup; rewrite (markup_app_some _ _ _ rest (run_quoted a n c open H)); clear H
      end
  | |- run ?s (htm ?t ++ ?rest) = _ =>
      let r := eval vm_compute in (run s (htm t)) in
      lazymatch r with Some ?s' => rewrite (markup_app_some s s' (htm t) rest) by (vm_compute; reflexivity) end
  | |- run (InText, ?open) (?a ++ ?rest) = _ =>
      let H := fresh in assert (fragment a) as H by eauto with markup; rewrite (markup_app_some _ _ _ rest (H open)); clear H
  | |- run ?s (htm ?t) = _ => vm_compute; reflexivity
  | |- run (InText, ?open) ?a = _ => let H := fresh in assert (fragment a) as H by eauto with markup; exact (H open)
  end.
Ltac read_constant :=
  match goal with
  | |- run ?s (?a ++ ?rest) = _ =>
      is_const a; let r := eval vm_compute in (run s a) in
      lazymatch r with Some ?s' => rewrite (markup_app_some s s' a rest) by (vm_compute; reflexivity) end
  end.
Ltac fragment_solve := solve [intros ?open; repeat read_piece].

Section render.
Context `{Platform} `{Verbs}.

Lemma fragment_literal_no : fragment (str "—").
Proof. by intros open. Qed.
Lemma fragment_render_items render items : (∀ v, fragment (render v)) → fragment (render_items render items).
Proof. intros Hr. unfold render_items. destruct items as [v|]; [|apply fragment_nil]. specialize (Hr v). fragment_solve. Qed.
Lemma fragment_render_property render schema property : (∀ v, fragment (render v)) → fragment (render_property render schema property).
Proof.
  intros Hr. unfold render_property. destruct property as [key v]. cbn [fst snd].
  assert (∀ i, fragment (render_items render i)) as Hi by (intros; by apply fragment_render_items).
  assert (∀ o, fragment (match is_string o with Some d => htm "<p class='property-description'>" ++ escape_html d ++ htm "</p>" | None => [] end)) as Hd.
  { intros o. destruct (is_string o); [|apply fragment_nil]. fragment_solve. }
  assert (∀ o, fragment (if contains_key "properties" o then render v else [])) as Hp by (intros o; by destruct (contains_key _ o); [|apply fragment_nil]).
  destruct (schema_property_is_required schema key), v; fragment_solve.
Qed.
Lemma fragment_render_fields render schema : (∀ v, fragment (render v)) → fragment (render_fields render schema).
Proof.
  intros Hr. unfold render_fields. assert (∀ i, fragment (render_items render i)) as Hi by (intros; by apply fragment_render_items).
  assert (∀ l, fragment (l ≫= render_property render schema)) as Hb by (intros l; apply fragment_bind; intros; by apply fragment_render_property).
  destruct (is_object _) as [[|q properties]|]; repeat case_bool_decide; try (by apply fragment_nil); try apply Hi; specialize (Hb (q :: properties)) || idtac; fragment_solve.
Qed.
Lemma fragment_schema budget v raw : fragment (render_schema_within budget v raw).
Proof.
  revert v raw. assert (∀ v, fragment (htm "<pre class='schema'><code>" ++ escape_html (json_serialize v) ++ htm "</code></pre>")) as Hpre by (intros; fragment_solve).
  induction budget as [|budget IH]; intros v raw; [apply Hpre|]. destruct v as [| | | | |schema]; try apply Hpre.
  cbn [render_schema_within]. assert (fragment (render_fields (λ v, render_schema_within budget v false) schema)) as Hf by (apply fragment_render_fields; auto).
  destruct (is_string (if_contains "format" schema)), raw; fragment_solve.
Qed.
Lemma fragment_schema_view v raw depth : fragment (render_schema_view v raw depth).
Proof. apply fragment_schema. Qed.
#[local] Hint Resolve fragment_schema_view fragment_literal_no : markup.
Lemma fragment_escaped_string v : fragment (escaped_string v).
Proof. apply fragment_escaped. Qed.
#[local] Hint Resolve fragment_escaped_string : markup.
Lemma fragment_parameter v : fragment (render_parameter v).
Proof.
  unfold render_parameter. destruct v as [| | | | |parameter]; try apply fragment_nil.
  destruct (is_true_bool _), (if_contains "schema" parameter); fragment_solve.
Qed.
Lemma fragment_parameters operation : fragment (render_parameters operation).
Proof.
  unfold render_parameters; cbv zeta. assert (∀ l, fragment (l ≫= render_parameter)) as Hb by (intros l; apply fragment_bind; intros; apply fragment_parameter).
  destruct (is_array _) as [[|v l]|]; [fragment_solve|specialize (Hb (v :: l)); fragment_solve|fragment_solve].
Qed.
Lemma fragment_content content : fragment (render_content content).
Proof.
  unfold render_content. apply fragment_bind. intros [key v] _. unfold render_media_type. cbn [fst snd].
  destruct (is_object (Some v) ≫= if_contains "schema"); fragment_solve.
Qed.
#[local] Hint Resolve fragment_content : markup.
Lemma fragment_request_body operation : fragment (render_request_body operation).
Proof.
  unfold render_request_body; cbv zeta. destruct (is_object _) as [body|]; [|fragment_solve]. destruct (is_true_bool _); fragment_solve.
Qed.
Lemma fragment_response entry : fragment (render_response entry).
Proof.
  unfold render_response. destruct entry as [key v]. cbn [fst snd].
  destruct v as [| | | | |response]; try fragment_solve. destruct (is_string _); fragment_solve.
Qed.
Lemma fragment_responses operation : fragment (render_responses operation).
Proof.
  unfold render_responses; cbv zeta. assert (∀ l, fragment (l ≫= render_response)) as Hb by (intros l; apply fragment_bind; intros; apply fragment_response).
  destruct (is_object _) as [[|v l]|]; [fragment_solve|specialize (Hb (v :: l)); fragment_solve|fragment_solve].
Qed.
Lemma fragment_description operation : fragment (render_operation_description operation).
Proof.
  unfold render_operation_description. destruct (is_string (if_contains "summary" operation)), (is_string (if_contains "description" operation)); fragment_solve.
Qed.
Lemma fragment_try_field v : fragment (render_try_field v).
Proof.
  unfold render_try_field. destruct v as [| | | | |parameter]; try apply fragment_nil.
  destruct (is_string (if_contains "in" parameter)) as [location|]; [|apply fragment_nil]. destruct (is_string _) as [name|]; [|apply fragment_nil].
  destruct (is_true_bool _); repeat case_bool_decide; try apply fragment_nil; fragment_solve.
Qed.
Lemma fragment_try_panel operation method path : fragment (render_try_panel operation method path).
Proof.
  unfold render_try_panel; cbv zeta. assert (∀ l, fragment (l ≫= render_try_field)) as Hb by (intros l; apply fragment_bind; intros; apply fragment_try_field).
  specialize (Hb (default [] (is_array (if_contains "parameters" operation)))).
  destruct (json_request_schema operation) as [schema|]; cbn [bool_decide]; [rewrite bool_decide_eq_true_2 by by eexists|rewrite bool_decide_eq_false_2 by by intros [? ?]]; fragment_solve.
Qed.
#[local] Hint Resolve fragment_parameters fragment_request_body fragment_responses fragment_description fragment_try_panel : markup.

(** ** Anchors, classes, numbers *)
Lemma anchor_loop_attribute path b : attribute (anchor_loop path b).
Proof.
  unfold attribute. revert b. induction path as [|c path IH]; intros b; cbn [anchor_loop]; [constructor|].
  destruct (isalnum c) eqn:Hc.
  - constructor; [|apply IH]. pose proof (forall_bytes (λ c, implb (isalnum c) (inert (tolower c))) eq_refl c) as Hb. cbn in Hb. by rewrite Hc in Hb.
  - destruct b; cbn [negb]; [apply IH|]. constructor; [done|apply IH].
Qed.
Lemma attribute_digits n : attribute (to_dec n).
Proof.
  eapply Forall_impl; [apply to_dec_digits|]. intros c Hc.
  pose proof (forall_bytes (λ c, implb (isdigit c) (inert c)) eq_refl c) as Hb. cbn in Hb. by rewrite Hc in Hb.
Qed.
Lemma attribute_fragment text : attribute text → fragment text.
Proof.
  intros Ha open. apply run_text. eapply Forall_impl; [exact Ha|]. intros c Hc.
  unfold inert in Hc. by apply andb_true_iff in Hc as [?%negb_true_iff%bool_decide_eq_false _].
Qed.
Lemma drop_while_end_attribute q text : attribute text → attribute (drop_while_end q text).
Proof.
  intros Ha. unfold drop_while_end. apply Forall_rev. apply Forall_rev in Ha.
  destruct (drop_while_suffix q (rev text)) as (t & Ht & _). rewrite Ht in Ha. by apply Forall_app in Ha as [_ ?].
Qed.
Lemma operation_anchor_attribute method path : attribute method → attribute (operation_anchor method path).
Proof. intros Hm. apply drop_while_end_attribute, Forall_app. split; [done|apply anchor_loop_attribute]. Qed.
Lemma method_class_attribute method : attribute (method_class method).
Proof.
  unfold method_class. case_bool_decide as Hm; [|by repeat constructor].
  assert (Forall attribute [str "get"; str "post"; str "put"; str "patch"; str "delete"; str "options"; str "head"]) as Hall by (by repeat constructor).
  rewrite Forall_forall in Hall. auto.
Qed.
Lemma nonce_attribute draws : attribute (make_csp_nonce draws).
Proof.
  assert (∀ n, inert (hexadecimal n) = true) as Hh.
  { intros n. unfold hexadecimal. destruct (str "0123456789abcdef" !! N.to_nat (N.land n 15)) as [c|] eqn:Hc; [|done].
    apply list_elem_of_lookup_2 in Hc. assert (Forall (λ c, inert c = true) (str "0123456789abcdef")) as Hall by (by repeat constructor).
    rewrite Forall_forall in Hall. by apply Hall. }
  unfold make_csp_nonce. induction (take 16 draws) as [|n l IH]; [constructor|]. cbn. constructor; [apply Hh|]. constructor; [apply Hh|exact IH].
Qed.
#[local] Hint Resolve method_class_attribute nonce_attribute operation_anchor_attribute : markup.

(** ** The page *)
Definition view_ok (o : OperationView) : Prop := attribute (ov_anchor o).
Lemma fragment_nav_item o : view_ok o → fragment (render_nav_item o).
Proof. intros Ho. unfold view_ok, render_nav_item in *. fragment_solve. Qed.
Lemma fragment_operation o : view_ok o → fragment (render_operation o).
Proof. intros Ho. unfold view_ok, render_operation in *. fragment_solve. Qed.
Lemma add_view_ok path acc operation :
  attribute operation.1 → Forall view_ok acc.1 → Forall view_ok (add_view path acc operation).1.
Proof.
  intros Hm Hacc. unfold add_view. cbn [fst]. apply Forall_app. split; [done|]. apply Forall_singleton. unfold view_ok. cbn [ov_anchor].
  apply Forall_app. split; [by apply operation_anchor_attribute|]. case_bool_decide; [|constructor]. constructor; [done|]. apply attribute_digits.
Qed.
Lemma operation_views_ok paths :
  (∀ p o m op, (p, JObject o) ∈ paths → (m, op) ∈ o → attribute m) → Forall view_ok (operation_views paths).
Proof.
  intros Hp. unfold operation_views. assert (∀ acc : list OperationView * list (bytes * nat), Forall view_ok acc.1 →
    Forall view_ok (fold_left (λ acc p, fold_left (add_view p.1) (default [] (is_object (Some p.2))) acc) paths acc).1) as Hg; [|by apply Hg].
  induction paths as [|[p v] paths IH]; intros acc Hacc; [done|]. cbn [fold_left fst snd]. apply IH; [intros; eapply Hp; [by right|done]|].
  assert (∀ o acc, (∀ m op, (m, op) ∈ o → attribute m) → Forall view_ok acc.1 → Forall view_ok (fold_left (add_view p) o acc).1) as Hops.
  { clear. induction o as [|[m op] o IH]; intros acc Ho Hacc; [done|]. cbn [fold_left]. apply IH; [intros; eapply Ho; by right|].
    apply add_view_ok; [|done]. eapply Ho. by left. }
  destruct v as [| | | | |o]; cbn; try done. apply Hops; [|done]. intros m op Hin. eapply Hp; [by left|done].
Qed.
#[local] Hint Resolve attribute_fragment attribute_digits fragment_nav_item fragment_operation : markup.
(** C34: the documentation page is what its templates say. Whatever titles,
    paths, descriptions, parameter names, schemas and examples the routes carry,
    and whatever the nonce, a reader of the page finds every element of the
    templates opened and closed properly nested and every attribute closed: no
    text of the document can open, close or leave an element or an attribute.
    (The names of the verbs hold neither [<] nor double quotes.) *)
Theorem documentation_page_well_formed ds info spec_path draws :
  Forall (λ d, attribute (verb_to_string (de_method d))) ds →
  run (InText, []) (make_documentation_page (generate_openapi ds info) info spec_path (make_csp_nonce draws)) = Some (InText, []).
Proof.
  intros Hds. unfold make_documentation_page. cbv zeta.
  change (default [] (is_object (if_contains "paths" (generate_openapi ds info)))) with (paths_json (documented_paths ds)).
  set (paths := paths_json (documented_paths ds)). assert (Forall view_ok (operation_views paths)) as Hviews.
  { apply operation_views_ok. intros p o m op Hp Hm. destruct (document_entry _ _ _ _ _ Hp Hm) as (d & Hd & ->).
    rewrite Forall_forall in Hds. specialize (Hds d Hd). unfold attribute, method_name in *. apply Forall_fmap. eapply Forall_impl; [exact Hds|].
    intros c Hc. pose proof (forall_bytes (λ c, implb (inert c) (inert (tolower c))) eq_refl c) as Hb. cbn in Hb |- *. by rewrite Hc in Hb. }
  rewrite Forall_forall in Hviews.
  assert (fragment (operation_views paths ≫= render_nav_item)) as Hnav by (apply fragment_bind; intros; by apply fragment_nav_item, Hviews).
  assert (fragment (operation_views paths ≫= render_operation)) as Hops by (apply fragment_bind; intros; by apply fragment_operation, Hviews).
  assert (∀ n, fragment (to_dec n)) as Hdec by (intros; apply attribute_fragment, attribute_digits).
  pose proof (nonce_attribute draws) as Hnonce. repeat first [read_constant | read_piece].
Qed.
End render.

(** ** Installation *)
Section install.
Context {F : Type} `{HttpFields F} `{Platform} `{Verbs}.
Context (sort : list (RouteEntry F) → list (RouteEntry F)).
Definition documentation_path (path : bytes) : Prop :=
  head path = Some "/"%char ∧ Forall (λ c, literal_character c = true) path.
Definition installable (spec_path docs_path : bytes) (r : HttpRouter F) : Prop :=
  documentation_path spec_path ∧ documentation_path docs_path ∧ spec_path ≠ docs_path ∧
  Forall (λ d, de_method d = verb_get → de_path d ≠ spec_path ∧ de_path d ≠ docs_path) (rt_descriptors r).
Lemma validate_path path name :
  validate_documentation_path path name = Ret tt ∧ documentation_path path ∨
  (∃ what, validate_documentation_path path name = Throw (InvalidArgument what)) ∧ ¬ documentation_path path.
Proof.
  unfold validate_documentation_path, documentation_path. rewrite Forall_forall.
  assert (forallb literal_character path = true ↔ ∀ c, c ∈ path → literal_character c = true) as Hb.
  { rewrite forallb_forall. split; intros Hx c Hc; apply Hx; by apply list_elem_of_In. }
  case_bool_decide as Hh; cbn [andb]; [|right; split; [by eexists|tauto]].
  destruct (forallb literal_character path) eqn:Hf; [left|right; split; [by eexists|]]; [tauto|]. intros [_ Hn]. by apply Hb in Hn.
Qed.
Lemma no_conflict spec_path docs_path (ds : list RouteDescriptor) :
  List.find (conflicts spec_path docs_path) ds = None ↔ Forall (λ d, de_method d = verb_get → de_path d ≠ spec_path ∧ de_path d ≠ docs_path) ds.
Proof.
  unfold conflicts. induction ds as [|d ds IH]; cbn [List.find]; [split; [constructor|done]|]. rewrite Forall_cons.
  repeat case_bool_decide; cbn [andb orb]; try (split; [done|tauto]); rewrite IH; tauto.
Qed.
Lemma erase_none path method ds :
  Forall (λ d, de_method d = method → de_path d ≠ path) ds → erase_descriptor path method ds = ds.
Proof.
  unfold erase_descriptor, same_route. induction 1 as [|d ds Hd _ IH]; [done|]. rewrite filter_cons, decide_True; [by rewrite IH|].
  apply andb_false_iff. rewrite !bool_decide_eq_false. destruct (decide (de_method d = method)); [left; auto|by right].
Qed.
Lemma install_step `{!StdSort more_specific sort} path h r :
  rt_base_path r = [] → table_ok (rt_routes r) → Forall (λ d, de_method d = verb_get → de_path d ≠ path) (rt_descriptors r) →
  ∃ r', add_route sort path verb_get h None None false empty_doc [] r = Ret r' ∧ rt_base_path r' = [] ∧ table_ok (rt_routes r') ∧
    rt_descriptors r' = rt_descriptors r ∧
    ∀ k p m h', registered k (rt_routes r') p m h' ↔
      if bool_decide (k = KSync ∧ p = path ∧ m = verb_get) then h' = h else registered k (rt_routes r) p m h'.
Proof.
  intros Hb Hok Hds. unfold add_route, apply_base_path. rewrite Hb. cbn [bool_decide mbind outcome_bind].
  rewrite bool_decide_eq_true_2 by done. cbn [mbind outcome_bind].
  destruct (install_registered sort KSync path verb_get h (rt_routes r) Hok) as (es & Hi & Hok' & Hreg). cbn [set_of] in Hi. rewrite Hi.
  eexists. split; [done|]. cbn. rewrite erase_none by done. by split_and!.
Qed.
(** Installing the documentation. On a router without a base path it
    succeeds exactly when both paths are absolute literal paths, differ, and no
    documented GET route has one of them; then it registers exactly the two GET
    handlers, touches no other route of any kind, and the document still
    describes the same routes as before (the documentation does not document
    itself). Otherwise it throws and registers nothing. *)
Theorem install_openapi_spec `{!StdSort more_specific sort} draws info spec_path docs_path r :
  rt_base_path r = [] → table_ok (rt_routes r) →
  (installable spec_path docs_path r →
   ∃ r' document page, install_openapi_routes sort draws info spec_path docs_path true r = Ret r' ∧ table_ok (rt_routes r') ∧
     document = json_serialize (JObject (generate_openapi (rt_descriptors r) info)) ∧
     page = make_documentation_page (generate_openapi (rt_descriptors r) info) info spec_path (make_csp_nonce draws) ∧
     generate_openapi (rt_descriptors r') info = generate_openapi (rt_descriptors r) info ∧
     ∀ k p m h, registered k (rt_routes r') p m h ↔
       if bool_decide (k = KSync ∧ p = docs_path ∧ m = verb_get) then h = serve_page page (make_csp_nonce draws)
       else if bool_decide (k = KSync ∧ p = spec_path ∧ m = verb_get) then h = serve_document document
       else registered k (rt_routes r) p m h) ∧
  (¬ installable spec_path docs_path r →
   ∃ what, install_openapi_routes sort draws info spec_path docs_path true r = Throw (InvalidArgument what)).
Proof.
  intros Hb Hok. unfold install_openapi_routes, installable. cbn [negb].
  destruct (validate_path spec_path (str "OpenAPI specification path")) as [[-> Hv1]|[[what ->] Hv1]];
    [|split; [tauto|intros _; by eexists]]. cbn [mbind outcome_bind].
  destruct (validate_path docs_path (str "OpenAPI documentation path")) as [[-> Hv2]|[[what ->] Hv2]];
    [|split; [tauto|intros _; by eexists]]. cbn [mbind outcome_bind].
  case_bool_decide as Hne; [split; [tauto|intros _; by eexists]|].
  pose proof (no_conflict spec_path docs_path (rt_descriptors r)) as Hconf.
  destruct (List.find _ _) as [d|]; [split; [intros (_ & _ & _ & Hf); by apply Hconf in Hf|intros _; by eexists]|].
  split; [intros (_ & _ & _ & Hf)|intros Hno; exfalso; apply Hno; split_and!; try done; by apply Hconf].
  destruct (install_step spec_path (serve_document (json_serialize (JObject (generate_openapi (rt_descriptors r) info)))) r Hb Hok)
    as (r1 & -> & Hb1 & Hok1 & Hd1 & Hr1). { eapply Forall_impl; [exact Hf|]. naive_solver. }
  cbn [mbind outcome_bind].
  destruct (install_step docs_path (serve_page (make_documentation_page (generate_openapi (rt_descriptors r) info) info spec_path (make_csp_nonce draws)) (make_csp_nonce draws)) r1 Hb1 Hok1)
    as (r2 & -> & _ & Hok2 & Hd2 & Hr2). { rewrite Hd1. eapply Forall_impl; [exact Hf|]. naive_solver. }
  eexists r2, _, _. split_and!; [done|done|done|done|by rewrite Hd2, Hd1|]. intros k p m h. rewrite Hr2. case_bool_decide; [done|]. apply Hr1.
Qed.
End install.

(** ** Witnesses, and what the model shows *)
#[local] Existing Instance demo_platform.
#[local] Existing Instance demo_verbs.
Definition sample_descriptor (path summary : bytes) : RouteDescriptor :=
  mk_descriptor path verb_get None None (mk_doc summary [] [] None None) [].
Theorem documentation_page_well_formed_witness :
  run (InText, []) (make_documentation_page
    (generate_openapi [sample_descriptor (str "/u/:id<b>") (str "</p><script>")] default_info) default_info (str "/openapi.json") (make_csp_nonce [7%N]))
  = Some (InText, []).
Proof. apply documentation_page_well_formed. repeat constructor. Defined.
Theorem install_openapi_spec_witness :
  ∃ r', install_openapi_routes (merge_std_sort more_specific) [] default_info (str "/openapi.json") (str "/docs") true demo_router = Ret r' ∧
        table_ok (rt_routes r').
Proof.
  assert (table_ok (rt_routes demo_router)) as Hok by (apply (registrations_ok (merge_std_sort more_specific) demo_registrations); reflexivity).
  destruct (install_openapi_spec (merge_std_sort more_specific) [] default_info (str "/openapi.json") (str "/docs") demo_router eq_refl Hok) as [Hi _].
  destruct Hi as (r' & document & page & Hi & Ht & _); [|by exists r'].
  split_and!; [split; [done|by repeat constructor]..|done|by repeat constructor].
Defined.
(** Three routes whose anchors are [get-a], [get-a-2] (the second [get-a]) and
    [get-a-2] again: two operations of the page share an identifier. *)
Lemma duplicate_anchors :
  ov_anchor <$> operation_views (paths_json (documented_paths [sample_descriptor (str "/a") []; sample_descriptor (str "/a/") []; sample_descriptor (str "/a/2") []]))
  = [str "get-a"; str "get-a-2"; str "get-a-2"].
Proof. by vm_compute. Qed.
(** Under a base path the conflict test compares paths without the base path
    with registered paths that carry it: a documented [GET /api/docs] is not
    noticed, and the documentation takes its place in the table and removes
    its documentation record. *)
Definition based_router : HttpRouter FieldList.t :=
  match r ← set_base_path (str "/api") router_init;
        add_route (merge_std_sort more_specific) (str "/docs") verb_get (demo_handler (str "mine")) None None true empty_doc [] r with
  | Ret r => r | Throw _ => router_init end.
Lemma base_path_conflict_unnoticed :
  de_path <$> rt_descriptors based_router = [str "/api/docs"] ∧
  match install_openapi_routes (merge_std_sort more_specific) [] default_info (str "/openapi.json") (str "/docs") true based_router with
  | Ret r => rt_descriptors r = [] ∧ re_path <$> rt_routes r = [str "/api/docs"; str "/api/openapi.json"]
  | Throw _ => False
  end.
Proof. by vm_compute. Qed.
(** Two routes that spell a parameter differently share one operation of the
    document: the second one registered. *)
Lemma spelling_overwrites :
  dp_path (document_path (str "/u/:id")) = dp_path (document_path (str "/u/{id}")) ∧
  length (documented_paths [sample_descriptor (str "/u/:id") (str "first"); sample_descriptor (str "/u/{id}") (str "second")]) = 1.
Proof. by vm_compute. Qed.
