(* ===== verification/WebsocketClient.v ===== *)
(** * WebSocket client ([client/websocket_client.cpp], [client/websocket_client.hpp])

    A [WebsocketClient] shares its [State] (the handlers of its owner, under a
    mutex) with its current session. The session is a machine over the
    completions of its stream and the closures [send] and [close] post; the
    plain and the TLS session are the same code up to one more handshake. A
    notification is not one step: it copies the handlers under the lock, and the
    owner may destroy the client or set other handlers before they are called
    and in each of them ([notify]). What the source does to an empty [std::deque]
    is undefined: it is the error of the model. *)
From S2P Require Import Prelude Text Websocket HttpClient.
Set Default Proof Using "Type*".

Module WsClient.
Inductive error_code := WsClosed | Eof | StreamTruncated | ConnectionReset | BadDescriptor | Aborted | Other (n : N).
#[global] Instance error_code_eq_dec : EqDecision error_code.
Proof. solve_decision. Defined.
Inductive undefined := front_of_empty | pop_of_empty.

(** [WebsocketClient::State]; of a handler only whether it is set. *)
Record State := mk_state {
  alive : bool; close_notified : bool;
  on_message : bool; on_frame : bool; on_error : bool; on_close : bool;
  negotiated_subprotocol : bytes }.
(** [WebsocketSessionImpl]; [connect_cb_]: whether the caller passed one. *)
Record Session := mk_session {
  write_queue_ : list WebsocketFrame; is_writing_ : bool; closing_ : bool; close_started_ : bool;
  connect_notified_ : bool; host_ : bytes; connect_cb_ : bool }.
Definition new_session : Session := mk_session [] false false false false [] false.

(** A call of a handler of the owner, a notification that makes such calls, and
    what the owner does meanwhile, in a handler or on another thread. *)
Inductive callback :=
| CallConnect (ec : option error_code)
| CallFrame (f : WebsocketFrame) | CallMessage (payload : bytes) | CallError (ec : error_code) | CallClose.
Inductive notification := NotifyFrame (f : WebsocketFrame) | NotifyError (ec : error_code) | NotifyClose | NotifyConnect (ec : option error_code).
Inductive owner_action := Destroy | SetHandlers (m f e x : bool).
Inductive effect :=
| Resolve (host port : bytes) | ConnectTo | SslHandshake | Handshake (host target : bytes) | Read
| AsyncWrite (f : WebsocketFrame) | AsyncPing (payload : bytes) | AsyncPong (payload : bytes)
| CancelIo | AsyncClose | ShutdownSocket
| Copied (cs : list callback)               (** the handlers that will be called are copied *)
| Call (c : callback) | Owner (a : owner_action).

Record world := mk_world { st : State; ses : Session }.
Abbreviation result := (outcome undefined (world * list effect)).
Definition set_ses (s : Session) (w : world) : world := mk_world (st w) s.
Definition set_st (s : State) (w : world) : world := mk_world s (ses w).
Definition set_queue (q : list WebsocketFrame) (s : Session) : Session :=
  mk_session q (is_writing_ s) (closing_ s) (close_started_ s) (connect_notified_ s) (host_ s) (connect_cb_ s).
Definition set_writing (b : bool) (s : Session) : Session :=
  mk_session (write_queue_ s) b (closing_ s) (close_started_ s) (connect_notified_ s) (host_ s) (connect_cb_ s).
Definition set_closing (s : Session) : Session :=
  mk_session (write_queue_ s) (is_writing_ s) true (close_started_ s) (connect_notified_ s) (host_ s) (connect_cb_ s).
Definition set_close_started (s : Session) : Session :=
  mk_session (write_queue_ s) (is_writing_ s) (closing_ s) true (connect_notified_ s) (host_ s) (connect_cb_ s).
Definition set_connect_notified (s : Session) : Session :=
  mk_session (write_queue_ s) (is_writing_ s) (closing_ s) (close_started_ s) true (host_ s) (connect_cb_ s).

(** ** The owner *)
Definition set_on_message (b : bool) (s : State) : State :=
  mk_state (alive s) (close_notified s) b (on_frame s) (on_error s) (on_close s) (negotiated_subprotocol s).
Definition set_on_frame (b : bool) (s : State) : State :=
  mk_state (alive s) (close_notified s) (on_message s) b (on_error s) (on_close s) (negotiated_subprotocol s).
Definition set_on_error (b : bool) (s : State) : State :=
  mk_state (alive s) (close_notified s) (on_message s) (on_frame s) b (on_close s) (negotiated_subprotocol s).
Definition set_on_close (b : bool) (s : State) : State :=
  mk_state (alive s) (close_notified s) (on_message s) (on_frame s) (on_error s) b (negotiated_subprotocol s).
(** The destructor, before its [close]. *)
Definition destroy (w : world) : world :=
  set_st (mk_state false (close_notified (st w)) false (on_frame (st w)) false false (negotiated_subprotocol (st w))) w.
(** Nothing is done to a client that is gone. *)
Definition act (a : owner_action) (w : world) : world * list effect :=
  if negb (alive (st w)) then (w, [])
  else (match a with
        | Destroy => destroy w
        | SetHandlers m f e x => set_st (set_on_close x (set_on_error e (set_on_frame f (set_on_message m (st w))))) w
        end, [Owner a]).
Fixpoint act_all (l : list owner_action) (w : world) : world * list effect :=
  match l with
  | [] => (w, [])
  | a :: l => let '(w, o1) := act a w in let '(w, o2) := act_all l w in (w, o1 ++ o2)
  end.

(** ** Notifications *)
(** When the owner may act: once the handlers are copied, and in a handler or
    after it. *)
Inductive moment := Began (n : notification) | Ended (c : callback).
Section owner.
Context (env : moment → list owner_action).
Fixpoint call_all (cs : list callback) (w : world) : world * list effect :=
  match cs with
  | [] => (w, [])
  | c :: cs =>
      let '(w, o1) := act_all (env (Ended c)) w in
      let '(w, o2) := call_all cs w in (w, Call c :: o1 ++ o2)
  end.
(** [cs]: the handlers as they were copied. *)
Definition notify (n : notification) (cs : list callback) (w : world) : world * list effect :=
  let '(w, o1) := act_all (env (Began n)) w in
  let '(w, o2) := call_all cs w in (w, Copied cs :: o1 ++ o2).
Definition set_negotiated_subprotocol (value : bytes) (w : world) : world :=
  if alive (st w)
  then set_st (mk_state (alive (st w)) (close_notified (st w)) (on_message (st w)) (on_frame (st w)) (on_error (st w)) (on_close (st w)) value) w
  else w.
Definition notify_frame (f : WebsocketFrame) (w : world) : world * list effect :=
  if negb (alive (st w)) then (w, [])
  else notify (NotifyFrame f)
         ((if on_frame (st w) then [CallFrame f] else []) ++
          (if bool_decide (fr_type f = ft_text) && on_message (st w) then [CallMessage (fr_payload f)] else [])) w.
Definition notify_error (ec : error_code) (w : world) : world * list effect :=
  if negb (alive (st w)) then (w, [])
  else notify (NotifyError ec) (if on_error (st w) then [CallError ec] else []) w.
Definition notify_close (w : world) : world * list effect :=
  if negb (alive (st w)) || close_notified (st w) then (w, [])
  else notify NotifyClose (if on_close (st w) then [CallClose] else [])
         (set_st (mk_state (alive (st w)) true (on_message (st w)) (on_frame (st w)) (on_error (st w)) (on_close (st w))
                    (negotiated_subprotocol (st w))) w).
Definition notify_connect (ec : option error_code) (w : world) : world * list effect :=
  if connect_notified_ (ses w) || closing_ (ses w) then (w, [])
  else
    let w := set_ses (set_connect_notified (ses w)) w in
    if negb (alive (st w)) then (w, [])
    else notify (NotifyConnect ec) (if connect_cb_ (ses w) then [CallConnect ec] else []) w.
Definition fail (ec : error_code) (w : world) : world * list effect := notify_connect (Some ec) w.

(** ** The write queue *)
Definition do_write_from_queue (w : world) : result :=
  match write_queue_ (ses w) with
  | [] => Throw front_of_empty
  | frame :: _ =>
      Ret (w, [match fr_type frame with
               | ft_ping => AsyncPing (fr_payload frame)
               | ft_pong => AsyncPong (fr_payload frame)
               | _ => AsyncWrite frame
               end])
  end.
(** The base class calls the virtual [do_write_from_queue] of its session. *)
Section base.
Context (write_front : world → result).
Definition on_queue_write (frame : WebsocketFrame) (w : world) : result :=
  if closing_ (ses w) then Ret (w, [])
  else
    let w := set_ses (set_queue (write_queue_ (ses w) ++ [frame]) (ses w)) w in
    if is_writing_ (ses w) then Ret (w, [])
    else write_front (set_ses (set_writing true (ses w)) w).
Definition process_write_result (ec : option error_code) (w : world) : result :=
  match ec with
  | Some ec =>
      let w := set_ses (set_writing false (ses w)) w in
      Ret (if bool_decide (ec ∈ [WsClosed; Aborted; BadDescriptor]) then notify_close w else notify_error ec w)
  | None =>
      match write_queue_ (ses w) with
      | [] => Throw pop_of_empty
      | _ :: q =>
          let w := set_ses (set_queue q (ses w)) w in
          if bool_decide (q ≠ []) then write_front w
          else Ret (set_ses (set_writing false (ses w)) w, [])
      end
  end.
End base.

(** ** Reading *)
(** [reason.reason.c_str()]: up to the first NUL. *)
Definition close_frame (reason : Z * bytes) : WebsocketFrame := mk_frame ft_close [] reason.1 (c_str reason.2).
Definition process_read_result (ec : option error_code) (text : bool) (data : bytes) (reason : Z * bytes) (w : world) :
    world * list effect :=
  match ec with
  | Some ec =>
      if bool_decide (ec ∈ [WsClosed; Eof; StreamTruncated; ConnectionReset; BadDescriptor; Aborted]) then
        let '(w, out) := if bool_decide (ec = WsClosed) then notify_frame (close_frame reason) w else (w, []) in
        let '(w, closed) := notify_close w in (w, out ++ closed)
      else notify_error ec w
  | None => notify_frame (mk_frame (if text then ft_text else ft_binary) data 1000 []) w
  end.
Definition on_read (ec : option error_code) (text : bool) (data : bytes) (reason : Z * bytes) (w : world) : world * list effect :=
  let '(w, out) := process_read_result ec text data reason w in
  (w, if bool_decide (ec = None) then out ++ [Read] else out).

(** ** Connecting: [tls] distinguishes the two session classes *)
Section session.
Context (tls : bool) (target : bytes).
Definition run (host port : bytes) (callback : bool) (sni : option error_code) (w : world) : world * list effect :=
  let w := set_ses (mk_session (write_queue_ (ses w)) (is_writing_ (ses w)) (closing_ (ses w)) (close_started_ (ses w))
                      (connect_notified_ (ses w)) host callback) w in
  match sni with
  | Some ec => if tls then fail ec w else (w, [Resolve host port])
  | None => (w, [Resolve host port])
  end.
(** [if (closing_) return; if (ec) return fail(ec);], then [next]. *)
Definition guarded (ec : option error_code) (next : list effect) (w : world) : world * list effect :=
  if closing_ (ses w) then (w, [])
  else match ec with Some ec => fail ec w | None => (w, next) end.
Definition on_resolve (ec : option error_code) (w : world) := guarded ec [ConnectTo] w.
Definition on_connect (ec : option error_code) (w : world) :=
  guarded ec [if tls then SslHandshake else Handshake (host_ (ses w)) target] w.
Definition on_ssl_handshake (ec : option error_code) (w : world) := guarded ec [Handshake (host_ (ses w)) target] w.
Definition on_handshake (ec : option error_code) (subprotocol : bytes) (w : world) : world * list effect :=
  if closing_ (ses w) then (w, [])
  else match ec with
  | Some ec => fail ec w
  | None => let '(w, out) := notify_connect None (set_negotiated_subprotocol subprotocol w) in (w, out ++ [Read])
  end.
(** The closure posted by [close]; [is_open]: [ws_.is_open()]. *)
Definition close (is_open : bool) (w : world) : world * list effect :=
  let w := set_ses (set_queue [] (set_closing (ses w))) w in
  if is_open && negb (close_started_ (ses w)) then (set_ses (set_close_started (ses w)) w, [CancelIo; AsyncClose])
  else (w, [CancelIo; ShutdownSocket]).

Inductive event :=
| EvResolved (ec : option error_code) | EvConnected (ec : option error_code) | EvSslHandshake (ec : option error_code)
| EvHandshake (ec : option error_code) (subprotocol : bytes)
| EvRead (ec : option error_code) (text : bool) (data : bytes) (reason : Z * bytes)
| EvWrite (ec : option error_code)
| EvQueueWrite (frame : WebsocketFrame) | EvClose (is_open : bool) | EvClosed (ec : option error_code).
Definition handle (ev : event) (w : world) : result :=
  match ev with
  | EvResolved ec => Ret (on_resolve ec w)
  | EvConnected ec => Ret (on_connect ec w)
  | EvSslHandshake ec => Ret (on_ssl_handshake ec w)
  | EvHandshake ec subprotocol => Ret (on_handshake ec subprotocol w)
  | EvRead ec text data reason => Ret (on_read ec text data reason w)
  | EvWrite ec => process_write_result do_write_from_queue ec w
  | EvQueueWrite frame => on_queue_write do_write_from_queue frame w
  | EvClose is_open => Ret (close is_open w)
  | EvClosed _ => Ret (notify_close w)
  end.
End session.
End owner.

(** ** The client *)
Definition put_header (key value : bytes) (headers_ : list (bytes * bytes)) : list (bytes * bytes) := map_assign key value headers_.
(** [send]: the posted closures; a client that never connected drops the frame. *)
Definition send (frame : WebsocketFrame) (has_session : bool) : list event := if has_session then [EvQueueWrite frame] else [].
Definition send_text (message : bytes) (has_session : bool) : list event := send (mk_frame ft_text message 1000 []) has_session.
Definition join_subprotocols (subprotocols : list bytes) : bytes :=
  fold_left (λ value protocol,
    if bool_decide (protocol = []) then value
    else (if bool_decide (value = []) then value else value ++ str ", ") ++ protocol) subprotocols [].
(** [std::map::erase] and [operator[]]. *)
Definition set_subprotocols (subprotocols : list bytes) (headers_ : list (bytes * bytes)) : list (bytes * bytes) :=
  let value := join_subprotocols subprotocols in
  if bool_decide (value = [])
  then List.filter (λ h, negb (bool_decide (h.1 = str "Sec-WebSocket-Protocol"))) headers_
  else map_assign (str "Sec-WebSocket-Protocol") value headers_.

Inductive refusal := BadTarget | NotSupported.
Record destination := mk_destination { secure : bool; d_host : bytes; d_port : bytes; d_target : bytes }.
(** [connect] up to the choice of the session class; [has_ssl]: [ssl_ctx_ptr_] is set. *)
Definition destination_of {U} `{BoostUrl U} (has_ssl : bool) (url : bytes) : refusal + destination :=
  match parse_uri url with
  | None => inl BadTarget
  | Some u =>
      let scheme := url_scheme u in
      let target := url_encoded_target u in
      let target := match target with
                    | [] => str "/"
                    | c :: _ => if bool_decide (c = "?"%char) then "/"%char :: target else target
                    end in
      if negb (bool_decide (scheme = str "ws")) && negb (bool_decide (scheme = str "wss")) then inl NotSupported
      else
        let secure := bool_decide (scheme = str "wss") in
        let port := if bool_decide (url_port u = []) then (if secure then str "443" else str "80") else url_port u in
        if secure && negb has_ssl then inl NotSupported
        else inr (mk_destination secure (url_host u) port target)
  end.
(** What [connect] does to the shared state, with a fresh session. *)
Definition connect_world (s : State) : world :=
  mk_world (mk_state (alive s) false (on_message s) (on_frame s) (on_error s) (on_close s) []) new_session.
(** The headers of the handshake: the decorator. *)
Definition handshake_fields {F} `{Http.HttpFields F} (user_agent : bytes) (headers : list (bytes * bytes)) (req : F) : F :=
  fold_left (λ f h, Http.field_set h.1 h.2 f) headers (Http.field_set (str "User-Agent") user_agent req).
End WsClient.
