(* ===== verification/WebsocketClientTheorems.v ===== *)
(** * WebSocket client: properties

    One session as a transition system ([ws_step]): the writes of the queue
    ([ws_client_writes]), the callbacks of the owner, who may destroy the client
    or set other handlers at any moment, in a callback too
    ([ws_client_callbacks]), and the agreement of [set_subprotocols] with the
    parser of the server ([subprotocols_roundtrip]). *)
From S2P Require Import Prelude Text Http Websocket WebsocketTheorems HttpClient WebsocketClient.
Set Default Proof Using "Type*".
Import WsClient.

(** ** Runs of one session *)
(** The operation the connecting-then-reading chain waits for. *)
Inductive chain_op := OpResolve | OpConnect | OpSsl | OpHandshake | OpRead.
#[export] Instance chain_op_eq_dec : EqDecision chain_op.
Proof. solve_decision. Defined.
Definition chain_of (e : effect) : option chain_op :=
  match e with
  | Resolve _ _ => Some OpResolve | ConnectTo => Some OpConnect | SslHandshake => Some OpSsl
  | Handshake _ _ => Some OpHandshake | Read => Some OpRead | _ => None
  end.
Definition next_chain (out : list effect) : option chain_op := head (omap chain_of out).
Definition is_write (e : effect) : bool := match e with AsyncWrite _ | AsyncPing _ | AsyncPong _ => true | _ => false end.
Definition is_close_op (e : effect) : bool := match e with AsyncClose => true | _ => false end.
(** What concerns the owner alone. *)
Definition is_note (e : effect) : bool := match e with Copied _ | Call _ | Owner _ => true | _ => false end.
Definition call_of (e : effect) : option callback := match e with Call c => Some c | _ => None end.
Definition is_connect_call (e : effect) : bool := match e with Call (CallConnect _) => true | _ => false end.
Definition is_close_call (e : effect) : bool := match e with Call CallClose => true | _ => false end.
(** The connection failed, broke or ended, and the owner was told. *)
Definition is_end_call (e : effect) : bool :=
  match e with Call (CallConnect (Some _) | CallError _ | CallClose) => true | _ => false end.
(** The owner leaves its error and close handlers set. *)
Definition keeps (e : effect) : bool :=
  match e with Owner Destroy => false | Owner (SetHandlers _ _ e x) => e && x | _ => true end.
Definition count (p : effect → bool) (out : list effect) : nat := length (List.filter p out).
Definition write_effect (f : WebsocketFrame) : effect :=
  match fr_type f with ft_ping => AsyncPing (fr_payload f) | ft_pong => AsyncPong (fr_payload f) | _ => AsyncWrite f end.

Record ws_run := mk_run {
  r_w : world; r_out : list effect;
  r_chain : option chain_op;             (** in flight: chain, queue write, closing handshake *)
  r_writes : nat; r_close_op : bool;
  r_accepted : list WebsocketFrame;      (** frames [on_queue_write] took *)
  r_done : list WebsocketFrame;          (** frames whose write succeeded *)
  r_failed : bool;                       (** a write failed *)
  r_regular : bool }.                    (** the client lives and its error, close and connect handlers were always set *)

Definition enabled (c : ws_run) (ev : event) : Prop :=
  match ev with
  | EvResolved _ => r_chain c = Some OpResolve | EvConnected _ => r_chain c = Some OpConnect
  | EvSslHandshake _ => r_chain c = Some OpSsl | EvHandshake _ _ => r_chain c = Some OpHandshake
  | EvRead _ _ _ _ => r_chain c = Some OpRead
  | EvWrite _ => 0 < r_writes c
  | EvClosed _ => r_close_op c = true
  | EvQueueWrite _ | EvClose _ => True
  end.
Definition in_chain (ev : event) : bool := match ev with EvWrite _ | EvClosed _ | EvQueueWrite _ | EvClose _ => false | _ => true end.
Definition follow (c : ws_run) (ev : event) (w : world) (out : list effect) : ws_run :=
  mk_run w (r_out c ++ out) (if in_chain ev then next_chain out else r_chain c)
    (match ev with EvWrite _ => pred (r_writes c) | _ => r_writes c end + count is_write out)
    (match ev with EvClosed _ => false | _ => r_close_op c || existsb is_close_op out end)
    (match ev with EvQueueWrite f => if closing_ (ses (r_w c)) then r_accepted c else r_accepted c ++ [f] | _ => r_accepted c end)
    (match ev with EvWrite None => r_done c ++ take 1 (write_queue_ (ses (r_w c))) | _ => r_done c end)
    (match ev with EvWrite (Some _) => true | _ => r_failed c end) (r_regular c && forallb keeps out).
(** The owner acts between two handlers of the session. *)
Definition owned (c : ws_run) (r : world * list effect) : ws_run :=
  mk_run r.1 (r_out c ++ r.2) (r_chain c) (r_writes c) (r_close_op c) (r_accepted c) (r_done c) (r_failed c)
    (r_regular c && forallb keeps r.2).

(** ** What a notification does *)
(** The log of the owner: a notification begins only for a living client, calls
    the handlers it copied in order, and is over before the next begins; the
    client lives until it is destroyed. [scans a due log a' due']: alive or not
    and the calls that are due, before and after. *)
Inductive scans : bool → list callback → list effect → bool → list callback → Prop :=
| scan_nil a d : scans a d [] a d
| scan_copied cs log a' d' : scans true cs log a' d' → scans true [] (Copied cs :: log) a' d'
| scan_call a c d log a' d' : scans a d log a' d' → scans a (c :: d) (Call c :: log) a' d'
| scan_destroy d log a' d' : scans false d log a' d' → scans true d (Owner Destroy :: log) a' d'
| scan_set m f e x d log a' d' : scans true d log a' d' → scans true d (Owner (SetHandlers m f e x) :: log) a' d'
| scan_other e a d log a' d' : is_note e = false → scans a d log a' d' → scans a d (e :: log) a' d'.
Lemma scans_app a d l1 a1 d1 l2 a2 d2 : scans a d l1 a1 d1 → scans a1 d1 l2 a2 d2 → scans a d (l1 ++ l2) a2 d2.
Proof. induction 1; intros H2; cbn [app]; [exact H2|constructor; auto..]. Qed.
Lemma scans_split a d l1 l2 a2 d2 : scans a d (l1 ++ l2) a2 d2 → ∃ a1 d1, scans a d l1 a1 d1 ∧ scans a1 d1 l2 a2 d2.
Proof.
  revert a d. induction l1 as [|e l1 IH]; intros a d H; [by exists a, d; split; [constructor|]|].
  inversion H; subst; match goal with Hs : scans _ _ (l1 ++ l2) _ _ |- _ => apply IH in Hs as (a1 & d1 & ? & ?) end;
    exists a1, d1; (split; [|done]); by constructor.
Qed.
Lemma scans_silent a d log : Forall (λ e, is_note e = false) log → scans a d log a d.
Proof. induction 1; by constructor. Qed.
(** The calls a notification still owes. *)
Definition owe (due : list callback) (e : effect) : list callback :=
  match e with Copied cs => cs | Call _ => tail due | _ => due end.
Definition uncalled (log : list effect) : list callback := foldl owe [] log.
Lemma scans_owed a d log a' d' : scans a d log a' d' → foldl owe d log = d'.
Proof. induction 1 as [| | | | |e a d log a' d' He _ IH]; cbn; try done. by destruct e. Qed.
(** Once the client is gone no notification begins: only what was due is called. *)
Lemma scans_gone d log a' d' : scans false d log a' d' → (∀ cs, Copied cs ∉ log) ∧ d = omap call_of log ++ d'.
Proof.
  intros H. remember false as a eqn:Ha. induction H as [|?|a c d log a' d' _ IH| | |e a d log a' d' He _ IH]; try discriminate Ha.
  - split; [intros cs; apply not_elem_of_nil|done].
  - destruct (IH Ha) as [H1 H2]. split; [intros cs [?|?]%elem_of_cons; [done|by eapply H1]|]. cbn. by f_equal.
  - destruct (IH Ha) as [H1 H2]. split; [intros cs [<-|?]%elem_of_cons; [done|by eapply H1]|]. by destruct e.
Qed.

Definition reporting (w : world) : Prop :=
  alive (st w) = true ∧ on_error (st w) = true ∧ on_close (st w) = true ∧ connect_cb_ (ses w) = true.
(** A part of a notification from [w] on that makes the calls [cs]; [d], [d']: the calls
    due before and after it. *)
Record noted (cs d d' : list callback) (w : world) (r : world * list effect) : Prop := {
  noted_ses : ses r.1 = ses w;
  noted_close : close_notified (st r.1) = close_notified (st w);
  noted_notes : Forall (λ e, is_note e = true) r.2;
  noted_calls : omap call_of r.2 = cs;
  noted_kept : forallb keeps r.2 = true → reporting w → reporting r.1;
  noted_scan : scans (alive (st w)) d r.2 (alive (st r.1)) d' }.
Lemma noted_nil d w : noted [] d d w (w, []).
Proof. split; cbn; try done; constructor. Qed.
Lemma noted_app cs1 cs2 d d1 d' w w1 o1 w2 o2 :
  noted cs1 d d1 w (w1, o1) → noted cs2 d1 d' w1 (w2, o2) → noted (cs1 ++ cs2) d d' w (w2, o1 ++ o2).
Proof.
  intros [H1 H2 H3 H4 H5 H6] [G1 G2 G3 G4 G5 G6]. cbn [fst snd] in *. split; cbn [fst snd].
  - by rewrite G1.
  - by rewrite G2.
  - by apply Forall_app.
  - by rewrite omap_app, H4, G4.
  - rewrite forallb_app, andb_true_iff. intros [? ?] ?. auto.
  - by eapply scans_app.
Qed.
Lemma noted_act a d w : noted [] d d w (act a w).
Proof.
  unfold act. destruct (alive (st w)) eqn:Ha; [|apply noted_nil]. cbn [negb]. destruct a as [|m f e x]; split; cbn; rewrite ?Ha; try done.
  - by repeat constructor.
  - by constructor; constructor.
  - by repeat constructor.
  - rewrite andb_true_r. intros [? ?]%andb_true_iff (? & ? & ? & ?). by repeat split.
  - by constructor; constructor.
Qed.
Lemma noted_act_all l d w : noted [] d d w (act_all l w).
Proof.
  revert w. induction l as [|a l IH]; intros w; cbn [act_all]; [apply noted_nil|].
  pose proof (noted_act a d w) as Ha. destruct (act a w) as [w1 o1]. specialize (IH w1). destruct (act_all l w1) as [w2 o2].
  exact (noted_app [] [] d d d _ _ _ _ _ Ha IH).
Qed.
Lemma noted_call_all env cs w : noted cs cs [] w (call_all env cs w).
Proof.
  revert w. induction cs as [|c cs IH]; intros w; cbn [call_all]; [apply noted_nil|].
  pose proof (noted_act_all (env (Ended c)) cs w) as Ha. destruct (act_all _ w) as [w1 o1]. specialize (IH w1). destruct (call_all env cs w1) as [w2 o2].
  change (Call c :: o1 ++ o2) with ([Call c] ++ (o1 ++ o2)). change (c :: cs) with ([c] ++ ([] ++ cs)) at 1.
  eapply noted_app; [|by eapply noted_app]. split; cbn; try done; by repeat constructor.
Qed.
Lemma noted_notify env n cs w : alive (st w) = true → noted cs [] [] w (notify env n cs w).
Proof.
  intros Ha. unfold notify. pose proof (noted_act_all (env (Began n)) cs w) as H1. destruct (act_all _ w) as [w1 o1].
  pose proof (noted_call_all env cs w1) as H2. destruct (call_all env cs w1) as [w2 o2].
  change (Copied cs :: o1 ++ o2) with ([Copied cs] ++ (o1 ++ o2)). change cs with ([] ++ ([] ++ cs)) at 1.
  eapply noted_app; [|by eapply noted_app]. split; cbn; try done; [by repeat constructor|]. rewrite Ha. by constructor; constructor.
Qed.
Lemma notes_filter p out : (∀ e, is_note e = true → p e = false) → Forall (λ e, is_note e = true) out → List.filter p out = [].
Proof. intros Hp. induction 1 as [|e out He _ IH]; [done|]. cbn. by rewrite (Hp e He). Qed.
Lemma notes_write out : Forall (λ e, is_note e = true) out → List.filter is_write out = [].
Proof. apply notes_filter. by intros []. Qed.
(** The four notifications. *)
Definition plain_call (c : callback) : bool := match c with CallConnect _ | CallClose => false | _ => true end.
Lemma noted_frame env f w : ∃ cs, noted cs [] [] w (notify_frame env f w) ∧ forallb plain_call cs = true.
Proof.
  unfold notify_frame. destruct (alive (st w)) eqn:Ha; [|by exists []; split; [apply noted_nil|]].
  eexists. split; [by apply noted_notify|]. by destruct (on_frame (st w)), (_ && _).
Qed.
Lemma noted_error env ec w :
  ∃ cs, noted cs [] [] w (notify_error env ec w) ∧ forallb plain_call cs = true ∧
        (alive (st w) = true → on_error (st w) = true → cs = [CallError ec]).
Proof.
  unfold notify_error. destruct (alive (st w)) eqn:Ha; [|by exists []; split; [apply noted_nil|]].
  eexists. split; [by apply noted_notify|]. by destruct (on_error (st w)).
Qed.
(** [close_notified] is set under the lock. *)
Definition closed_world (w : world) : world :=
  set_st (mk_state (alive (st w)) true (on_message (st w)) (on_frame (st w)) (on_error (st w)) (on_close (st w)) (negotiated_subprotocol (st w))) w.
Lemma noted_notify_close env w :
  alive (st w) && negb (close_notified (st w)) = true →
  noted (if on_close (st w) then [CallClose] else []) [] [] (closed_world w) (notify_close env w).
Proof.
  intros [Ha Hc]%andb_true_iff. unfold notify_close, closed_world. rewrite Ha. destruct (close_notified (st w)); [done|]. by apply noted_notify.
Qed.
Lemma notify_close_told env w : alive (st w) && negb (close_notified (st w)) = false → notify_close env w = (w, []).
Proof. unfold notify_close. by destruct (alive _), (close_notified _). Qed.
Lemma noted_notify_connect env ec w :
  connect_notified_ (ses w) = false → closing_ (ses w) = false → 
  noted (if alive (st w) && connect_cb_ (ses w) then [CallConnect ec] else []) [] [] (set_ses (set_connect_notified (ses w)) w) (notify_connect env ec w).
Proof.
  intros Hn Hc. unfold notify_connect. rewrite Hn, Hc. cbn [orb]. cbv zeta.
  destruct (alive (st w)) eqn:Ha; cbn [st set_ses]; rewrite Ha; cbn [negb andb]; [by apply noted_notify|apply noted_nil].
Qed.
Lemma notify_connect_told env ec w :
  connect_notified_ (ses w) || closing_ (ses w) = true → notify_connect env ec w = (w, []).
Proof. unfold notify_connect. by intros ->. Qed.

Section run.
Context (tls : bool) (target : bytes).
(** [env]: what the owner does while the handler runs. *)
Inductive ws_step : ws_run → ws_run → Prop :=
| step_event c env ev w out :
    enabled c ev → handle env tls target ev (r_w c) = Ret (w, out) → ws_step c (follow c ev w out)
| step_owner c a : ws_step c (owned c (act a (r_w c))).
(** A session as [connect] starts it. *)
Definition ws_start (env : moment → list owner_action) (s : State) (host port : bytes) (callback : bool) (sni : option error_code) : ws_run :=
  let '(w, out) := run env tls host port callback sni (connect_world s) in
  mk_run w out (next_chain out) 0 false [] [] false (alive s && on_error s && on_close s && callback && forallb keeps out).

(** *** Writes *)
Definition writes_inv (c : ws_run) : Prop :=
  let s := ses (r_w c) in
  r_writes c = (if is_writing_ s then 1 else 0) ∧
  (closing_ s = false →
     (is_writing_ s = true → write_queue_ s ≠ []) ∧ r_accepted c = r_done c ++ write_queue_ s ∧
     (r_failed c = false →
        List.filter is_write (r_out c) = write_effect <$> r_done c ++ (if is_writing_ s then take 1 (write_queue_ s) else []) ∧
        (is_writing_ s = false → write_queue_ s = []))).
Lemma filter_app_write a b : List.filter is_write (a ++ b) = List.filter is_write a ++ List.filter is_write b.
Proof. apply List.filter_app. Qed.
(** Handlers that leave the write queue alone. *)
Definition neutral (w : world) (r : world * list effect) : Prop :=
  write_queue_ (ses r.1) = write_queue_ (ses w) ∧ is_writing_ (ses r.1) = is_writing_ (ses w) ∧
  closing_ (ses r.1) = closing_ (ses w) ∧ List.filter is_write r.2 = [].
Lemma neutral_noted cs d d' w r : noted cs d d' w r → neutral w r.
Proof. intros [Hs _ Hn _ _ _]. unfold neutral. rewrite Hs. split_and!; try done. by apply notes_write. Qed.
Lemma neutral_app w w1 o1 w2 o2 : neutral w (w1, o1) → neutral w1 (w2, o2) → neutral w (w2, o1 ++ o2).
Proof.
  intros (H1 & H2 & H3 & H4) (G1 & G2 & G3 & G4). unfold neutral in *. cbn [fst snd] in *.
  rewrite filter_app_write, H4, G4. split_and!; [by rewrite G1|by rewrite G2|by rewrite G3|done].
Qed.
Lemma neutral_notify_frame env w f : neutral w (notify_frame env f w).
Proof. destruct (noted_frame env f w) as (cs & H & _). by eapply neutral_noted. Qed.
Lemma neutral_notify_error env w ec : neutral w (notify_error env ec w).
Proof. destruct (noted_error env ec w) as (cs & H & _). by eapply neutral_noted. Qed.
Lemma neutral_notify_close env w : neutral w (notify_close env w).
Proof.
  destruct (alive (st w) && negb (close_notified (st w))) eqn:He; [|by rewrite notify_close_told].
  exact (neutral_noted _ _ _ _ _ (noted_notify_close env w He)).
Qed.
Lemma neutral_notify_connect env ec w : neutral w (notify_connect env ec w).
Proof.
  destruct (connect_notified_ (ses w) || closing_ (ses w)) eqn:He; [by rewrite notify_connect_told|].
  apply orb_false_iff in He as [Hn Hc]. exact (neutral_noted _ _ _ _ _ (noted_notify_connect env ec w Hn Hc)).
Qed.
Lemma neutral_guarded env ec next w : List.filter is_write next = [] → neutral w (guarded env ec next w).
Proof. intros Hn. unfold guarded. destruct (closing_ (ses w)); [done|]. destruct ec; [apply neutral_notify_connect|done]. Qed.
Lemma set_negotiated_ses sub w : ses (set_negotiated_subprotocol sub w) = ses w.
Proof. unfold set_negotiated_subprotocol. by destruct (alive _). Qed.
Lemma neutral_on_handshake env ec sub w : neutral w (on_handshake env ec sub w).
Proof.
  unfold on_handshake. destruct (closing_ (ses w)) eqn:Hc; [done|]. destruct ec; [apply neutral_notify_connect|].
  pose proof (neutral_notify_connect env None (set_negotiated_subprotocol sub w)) as Hn.
  destruct (notify_connect _ _ _) as [w' out]. apply (neutral_app w w' out w' [Read]); [|done].
  unfold neutral in *. by rewrite set_negotiated_ses in Hn.
Qed.
Lemma neutral_process_read env ec text data reason w : neutral w (process_read_result env ec text data reason w).
Proof.
  unfold process_read_result. destruct ec as [ec|]; [|apply neutral_notify_frame].
  case_bool_decide; [|apply neutral_notify_error].
  assert (neutral w (if bool_decide (ec = WsClosed) then notify_frame env (close_frame reason) w else (w, []))) as H1.
  { case_bool_decide; [apply neutral_notify_frame|done]. }
  destruct (if bool_decide (ec = WsClosed) then _ else _) as [w1 o1]. pose proof (neutral_notify_close env w1) as H2.
  destruct (notify_close env w1) as [w2 o2]. by eapply neutral_app.
Qed.
Lemma neutral_on_read env ec text data reason w : neutral w (on_read env ec text data reason w).
Proof.
  unfold on_read. pose proof (neutral_process_read env ec text data reason w) as Hp. destruct (process_read_result _ _ _ _ _ _) as [w' out].
  case_bool_decide; [|done]. by eapply neutral_app.
Qed.
Lemma writes_inv_neutral c w out chain cop reg :
  writes_inv c → neutral (r_w c) (w, out) →
  writes_inv (mk_run w (r_out c ++ out) chain (r_writes c + count is_write out) cop (r_accepted c) (r_done c) (r_failed c) reg).
Proof.
  intros [H1 H2] (Hq & Hw & Hc & Hout). cbn [fst snd] in *. unfold writes_inv, count. cbn [r_w r_out r_writes r_accepted r_done r_failed].
  by rewrite filter_app_write, Hout, app_nil_r, Nat.add_0_r, Hq, Hw, Hc.
Qed.
Lemma writes_queue_write c f w out :
  writes_inv c → on_queue_write do_write_from_queue f (r_w c) = Ret (w, out) → writes_inv (follow c (EvQueueWrite f) w out).
Proof.
  intros [H1 H2] Hh. unfold on_queue_write in Hh. unfold writes_inv, follow, count. cbn [r_w r_out r_writes r_accepted r_done r_failed].
  destruct (closing_ (ses (r_w c))) eqn:Hc.
  { injection Hh as <- <-. rewrite filter_app_write, !app_nil_r, Hc. cbn. rewrite Nat.add_0_r. done. }
  destruct (H2 eq_refl) as (Hq & Ha & Hf). cbn [ses set_ses set_queue is_writing_] in Hh. destruct (is_writing_ (ses (r_w c))) eqn:Hw.
  - injection Hh as <- <-. cbn [ses set_ses set_queue is_writing_ closing_ write_queue_]. rewrite Hw, Hc, app_nil_r, H1. cbn.
    split; [done|]. intros _. rewrite Ha, (assoc_L (++)). split_and!; [by destruct (write_queue_ _)|done|].
    intros Hfail. destruct (Hf Hfail) as [-> _]. destruct (write_queue_ (ses (r_w c))); [by destruct (Hq eq_refl)|done].
  - unfold do_write_from_queue in Hh. cbn [ses set_ses set_queue set_writing write_queue_] in Hh.
    destruct (write_queue_ (ses (r_w c)) ++ [f]) as [|frame q] eqn:Hqf; [done|]. injection Hh as <- <-.
    cbn [ses set_ses set_queue set_writing is_writing_ closing_ write_queue_]. rewrite Hc, H1, filter_app_write, ?Hqf.
    split; [by destruct frame as [[] ? ? ?]|]. intros _. split_and!; [done|by rewrite Ha, <-(assoc_L (++)), Hqf|].
    intros Hfail. destruct (Hf Hfail) as [-> Hempty]. rewrite (Hempty eq_refl) in Hqf. injection Hqf as <- <-.
    split; [|done]. rewrite app_nil_r, fmap_app. by destruct f as [[] ? ? ?].
Qed.
Lemma writes_written c env ec w out :
  writes_inv c → 0 < r_writes c → process_write_result env do_write_from_queue ec (r_w c) = Ret (w, out) → writes_inv (follow c (EvWrite ec) w out).
Proof.
  intros [H1 H2] Hpos Hh. assert (is_writing_ (ses (r_w c)) = true) as Hw by (destruct (is_writing_ _); [done|lia]).
  rewrite Hw in *. unfold process_write_result in Hh. unfold writes_inv, follow. cbn [r_w r_out r_writes r_accepted r_done r_failed].
  rewrite H1. cbn [pred]. destruct ec as [ec|].
  - set (w0 := set_ses _ _) in Hh. assert (neutral w0 (w, out)) as (Hq & Hw' & Hc & Hout).
    { injection Hh as Hh. case_bool_decide; rewrite <-Hh; [apply neutral_notify_close|apply neutral_notify_error]. }
    cbn [fst snd] in *. unfold count. rewrite Hq, Hw', Hc, Hout. cbn. split; [done|]. intros Hcl. destruct (H2 Hcl) as (? & ? & ?). done.
  - destruct (write_queue_ (ses (r_w c))) as [|f q] eqn:Hq; [done|].
    case_bool_decide as Hne.
    + unfold do_write_from_queue in Hh. cbn [ses set_ses set_queue write_queue_] in Hh. destruct q as [|g q]; [done|]. injection Hh as <- <-.
      cbn [ses set_ses set_queue is_writing_ closing_ write_queue_]. rewrite Hw. split; [by destruct g as [[] ? ? ?]|].
      intros Hcl. destruct (H2 Hcl) as (_ & Ha & Hf). split_and!; [done|by rewrite Ha, <-(assoc_L (++))|].
      intros Hfail. destruct (Hf Hfail) as [Hout _]. split; [|done]. rewrite filter_app_write, Hout, !fmap_app, <-!(assoc_L (++)).
      by destruct g as [[] ? ? ?].
    + destruct q; [|done]. injection Hh as <- <-. cbn. split; [done|]. intros Hcl. destruct (H2 Hcl) as (_ & Ha & Hf). rewrite !app_nil_r.
      split_and!; [done|done|]. intros Hfail. destruct (Hf Hfail) as [Hout _]. by rewrite Hout.
Qed.
Lemma neutral_handle env ev w r :
  match ev with EvWrite _ | EvQueueWrite _ | EvClose _ => False | _ => True end →
  handle env tls target ev w = Ret r → neutral w r.
Proof.
  intros Hev Hh. destruct ev as [ec|ec|ec|ec sub|ec text data reason|ec|frame|is_open|ec]; try (by destruct Hev);
    injection Hh as <-; try (apply neutral_guarded; by destruct tls).
  - apply neutral_on_handshake.
  - apply neutral_on_read.
  - apply neutral_notify_close.
Qed.
Lemma writes_close c is_open :
  writes_inv c → let r := close is_open (r_w c) in writes_inv (follow c (EvClose is_open) r.1 r.2).
Proof.
  intros [H1 _] r. unfold r, close, writes_inv, follow. cbn [r_w r_out r_writes r_accepted r_done r_failed].
  destruct (_ && _); cbn; split; [by rewrite H1, Nat.add_0_r|done|by rewrite H1, Nat.add_0_r|done].
Qed.
Lemma writes_inv_step c c' : writes_inv c → ws_step c c' → writes_inv c'.
Proof.
  intros Hi Hs. destruct Hs as [c env ev w out Hen Hh|c a].
  2: { pose proof (noted_act a [] (r_w c)) as Hn. pose proof (notes_write _ (noted_notes _ _ _ _ _ Hn)) as Hw.
       apply neutral_noted in Hn. unfold owned, writes_inv, neutral in *. cbn [r_w r_out r_writes r_accepted r_done r_failed].
       destruct Hn as (-> & -> & -> & _). by rewrite filter_app_write, Hw, app_nil_r. }
  destruct ev as [ec|ec|ec|ec sub|ec text data reason|ec|frame|is_open|ec];
    try (apply neutral_handle in Hh; [|exact I]; exact (writes_inv_neutral c w out _ _ _ Hi Hh)).
  - by eapply writes_written.
  - by apply writes_queue_write.
  - injection Hh as Hh. pose proof (writes_close c is_open Hi) as Hc. by rewrite Hh in Hc.
Qed.
Lemma writes_inv_start env s host port cb sni : writes_inv (ws_start env s host port cb sni).
Proof.
  unfold ws_start, run. set (w := set_ses _ _). assert (writes_inv (mk_run w [Resolve host port] (Some OpResolve) 0 false [] [] false true)) as Hr.
  { by split; [|intros _; split_and!]. }
  destruct sni as [ec|]; [destruct tls|]; [|exact Hr..]. pose proof (neutral_notify_connect env (Some ec) w) as Hn. unfold fail.
  destruct (notify_connect _ _ _) as [w' out]. destruct Hn as (H1 & H2 & H3 & H4). cbn [fst snd] in *.
  unfold writes_inv. cbn [r_w r_writes r_accepted r_done r_failed r_out]. rewrite H1, H2, H3, H4. by split; [|intros _; split_and!].
Qed.

(** *** Callbacks *)
Lemma count_app p a b : count p (a ++ b) = count p a + count p b.
Proof. unfold count. by rewrite List.filter_app, length_app. Qed.
Definition rise (a b : bool) : nat := if b && negb a then 1 else 0.
(** A handler begins notifications of a living client only, and calls back at
    most once per flag that it raises: once if the owner keeps its handlers. *)
Record tame (w : world) (r : world * list effect) : Prop := {
  tame_scan : scans (alive (st w)) [] r.2 (alive (st r.1)) [];
  tame_connect :
    count is_connect_call r.2 ≤ rise (connect_notified_ (ses w)) (connect_notified_ (ses r.1)) ∧
    (connect_notified_ (ses w) = true → connect_notified_ (ses r.1) = true);
  tame_close :
    count is_close_call r.2 ≤ rise (close_notified (st w)) (close_notified (st r.1)) ∧
    (close_notified (st w) = true → close_notified (st r.1) = true);
  tame_kept : reporting w → forallb keeps r.2 = true →
    reporting r.1 ∧
    count is_connect_call r.2 = rise (connect_notified_ (ses w)) (connect_notified_ (ses r.1)) ∧
    count is_close_call r.2 = rise (close_notified (st w)) (close_notified (st r.1)) }.
Lemma rise_trans a b c : (a = true → b = true) → (b = true → c = true) → rise a b + rise b c = rise a c.
Proof. destruct a, b, c; cbn; intros H1 H2; try done; try (by discriminate H1); by discriminate H2. Qed.
Lemma rise_refl a : rise a a = 0.
Proof. by destruct a. Qed.
Lemma tame_app w w1 o1 w2 o2 : tame w (w1, o1) → tame w1 (w2, o2) → tame w (w2, o1 ++ o2).
Proof.
  intros [S1 [C1 M1] [X1 N1] K1] [S2 [C2 M2] [X2 N2] K2]. cbn [fst snd] in *.
  pose proof (rise_trans _ _ _ M1 M2) as Rc. pose proof (rise_trans _ _ _ N1 N2) as Rx.
  split; cbn [fst snd]; rewrite ?count_app.
  - by eapply scans_app.
  - split; [lia|auto].
  - split; [lia|auto].
  - rewrite forallb_app, andb_true_iff. intros Hr [Hk1 Hk2]. destruct (K1 Hr Hk1) as (Hr1 & E1 & F1). destruct (K2 Hr1 Hk2) as (Hr2 & E2 & F2).
    split_and!; [done|lia|lia].
Qed.
Lemma silent_counts out : Forall (λ e, is_note e = false) out → count is_connect_call out = 0 ∧ count is_close_call out = 0.
Proof. unfold count. induction 1 as [|e out He _ [IH1 IH2]]; [done|]. cbn [List.filter]. by destruct e. Qed.
Lemma tame_silent w w' out :
  st w' = st w → connect_notified_ (ses w') = connect_notified_ (ses w) → connect_cb_ (ses w') = connect_cb_ (ses w) →
  Forall (λ e, is_note e = false) out → tame w (w', out).
Proof.
  intros Hst Hc Hcb Ho. destruct (silent_counts out Ho) as [H1 H2].
  split; cbn [fst snd]; rewrite ?H1, ?H2, ?Hst, ?Hc; [by apply scans_silent|split; [lia|done]|split; [lia|done]|].
  intros Hr _. rewrite !rise_refl. split_and!; [|done|done]. unfold reporting in *. by rewrite Hst, Hcb.
Qed.
Lemma count_calls p out :
  (∀ e, is_note e = true → call_of e = None → p e = false) → Forall (λ e, is_note e = true) out →
  count p out = length (List.filter (λ c, p (Call c)) (omap call_of out)).
Proof.
  intros Hp. unfold count. induction 1 as [|e out He _ IH]; [done|]. cbn [List.filter]. destruct e; try discriminate He.
  - rewrite Hp by done. exact IH.
  - cbn. destruct (p (Call c)); cbn; by rewrite IH.
  - rewrite Hp by done. exact IH.
Qed.
Lemma noted_connects cs d d' w r : noted cs d d' w r → count is_connect_call r.2 = length (List.filter (λ c, is_connect_call (Call c)) cs).
Proof. intros [_ _ Hn <- _ _]. apply count_calls; [by intros []|done]. Qed.
Lemma noted_closes cs d d' w r : noted cs d d' w r → count is_close_call r.2 = length (List.filter (λ c, is_close_call (Call c)) cs).
Proof. intros [_ _ Hn <- _ _]. apply count_calls; [by intros []|done]. Qed.
Lemma plain_filter (p : effect → bool) cs :
  (∀ c, plain_call c = true → p (Call c) = false) → forallb plain_call cs = true → List.filter (λ c, p (Call c)) cs = [].
Proof. intros Hp. induction cs as [|c cs IH]; [done|]. cbn. intros [Hc Hcs]%andb_true_iff. rewrite Hp by done. auto. Qed.
Lemma tame_plain cs w r : noted cs [] [] w r → forallb plain_call cs = true → tame w r.
Proof.
  intros Hn Hp. pose proof (noted_connects _ _ _ _ _ Hn) as Hc. pose proof (noted_closes _ _ _ _ _ Hn) as Hx.
  rewrite plain_filter in Hc by (done || by intros []). rewrite plain_filter in Hx by (done || by intros []).
  destruct Hn as [Hs Hcl _ _ Hk Hscan]. split; [done|..]; rewrite ?Hc, ?Hx, ?Hs, ?Hcl, ?rise_refl; [done|done|]. intros Hr Hke. split; [auto|done].
Qed.
Lemma tame_notify_frame env w f : tame w (notify_frame env f w).
Proof. destruct (noted_frame env f w) as (cs & Hn & Hp). by eapply tame_plain. Qed.
Lemma tame_notify_error env w ec : tame w (notify_error env ec w).
Proof. destruct (noted_error env ec w) as (cs & Hn & Hp & _). by eapply tame_plain. Qed.
Lemma tame_notify_close env w : tame w (notify_close env w).
Proof.
  destruct (alive (st w) && negb (close_notified (st w))) eqn:He; [|rewrite notify_close_told by done; by apply tame_silent].
  pose proof (noted_notify_close env w He) as Hn. pose proof (noted_connects _ _ _ _ _ Hn) as Hc. pose proof (noted_closes _ _ _ _ _ Hn) as Hx.
  apply andb_true_iff in He as [Ha Hw%negb_true_iff]. destruct Hn as [Hs Hcl _ _ Hk Hscan].
  split; [done|..]; rewrite ?Hc, ?Hx, ?Hs, ?Hcl, ?Hw; cbn [closed_world set_st st ses set_ses set_connect_notified connect_notified_ close_notified].
  - split; [|done]. rewrite rise_refl. destruct (on_close (st w)); cbn; lia.
  - split; [|done]. destruct (on_close (st w)); cbn; lia.
  - intros Hr Hke. split; [apply Hk; [done|exact Hr]|]. destruct Hr as (_ & _ & -> & _). cbn. by rewrite rise_refl.
Qed.
Lemma tame_notify_connect env ec w : tame w (notify_connect env ec w).
Proof.
  destruct (connect_notified_ (ses w) || closing_ (ses w)) eqn:He; [rewrite notify_connect_told by done; by apply tame_silent|].
  apply orb_false_iff in He as [Hw Hcg]. pose proof (noted_notify_connect env ec w Hw Hcg) as Hn.
  pose proof (noted_connects _ _ _ _ _ Hn) as Hc. pose proof (noted_closes _ _ _ _ _ Hn) as Hx. destruct Hn as [Hs Hcl _ _ Hk Hscan].
  split; [done|..]; rewrite ?Hc, ?Hx, ?Hs, ?Hcl, ?Hw; cbn [closed_world set_st st ses set_ses set_connect_notified connect_notified_ close_notified].
  - split; [|done]. destruct (_ && _); cbn; lia.
  - split; [|done]. rewrite rise_refl. destruct (_ && _); cbn; lia.
  - intros Hr Hke. split; [apply Hk; [done|exact Hr]|]. destruct Hr as (-> & _ & _ & ->). cbn. by rewrite rise_refl.
Qed.
(** Changes of the fields the callbacks do not look at. *)
Lemma tame_from w w' r :
  alive (st w') = alive (st w) → on_error (st w') = on_error (st w) → on_close (st w') = on_close (st w) →
  close_notified (st w') = close_notified (st w) → connect_notified_ (ses w') = connect_notified_ (ses w) →
  connect_cb_ (ses w') = connect_cb_ (ses w) → tame w' r → tame w r.
Proof.
  intros E1 E2 E3 E4 E5 E6 [Hs Hc Hx Hk]. rewrite ?E1, ?E4, ?E5 in *. split; [done|done|done|].
  intros Hr. apply Hk. unfold reporting in *. by rewrite E1, E2, E3, E6.
Qed.
Lemma tame_guarded env ec next w : Forall (λ e, is_note e = false) next → tame w (guarded env ec next w).
Proof.
  intros Hn. unfold guarded. destruct (closing_ (ses w)); [by apply tame_silent|]. destruct ec; [apply tame_notify_connect|by apply tame_silent].
Qed.
Lemma tame_on_handshake env ec sub w : tame w (on_handshake env ec sub w).
Proof.
  unfold on_handshake. destruct (closing_ (ses w)); [by apply tame_silent|]. destruct ec; [apply tame_notify_connect|].
  pose proof (tame_notify_connect env None (set_negotiated_subprotocol sub w)) as Hn.
  destruct (notify_connect _ _ _) as [w' out]. apply (tame_app w w' out w' [Read]); [|apply tame_silent; by repeat constructor].
  revert Hn. unfold set_negotiated_subprotocol. destruct (alive (st w)) eqn:Ha; [|done]. by apply tame_from; rewrite ?Ha.
Qed.
Lemma tame_on_read env ec text data reason w : tame w (on_read env ec text data reason w).
Proof.
  assert (tame w (process_read_result env ec text data reason w)) as Hp.
  { unfold process_read_result. destruct ec as [ec|]; [|apply tame_notify_frame].
    case_bool_decide; [|apply tame_notify_error].
    assert (tame w (if bool_decide (ec = WsClosed) then notify_frame env (close_frame reason) w else (w, []))) as H1.
    { case_bool_decide; [apply tame_notify_frame|by apply tame_silent]. }
    destruct (if bool_decide (ec = WsClosed) then _ else _) as [w1 o1]. pose proof (tame_notify_close env w1) as H2.
    destruct (notify_close env w1) as [w2 o2]. by eapply tame_app. }
  unfold on_read. destruct (process_read_result env ec text data reason w) as [w' out].
  case_bool_decide; [|done]. apply (tame_app w w' out w' [Read]); [done|apply tame_silent; by repeat constructor].
Qed.
Lemma tame_write w w' r :
  st w = st w' → connect_notified_ (ses w') = connect_notified_ (ses w) → connect_cb_ (ses w') = connect_cb_ (ses w) →
  do_write_from_queue w' = Ret r → tame w r.
Proof.
  intros Hst Hc Hcb Hh. unfold do_write_from_queue in Hh. destruct (write_queue_ (ses w')) as [|[[] ? ? ?] q]; [done|..];
    injection Hh as <-; apply tame_silent; try done; by repeat constructor.
Qed.
Lemma tame_handle env ev w r : handle env tls target ev w = Ret r → tame w r.
Proof.
  intros Hh. destruct ev as [ec|ec|ec|ec sub|ec text data reason|ec|frame|is_open|ec]; cbn [handle] in Hh.
  1-3: injection Hh as <-; apply tame_guarded; destruct tls; by repeat constructor.
  - injection Hh as <-. apply tame_on_handshake.
  - injection Hh as <-. apply tame_on_read.
  - unfold process_write_result in Hh. destruct ec as [ec|].
    + injection Hh as <-. apply (tame_from w (set_ses (set_writing false (ses w)) w)); try done.
      case_bool_decide; [apply tame_notify_close|apply tame_notify_error].
    + destruct (write_queue_ (ses w)) as [|f q]; [done|]. case_bool_decide; [by eapply tame_write, Hh|].
      injection Hh as <-. by apply tame_silent.
  - unfold on_queue_write in Hh. destruct (closing_ (ses w)); [by injection Hh as <-; apply tame_silent|].
    cbn [ses set_ses set_queue is_writing_] in Hh. destruct (is_writing_ (ses w)); [by injection Hh as <-; apply tame_silent|].
    by eapply tame_write, Hh.
  - injection Hh as <-. unfold close. destruct (_ && _); apply tame_silent; try done; by repeat constructor.
  - injection Hh as <-. apply tame_notify_close.
Qed.

(** The chain, seen by the session members it concerns. *)
Definition chain_of_session (chain : option chain_op) (told : Prop) (w : world) : Prop :=
  closing_ (ses w) = false →
  match chain with
  | Some OpRead => connect_notified_ (ses w) = true
  | Some _ => connect_notified_ (ses w) = false
  | None => connect_notified_ (ses w) = true ∧ told
  end.
Definition told (w : world) (out : list effect) : Prop :=
  reporting w → forallb keeps out = true → close_notified (st w) = true ∨ existsb is_end_call out = true.
Lemma next_chain_notes out k : Forall (λ e, is_note e = true) out → next_chain (out ++ k) = next_chain k.
Proof. induction 1 as [|e out He _ IH]; [done|]. destruct e; try discriminate He; exact IH. Qed.
Lemma next_chain_only_notes out : Forall (λ e, is_note e = true) out → next_chain out = None.
Proof. intros Hc. apply (next_chain_notes out []) in Hc. by rewrite app_nil_r in Hc. Qed.
Lemma end_called c out : c ∈ omap call_of out → is_end_call (Call c) = true → existsb is_end_call out = true.
Proof.
  intros (e & He & Hc)%list_elem_of_omap Hend. apply existsb_exists. exists e. split; [by apply list_elem_of_In|].
  by destruct e; try discriminate Hc; injection Hc as ->.
Qed.
Lemma chain_fail env ec w next :
  connect_notified_ (ses w) = false → next_chain next = None ∨ (∃ k, next_chain next = Some k ∧ k ≠ OpRead) →
  (ec = None → next_chain next ≠ None) →
  let r := guarded env ec next w in chain_of_session (next_chain r.2) (told w r.2) r.1.
Proof.
  intros Hcn Hnext Hec r. unfold r, guarded, chain_of_session. destruct (closing_ (ses w)) eqn:Hc; [cbn; by rewrite Hc|]. destruct ec as [ec|].
  - pose proof (noted_notify_connect env (Some ec) w Hcn Hc) as [Hs _ Hn Hcalls _ _]. unfold fail. rewrite Hs, next_chain_only_notes by done.
    intros _. split; [done|]. intros (H1 & _ & _ & H4) _. right. apply (end_called (CallConnect (Some ec))); [|done].
    rewrite Hcalls, H1, H4. by left.
  - intros _. cbn [fst snd]. destruct Hnext as [Hn|(k & -> & Hk)]; [by destruct (Hec eq_refl)|]. by destruct k.
Qed.
Lemma chain_handshake env ec sub w :
  connect_notified_ (ses w) = false →
  let r := on_handshake env ec sub w in chain_of_session (next_chain r.2) (told w r.2) r.1.
Proof.
  intros Hcn r. destruct ec as [ec|].
  - pose proof (chain_fail env (Some ec) w [] Hcn (or_introl eq_refl)) as Hf. unfold guarded in Hf. unfold r, on_handshake. by apply Hf.
  - unfold r, on_handshake, chain_of_session. destruct (closing_ (ses w)) eqn:Hc; [cbn; by rewrite Hc|].
    pose proof (noted_notify_connect env None (set_negotiated_subprotocol sub w)) as Hn. rewrite set_negotiated_ses in Hn.
    destruct (Hn Hcn Hc) as [Hs _ Hno _ _ _]. destruct (notify_connect _ _ _) as [w' out]. cbn [fst snd] in *.
    rewrite next_chain_notes by done. intros _. cbn. by rewrite Hs.
Qed.
(** [notify_close] after the other callbacks of a notification. *)
Lemma told_close env cs w w1 o1 :
  noted cs [] [] w (w1, o1) → told w (o1 ++ (notify_close env w1).2).
Proof.
  intros [_ Hcl _ _ Hk _] Hr. rewrite forallb_app, andb_true_iff. intros [Hk1 _]. cbn [fst snd] in *. specialize (Hk Hk1 Hr) as (Ha & _ & Hx & _).
  destruct (close_notified (st w)) eqn:Hn; [by left|]. right. rewrite existsb_app. apply orb_true_iff. right.
  assert (alive (st w1) && negb (close_notified (st w1)) = true) as He by (by rewrite Ha, Hcl).
  pose proof (noted_notify_close env w1 He) as [_ _ _ Hcalls _ _]. apply (end_called CallClose); [|done]. rewrite Hcalls, Hx. by left.
Qed.
Lemma notes_close env w : Forall (λ e, is_note e = true) (notify_close env w).2 ∧ ses (notify_close env w).1 = ses w.
Proof.
  destruct (alive (st w) && negb (close_notified (st w))) eqn:He; [|by rewrite notify_close_told].
  by destruct (noted_notify_close env w He).
Qed.
Lemma chain_read env ec text data reason w :
  connect_notified_ (ses w) = true →
  let r := on_read env ec text data reason w in chain_of_session (next_chain r.2) (told w r.2) r.1.
Proof.
  intros Hcn r. unfold r, on_read, process_read_result, chain_of_session. destruct ec as [ec|].
  - rewrite (bool_decide_eq_false_2 (Some ec = None)) by done. case_bool_decide.
    + assert (∃ cs, noted cs [] [] w (if bool_decide (ec = WsClosed) then notify_frame env (close_frame reason) w else (w, []))) as [cs H1].
      { case_bool_decide; [|exists []; apply noted_nil]. destruct (noted_frame env (close_frame reason) w) as (cs & ? & _). by exists cs. }
      destruct (if bool_decide (ec = WsClosed) then _ else _) as [w1 o1]. pose proof (told_close env cs w w1 o1 H1) as Ht.
      destruct (notes_close env w1) as [Hno Hs]. destruct (notify_close env w1) as [w2 o2]. destruct H1 as [Hs1 _ Hno1 _ _ _]. cbn [fst snd] in *.
      rewrite Hs, Hs1. intros _. by rewrite next_chain_only_notes by by apply Forall_app.
    + destruct (noted_error env ec w) as (cs & [Hs _ Hno Hcalls _ _] & _ & Hcs). destruct (notify_error env ec w) as [w1 o1]. cbn [fst snd] in *.
      rewrite Hs. intros _. rewrite next_chain_only_notes by done. split; [done|]. intros (H1 & H2 & _) _. right.
      apply (end_called (CallError ec)); [|done]. rewrite Hcalls, Hcs by done. by left.
  - rewrite bool_decide_eq_true_2 by done. destruct (noted_frame env (mk_frame (if text then ft_text else ft_binary) data 1000 []) w) as (cs & [Hs _ Hno _ _ _] & _).
    destruct (notify_frame _ _ _) as [w1 o1]. cbn [fst snd] in *. rewrite Hs, next_chain_notes by done. done.
Qed.
Lemma chain_handle c env ev r :
  enabled c ev → in_chain ev = true → chain_of_session (r_chain c) True (r_w c) →
  handle env tls target ev (r_w c) = Ret r → chain_of_session (next_chain r.2) (told (r_w c) r.2) r.1.
Proof.
  intros Hen Hin Hch Hh. destruct (closing_ (ses (r_w c))) eqn:Hc.
  { intros Hc'. exfalso. apply neutral_handle in Hh as (_ & _ & Hcl & _); [congruence|]. by destruct ev. }
  specialize (Hch Hc). destruct ev as [ec|ec|ec|ec sub|ec text data reason|ec|frame|is_open|ec]; try discriminate Hin; cbn in Hen; rewrite Hen in Hch;
    injection Hh as <-.
  - apply chain_fail; [done|right; by eexists|done].
  - apply chain_fail; [done|right; destruct tls; by eexists|by destruct tls].
  - apply chain_fail; [done|right; by eexists|done].
  - by apply chain_handshake.
  - by apply chain_read.
Qed.
(** What the other handlers leave of the session. *)
Lemma write_same_ses w r : do_write_from_queue w = Ret r → ses r.1 = ses w.
Proof. unfold do_write_from_queue. destruct (write_queue_ (ses w)); [done|]. by intros [= <-]. Qed.
Lemma notify_close_ses env w : ses (notify_close env w).1 = ses w.
Proof. apply notes_close. Qed.
Lemma notify_error_ses env ec w : ses (notify_error env ec w).1 = ses w.
Proof. by destruct (noted_error env ec w) as (cs & [Hs _ _ _ _ _] & _). Qed.
Lemma side_handle env ev w r :
  in_chain ev = false → handle env tls target ev w = Ret r →
  connect_notified_ (ses r.1) = connect_notified_ (ses w) ∧ (closing_ (ses r.1) = false → closing_ (ses w) = false) ∧
  (close_started_ (ses r.1) = true → close_started_ (ses w) = true ∨ existsb is_close_op r.2 = true).
Proof.
  intros Hin Hh. destruct ev as [ec|ec|ec|ec sub|ec text data reason|ec|frame|is_open|ec]; try discriminate Hin; cbn [handle] in Hh.
  - unfold process_write_result in Hh. destruct ec as [ec|].
    + injection Hh as <-. case_bool_decide; [rewrite notify_close_ses|rewrite notify_error_ses]; cbn; auto.
    + destruct (write_queue_ (ses w)); [done|]. case_bool_decide; [apply write_same_ses in Hh as ->; cbn; auto|].
      injection Hh as <-. cbn. auto.
  - unfold on_queue_write in Hh. destruct (closing_ (ses w)) eqn:Hc; [injection Hh as <-; cbn; split_and!; [done|congruence|auto]|].
    cbn [ses set_ses set_queue is_writing_] in Hh. destruct (is_writing_ (ses w)); [injection Hh as <-; cbn; auto|].
    apply write_same_ses in Hh as ->. cbn. auto.
  - injection Hh as <-. unfold close. destruct (is_open && _); cbn; split_and!; try done; auto.
  - injection Hh as <-. rewrite notify_close_ses. auto.
Qed.
Lemma chain_same_started c env ev r :
  in_chain ev = true → handle env tls target ev (r_w c) = Ret r → close_started_ (ses r.1) = close_started_ (ses (r_w c)).
Proof.
  intros Hin Hh. assert (∀ ec w, close_started_ (ses (notify_connect env ec w).1) = close_started_ (ses w)) as Hn.
  { intros ec w. destruct (connect_notified_ (ses w) || closing_ (ses w)) eqn:He; [by rewrite notify_connect_told|].
    apply orb_false_iff in He as [H1 H2]. by destruct (noted_notify_connect env ec w H1 H2) as [-> _ _ _ _ _]. }
  assert (∀ ec next w, close_started_ (ses (guarded env ec next w).1) = close_started_ (ses w)) as Hg.
  { intros ec next w. unfold guarded. destruct (closing_ (ses w)), ec; try done. apply Hn. }
  assert (∀ f w, ses (notify_frame env f w).1 = ses w) as Hf.
  { intros f w. by destruct (noted_frame env f w) as (cs & [Hs _ _ _ _ _] & _). }
  destruct ev as [ec|ec|ec|ec sub|ec text data reason|ec|frame|is_open|ec]; try discriminate Hin; injection Hh as <-; try apply Hg.
  - unfold on_handshake. destruct (closing_ (ses (r_w c))); [done|]. destruct ec; [apply Hn|].
    specialize (Hn None (set_negotiated_subprotocol sub (r_w c))). destruct (notify_connect _ _ _) as [w' out]. cbn [fst] in *.
    by rewrite Hn, set_negotiated_ses.
  - unfold on_read. assert (ses (process_read_result env ec text data reason (r_w c)).1 = ses (r_w c)) as Hp.
    { unfold process_read_result. destruct ec as [ec|]; [|apply Hf]. case_bool_decide; [|apply notify_error_ses].
      assert (ses (if bool_decide (ec = WsClosed) then notify_frame env (close_frame reason) (r_w c) else (r_w c, [])).1 = ses (r_w c)) as H1 by (case_bool_decide; [apply Hf|done]).
      destruct (if bool_decide (ec = WsClosed) then _ else _) as [w1 o1]. pose proof (notify_close_ses env w1) as H2. destruct (notify_close env w1) as [w2 o2].
      cbn [fst] in *. by rewrite H2. }
    destruct (process_read_result _ _ _ _ _ _) as [w' out]. cbn [fst] in *. by rewrite Hp.
Qed.
Lemma close_call_is_end out : count is_close_call out = 1 → existsb is_end_call out = true.
Proof.
  intros H. apply existsb_exists. unfold count in H. destruct (List.filter is_close_call out) as [|e l] eqn:Hf; [done|].
  assert (In e (List.filter is_close_call out)) as Hin by (rewrite Hf; by left). apply filter_In in Hin as [Hin He].
  exists e. split; [done|]. by destruct e as [| | | | | | | | | | | |[]|].
Qed.

Definition calls_inv (start : bool) (keeper : bool) (c : ws_run) : Prop :=
  let w := r_w c in
  scans start [] (r_out c) (alive (st w)) [] ∧
  count is_connect_call (r_out c) ≤ (if connect_notified_ (ses w) then 1 else 0) ∧
  count is_close_call (r_out c) ≤ (if close_notified (st w) then 1 else 0) ∧
  r_regular c = keeper && forallb keeps (r_out c) ∧
  (r_regular c = true → reporting w ∧
     (connect_notified_ (ses w) = true → count is_connect_call (r_out c) = 1) ∧
     (close_notified (st w) = true → count is_close_call (r_out c) = 1)) ∧
  chain_of_session (r_chain c) (r_regular c = true → existsb is_end_call (r_out c) = true) w ∧
  (r_regular c = true → close_started_ (ses w) = true → r_close_op c = false → close_notified (st w) = true).
Lemma rise_bound (a b : bool) n m : (a = true → b = true) → n ≤ (if a then 1 else 0) → m ≤ rise a b → n + m ≤ if b then 1 else 0.
Proof. destruct a, b; cbn; intros; lia || (assert (false = true) by auto; done). Qed.
Lemma rise_once (a b : bool) n m : (a = true → n = 1) → n ≤ (if a then 1 else 0) → m = rise a b → b = true → n + m = 1.
Proof. destruct a, b; cbn; intros Ha Hn -> Hb; try done; rewrite ?Ha by done; lia. Qed.
Lemma calls_inv_event s k c env ev w out :
  calls_inv s k c → enabled c ev → handle env tls target ev (r_w c) = Ret (w, out) → calls_inv s k (follow c ev w out).
Proof.
  intros (H0 & H1 & H2 & H3 & H4 & H5 & H6) Hen Hh. pose proof (tame_handle _ _ _ _ Hh) as [Hsc [Hc1 Hc2] [Hx1 Hx2] Hk].
  cbn [fst snd] in *. unfold calls_inv, follow. cbn [r_w r_out r_chain r_close_op r_regular]. rewrite !count_app. split_and!.
  - by eapply scans_app.
  - by eapply rise_bound.
  - by eapply rise_bound.
  - by rewrite H3, forallb_app, andb_assoc.
  - intros [Hr Hke]%andb_true_iff. destruct (H4 Hr) as (Hrep & Hn & Hcl). destruct (Hk Hrep Hke) as (Hrep' & E1 & E2).
    split; [done|]. split; intros; by eapply rise_once.
  - destruct (in_chain ev) eqn:Hin.
    + intros Hcl. assert (chain_of_session (r_chain c) True (r_w c)) as Hch0.
      { intros Hcl0. specialize (H5 Hcl0). destruct (r_chain c) as [[]|]; tauto. }
      pose proof (chain_handle c env ev (w, out) Hen Hin Hch0 Hh Hcl) as Hch.
      cbn [fst snd] in Hch. destruct (next_chain out) as [[]|]; try done. destruct Hch as [Hn Ht]. split; [done|].
      intros [Hr Hke]%andb_true_iff. destruct (H4 Hr) as (Hrp & _ & Hcl1). rewrite existsb_app. apply orb_true_iff.
      destruct (Ht Hrp Hke) as [Hx|Hx]; [left; auto using close_call_is_end|by right].
    + intros Hcl. destruct (side_handle env ev _ _ Hin Hh) as (Hcn & Hclm & _). cbn [fst] in *. rewrite Hcn.
      specialize (H5 (Hclm Hcl)). destruct (r_chain c) as [[]|]; try done. destruct H5 as [? Ht]. split; [done|].
      intros [Hr _]%andb_true_iff. by rewrite existsb_app, Ht.
  - intros [Hr Hke]%andb_true_iff Hs Hop. destruct (in_chain ev) eqn:Hin.
    + pose proof (chain_same_started c env ev _ Hin Hh) as Hs'. cbn [fst] in Hs'. rewrite Hs' in Hs. apply Hx2, H6; try done.
      destruct ev; try discriminate Hin; by apply orb_false_iff in Hop as [? _].
    + destruct (side_handle env ev _ _ Hin Hh) as (_ & _ & Hs'). cbn [fst snd] in *.
      destruct (H4 Hr) as ((E1 & _) & _). destruct ev as [ec|ec|ec|ec sub|ec text data reason|ec|frame|is_open|ec]; try discriminate Hin;
        [apply orb_false_iff in Hop as [Hop1 Hop2]; apply Hx2, H6; try done; destruct (Hs' Hs); [done|congruence]..|].
      injection Hh as Hh. destruct (close_notified (st (r_w c))) eqn:Hn; [by apply Hx2|].
      assert (alive (st (r_w c)) && negb (close_notified (st (r_w c))) = true) as He by (by rewrite E1, Hn).
      pose proof (noted_close _ _ _ _ _ (noted_notify_close env _ He)) as Hm. by rewrite Hh in Hm.
Qed.
Lemma calls_inv_owner s k c a : calls_inv s k c → calls_inv s k (owned c (act a (r_w c))).
Proof.
  intros (H0 & H1 & H2 & H3 & H4 & H5 & H6). pose proof (noted_act a [] (r_w c)) as Hn.
  pose proof (noted_connects _ _ _ _ _ Hn) as Hc. pose proof (noted_closes _ _ _ _ _ Hn) as Hx. cbn in Hc, Hx.
  destruct Hn as [Hs Hcl _ _ Hk Hsc]. unfold calls_inv, owned, chain_of_session. cbn [r_w r_out r_chain r_close_op r_regular].
  rewrite !count_app, Hc, Hx, !Nat.add_0_r, Hs, Hcl, forallb_app, H3, andb_assoc. rewrite H3 in *. split_and!; try done.
  - by eapply scans_app.
  - intros [Hr Hke]%andb_true_iff. destruct (H4 Hr) as (Hrep & Hrest). auto.
  - intros Hcg. specialize (H5 Hcg). destruct (r_chain c) as [[]|]; try done. destruct H5 as [? Ht]. split; [done|].
    intros [Hr _]%andb_true_iff. by rewrite existsb_app, Ht.
  - intros [Hr _]%andb_true_iff. auto.
Qed.
Lemma calls_inv_step s k c c' : calls_inv s k c → ws_step c c' → calls_inv s k c'.
Proof. intros Hi Hs. destruct Hs as [c env ev w out Hen Hh|c a]; [by eapply calls_inv_event|by apply calls_inv_owner]. Qed.
Definition keeper (s : State) (cb : bool) : bool := alive s && on_error s && on_close s && cb.
Lemma calls_inv_start env s host port cb sni : calls_inv (alive s) (keeper s cb) (ws_start env s host port cb sni).
Proof.
  unfold ws_start, run. set (w := set_ses _ _). fold (keeper s cb).
  assert (keeper s cb = true → reporting w) as Hrep by (unfold keeper; rewrite !andb_true_iff; by intros [[[? ?] ?] ?]).
  assert (calls_inv (alive s) (keeper s cb) (mk_run w [Resolve host port] (Some OpResolve) 0 false [] [] false (keeper s cb && true))) as Hres.
  { unfold calls_inv. cbn. split_and!; try done.
    - apply scans_silent. by repeat constructor.
    - rewrite andb_true_r. intros Hr. by split; [auto|]. }
  destruct sni as [ec|]; [destruct tls|]; [|exact Hres..]. unfold fail.
  pose proof (noted_notify_connect env (Some ec) w eq_refl eq_refl) as Hn. pose proof (tame_notify_connect env (Some ec) w) as [Hsc [Hc _] [Hx _] Hk].
  destruct Hn as [Hs Hcl Hno Hcalls _ _]. destruct (notify_connect _ _ _) as [w' out]. cbn [fst snd] in *.
  unfold calls_inv, chain_of_session. cbn [r_w r_out r_chain r_close_op r_regular]. rewrite Hs, Hcl, next_chain_only_notes in * by done.
  cbn [set_ses ses set_connect_notified connect_notified_ closing_ close_started_ close_notified st connect_world] in *.
  split_and!; try done.
  - intros [Hr Hke]%andb_true_iff. destruct (Hk (Hrep Hr) Hke) as (? & ? & ?). by split_and!.
  - intros _. split; [done|]. intros [Hr _]%andb_true_iff. destruct (Hrep Hr) as (H1 & _ & _ & H4).
    apply (end_called (CallConnect (Some ec))); [|done]. change (connect_cb_ _) with (connect_cb_ (ses w)) in Hcalls. rewrite Hcalls, H1, H4. by left.
Qed.

(** *** The properties *)
(** C29: the write queue of the client. At most one write is in flight; until the
    owner closes, nothing that was accepted is lost, whatever completes: it is
    written or still in the queue, in order, and the queue is never read or
    popped when empty. As long as no write failed (see [failed_frame_written_again])
    the frames are written whole, each once and in the order they were sent. *)
Theorem ws_client_writes env s host port cb sni c :
  rtc ws_step (ws_start env s host port cb sni) c →
  r_writes c ≤ 1 ∧
  (closing_ (ses (r_w c)) = false →
     (∀ env ev, enabled c ev → ∃ r, handle env tls target ev (r_w c) = Ret r) ∧
     r_accepted c = r_done c ++ write_queue_ (ses (r_w c)) ∧
     (r_failed c = false →
        List.filter is_write (r_out c) = write_effect <$> take (length (r_done c) + r_writes c) (r_accepted c))).
Proof.
  intros Hr. assert (writes_inv c) as [H1 H2].
  { refine (rtc_invariant ws_step writes_inv _ _ _ Hr _); [intros ? ? ? ?; by eapply writes_inv_step|apply writes_inv_start]. }
  split; [rewrite H1; destruct (is_writing_ _); lia|]. intros Hc. destruct (H2 Hc) as (Hq & Ha & Hf). split_and!; [|done|].
  - clear env Hr. intros env ev Hen. destruct ev as [ec|ec|ec|ec sub|ec text data reason|ec|frame|is_open|ec]; try by eexists.
    + cbn in *. rewrite H1 in Hen. destruct (is_writing_ (ses (r_w c))) eqn:Hw; [|lia]. specialize (Hq eq_refl).
      unfold process_write_result. destruct ec; [by eexists|]. destruct (write_queue_ (ses (r_w c))) as [|f q]; [done|].
      case_bool_decide as Hne; [|by eexists]. unfold do_write_from_queue. cbn. destruct q; [done|by eexists].
    + cbn. unfold on_queue_write. destruct (closing_ _); [by eexists|]. cbn. destruct (is_writing_ _); [by eexists|].
      unfold do_write_from_queue. cbn. destruct (write_queue_ (ses (r_w c))); by eexists.
  - intros Hfail. destruct (Hf Hfail) as [-> He]. rewrite Ha, H1, take_app_add. do 2 f_equal.
    by destruct (is_writing_ (ses (r_w c))).
Qed.
(** C28: the callbacks of the client, whatever its owner does in them and between
    them. The connect callback and the close callback run at most once per
    connection. Once the client is destroyed no notification begins: only the
    calls that the notification under way had copied and not made yet are made,
    none when no notification was under way (see [message_after_destruction]).
    An owner that keeps its error, close and connect handlers set, and does not
    destroy the client, is told: exactly one answer to [connect] once the
    handshake is over, and, when the session is over and [close] was not called
    (see [close_while_connecting_silent]), its failure, error or end. A
    closing handshake that has finished was reported too. *)
Theorem ws_client_callbacks env s host port cb sni c :
  rtc ws_step (ws_start env s host port cb sni) c →
  count is_connect_call (r_out c) ≤ 1 ∧ count is_close_call (r_out c) ≤ 1 ∧
  uncalled (r_out c) = [] ∧
  (∀ before after, r_out c = before ++ Owner Destroy :: after →
     (∀ cs, Copied cs ∉ after) ∧ omap call_of after = uncalled before) ∧
  (alive s && on_error s && on_close s && cb = true → forallb keeps (r_out c) = true →
     (closing_ (ses (r_w c)) = false → r_chain c = None ∨ r_chain c = Some OpRead → count is_connect_call (r_out c) = 1) ∧
     (closing_ (ses (r_w c)) = false → r_chain c = None → existsb is_end_call (r_out c) = true) ∧
     (close_started_ (ses (r_w c)) = true → r_close_op c = false → count is_close_call (r_out c) = 1)).
Proof.
  intros Hr. assert (calls_inv (alive s) (keeper s cb) c) as (H0 & H1 & H2 & H3 & H4 & H5 & H6).
  { refine (rtc_invariant ws_step (calls_inv (alive s) (keeper s cb)) _ _ _ Hr _); [intros ? ? ? ?; by eapply calls_inv_step|apply calls_inv_start]. }
  split_and!; [destruct (connect_notified_ _); lia|destruct (close_notified _); lia|by apply scans_owed in H0| |].
  - intros before after Hout. rewrite Hout in H0. apply scans_split in H0 as (a1 & d1 & Hb%scans_owed & Ha).
    fold (uncalled before) in Hb. rewrite Hb. inversion Ha as [| | |? ? ? ? Hg| |]; subst; [|done].
    apply scans_gone in Hg as [? Hg]. by rewrite app_nil_r in Hg.
  - fold (keeper s cb). intros Hke Hlog. assert (r_regular c = true) as Hreg by (by rewrite H3, Hke). destruct (H4 Hreg) as (_ & Hn & Hx). split_and!.
    + intros Hc Hch. specialize (H5 Hc). apply Hn. destruct Hch as [Hch|Hch]; rewrite Hch in H5; tauto.
    + intros Hc Hch. specialize (H5 Hc). rewrite Hch in H5. by apply H5.
    + intros Hs Hop. by apply Hx, H6.
Qed.
End run.

(** ** Subprotocols: what the client sends is what the server reads *)
(** A token of a subprotocol list. *)
Definition token (p : bytes) : Prop := Forall (λ c, c ≠ ","%char ∧ is_blank c = false) p.
Lemma token_trim p : token p → trim_by is_blank p = p ∧ trim_by is_blank (SP :: p) = p.
Proof.
  intros Hp. assert (drop_while is_blank p = p) as H1.
  { apply drop_while_id. destruct Hp as [|c p [_ Hc] _]; [done|]. by intros ? [= <-]. }
  assert (drop_while_end is_blank p = p) as H2.
  { unfold drop_while_end. rewrite drop_while_id; [by rewrite rev_involutive|]. intros c Hc.
    assert (c ∈ p) as Hin by (apply list_elem_of_In, in_rev; destruct (rev p); [done|]; injection Hc as ->; by left).
    unfold token in Hp. rewrite Forall_forall in Hp. by apply Hp. }
  unfold trim_by. cbn [drop_while]. change (is_blank SP) with true. cbv iota. by rewrite H1.
Qed.
Lemma join_subprotocols_spec ps :
  join_subprotocols ps =
    match filter (λ p, p ≠ []) ps with [] => [] | p :: qs => p ++ concat ((λ q, str ", " ++ q) <$> qs) end.
Proof.
  unfold join_subprotocols. set (step := λ value protocol : bytes, _).
  assert (∀ qs acc, acc ≠ [] → fold_left step qs acc = acc ++ concat ((λ q, str ", " ++ q) <$> filter (λ p, p ≠ []) qs)) as Hacc.
  { intros qs. induction qs as [|q qs IH]; intros acc Ha; [by rewrite app_nil_r|]. cbn [fold_left]. unfold step at 2. rewrite filter_cons.
    case_bool_decide as Hq; [rewrite decide_False by tauto; by apply IH|]. rewrite decide_True by done.
    rewrite bool_decide_eq_false_2 by done. rewrite IH; [by rewrite fmap_cons, <-!(assoc_L (++))|]. by destruct acc. }
  induction ps as [|p ps IH]; [done|]. cbn [fold_left]. unfold step at 2. rewrite filter_cons.
  case_bool_decide as Hp; [by rewrite decide_False by tauto|]. rewrite decide_True, bool_decide_eq_true_2, Hacc by done. done.
Qed.
Lemma split_tokens p qs :
  token p → Forall token qs → (∀ q, q ∈ qs → q ≠ []) → p ≠ [] →
  filter (λ t, t ≠ []) (trim_by is_blank <$> split_on ","%char (p ++ concat ((λ q, str ", " ++ q) <$> qs))) = p :: qs.
Proof.
  assert (∀ p, token p → ","%char ∉ p) as Hcomma.
  { intros q Hq Hin. unfold token in Hq. rewrite Forall_forall in Hq. by destruct (Hq _ Hin). }
  assert (∀ p, token p → ","%char ∉ SP :: p) as Hcomma' by (intros q Hq [?|?]%elem_of_cons; [done|by eapply Hcomma]).
  intros Hp Hqs Hne Hpe. destruct qs as [|q qs].
  { cbn [fmap list_fmap concat]. rewrite app_nil_r, split_on_word by auto. cbn [fmap list_fmap]. rewrite (proj1 (token_trim p Hp)). by rewrite filter_cons, decide_True. }
  assert (∀ q qs, token q → Forall token qs → (∀ r, r ∈ q :: qs → r ≠ []) →
    filter (λ t, t ≠ []) (trim_by is_blank <$> split_on ","%char (SP :: q ++ concat ((λ q, str ", " ++ q) <$> qs))) = q :: qs) as Hrec.
  { clear -Hcomma'. intros q qs Hq Hqs. revert q Hq. induction Hqs as [|r qs Hr Hqs IH]; intros q Hq Hne.
    - cbn [fmap list_fmap concat]. rewrite app_nil_r, split_on_word by auto. cbn [fmap list_fmap]. rewrite (proj2 (token_trim q Hq)).
      rewrite filter_cons, decide_True; [done|]. apply Hne. by left.
    - rewrite fmap_cons. cbn [concat]. change (str ", " ++ r) with (","%char :: SP :: r).
      rewrite (app_comm_cons q). cbn [app]. rewrite (app_comm_cons q), split_on_app by auto. rewrite fmap_cons, (proj2 (token_trim q Hq)).
      rewrite filter_cons, decide_True by (apply Hne; by left). f_equal. apply IH; [done|]. intros. apply Hne. by right. }
  apply Forall_cons in Hqs as [Hq Hqs]. rewrite fmap_cons. cbn [concat]. change (str ", " ++ q) with (","%char :: SP :: q). cbn [app].
  rewrite split_on_app, fmap_cons, (proj1 (token_trim p Hp)), filter_cons, decide_True by auto. f_equal. by apply Hrec.
Qed.
(** Round trip between the client and the server: the subprotocols the
    owner sets are, without the empty ones, exactly those the server's
    handshake parser hands to the application, whatever other headers are set. *)
Theorem subprotocols_roundtrip target ps headers :
  Forall token ps → StronglySorted key_lt headers →
  Forall (λ h, ieq h.1 (str "Sec-WebSocket-Protocol") = true → h.1 = str "Sec-WebSocket-Protocol") headers →
  hs_subprotocols (parse_handshake target (set_subprotocols ps headers)) = filter (λ p, p ≠ []) ps.
Proof.
  intros Hps Hsort Hname. cbn [parse_handshake hs_subprotocols].
  rewrite subprotocols_of_spec.
  assert (filter (λ h, ieq h.1 (str "Sec-WebSocket-Protocol") = true)
            (List.filter (λ h, negb (bool_decide (h.1 = str "Sec-WebSocket-Protocol"))) headers) = []) as Hnone.
  { clear Hsort. induction Hname as [|h hs Hh _ IH]; [done|]. cbn [List.filter]. case_bool_decide as Hk; cbn [negb]; [exact IH|].
    rewrite filter_cons, decide_False; [exact IH|]. auto. }
  assert (∀ v, filter (λ h, ieq h.1 (str "Sec-WebSocket-Protocol") = true) (map_assign (str "Sec-WebSocket-Protocol") v headers)
    = [(str "Sec-WebSocket-Protocol", v)]) as Hsome.
  { intros v. rewrite <-(map_assign_lookup _ v headers Hsort). apply filter_ext_elem. intros h Hi%map_assign_elem. rewrite Forall_forall in Hname.
    split; [|intros ->; apply ieq_refl]. destruct Hi as [->|Hi]; [done|by apply Hname]. }
  unfold set_subprotocols. rewrite join_subprotocols_spec.
  assert (∀ p, p ∈ filter (λ p, p ≠ []) ps → p ≠ []) as Hne by (intros p [? _]%list_elem_of_filter; done).
  assert (Forall token (filter (λ p, p ≠ []) ps)) as Htok by (rewrite Forall_forall in *; intros q [_ Hq]%list_elem_of_filter; auto).
  destruct (filter (λ p, p ≠ []) ps) as [|p qs]; [by rewrite bool_decide_eq_true_2, Hnone|].
  apply Forall_cons in Htok as [Hp Hqs]. rewrite bool_decide_eq_false_2, Hsome.
  - cbn [fmap list_fmap]. cbn [mbind list_bind]. rewrite app_nil_r. apply split_tokens; try done; [|apply Hne; by left].
    intros q Hq. apply Hne. by right.
  - assert (p ≠ []) by (apply Hne; by left). by destruct p.
Qed.

(** ** What the machine shows *)
(** [close] clears the queue under a write that is still in flight: if that
    write succeeds all the same, its handler pops the empty queue. *)
Lemma close_under_write_undefined env tls target w is_open :
  is_writing_ (ses w) = true →
  is_writing_ (ses (close is_open w).1) = true ∧
  handle env tls target (EvWrite None) (close is_open w).1 = Throw pop_of_empty.
Proof. intros Hw. unfold close. destruct (_ && _); cbn; by rewrite Hw. Qed.
(** A frame whose write failed stays at the front: the next frame that is sent
    writes it again. *)
Lemma failed_frame_written_again env tls target w f q g ec w' out :
  write_queue_ (ses w) = f :: q → closing_ (ses w) = false →
  handle env tls target (EvWrite (Some ec)) w = Ret (w', out) →
  ∃ w'', handle env tls target (EvQueueWrite g) w' = Ret (w'', [write_effect f]) ∧ write_queue_ (ses w'') = f :: q ++ [g].
Proof.
  intros Hq Hc Hh. injection Hh as Hh. assert (ses w' = set_writing false (ses w)) as Hs.
  { apply (f_equal (λ r, ses r.1)) in Hh. cbn [fst] in Hh. rewrite <-Hh.
    case_bool_decide; [by rewrite notify_close_ses|by rewrite notify_error_ses]. }
  destruct w' as [st' ses']. cbn [ses] in Hs. subst ses'. cbn [handle]. unfold on_queue_write, do_write_from_queue. cbn.
  rewrite Hc. cbn. rewrite Hq. cbn. eexists. split; [by destruct f as [[] ? ? ?]|done].
Qed.
(** An owner that closes before the socket is open is never answered: neither
    the connect callback nor the close callback runs. *)
Lemma close_while_connecting_silent env tls target w ec :
  closing_ (ses w) = true →
  Forall (λ ev, handle env tls target ev w = Ret (w, [])) [EvResolved ec; EvConnected ec; EvSslHandshake ec; EvHandshake ec []].
Proof.
  intros Hc. repeat constructor; cbn; unfold on_resolve, on_connect, on_ssl_handshake, on_handshake, guarded; by rewrite Hc.
Qed.

(** [notify_frame] copies both handlers first: an [on_frame] that destroys the
    client is followed by the [on_message] of the client that is gone. *)
Definition destroy_in_frame (m : moment) : list owner_action := match m with Ended (CallFrame _) => [Destroy] | _ => [] end.
Lemma message_after_destruction w data reason :
  alive (st w) = true → on_frame (st w) = true → on_message (st w) = true →
  let f := mk_frame ft_text data 1000 [] in
  let r := process_read_result destroy_in_frame None true data reason w in
  r.2 = [Copied [CallFrame f; CallMessage data]; Call (CallFrame f); Owner Destroy; Call (CallMessage data)] ∧
  alive (st r.1) = false.
Proof.
  intros Ha Hf Hm. cbn [process_read_result]. unfold notify_frame. rewrite Ha, Hf, Hm. cbn. unfold act. by rewrite Ha.
Qed.

(** ** Witnesses *)
(** An owner that does nothing in its callbacks. *)
Definition idle (m : moment) : list owner_action := [].
Definition sample_state : State := mk_state true false true true true true [].
Definition sample_frame : WebsocketFrame := mk_frame ft_text (str "hi") 1000 [].
Definition sample_ping : WebsocketFrame := mk_frame ft_ping (str "p") 1000 [].
(** A plain session: connected, two frames sent, the first one written, then
    the peer closes. *)
Definition sample_trace : list event :=
  [EvResolved None; EvConnected None; EvHandshake None (str "chat"); EvQueueWrite sample_frame; EvQueueWrite sample_ping;
   EvWrite None; EvRead (Some WsClosed) false [] (1000%Z, str "bye")].
Fixpoint replay (tls : bool) (target : bytes) (c : ws_run) (evs : list event) : ws_run :=
  match evs with
  | [] => c
  | ev :: evs => match handle idle tls target ev (r_w c) with Ret (w, out) => replay tls target (follow c ev w out) evs | Throw _ => c end
  end.
Fixpoint replay_ok (tls : bool) (target : bytes) (c : ws_run) (evs : list event) : Prop :=
  match evs with
  | [] => True
  | ev :: evs => enabled c ev ∧
      match handle idle tls target ev (r_w c) with Ret (w, out) => replay_ok tls target (follow c ev w out) evs | Throw _ => True end
  end.
Lemma replay_steps tls target c evs : replay_ok tls target c evs → rtc (ws_step tls target) c (replay tls target c evs).
Proof.
  revert c. induction evs as [|ev evs IH]; intros c Hok; [apply rtc_refl|]. cbn [replay replay_ok] in *. destruct Hok as [Hen Hok].
  destruct (handle idle tls target ev (r_w c)) as [[w out]|] eqn:Hh; [|apply rtc_refl]. eapply rtc_l; [by eapply step_event|by apply IH].
Qed.
Definition sample_start : ws_run := ws_start false idle sample_state (str "localhost") (str "80") true None.
Definition sample_end : ws_run := replay false (str "/") sample_start sample_trace.
Lemma sample_reachable : rtc (ws_step false (str "/")) sample_start sample_end.
Proof. apply replay_steps. cbn. split_and!; try done. lia. Qed.
Theorem ws_client_writes_witness :
  rtc (ws_step false (str "/")) sample_start sample_end ∧
  List.filter is_write (r_out sample_end) = [AsyncWrite sample_frame; AsyncPing (str "p")].
Proof.
  pose proof sample_reachable as Hr. split; [done|].
  destruct (ws_client_writes _ _ _ _ _ _ _ _ _ Hr) as (_ & H). by destruct (H eq_refl) as (_ & _ & ->).
Defined.
Theorem ws_client_callbacks_witness :
  rtc (ws_step false (str "/")) sample_start sample_end ∧
  count is_connect_call (r_out sample_end) = 1 ∧ existsb is_end_call (r_out sample_end) = true.
Proof.
  pose proof sample_reachable as Hr. split; [done|].
  destruct (ws_client_callbacks _ _ _ _ _ _ _ _ _ Hr) as (_ & _ & _ & _ & H). destruct (H eq_refl eq_refl) as (H1 & H2 & _).
  split; [apply H1; [done|by left]|by apply H2].
Defined.
Theorem subprotocols_roundtrip_witness :
  hs_subprotocols (parse_handshake (str "/chat") (set_subprotocols [str "chat"; []; str "v2"] [(str "Accept", str "x")]))
  = [str "chat"; str "v2"].
Proof.
  rewrite (subprotocols_roundtrip (str "/chat") [str "chat"; []; str "v2"] [(str "Accept", str "x")]); [done|..].
  - by repeat constructor.
  - by repeat constructor.
  - apply Forall_singleton. intros H. by vm_compute in H.
Defined.
