(* ===== verification/WebsocketClientTls.v ===== *)
(** * WebSocket client: the session over TLS ([client/websocket_client.cpp])

    [SslWebsocketSession] repeats the code of [PlainWebsocketSession] with one
    more handshake. It is transcribed here handler by handler on the base class
    of [WsClient], and simulated by the plain session
    ([tls_session_refines_plain]): what holds of the runs of the plain session
    holds of those of the TLS session. *)
From S2P Require Import Prelude Text Websocket HttpClient WebsocketClient WebsocketClientTheorems.
Set Default Proof Using "Type*".

Module SslSession.
Import WsClient.
Section session.
Context (env : moment → list owner_action) (target : bytes).
(** [sni]: the failure of [SSL_set_tlsext_host_name]. *)
Definition run (host port : bytes) (callback : bool) (sni : option error_code) (w : world) : world * list effect :=
  let w := set_ses (mk_session (write_queue_ (ses w)) (is_writing_ (ses w)) (closing_ (ses w)) (close_started_ (ses w))
                      (connect_notified_ (ses w)) host callback) w in
  match sni with
  | Some ec => fail env ec w
  | None => (w, [Resolve host port])
  end.
Definition close (is_open : bool) (w : world) : world * list effect :=
  let w := set_ses (set_closing (ses w)) w in
  let w := set_ses (set_queue [] (ses w)) w in
  if is_open && negb (close_started_ (ses w))
  then (set_ses (set_close_started (ses w)) w, [CancelIo; AsyncClose])
  else (w, [CancelIo; ShutdownSocket]).
Definition do_write_from_queue (w : world) : result :=
  match write_queue_ (ses w) with
  | [] => Throw front_of_empty
  | frame :: _ =>
      if bool_decide (fr_type frame = ft_ping) then Ret (w, [AsyncPing (fr_payload frame)])
      else if bool_decide (fr_type frame = ft_pong) then Ret (w, [AsyncPong (fr_payload frame)])
      else Ret (w, [AsyncWrite frame])
  end.
Definition on_resolve (ec : option error_code) (w : world) : world * list effect :=
  if closing_ (ses w) then (w, [])
  else match ec with Some ec => fail env ec w | None => (w, [ConnectTo]) end.
Definition on_connect (ec : option error_code) (w : world) : world * list effect :=
  if closing_ (ses w) then (w, [])
  else match ec with Some ec => fail env ec w | None => (w, [SslHandshake]) end.
Definition on_ssl_handshake (ec : option error_code) (w : world) : world * list effect :=
  if closing_ (ses w) then (w, [])
  else match ec with Some ec => fail env ec w | None => (w, [Handshake (host_ (ses w)) target]) end.
Definition on_handshake (ec : option error_code) (subprotocol : bytes) (w : world) : world * list effect :=
  if closing_ (ses w) then (w, [])
  else match ec with
  | Some ec => fail env ec w
  | None =>
      let w := set_negotiated_subprotocol subprotocol w in
      let '(w, out) := notify_connect env None w in
      (w, out ++ [Read])
  end.
Definition on_read (ec : option error_code) (text : bool) (data : bytes) (reason : Z * bytes) (w : world) : world * list effect :=
  let '(w, out) := process_read_result env ec text data reason w in
  match ec with Some _ => (w, out) | None => (w, out ++ [Read]) end.
Definition on_write (ec : option error_code) (w : world) : result := process_write_result env do_write_from_queue ec w.
(** The completions and the posted closures of one session. *)
Definition handle (ev : event) (w : world) : result :=
  match ev with
  | EvResolved ec => Ret (on_resolve ec w)
  | EvConnected ec => Ret (on_connect ec w)
  | EvSslHandshake ec => Ret (on_ssl_handshake ec w)
  | EvHandshake ec subprotocol => Ret (on_handshake ec subprotocol w)
  | EvRead ec text data reason => Ret (on_read ec text data reason w)
  | EvWrite ec => on_write ec w
  | EvQueueWrite frame => on_queue_write do_write_from_queue frame w
  | EvClose is_open => Ret (close is_open w)
  | EvClosed _ => Ret (notify_close env w)
  end.
End session.
End SslSession.

(** ** Both sessions *)
Import WsClient.
(** The TLS session is the generic one with its extra handshake. *)
Lemma handle_tls env target ev w : SslSession.handle env target ev w = handle env true target ev w.
Proof.
  assert (∀ w, SslSession.do_write_from_queue w = do_write_from_queue w) as Hw.
  { intros v. unfold SslSession.do_write_from_queue, do_write_from_queue.
    destruct (write_queue_ (ses v)) as [|[[] p k r] q]; [done|..]; cbn; reflexivity. }
  destruct ev as [ec|ec|ec|ec sub|ec text data reason|ec|frame|is_open|ec]; try done; cbn [SslSession.handle handle].
  - unfold SslSession.on_read, on_read. destruct (process_read_result env ec text data reason w) as [w' out]. by destruct ec.
  - unfold SslSession.on_write, process_write_result. destruct ec; [done|]. destruct (write_queue_ (ses w)); [done|].
    case_bool_decide; [apply Hw|done].
  - unfold on_queue_write. destruct (closing_ (ses w)); [done|]. cbn. destruct (is_writing_ (ses w)); [done|]. apply Hw.
Qed.

(** The effects the plain session has too. *)
Definition is_ssl (e : effect) : bool := match e with SslHandshake => true | _ => false end.
Definition without_ssl (out : list effect) : list effect := List.filter (λ e, negb (is_ssl e)) out.
Definition plain_chain (o : option chain_op) : option chain_op := match o with Some OpSsl => Some OpConnect | _ => o end.
(** What is seen of a TLS session when its extra handshake is part of connecting. *)
Definition plain_view (c : ws_run) : ws_run :=
  mk_run (r_w c) (without_ssl (r_out c)) (plain_chain (r_chain c)) (r_writes c) (r_close_op c) (r_accepted c) (r_done c)
    (r_failed c) (r_regular c).
Lemma without_ssl_app a b : without_ssl (a ++ b) = without_ssl a ++ without_ssl b.
Proof. apply List.filter_app. Qed.
Lemma plain_chain_id o : o ≠ Some OpSsl → plain_chain o = o.
Proof. by destruct o as [[]|]. Qed.

(** *** Handlers that do not start a TLS handshake *)
Definition quiet (out : list effect) : Prop := Forall (λ e, e ≠ SslHandshake) out.
Lemma quiet_without_ssl out : quiet out → without_ssl out = out.
Proof. induction 1 as [|[] out Hx _ IH]; unfold without_ssl in *; cbn; by rewrite ?IH. Qed.
Lemma quiet_next_chain out : quiet out → next_chain out ≠ Some OpSsl.
Proof. unfold next_chain. induction 1 as [|[] out Hx _ IH]; by cbn. Qed.
Lemma quiet_app a b : quiet a → quiet b → quiet (a ++ b).
Proof. intros Ha Hb. by apply Forall_app. Qed.
Lemma quiet_notes out : Forall (λ e, is_note e = true) out → quiet out.
Proof. intros H. eapply Forall_impl; [exact H|]. by intros e He ->. Qed.
Lemma quiet_frame env f w : quiet (notify_frame env f w).2.
Proof. destruct (noted_frame env f w) as (cs & [_ _ Hn _ _ _] & _). by apply quiet_notes. Qed.
Lemma quiet_error env ec w : quiet (notify_error env ec w).2.
Proof. destruct (noted_error env ec w) as (cs & [_ _ Hn _ _ _] & _). by apply quiet_notes. Qed.
Lemma quiet_close env w : quiet (notify_close env w).2.
Proof. apply quiet_notes, notes_close. Qed.
Lemma quiet_connect env ec w : quiet (notify_connect env ec w).2.
Proof.
  destruct (connect_notified_ (ses w) || closing_ (ses w)) eqn:He; [rewrite notify_connect_told by done; constructor|].
  apply orb_false_iff in He as [H1 H2]. destruct (noted_notify_connect env ec w H1 H2) as [_ _ Hn _ _ _]. by apply quiet_notes.
Qed.
Lemma quiet_guarded env ec next w : quiet next → quiet (guarded env ec next w).2.
Proof. intros Hn. unfold guarded. destruct (closing_ (ses w)), ec; try done; try by constructor. apply quiet_connect. Qed.
Lemma quiet_write w r : do_write_from_queue w = Ret r → quiet r.2.
Proof. unfold do_write_from_queue. destruct (write_queue_ (ses w)) as [|[[] ? ? ?] q]; intros [= <-]; by repeat constructor. Qed.
Lemma quiet_on_read env ec text data reason w : quiet (on_read env ec text data reason w).2.
Proof.
  unfold on_read, process_read_result. destruct ec as [ec|].
  - rewrite (bool_decide_eq_false_2 (Some ec = None)) by done. case_bool_decide.
    + assert (quiet (if bool_decide (ec = WsClosed) then notify_frame env (close_frame reason) w else (w, [])).2) as Hf
        by (case_bool_decide; [apply quiet_frame|constructor]).
      destruct (if bool_decide (ec = WsClosed) then _ else _) as [w1 o1]. pose proof (quiet_close env w1) as Hc.
      destruct (notify_close env w1) as [w2 o2]. by apply quiet_app.
    + pose proof (quiet_error env ec w) as He. by destruct (notify_error env ec w).
  - rewrite bool_decide_eq_true_2 by done. pose proof (quiet_frame env (mk_frame (if text then ft_text else ft_binary) data 1000 []) w) as Hf.
    destruct (notify_frame _ _ _). apply quiet_app; [done|by repeat constructor].
Qed.
(** The effects of a handler that returns [r] are [r.2]. *)
Ltac effects_of Hh := injection Hh as Hh; apply (f_equal snd) in Hh; cbn in Hh; subst.
Lemma quiet_handle env target ev w w' out : handle env false target ev w = Ret (w', out) → quiet out.
Proof.
  destruct ev as [ec|ec|ec|ec sub|ec text data reason|ec|frame|is_open|ec]; cbn [handle]; intros Hh.
  - effects_of Hh. apply quiet_guarded. by repeat constructor.
  - effects_of Hh. apply quiet_guarded. by repeat constructor.
  - effects_of Hh. apply quiet_guarded. by repeat constructor.
  - injection Hh as Hh. unfold on_handshake in Hh. destruct (closing_ (ses w)); [by injection Hh as <- <-; constructor|].
    destruct ec as [ec|]; [apply (f_equal snd) in Hh; cbn in Hh; subst; apply quiet_connect|].
    pose proof (quiet_connect env None (set_negotiated_subprotocol sub w)) as Hc. destruct (notify_connect _ _ _) as [v o].
    injection Hh as <- <-. apply quiet_app; [done|by repeat constructor].
  - effects_of Hh. apply quiet_on_read.
  - unfold process_write_result in Hh. destruct ec as [ec|].
    + effects_of Hh. case_bool_decide; [apply quiet_close|apply quiet_error].
    + destruct (write_queue_ (ses w)); [done|]. case_bool_decide; [by apply quiet_write in Hh|injection Hh as <- <-; constructor].
  - unfold on_queue_write in Hh. destruct (closing_ (ses w)); [injection Hh as <- <-; constructor|]. cbn in Hh.
    destruct (is_writing_ (ses w)); [injection Hh as <- <-; constructor|]. by apply quiet_write in Hh.
  - effects_of Hh. unfold close. destruct (_ && _); by repeat constructor.
  - effects_of Hh. apply quiet_close.
Qed.

(** *** Simulation *)
(** The event of the plain session that stands for one of the TLS session. *)
Definition plain_event (ev : event) : event := match ev with EvSslHandshake ec => EvConnected ec | _ => ev end.
(** A connected socket starts the TLS handshake: the only step the plain
    session does not have. *)
Definition starts_tls (c : ws_run) (ev : event) : Prop := ev = EvConnected None ∧ closing_ (ses (r_w c)) = false.
Lemma starts_tls_dec c ev : {starts_tls c ev} + {¬ starts_tls c ev}.
Proof.
  unfold starts_tls. destruct ev as [|[]| | | | | | |]; try (by right; intros [? _]).
  destruct (closing_ (ses (r_w c))); [by right; intros [_ ?]|by left].
Defined.
Lemma handle_plain env target c ev :
  ¬ starts_tls c ev → SslSession.handle env target ev (r_w c) = handle env false target (plain_event ev) (r_w c).
Proof.
  intros Hn. rewrite handle_tls. destruct ev as [ec|[ec|]| | | | | | |]; try done; cbn; unfold on_connect, guarded.
  - destruct (closing_ (ses (r_w c))) eqn:Hc; [done|]. by destruct Hn.
Qed.
Lemma follow_plain env target c ev w out :
  handle env false target (plain_event ev) (r_w c) = Ret (w, out) →
  plain_view (follow c ev w out) = follow (plain_view c) (plain_event ev) w out.
Proof.
  intros Hh. apply quiet_handle in Hh. unfold plain_view, follow. cbn [r_w r_out r_chain r_writes r_close_op r_accepted r_done r_failed r_regular].
  rewrite !without_ssl_app, (quiet_without_ssl out Hh). f_equal; try by destruct ev.
  destruct ev; try done; cbn [in_chain plain_event]; by apply plain_chain_id, quiet_next_chain.
Qed.

Section run.
Context (target : bytes).
(** The runs of a TLS session, as [ws_step]. *)
Inductive tls_step : ws_run → ws_run → Prop :=
| tls_event c env ev w out :
    enabled c ev → SslSession.handle env target ev (r_w c) = Ret (w, out) → tls_step c (follow c ev w out)
| tls_owner c a : tls_step c (owned c (act a (r_w c))).
Definition tls_start (env : moment → list owner_action) (s : State) (host port : bytes) (callback : bool) (sni : option error_code) : ws_run :=
  let '(w, out) := SslSession.run env host port callback sni (connect_world s) in
  mk_run w out (next_chain out) 0 false [] [] false (alive s && on_error s && on_close s && callback && forallb keeps out).

Lemma enabled_plain c ev : enabled c ev → enabled (plain_view c) (plain_event ev).
Proof. destruct ev; cbn; try done; by intros ->. Qed.
Lemma stutter c : r_chain c = Some OpConnect → plain_view (follow c (EvConnected None) (r_w c) [SslHandshake]) = plain_view c.
Proof.
  intros Hc. unfold plain_view, follow. cbn. by rewrite Hc, Nat.add_0_r, orb_false_r, andb_true_r, without_ssl_app, !app_nil_r.
Qed.
Lemma owned_plain c a : plain_view (owned c (act a (r_w c))) = owned (plain_view c) (act a (r_w c)).
Proof.
  unfold plain_view, owned. cbn [r_w r_out r_chain r_writes r_close_op r_accepted r_done r_failed r_regular].
  pose proof (noted_act a [] (r_w c)) as [_ _ Hn _ _ _]. by rewrite without_ssl_app, (quiet_without_ssl _ (quiet_notes _ Hn)).
Qed.
(** Forward: a step of the TLS session is one of the plain session, or none. *)
Lemma tls_step_plain c c' : tls_step c c' → rtc (ws_step false target) (plain_view c) (plain_view c').
Proof.
  intros [d env ev w out Hen Hh|d a].
  - destruct (starts_tls_dec d ev) as [[-> Hc]|Hn].
    + cbn in Hh. unfold SslSession.on_connect in Hh. rewrite Hc in Hh. injection Hh as <- <-. rewrite stutter by done. apply rtc_refl.
    + apply rtc_once. rewrite handle_plain in Hh by done.
      rewrite (follow_plain env target) by done. eapply step_event; [by apply enabled_plain|done].
  - rewrite owned_plain. apply rtc_once, (step_owner false target (plain_view d)).
Qed.
(** Backward: a step of the plain session is one of the TLS session, or its two
    last steps of connecting. *)
Lemma tls_event_plain c env ev w out :
  enabled c ev → ¬ starts_tls c ev → handle env false target (plain_event ev) (r_w c) = Ret (w, out) →
  ∃ d, rtc tls_step c d ∧ plain_view d = follow (plain_view c) (plain_event ev) w out.
Proof.
  intros Hen Hn Hh. exists (follow c ev w out). split; [|by apply (follow_plain env target)].
  apply rtc_once, (tls_event _ env); [done|]. by rewrite handle_plain.
Qed.
Lemma tls_connects c env w out :
  r_chain c = Some OpConnect → closing_ (ses (r_w c)) = false → handle env false target (EvConnected None) (r_w c) = Ret (w, out) →
  ∃ d, rtc tls_step c d ∧ plain_view d = follow (plain_view c) (EvConnected None) w out.
Proof.
  intros Hch Hc Hh. set (c1 := follow c (EvConnected None) (r_w c) [SslHandshake]).
  destruct (tls_event_plain c1 env (EvSslHandshake None) w out) as (d & Hd & He); [done|by intros []|done|].
  exists d. split; [|by rewrite He; unfold c1; rewrite stutter].
  eapply rtc_l; [|exact Hd]. apply (tls_event _ env); [done|]. cbn. unfold SslSession.on_connect. by rewrite Hc.
Qed.
Lemma plain_step_tls c c' : ws_step false target (plain_view c) c' → ∃ d, rtc tls_step c d ∧ plain_view d = c'.
Proof.
  inversion 1 as [? env ev w out Hen Hh|? a]; subst; clear H.
  - change (r_w (plain_view c)) with (r_w c) in Hh. destruct ev as [ec|ec|ec|ec sub|ec text data reason|ec|frame|is_open|ec]; cbn in Hen.
    2: { destruct (r_chain c) as [[]|] eqn:Hch; try done.
         - destruct (starts_tls_dec c (EvConnected ec)) as [[[= ->] Hc]|Hn]; [by eapply tls_connects|].
           by apply (tls_event_plain c env (EvConnected ec)).
         - apply (tls_event_plain c env (EvSslHandshake ec)); [done|by intros []|done]. }
    2: by destruct (r_chain c) as [[]|].
    1, 2, 3: destruct (r_chain c) as [[]|] eqn:Hch; try done.
    all: match goal with |- context [follow _ ?ev _ _] => apply (tls_event_plain c env ev); [done|by intros []|done] end.
  - exists (owned c (act a (r_w c))). split; [apply rtc_once, tls_owner|exact (owned_plain c a)].
Qed.
(** The start: [connect] with the server's name set. *)
Lemma tls_start_plain env s host port cb : plain_view (tls_start env s host port cb None) = ws_start false env s host port cb None.
Proof. done. Qed.
Lemma tls_runs_plain c d : rtc tls_step c d → rtc (ws_step false target) (plain_view c) (plain_view d).
Proof. induction 1 as [|c c1 d Hs _ IH]; [apply rtc_refl|]. etrans; [by apply tls_step_plain|done]. Qed.
Lemma plain_runs_tls c v d : rtc (ws_step false target) v d → plain_view c = v → ∃ d', rtc tls_step c d' ∧ plain_view d' = d.
Proof.
  intros Hr. revert c. induction Hr as [v|v v1 d Hs _ IH]; intros c <-; [by exists c; split; [apply rtc_refl|]|].
  destruct (plain_step_tls _ _ Hs) as (c1 & H1 & E1). destruct (IH c1 E1) as (d' & H2 & E2).
  exists d'. split; [by etrans|done].
Qed.

(** C32: the two session classes are one protocol. The states a TLS session
    reaches, with its own handshake taken out of what it did, are exactly the
    states a plain session reaches: same handler state, same queue, same
    writes, reads and callbacks in the same order. *)
Theorem tls_session_refines_plain env s host port cb v :
  (∃ c, rtc tls_step (tls_start env s host port cb None) c ∧ plain_view c = v) ↔
  rtc (ws_step false target) (ws_start false env s host port cb None) v.
Proof.
  rewrite <-tls_start_plain. split.
  - intros (c & Hr & <-). by apply tls_runs_plain.
  - intros Hr. by eapply plain_runs_tls.
Qed.
(** A server name that cannot be set ends the connection at once: nothing is
    started, and the caller of a living client is told. *)
Lemma sni_failure env s host port ec :
  alive s = true →
  let c := tls_start env s host port true (Some ec) in
  omap call_of (r_out c) = [CallConnect (Some ec)] ∧ r_chain c = None ∧ connect_notified_ (ses (r_w c)) = true.
Proof.
  intros Ha. unfold tls_start, SslSession.run, fail. set (w := set_ses _ _).
  pose proof (noted_notify_connect env (Some ec) w eq_refl eq_refl) as [Hs _ Hn Hc _ _]. destruct (notify_connect _ _ _) as [w' out].
  cbn [fst snd r_out r_chain r_w] in *. rewrite Hc, Hs, next_chain_only_notes by done. change (alive (st w)) with (alive s). by rewrite Ha.
Qed.
End run.
