(* ===== verification/Calendar.v ===== *)
(** * The C library's calendar ([std::tm], [std::mktime], [localtime_r])

    Broken-down time in a process whose zone is UTC: the Gregorian calendar
    without leap seconds. The fields are unbounded integers; the fields
    [tm_yday] and [tm_isdst] are not read by the program. *)
From S2P Require Import Prelude.
Set Default Proof Using "Type*".
#[local] Open Scope Z_scope.
#[local] Ltac Zify.zify_post_hook ::= Z.to_euclidean_division_equations.

Record tm := mk_tm {
  tm_sec : Z; tm_min : Z; tm_hour : Z; tm_mday : Z; tm_mon : Z; tm_year : Z; tm_wday : Z }.

(** ** Days *)
Definition leap (y : Z) : bool := (y mod 4 =? 0) && (negb (y mod 100 =? 0) || (y mod 400 =? 0)).
Definition leap_day (y : Z) : Z := if leap y then 1 else 0.
(** Days from 0001-01-01 to the first day of year [y]. *)
Definition days_before_year (y : Z) : Z := 365 * (y - 1) + (y - 1) / 4 - (y - 1) / 100 + (y - 1) / 400.
(** Days of a year with [l] leap days before month [m] (January is 0). *)
Definition days_before_month (l m : Z) : Z :=
  if m =? 0 then 0 else if m =? 1 then 31 else if m =? 2 then 59 + l else if m =? 3 then 90 + l
  else if m =? 4 then 120 + l else if m =? 5 then 151 + l else if m =? 6 then 181 + l else if m =? 7 then 212 + l
  else if m =? 8 then 243 + l else if m =? 9 then 273 + l else if m =? 10 then 304 + l else if m =? 11 then 334 + l
  else 365 + l.
Definition year_of_day (n : Z) : Z :=
  let y := n * 400 / 146097 + 1 in
  if n <? days_before_year y then y - 1 else if n <? days_before_year (y + 1) then y else y + 1.
Definition month_of_day (l doy : Z) : Z :=
  if doy <? 31 then 0 else if doy <? 59 + l then 1 else if doy <? 90 + l then 2 else if doy <? 120 + l then 3
  else if doy <? 151 + l then 4 else if doy <? 181 + l then 5 else if doy <? 212 + l then 6 else if doy <? 243 + l then 7
  else if doy <? 273 + l then 8 else if doy <? 304 + l then 9 else if doy <? 334 + l then 10 else 11.
(** 1970-01-01, a Thursday. *)
Definition epoch_day : Z := 719162.

(** ** Seconds since the epoch *)
Definition seconds_per_day : Z := 86400.
(** The first day of a month, counted from the epoch; months are normalised. *)
Definition month_start (year mon : Z) : Z :=
  let y := year + 1900 + mon / 12 in
  days_before_year y + days_before_month (leap_day y) (mon mod 12) - epoch_day.
Definition timegm (x : tm) : Z :=
  (month_start (tm_year x) (tm_mon x) + tm_mday x - 1) * 86400 + tm_hour x * 3600 + tm_min x * 60 + tm_sec x.
Definition gmtime (t : Z) : tm :=
  let day := t / 86400 in
  let s := t mod 86400 in
  let y := year_of_day (day + epoch_day) in
  let doy := day + epoch_day - days_before_year y in
  let m := month_of_day (leap_day y) doy in
  mk_tm (s mod 60) (s / 60 mod 60) (s / 3600) (doy - days_before_month (leap_day y) m + 1) m (y - 1900) ((day + 4) mod 7).

(** ** The calendar is sound *)
Lemma leap_day_eq y : leap_day y = (y / 4 - (y - 1) / 4) - (y / 100 - (y - 1) / 100) + (y / 400 - (y - 1) / 400).
Proof.
  unfold leap_day, leap. destruct (Z.eqb_spec (y mod 4) 0), (Z.eqb_spec (y mod 100) 0), (Z.eqb_spec (y mod 400) 0); cbn [andb orb negb]; lia.
Qed.
Lemma leap_day_bound y : 0 ≤ leap_day y ≤ 1.
Proof. unfold leap_day. destruct (leap y); lia. Qed.
Lemma days_before_year_step y : days_before_year (y + 1) = days_before_year y + 365 + leap_day y.
Proof. unfold days_before_year. rewrite leap_day_eq. replace (y + 1 - 1) with y by lia. lia. Qed.
Lemma days_before_year_mono y z : y ≤ z → days_before_year y + 365 * (z - y) ≤ days_before_year z.
Proof.
  intros H. assert (∀ k, 0 ≤ k → days_before_year y + 365 * k ≤ days_before_year (y + k)) as Hk.
  { apply natlike_ind; [rewrite (Z.add_0_r y); lia|]. intros k Hk IH. unfold Z.succ.
    rewrite Z.add_assoc, days_before_year_step. pose proof (leap_day_bound (y + k)). lia. }
  specialize (Hk (z - y)). replace (y + (z - y)) with z in Hk by lia. lia.
Qed.
(** The mean length of a year is 146097/400 days. *)
Lemma days_before_year_bounds y : 146097 * (y - 1) - 800 < 400 * days_before_year y < 146097 * (y - 1) + 400.
Proof. unfold days_before_year. generalize (y - 1). intros k. lia. Qed.
Lemma year_of_day_spec n : days_before_year (year_of_day n) ≤ n < days_before_year (year_of_day n + 1).
Proof.
  unfold year_of_day. set (y := n * 400 / 146097 + 1).
  assert (146097 * (y - 1) ≤ n * 400 < 146097 * y) as Hy by (unfold y; lia). clearbody y.
  pose proof (days_before_year_bounds (y - 1)). pose proof (days_before_year_bounds (y + 1 + 1)).
  destruct (Z.ltb_spec n (days_before_year y)); [replace (y - 1 + 1) with y by lia; lia|].
  destruct (Z.ltb_spec n (days_before_year (y + 1))); lia.
Qed.
Lemma year_of_day_unique n y : days_before_year y ≤ n < days_before_year (y + 1) → year_of_day n = y.
Proof.
  intros H. pose proof (year_of_day_spec n). destruct (Z.lt_trichotomy (year_of_day n) y) as [Hl|[?|Hl]]; [|done|].
  - pose proof (days_before_year_mono (year_of_day n + 1) y). lia.
  - pose proof (days_before_year_mono (y + 1) (year_of_day n)). lia.
Qed.
(** Case analysis of the month tables. *)
Ltac month_cases :=
  repeat match goal with
  | |- context [?a =? ?b] => destruct (Z.eqb_spec a b); try lia
  | |- context [?a <? ?b] => destruct (Z.ltb_spec a b); try lia
  end.
Lemma month_of_day_spec l doy :
  0 ≤ l ≤ 1 → 0 ≤ doy < 365 + l →
  let m := month_of_day l doy in 0 ≤ m ≤ 11 ∧ days_before_month l m ≤ doy < days_before_month l (m + 1).
Proof. intros Hl Hd. cbn zeta. unfold month_of_day. month_cases; unfold days_before_month; month_cases. Qed.
Lemma days_before_month_step l m :
  0 ≤ l ≤ 1 → 0 ≤ m ≤ 11 → days_before_month l m + 28 ≤ days_before_month l (m + 1) ≤ days_before_month l m + 31.
Proof. intros Hl Hm. unfold days_before_month. month_cases. Qed.
Lemma days_before_month_mono l m k : 0 ≤ l ≤ 1 → 0 ≤ m ≤ k → k ≤ 12 → days_before_month l m + 28 * (k - m) ≤ days_before_month l k.
Proof. intros Hl Hm Hk. unfold days_before_month. month_cases. Qed.
Lemma month_of_day_unique l doy m :
  0 ≤ l ≤ 1 → 0 ≤ m ≤ 11 → days_before_month l m ≤ doy < days_before_month l (m + 1) → month_of_day l doy = m.
Proof.
  intros Hl Hm H. pose proof (days_before_month_mono l 0 m Hl). pose proof (days_before_month_mono l (m + 1) 12 Hl).
  assert (days_before_month l 0 = 0) by done. assert (days_before_month l 12 = 365 + l) by done.
  destruct (month_of_day_spec l doy Hl) as [Hb Hs]; [lia|]. cbn zeta in *. set (k := month_of_day l doy) in *.
  destruct (Z.lt_trichotomy k m) as [Hlt|[?|Hlt]]; [|done|].
  - pose proof (days_before_month_mono l (k + 1) m Hl). lia.
  - pose proof (days_before_month_mono l (m + 1) k Hl). lia.
Qed.

Lemma days_before_month_bounds l m : 0 ≤ l ≤ 1 → 0 ≤ m ≤ 12 → 0 ≤ days_before_month l m ≤ 365 + l.
Proof. intros Hl Hm. unfold days_before_month. month_cases. Qed.

(** The number of the month of a time, counted from year 1900. *)
Definition month_index (t : Z) : Z := tm_year (gmtime t) * 12 + tm_mon (gmtime t).
Definition day_of (t : Z) : Z := t / 86400.
Lemma month_start_step y m : month_start y (m + 12) = month_start (y + 1) m.
Proof.
  unfold month_start. replace ((m + 12) / 12) with (m / 12 + 1) by lia. replace ((m + 12) mod 12) with (m mod 12) by lia.
  by replace (y + 1900 + (m / 12 + 1)) with (y + 1 + 1900 + m / 12) by lia.
Qed.
Lemma month_start_small y m : 0 ≤ m ≤ 11 →
  month_start y m = days_before_year (y + 1900) + days_before_month (leap_day (y + 1900)) m - epoch_day.
Proof. intros Hm. unfold month_start. replace (m / 12) with 0 by lia. replace (m mod 12) with m by lia. by rewrite Z.add_0_r. Qed.
(** The next month begins 28 to 31 days later. *)
Lemma month_start_succ y m : 0 ≤ m ≤ 11 → month_start y m + 28 ≤ month_start y (m + 1) ≤ month_start y m + 31.
Proof.
  intros Hm. destruct (decide (m = 11)) as [->|Hne].
  - change (11 + 1) with (0 + 12). rewrite month_start_step, !month_start_small by lia. replace (y + 1 + 1900) with (y + 1900 + 1) by lia.
    rewrite days_before_year_step. cbn. lia.
  - rewrite !month_start_small by lia. pose proof (days_before_month_step (leap_day (y + 1900)) m (leap_day_bound _)). lia.
Qed.
(** The fields of a time, by the month and the day they name. *)
Lemma gmtime_spec t :
  let x := gmtime t in
  0 ≤ tm_sec x ≤ 59 ∧ 0 ≤ tm_min x ≤ 59 ∧ 0 ≤ tm_hour x ≤ 23 ∧ 0 ≤ tm_mon x ≤ 11 ∧ 0 ≤ tm_wday x ≤ 6 ∧
  1 ≤ tm_mday x ∧ month_start (tm_year x) (tm_mon x) + tm_mday x - 1 = day_of t ∧
  day_of t < month_start (tm_year x) (tm_mon x + 1).
Proof.
  cbn zeta. unfold gmtime, day_of. cbn [tm_sec tm_min tm_hour tm_mon tm_wday tm_mday tm_year].
  set (n := t / 86400 + epoch_day). pose proof (year_of_day_spec n) as Hy. set (y := year_of_day n) in *. rewrite days_before_year_step in Hy.
  pose proof (leap_day_bound y) as Hl. destruct (month_of_day_spec (leap_day y) (n - days_before_year y) Hl) as [Hm Hd]; [lia|]. cbn zeta in *.
  set (m := month_of_day _ _) in *. rewrite month_start_small by lia. replace (y - 1900 + 1900) with y by lia.
  split_and!; try lia. destruct (decide (m = 11)) as [->|Hne].
  - change (11 + 1) with (0 + 12). rewrite month_start_step, month_start_small by lia. replace (y - 1900 + 1 + 1900) with (y + 1) by lia.
    rewrite days_before_year_step. cbn in *. lia.
  - rewrite month_start_small by lia. replace (y - 1900 + 1900) with y by lia. lia.
Qed.
Lemma timegm_gmtime t : timegm (gmtime t) = t.
Proof.
  pose proof (gmtime_spec t) as (_ & _ & _ & _ & _ & _ & Hd & _). unfold timegm. rewrite Hd. unfold day_of, gmtime. cbn. lia.
Qed.
(** A day is in the month that contains it, and only in it. *)
Lemma gmtime_month t y m : 0 ≤ m ≤ 11 → month_start y m ≤ day_of t < month_start y (m + 1) →
  tm_year (gmtime t) = y ∧ tm_mon (gmtime t) = m ∧ tm_mday (gmtime t) = day_of t - month_start y m + 1.
Proof.
  intros Hm Hd. rewrite (month_start_small y m) in * by lia.
  pose proof (leap_day_bound (y + 1900)) as Hl. pose proof (days_before_month_bounds _ m Hl) as H0.
  assert (day_of t + epoch_day < days_before_year (y + 1900) + days_before_month (leap_day (y + 1900)) (m + 1)) as Hlt.
  { destruct (decide (m = 11)) as [->|Hne].
    - change (11 + 1) with (0 + 12) in Hd. rewrite month_start_step, month_start_small in Hd by lia. replace (y + 1 + 1900) with (y + 1900 + 1) in Hd by lia.
      rewrite days_before_year_step in Hd. change (days_before_month _ 0) with 0 in Hd.
      change (days_before_month (leap_day (y + 1900)) (11 + 1)) with (365 + leap_day (y + 1900)). lia.
    - rewrite month_start_small in Hd by lia. lia. }
  pose proof (days_before_month_bounds _ (m + 1) Hl) as H12.
  unfold gmtime, day_of in *. cbn [tm_year tm_mon tm_mday].
  assert (year_of_day (t / 86400 + epoch_day) = y + 1900) as ->.
  { apply year_of_day_unique. rewrite days_before_year_step. lia. }
  rewrite (month_of_day_unique _ _ m Hl Hm) by lia. lia.
Qed.

(** ** Months as numbers *)
Definition month_begin (q : Z) : Z := month_start 0 q.
Lemma month_start_begin y m : month_start y m = month_begin (12 * y + m).
Proof.
  unfold month_begin, month_start. replace ((12 * y + m) / 12) with (y + m / 12) by lia. replace ((12 * y + m) mod 12) with (m mod 12) by lia.
  by replace (y + 1900 + m / 12) with (0 + 1900 + (y + m / 12)) by lia.
Qed.
Lemma month_begin_succ q : month_begin q + 28 ≤ month_begin (q + 1) ≤ month_begin q + 31.
Proof.
  pose proof (month_start_succ (q / 12) (q mod 12) ltac:(lia)) as H. rewrite !month_start_begin in H.
  replace (12 * (q / 12) + q mod 12) with q in H by lia. by replace (12 * (q / 12) + (q mod 12 + 1)) with (q + 1) in H by lia.
Qed.
Lemma month_begin_mono q k : q ≤ k → month_begin q + 28 * (k - q) ≤ month_begin k.
Proof.
  intros H. assert (∀ n, 0 ≤ n → month_begin q + 28 * n ≤ month_begin (q + n)) as Hn.
  { apply natlike_ind; [rewrite (Z.add_0_r q); lia|]. intros n Hn IH. unfold Z.succ. rewrite Z.add_assoc. pose proof (month_begin_succ (q + n)). lia. }
  specialize (Hn (k - q)). replace (q + (k - q)) with k in Hn by lia. lia.
Qed.
Lemma month_index_spec t : month_begin (month_index t) ≤ day_of t < month_begin (month_index t + 1).
Proof.
  pose proof (gmtime_spec t) as (_ & _ & _ & Hm & _ & Hd & Hday & Hlt). rewrite !month_start_begin in *. unfold month_index.
  replace (tm_year (gmtime t) * 12 + tm_mon (gmtime t)) with (12 * tm_year (gmtime t) + tm_mon (gmtime t)) by lia.
  replace (12 * tm_year (gmtime t) + tm_mon (gmtime t) + 1) with (12 * tm_year (gmtime t) + (tm_mon (gmtime t) + 1)) by lia. lia.
Qed.
Lemma month_index_fields t :
  tm_mon (gmtime t) = month_index t mod 12 ∧ tm_year (gmtime t) = month_index t / 12 ∧
  tm_mday (gmtime t) = day_of t - month_begin (month_index t) + 1.
Proof.
  pose proof (gmtime_spec t) as (_ & _ & _ & Hm & _ & Hd & Hday & Hlt). rewrite month_start_begin in Hday. unfold month_index.
  replace (12 * tm_year (gmtime t) + tm_mon (gmtime t)) with (tm_year (gmtime t) * 12 + tm_mon (gmtime t)) in Hday by lia. lia.
Qed.
Lemma month_index_unique t q : month_begin q ≤ day_of t < month_begin (q + 1) → month_index t = q.
Proof.
  intros H. pose proof (month_index_spec t). destruct (Z.lt_trichotomy (month_index t) q) as [Hl|[?|Hl]]; [|done|].
  - pose proof (month_begin_mono (month_index t + 1) q). lia.
  - pose proof (month_begin_mono (q + 1) (month_index t)). lia.
Qed.
Lemma month_index_mono t u : t ≤ u → month_index t ≤ month_index u.
Proof.
  intros H. pose proof (month_index_spec t). pose proof (month_index_spec u). assert (day_of t ≤ day_of u) by (unfold day_of; lia).
  destruct (Z.le_gt_cases (month_index t) (month_index u)); [done|]. pose proof (month_begin_mono (month_index u + 1) (month_index t)). lia.
Qed.
Lemma month_index_ge t q : month_begin q ≤ day_of t → q ≤ month_index t.
Proof.
  intros H. pose proof (month_index_spec t). destruct (Z.le_gt_cases q (month_index t)); [done|].
  pose proof (month_begin_mono (month_index t + 1) q). lia.
Qed.
Lemma month_index_day t u : day_of t = day_of u → month_index t = month_index u.
Proof. intros H. apply month_index_unique. rewrite H. apply month_index_spec. Qed.
Lemma mday_day t u : day_of t = day_of u → tm_mday (gmtime t) = tm_mday (gmtime u).
Proof. intros H. rewrite (proj2 (proj2 (month_index_fields t))), (proj2 (proj2 (month_index_fields u))), H. by rewrite (month_index_day t u H). Qed.
Lemma wday_day t : tm_wday (gmtime t) = (day_of t + 4) mod 7.
Proof. done. Qed.
(** A December day, or the January day a month later. *)
Lemma month_begin_31 y k : k = 11 ∨ k = 12 → month_begin (12 * y + k + 1) = month_begin (12 * y + k) + 31.
Proof.
  intros [-> | ->].
  - replace (12 * y + 11 + 1) with (12 * (y + 1) + 0) by lia. rewrite <-!month_start_begin, !month_start_small by lia.
    replace (y + 1 + 1900) with (y + 1900 + 1) by lia. rewrite days_before_year_step.
    change (days_before_month _ 0) with 0. change (days_before_month (leap_day (y + 1900)) 11) with (334 + leap_day (y + 1900)). lia.
  - replace (12 * y + 12 + 1) with (12 * (y + 1) + 1) by lia. replace (12 * y + 12) with (12 * (y + 1) + 0) by lia.
    rewrite <-!month_start_begin, !month_start_small by lia. change (days_before_month _ 0) with 0. change (days_before_month _ 1) with 31. lia.
Qed.
Lemma month_begin_december y : month_begin (12 * y + 11) ≤ month_begin (12 * y) + 335.
Proof.
  pose proof (month_start_begin y 0) as H0. rewrite Z.add_0_r in H0. rewrite <-H0, <-month_start_begin, !month_start_small by lia.
  change (days_before_month _ 0) with 0. change (days_before_month (leap_day (y + 1900)) 11) with (334 + leap_day (y + 1900)).
  pose proof (leap_day_bound (y + 1900)). lia.
Qed.
