(* ===== verification/Cron.v ===== *)
(** * Cron expressions ([cron/croncpp.hpp])

    Field values are [uint8_t]: arithmetic on them is modulo 256. Bitsets are
    finite sets of positions. [std::istringstream]/[getline] and [std::stoul]
    are the standard library's. *)
From S2P Require Import Prelude Text Numbers.
Set Default Proof Using "Type*".
#[local] Open Scope Z_scope.

Inductive cron_error := bad_cronexpr (what : bytes) | loop_bound.
#[export] Instance cron_error_eq_dec : EqDecision cron_error.
Proof. solve_decision. Defined.
Abbreviation result := (outcome cron_error).
Definition bad {A} (what : string) : result A := Throw (bad_cronexpr (str what)).

Definition u8 (z : Z) : Z := z mod 256.

(** ** [utils] *)
(** [getline] until it fails: a last empty piece is not a line. *)
Definition split (text : bytes) (delimiter : ascii) : list bytes :=
  let ps := split_on delimiter (c_str text) in
  if bool_decide (last ps = Some []) then take (length ps - 1) ps else ps.
Definition contains (text : bytes) (ch : ascii) : bool := bool_decide (ch ∈ text).
Definition to_upper (text : bytes) : bytes := toupper <$> text.

(** [std::stoul] (base 10): blanks, a sign (a minus negates modulo [2^64]),
    digits; what follows them is ignored. [None]: it throws. *)
Fixpoint take_while (p : ascii → bool) (s : bytes) : bytes :=
  match s with c :: s => if p c then c :: take_while p s else [] | [] => [] end.
Definition stoul (text : bytes) : option Z :=
  let s := drop_while isspace (c_str text) in
  let '(neg, s) := match s with
                   | c :: s' => if bool_decide (c = "-"%char) then (true, s')
                                else if bool_decide (c = "+"%char) then (false, s') else (false, s)
                   | [] => (false, s)
                   end in
  let digits := take_while isdigit s in
  let v := Z.of_N (value_base 10 digits) in
  if bool_decide (digits = []) || (size_max <? v) then None
  else Some (if neg then u64 (- v) else v).

(** ** [detail]: the fields of an expression *)
Definition to_cron_int (text : bytes) : result Z :=
  match stoul text with Some v => Ret (u8 v) | None => bad "stoul" end.
(** The first occurrence of each name becomes its number, in order. *)
Fixpoint replace_ordinals_from (i : N) (text : bytes) (replacement : list bytes) : bytes :=
  match replacement with
  | [] => text
  | r :: replacement =>
      let text := match find_str r text 0 with
                  | Some pos => take pos text ++ to_dec i ++ drop (pos + 3) text
                  | None => text
                  end in
      replace_ordinals_from (i + 1) text replacement
  end.
Definition replace_ordinals (text : bytes) (replacement : list bytes) : bytes := replace_ordinals_from 0 text replacement.

Definition make_range (field : bytes) (minval maxval : Z) : result (Z * Z) :=
  range ← (if bool_decide (field = str "*") then Ret (minval, maxval)
           else if negb (contains field "-"%char) then first ← to_cron_int field; Ret (first, first)
           else match split field "-"%char with
                | [a; b] => first ← to_cron_int a; last ← to_cron_int b; Ret (first, last)
                | _ => bad "Specified range requires two fields"
                end);
  let '(first, last) := range in
  if (maxval <? first) || (maxval <? last) then bad "Specified range exceeds maximum"
  else if (first <? minval) || (last <? minval) then bad "Specified range is less than minimum"
  else if last <? first then bad "Specified range start exceeds range end"
  else Ret (first, last).

(** [for (cron_int i = ...; i <= last; i += delta) target.set(i)] *)
Fixpoint fill (fuel : nat) (i last delta : Z) (target : gset Z) : result (gset Z) :=
  if i <=? last then
    match fuel with
    | O => Throw loop_bound
    | S fuel => fill fuel (u8 (i + delta)) last delta ({[i]} ∪ target)
    end
  else Ret target.
(** The values of an 8-bit counter. *)
Definition fill_fuel : nat := 256.

Definition set_one_field (minval maxval : Z) (target : gset Z) (field : bytes) : result (gset Z) :=
  if negb (contains field "/"%char) then
    range ← make_range field minval maxval;
    fill fill_fuel (u8 (range.1 - minval)) (range.2 - minval) 1 target
  else match split field "/"%char with
  | [base; step] =>
      range ← make_range base minval maxval;
      let last := if negb (contains base "-"%char) then maxval else range.2 in
      delta ← to_cron_int step;
      if delta <=? 0 then bad "Incrementer must be a positive value"
      else fill fill_fuel (u8 (range.1 - minval)) (last - minval) delta target
  | _ => bad "Incrementer must have two fields"
  end.
Fixpoint set_fields (minval maxval : Z) (fields : list bytes) (target : gset Z) : result (gset Z) :=
  match fields with
  | [] => Ret target
  | f :: fields => target ← set_one_field minval maxval target f; set_fields minval maxval fields target
  end.
Definition set_cron_field (value : bytes) (minval maxval : Z) : result (gset Z) :=
  if bool_decide (last value = Some ","%char) then bad "Value cannot end with comma"
  else match split value ","%char with
  | [] => bad "Expression parsing error"
  | fields => set_fields minval maxval fields ∅
  end.

(** ** The traits and [make_cron] *)
Record cron_traits := mk_traits {
  CRON_MIN_SECONDS : Z; CRON_MAX_SECONDS : Z; CRON_MIN_MINUTES : Z; CRON_MAX_MINUTES : Z;
  CRON_MIN_HOURS : Z; CRON_MAX_HOURS : Z; CRON_MIN_DAYS_OF_WEEK : Z; CRON_MAX_DAYS_OF_WEEK : Z;
  CRON_MIN_DAYS_OF_MONTH : Z; CRON_MAX_DAYS_OF_MONTH : Z; CRON_MIN_MONTHS : Z; CRON_MAX_MONTHS : Z;
  DAYS : list bytes; MONTHS : list bytes }.
Definition day_names : list bytes := str <$> ["SUN"; "MON"; "TUE"; "WED"; "THU"; "FRI"; "SAT"]%string.
Definition month_names : list bytes :=
  str <$> ["JAN"; "FEB"; "MAR"; "APR"; "MAY"; "JUN"; "JUL"; "AUG"; "SEP"; "OCT"; "NOV"; "DEC"]%string.
Definition cron_standard_traits : cron_traits :=
  mk_traits 0 59 0 59 0 23 0 6 1 31 1 12 day_names (str "NIL" :: month_names).
Definition cron_oracle_traits : cron_traits :=
  mk_traits 0 59 0 59 0 23 1 7 1 31 0 11 (str "NIL" :: day_names) month_names.
Definition cron_quartz_traits : cron_traits :=
  mk_traits 0 59 0 59 0 23 1 7 1 31 1 12 (str "NIL" :: day_names) (str "NIL" :: month_names).

Definition question_to_star (value : bytes) : bytes := if bool_decide (value = str "?") then str "*" else value.
Record cronexpr := mk_cronexpr {
  ce_seconds : gset Z; ce_minutes : gset Z; ce_hours : gset Z;
  ce_days_of_week : gset Z; ce_days_of_month : gset Z; ce_months : gset Z; ce_expr : bytes }.
Section traits.
Context (T : cron_traits).
Definition set_cron_days_of_week (value : bytes) : result (gset Z) :=
  set_cron_field (question_to_star (replace_ordinals (to_upper value) (DAYS T))) (CRON_MIN_DAYS_OF_WEEK T) (CRON_MAX_DAYS_OF_WEEK T).
Definition set_cron_days_of_month (value : bytes) : result (gset Z) :=
  set_cron_field (question_to_star value) (CRON_MIN_DAYS_OF_MONTH T) (CRON_MAX_DAYS_OF_MONTH T).
Definition set_cron_month (value : bytes) : result (gset Z) :=
  set_cron_field (replace_ordinals (to_upper value) (MONTHS T)) (CRON_MIN_MONTHS T) (CRON_MAX_MONTHS T).
Definition make_cron_with (expr : bytes) : result cronexpr :=
  if bool_decide (expr = []) then bad "Invalid empty cron expression"
  else match filter (λ f, f ≠ []) (split expr SP) with
  | [sec; min; hour; mday; mon; wday] =>
      seconds ← set_cron_field sec (CRON_MIN_SECONDS T) (CRON_MAX_SECONDS T);
      minutes ← set_cron_field min (CRON_MIN_MINUTES T) (CRON_MAX_MINUTES T);
      hours ← set_cron_field hour (CRON_MIN_HOURS T) (CRON_MAX_HOURS T);
      days_of_week ← set_cron_days_of_week wday;
      days_of_month ← set_cron_days_of_month mday;
      months ← set_cron_month mon;
      Ret (mk_cronexpr seconds minutes hours days_of_week days_of_month months expr)
  | _ => bad "cron expression must have six fields"
  end.
End traits.
(** The default argument of the template, which the framework uses. *)
Definition make_cron : bytes → result cronexpr := make_cron_with cron_standard_traits.
