(* ===== verification/CronTheorems.v ===== *)
(** * Cron expressions: properties

    Every field ends with an answer and never sets a position outside its
    range ([set_cron_field_total]); the usual field syntax denotes what it says
    ([cron_field_spec]). *)
From S2P Require Import Prelude Text Numbers Cron.
Set Default Proof Using "Type*".
#[local] Open Scope Z_scope.

(** ** Texts *)
Lemma c_str_id s : NUL ∉ s → c_str s = s.
Proof. intros Hs. unfold c_str. rewrite (proj2 (find_char_None _ _) Hs). cbn [default from_option id]. by apply firstn_all2. Qed.
Fixpoint join_by (d : ascii) (ps : list bytes) : bytes :=
  match ps with [] => [] | [p] => p | p :: ps => p ++ d :: join_by d ps end.
Lemma split_on_join d ps : ps ≠ [] → Forall (λ p, d ∉ p) ps → split_on d (join_by d ps) = ps.
Proof.
  intros Hne Hf. induction Hf as [|p ps Hp Hf IH]; [done|]. destruct ps as [|q ps]; [by apply split_on_word|].
  cbn [join_by]. rewrite split_on_app by done. f_equal. by apply IH.
Qed.
Lemma elem_of_join d ps c : c ∈ join_by d ps → c = d ∨ ∃ p, p ∈ ps ∧ c ∈ p.
Proof.
  induction ps as [|p ps IH]; [by intros ?%not_elem_of_nil|]. destruct ps as [|q ps]; [intros ?; right; exists p; set_solver|].
  cbn [join_by]. rewrite elem_of_app, elem_of_cons. intros [?|[?|Hin]]; [right; exists p; set_solver|by left|].
  destruct (IH Hin) as [?|(x & ? & ?)]; [by left|]. right. exists x. set_solver.
Qed.
Lemma split_join d ps :
  ps ≠ [] → d ≠ NUL → Forall (λ p, d ∉ p ∧ NUL ∉ p ∧ p ≠ []) ps → split (join_by d ps) d = ps.
Proof.
  intros Hne Hd Hf. unfold split. rewrite c_str_id.
  2:{ intros [?|(p & Hp & Hn)]%elem_of_join; [congruence|]. rewrite Forall_forall in Hf. by destruct (Hf p Hp) as (_ & ? & _). }
  rewrite split_on_join; [|done|eapply Forall_impl; [exact Hf|naive_solver]].
  rewrite bool_decide_eq_false_2; [done|]. intros Hl. rewrite Forall_forall in Hf.
  destruct (Hf []) as (_ & _ & ?); [|done]. by apply last_Some_elem_of.
Qed.
Lemma digit_not c x : isdigit c = true → isdigit x = false → c ≠ x.
Proof. intros ? ? ->. congruence. Qed.
Lemma digits_avoid x n : isdigit x = false → x ∉ to_dec n.
Proof. intros Hx Hin. pose proof (to_dec_digits n) as Hd. rewrite Forall_forall in Hd. specialize (Hd x Hin). congruence. Qed.
Lemma digit_not_space c : isdigit c = true → isspace c = false.
Proof.
  intros Hc. pose proof (forall_bytes (λ c, negb (isdigit c && isspace c)) ltac:(by vm_compute) c) as Hb.
  cbn in Hb. rewrite Hc in Hb. by destruct (isspace c).
Qed.
Lemma take_while_all p s : Forall (λ c, p c = true) s → take_while p s = s.
Proof. induction 1 as [|c s Hc _ IH]; [done|]. cbn. by rewrite Hc, IH. Qed.
Lemma stoul_dec n : 0 ≤ n ≤ size_max → stoul (to_dec (Z.to_N n)) = Some n.
Proof.
  intros Hn. unfold stoul. rewrite c_str_id by (by apply digits_avoid).
  pose proof (to_dec_digits (Z.to_N n)) as Hd. pose proof (to_dec_nonempty (Z.to_N n)) as Hne.
  pose proof (to_dec_value (Z.to_N n)) as Hv.
  destruct (to_dec (Z.to_N n)) as [|c s]; [done|]. inversion Hd as [|? ? Hc Hs]; subst.
  rewrite drop_while_id by (intros ? [= <-]; by apply digit_not_space).
  rewrite !bool_decide_eq_false_2 by (by apply digit_not). rewrite take_while_all, Hv, Z2N.id by (done || lia).
  rewrite bool_decide_eq_false_2 by done. cbn [orb]. destruct (Z.ltb_spec size_max n); [lia|done].
Qed.
Lemma to_cron_int_dec n : 0 ≤ n < 256 → to_cron_int (to_dec (Z.to_N n)) = Ret n.
Proof. intros Hn. unfold to_cron_int. rewrite stoul_dec by (unfold size_max; lia). unfold u8. by rewrite Z.mod_small. Qed.

(** ** The counter loop *)
Lemma fill_spec fuel i last delta target :
  0 ≤ i → 1 ≤ delta → last + delta ≤ 255 → last - i < Z.of_nat fuel * delta →
  ∃ target', fill fuel i last delta target = Ret target' ∧
    ∀ p, p ∈ target' ↔ p ∈ target ∨ (i ≤ p ≤ last ∧ (p - i) mod delta = 0).
Proof.
  revert i target. induction fuel as [|fuel IH]; intros i target Hi Hd Hw Hf; cbn [fill]; destruct (Z.leb_spec i last) as [Hle|Hgt].
  - lia.
  - exists target. split; [done|]. intros p. split; [tauto|]. intros [?|[? _]]; [done|lia].
  - assert (u8 (i + delta) = i + delta) as -> by (apply Z.mod_small; lia).
    destruct (IH (i + delta) ({[i]} ∪ target)) as (t' & -> & Ht'); [lia..|]. exists t'. split; [done|]. intros p.
    rewrite Ht', elem_of_union, elem_of_singleton. split.
    + intros [[->|?]|[? Hm]]; [right|by left|right].
      * rewrite Z.sub_diag. split; [lia|apply Z.mod_0_l; lia].
      * split; [lia|]. replace (p - i) with (p - (i + delta) + 1 * delta) by lia. by rewrite Z.mod_add by lia.
    + intros [?|[? Hm]]; [by left; right|]. destruct (decide (p = i)) as [->|]; [by left; left|]. right.
      assert (delta ≤ p - i) by (apply Z.divide_pos_le; [lia|]; by apply Z.mod_divide; [lia|]).
      split; [lia|]. replace (p - (i + delta)) with (p - i + (-1) * delta) by lia. by rewrite Z.mod_add by lia.
  - exists target. split; [done|]. intros p. split; [tauto|]. intros [?|[? _]]; [done|lia].
Qed.

(** With any increment the 8-bit counter leaves a range of at most 60 positions. *)
Fixpoint leaves (fuel : nat) (i last delta : Z) : bool :=
  if i <=? last then match fuel with O => false | S fuel => leaves fuel (u8 (i + delta)) last delta end else true.
Lemma leaves_mono fuel i last last' delta : last ≤ last' → leaves fuel i last' delta = true → leaves fuel i last delta = true.
Proof.
  intros Hl. revert i. induction fuel as [|fuel IH]; intros i; cbn [leaves];
    destruct (Z.leb_spec i last'), (Z.leb_spec i last); try done; try lia. apply IH.
Qed.
Definition all_leave : bool :=
  forallb (λ i, forallb (λ d, leaves fill_fuel (Z.of_nat i) 59 (Z.of_nat d)) (seq 1 255)) (seq 0 256).
Lemma all_leave_true : all_leave = true.
Proof. by vm_compute. Qed.
#[local] Opaque leaves.
Lemma leaves_59 i last delta : 0 ≤ i ≤ 255 → last ≤ 59 → 1 ≤ delta ≤ 255 → leaves fill_fuel i last delta = true.
Proof.
  intros Hi Hl Hd. apply (leaves_mono _ _ _ 59); [done|]. pose proof all_leave_true as Hall.
  unfold all_leave in Hall. rewrite forallb_forall in Hall. specialize (Hall (Z.to_nat i)).
  rewrite forallb_forall in Hall. specialize (Hall ltac:(apply in_seq; lia) (Z.to_nat delta) ltac:(apply in_seq; lia)).
  by rewrite !Z2Nat.id in Hall by lia.
Qed.
#[local] Transparent leaves.
Lemma fill_leaves fuel i last delta target m :
  leaves fuel i last delta = true → 0 ≤ i → last ≤ m → (∀ p, p ∈ target → 0 ≤ p ≤ m) →
  ∃ target', fill fuel i last delta target = Ret target' ∧ ∀ p, p ∈ target' → 0 ≤ p ≤ m.
Proof.
  revert i target. induction fuel as [|fuel IH]; intros i target; cbn [fill leaves]; destruct (Z.leb_spec i last); intros Hl Hi Hm Ht.
  - done.
  - by exists target.
  - apply IH; [done|apply Z.mod_pos_bound; lia|done|]. intros p. rewrite elem_of_union, elem_of_singleton. intros [->|?]; [lia|auto].
  - by exists target.
Qed.

(** A field that is accepted allows some value. *)
Lemma fill_nonempty last delta t : ∀ fuel i target,
  fill fuel i last delta target = Ret t → i ≤ last ∨ (∃ x, x ∈ target) → ∃ x, x ∈ t.
Proof.
  induction fuel as [|fuel IH]; intros i target; cbn [fill]; destruct (Z.leb_spec i last); try done.
  - by intros [= ->] [?|?]; [lia|].
  - intros Hf _. apply (IH _ _ Hf). right. exists i. set_solver.
  - by intros [= ->] [?|?]; [lia|].
Qed.

(** ** Every field *)
Section range.
Context (minval maxval : Z) (Hmin : 0 ≤ minval ≤ maxval) (Hmax : maxval ≤ 255).
Lemma to_cron_int_not_loop text : to_cron_int text ≠ Throw loop_bound.
Proof using Type. unfold to_cron_int. by destruct (stoul text). Qed.
Lemma to_cron_int_u8 text v : to_cron_int text = Ret v → 0 ≤ v ≤ 255.
Proof using Type.
  unfold to_cron_int. destruct (stoul text) as [z|]; [|done]. intros [= <-]. unfold u8. pose proof (Z.mod_pos_bound z 256). lia.
Qed.
Lemma make_range_bounds field r :
  make_range field minval maxval = r →
  r ≠ Throw loop_bound ∧ ∀ a b, r = Ret (a, b) → minval ≤ a ≤ b ∧ b ≤ maxval.
Proof using Type.
  intros <-. unfold make_range. destruct (if bool_decide (field = str "*") then _ else _) as [[a b]|e] eqn:Hr; cbn [mbind outcome_bind].
  - destruct (Z.ltb_spec maxval a), (Z.ltb_spec maxval b), (Z.ltb_spec a minval), (Z.ltb_spec b minval), (Z.ltb_spec b a);
      cbn [orb]; try (by split); (split; [done|]); intros ? ? [= <- <-]; lia.
  - split; [|done]. intros [= ->]. case_bool_decide; [done|]. destruct (negb _).
    + destruct (to_cron_int field) eqn:He; [done|]. injection Hr as ->. by apply to_cron_int_not_loop in He.
    + destruct (split field _) as [|x [|y [|]]]; try done.
      destruct (to_cron_int x) eqn:Hx; cbn [mbind outcome_bind] in Hr.
      * destruct (to_cron_int y) eqn:Hy; [done|]. injection Hr as ->. by apply to_cron_int_not_loop in Hy.
      * injection Hr as ->. by apply to_cron_int_not_loop in Hx.
Qed.

Context (Hwidth : maxval - minval ≤ 59).
Definition in_field (target : gset Z) : Prop := ∀ p, p ∈ target → 0 ≤ p ≤ maxval - minval.
Definition ends_in_field (r : result (gset Z)) : Prop := r ≠ Throw loop_bound ∧ ∀ target, r = Ret target → in_field target.
Lemma ends_throw {A} e : (Throw e : result A) ≠ Throw loop_bound → ends_in_field (Throw e).
Proof using Type. intros Hn. split; [|done]. intros [= ->]. by apply Hn. Qed.
Lemma fill_ends i last delta target :
  0 ≤ i → last ≤ maxval - minval → 1 ≤ delta ≤ 255 → in_field target → ends_in_field (fill fill_fuel (u8 i) last delta target).
Proof using Hwidth.
  intros Hi Hl Hd Ht. destruct (fill_leaves fill_fuel (u8 i) last delta target (maxval - minval)) as (t' & -> & Hb).
  - apply leaves_59; [unfold u8; pose proof (Z.mod_pos_bound i 256); lia|lia|done].
  - unfold u8. pose proof (Z.mod_pos_bound i 256). lia.
  - done.
  - done.
  - split; [done|]. by intros ? [= <-].
Qed.
Lemma set_one_field_ends target field : in_field target → ends_in_field (set_one_field minval maxval target field).
Proof using Hwidth.
  intros Ht. unfold set_one_field. destruct (negb (contains field "/"%char)).
  - destruct (make_range field minval maxval) as [[a b]|e] eqn:Hr; pose proof (make_range_bounds _ _ Hr) as [Hnl Hb]; cbn [mbind outcome_bind fst snd].
    + destruct (Hb a b eq_refl). apply fill_ends; done || lia.
    + by apply (ends_throw (A := Z * Z)).
  - destruct (split field _) as [|base [|step [|]]]; try (by split).
    destruct (make_range base minval maxval) as [[a b]|e] eqn:Hr; pose proof (make_range_bounds _ _ Hr) as [Hnl Hb]; cbn [mbind outcome_bind fst snd].
    2:{ by apply (ends_throw (A := Z * Z)). }
    destruct (Hb a b eq_refl). destruct (to_cron_int step) as [d|e] eqn:Hs; cbn [mbind outcome_bind].
    + pose proof (to_cron_int_u8 _ _ Hs). destruct (Z.leb_spec d 0); [by split|]. apply fill_ends; try done; try lia. destruct (negb _); lia.
    + split; [|done]. intros [= ->]. by apply to_cron_int_not_loop in Hs.
Qed.
Lemma set_fields_ends fields target : in_field target → ends_in_field (set_fields minval maxval fields target).
Proof using Hwidth.
  revert target. induction fields as [|f fields IH]; intros target Ht; cbn [set_fields]; [split; [done|by intros ? [= <-]]|].
  destruct (set_one_field_ends target f Ht) as [Hn Hr]. destruct (set_one_field _ _ _ _) as [t|e]; cbn [mbind outcome_bind]; [by apply IH, Hr|by split].
Qed.
Lemma set_cron_field_total value : ends_in_field (set_cron_field value minval maxval).
Proof using Hwidth.
  unfold set_cron_field. case_bool_decide; [by split|]. destruct (split value _) as [|f fields]; [by split|].
  apply set_fields_ends. by intros p ?%elem_of_empty.
Qed.
Lemma set_one_field_nonempty target field t : set_one_field minval maxval target field = Ret t → ∃ x, x ∈ t.
Proof using Hmin Hmax Hwidth.
  unfold set_one_field. assert (∀ z, 0 ≤ z ≤ 255 → u8 z = z) as Hu8 by (intros; apply Z.mod_small; lia). destruct (negb (contains field "/"%char)).
  - destruct (make_range field minval maxval) as [[a b]|e] eqn:Hr; cbn [mbind outcome_bind fst snd]; [|done].
    destruct (proj2 (make_range_bounds _ _ Hr) a b eq_refl). intros Hf. apply (fill_nonempty _ _ _ _ _ _ Hf). left. rewrite Hu8; lia.
  - destruct (split field _) as [|base [|step [|]]]; try done.
    destruct (make_range base minval maxval) as [[a b]|e] eqn:Hr; cbn [mbind outcome_bind fst snd]; [|done].
    destruct (proj2 (make_range_bounds _ _ Hr) a b eq_refl). destruct (to_cron_int step) as [d|e]; cbn [mbind outcome_bind]; [|done].
    destruct (d <=? 0); [done|]. intros Hf. apply (fill_nonempty _ _ _ _ _ _ Hf). left. rewrite Hu8 by lia. destruct (negb _); lia.
Qed.
Lemma set_cron_field_nonempty value t : set_cron_field value minval maxval = Ret t → ∃ x, x ∈ t.
Proof using Hmin Hmax Hwidth.
  assert (∀ fields target, fields ≠ [] ∨ (∃ x, x ∈ target) → set_fields minval maxval fields target = Ret t → ∃ x, x ∈ t) as Hfields.
  { induction fields as [|f fields IH]; intros target Ht; cbn [set_fields]; [intros [= <-]; by destruct Ht|].
    intros (t1 & H1 & H2)%bind_Ret_inv. apply (IH t1); [|done]. right. by eapply set_one_field_nonempty. }
  unfold set_cron_field. case_bool_decide; [done|]. destruct (split value _) as [|f fields]; [done|]. apply Hfields. by left.
Qed.
End range.

(** ** The syntax of a field *)
Inductive cron_base := Star | One (n : Z) | Range (a b : Z).
Inductive cron_item := Plain (b : cron_base) | Step (b : cron_base) (delta : Z).
Definition dec (n : Z) : bytes := to_dec (Z.to_N n).
Definition render_base (b : cron_base) : bytes :=
  match b with Star => str "*" | One n => dec n | Range a b => join_by "-"%char [dec a; dec b] end.
Definition render_item (i : cron_item) : bytes :=
  match i with Plain b => render_base b | Step b d => join_by "/"%char [render_base b; dec d] end.
Definition render_field (items : list cron_item) : bytes := join_by ","%char (render_item <$> items).

Section denotation.
Context (minval maxval : Z) (Hmin : 0 ≤ minval ≤ maxval) (Hmax : maxval ≤ 255).
Definition base_range (b : cron_base) : Z * Z :=
  match b with Star => (minval, maxval) | One n => (n, n) | Range a b => (a, b) end.
Definition base_ok (b : cron_base) : Prop := minval ≤ (base_range b).1 ≤ (base_range b).2 ∧ (base_range b).2 ≤ maxval.
(** [*/d] and [n/d] run to the maximum, [a-b/d] to [b]. *)
Definition step_last (b : cron_base) : Z := match b with Range _ b => b | _ => maxval end.
(** A step is at least one, and small enough for the 8-bit counter. *)
Definition item_ok (i : cron_item) : Prop :=
  match i with Plain b => base_ok b | Step b d => base_ok b ∧ 1 ≤ d ≤ 255 - (maxval - minval) end.
Definition denotes (i : cron_item) (v : Z) : Prop :=
  match i with
  | Plain b => (base_range b).1 ≤ v ≤ (base_range b).2
  | Step b d => (base_range b).1 ≤ v ≤ step_last b ∧ (v - (base_range b).1) mod d = 0
  end.

Lemma render_base_chars b c : c ∈ render_base b → isdigit c = true ∨ c = "*"%char ∨ c = "-"%char.
Proof using Type.
  assert (∀ n c, c ∈ dec n → isdigit c = true) as Hdec.
  { intros n x. pose proof (to_dec_digits (Z.to_N n)) as Hd. rewrite Forall_forall in Hd. apply Hd. }
  destruct b as [|n|x y]; cbn [render_base]; [| |intros [->|(p & Hp & Hc)]%elem_of_join].
  - change (str "*") with ["*"%char]. rewrite elem_of_list_singleton || (intros [->|?%not_elem_of_nil]%elem_of_cons; [|done]). auto.
  - intros ?%Hdec. auto.
  - auto.
  - left. repeat (apply elem_of_cons in Hp as [->|Hp]; [by eapply Hdec|]). by apply not_elem_of_nil in Hp.
Qed.
Lemma render_base_avoids b x : isdigit x = false → x ≠ "*"%char → x ≠ "-"%char → x ∉ render_base b.
Proof using Type. intros Hx Hs Hd Hin. destruct (render_base_chars b x Hin) as [?|[?|?]]; congruence. Qed.
Lemma dec_nonempty n : dec n ≠ [].
Proof using Type. apply to_dec_nonempty. Qed.
Lemma render_base_nonempty b : render_base b ≠ [].
Proof using Type.
  destruct b; cbn [render_base join_by]; [done|apply dec_nonempty|]. intros He. apply app_nil in He as [He _]. by apply dec_nonempty in He.
Qed.
Lemma dec_not_star n : dec n ≠ str "*".
Proof using Type. intros He. apply (digits_avoid "*"%char (Z.to_N n)); [done|]. unfold dec in He. rewrite He. by left. Qed.
Lemma contains_false text c : c ∉ text → contains text c = false.
Proof using Type. intros ?. unfold contains. by apply bool_decide_eq_false_2. Qed.
Lemma contains_true text c : c ∈ text → contains text c = true.
Proof using Type. intros ?. unfold contains. by apply bool_decide_eq_true_2. Qed.
Lemma split_two d a b : d ≠ NUL → d ∉ a → d ∉ b → NUL ∉ a → NUL ∉ b → a ≠ [] → b ≠ [] → split (join_by d [a; b]) d = [a; b].
Proof using Type. intros. apply split_join; [done|done|]. by repeat constructor. Qed.

Lemma make_range_render b : base_ok b → make_range (render_base b) minval maxval = Ret (base_range b).
Proof using Hmin Hmax.
  unfold base_ok. destruct b as [|n|x y]; cbn [base_range fst snd]; intros Hb; unfold make_range.
  - rewrite bool_decide_eq_true_2 by done. cbn [mbind outcome_bind].
    destruct (Z.ltb_spec maxval minval), (Z.ltb_spec maxval maxval), (Z.ltb_spec minval minval); try lia. done.
  - cbn [render_base]. rewrite bool_decide_eq_false_2 by apply dec_not_star.
    rewrite contains_false by (by apply digits_avoid). cbn [negb]. unfold dec. rewrite to_cron_int_dec by lia. cbn [mbind outcome_bind].
    destruct (Z.ltb_spec maxval n), (Z.ltb_spec n minval), (Z.ltb_spec n n); try lia. done.
  - cbn [render_base]. assert (contains (join_by "-"%char [dec x; dec y]) "-"%char = true) as Hdash by (apply contains_true; cbn; set_solver).
    rewrite bool_decide_eq_false_2.
    2:{ intros He. rewrite He in Hdash. by vm_compute in Hdash. }
    rewrite Hdash. cbn [negb].
    rewrite split_two by (apply dec_nonempty || (by apply digits_avoid) || (intros Hx; by vm_compute in Hx)).
    unfold dec. rewrite !to_cron_int_dec by lia. cbn [mbind outcome_bind].
    destruct (Z.ltb_spec maxval x), (Z.ltb_spec maxval y), (Z.ltb_spec x minval), (Z.ltb_spec y minval), (Z.ltb_spec y x); try lia. done.
Qed.

Context (Hwidth : maxval - minval ≤ 59).
Lemma contains_dash_render b : contains (render_base b) "-"%char = match b with Range _ _ => true | _ => false end.
Proof using Type.
  destruct b as [|n|x y]; cbn [render_base]; [done|by apply contains_false, digits_avoid|].
  apply contains_true. cbn. apply elem_of_app. right. by left.
Qed.
Lemma set_one_field_render i target :
  item_ok i → ∃ target', set_one_field minval maxval target (render_item i) = Ret target' ∧
    ∀ p, p ∈ target' ↔ p ∈ target ∨ denotes i (p + minval).
Proof using Hmin Hmax Hwidth.
  intros Hi. unfold set_one_field. destruct i as [b|b d]; cbn [render_item item_ok denotes] in *.
  - rewrite contains_false by (apply render_base_avoids; done). cbn [negb]. rewrite make_range_render by done. cbn [mbind outcome_bind].
    unfold base_ok in Hi. destruct (base_range b) as [lo hi]. cbn [fst snd] in *.
    unfold u8. rewrite Z.mod_small by lia.
    destruct (fill_spec fill_fuel (lo - minval) (hi - minval) 1 target) as (t' & -> & Ht'); [unfold fill_fuel; lia..|].
    exists t'. split; [done|]. intros p. rewrite Ht', Z.mod_1_r. split; (intros [?|?]; [by left|right; lia]).
  - destruct Hi as [Hb Hd]. rewrite contains_true by (cbn; set_solver). cbn [negb].
    assert (∀ c, c = "/"%char ∨ c = NUL → c ∉ render_base b ∧ c ∉ dec d) as Hav.
    { intros c [->| ->]; split; (apply render_base_avoids || apply digits_avoid); done. }
    rewrite split_two by (apply render_base_nonempty || apply dec_nonempty || (apply Hav; auto) || done).
    rewrite make_range_render by done. cbn [mbind outcome_bind]. rewrite contains_dash_render.
    unfold dec. rewrite to_cron_int_dec by lia. cbn [mbind outcome_bind]. destruct (Z.leb_spec d 0); [lia|].
    set (last := if negb _ then maxval else _). assert (last = step_last b) as -> by (by destruct b).
    assert (step_last b ≤ maxval) by (unfold base_ok in Hb; destruct b; cbn in *; lia).
    unfold base_ok in Hb. destruct (base_range b) as [lo hi]. cbn [fst snd] in *. unfold u8. rewrite Z.mod_small by lia.
    destruct (fill_spec fill_fuel (lo - minval) (step_last b - minval) d target) as (t' & -> & Ht'); [unfold fill_fuel; nia..|].
    exists t'. split; [done|]. intros p. rewrite Ht'. replace (p - (lo - minval)) with (p + minval - lo) by lia.
    split; (intros [?|[? ?]]; [by left|right; split; [lia|done]]).
Qed.
Lemma set_fields_render items target :
  Forall item_ok items → ∃ target', set_fields minval maxval (render_item <$> items) target = Ret target' ∧
    ∀ p, p ∈ target' ↔ p ∈ target ∨ Exists (λ i, denotes i (p + minval)) items.
Proof using Hmin Hmax Hwidth.
  intros Hf. revert target. induction Hf as [|i items Hi _ IH]; intros target; cbn [fmap list_fmap set_fields].
  { exists target. split; [done|]. intros p. rewrite Exists_nil. tauto. }
  destruct (set_one_field_render i target Hi) as (t1 & -> & Ht1). cbn [mbind outcome_bind].
  destruct (IH t1) as (t2 & -> & Ht2). exists t2. split; [done|]. intros p. rewrite Ht2, Ht1, Exists_cons. tauto.
Qed.
Lemma render_item_chars i c : c ∈ render_item i → isdigit c = true ∨ c = "*"%char ∨ c = "-"%char ∨ c = "/"%char.
Proof using Hmin.
  destruct i as [b|b d]; cbn [render_item]; [intros ?%render_base_chars; tauto|].
  intros [->|(p & Hp & Hc)]%elem_of_join; [auto|]. apply elem_of_cons in Hp as [->|Hp]; [apply render_base_chars in Hc; tauto|].
  apply elem_of_cons in Hp as [->|Hp]; [|by apply not_elem_of_nil in Hp]. left.
  pose proof (to_dec_digits (Z.to_N d)) as Hd. rewrite Forall_forall in Hd. by apply Hd.
Qed.
Lemma render_item_pieces items : Forall (λ p, ","%char ∉ p ∧ NUL ∉ p ∧ p ≠ []) (render_item <$> items).
Proof using Hmin.
  apply Forall_fmap, Forall_forall. intros i _. cbn. split_and!.
  - intros [?|[?|[?|?]]]%render_item_chars; discriminate.
  - intros [?|[?|[?|?]]]%render_item_chars; discriminate.
  - destruct i as [b|b d]; cbn; [apply render_base_nonempty|]. intros [He _]%app_nil. by apply render_base_nonempty in He.
Qed.
Lemma last_join_by d ps p : last ps = Some p → p ≠ [] → last (join_by d ps) = last p.
Proof using Type.
  intros Hl Hp. induction ps as [|q ps IH]; [done|]. destruct ps as [|q' ps]; [by injection Hl as ->|].
  change (join_by d (q :: q' :: ps)) with (q ++ d :: join_by d (q' :: ps)). rewrite last_app, last_cons, IH by done. destruct (last p) eqn:Hlp; [done|]. by apply last_None in Hlp.
Qed.
Lemma set_cron_field_render items :
  items ≠ [] → Forall item_ok items →
  ∃ target, set_cron_field (render_field items) minval maxval = Ret target ∧
    ∀ v, v - minval ∈ target ↔ Exists (λ i, denotes i v) items.
Proof using Hmin Hmax Hwidth.
  intros Hne Hok. unfold set_cron_field, render_field. pose proof (render_item_pieces items) as Hp.
  rewrite bool_decide_eq_false_2.
  2:{ intros Hl. assert (∃ p, last (render_item <$> items) = Some p) as [p Hlp].
      { destruct (last (render_item <$> items)) eqn:He; [by eexists|]. apply last_None, fmap_nil_inv in He. done. }
      rewrite Forall_forall in Hp. destruct (Hp p) as (Hc & _ & Hnil); [by apply last_Some_elem_of|].
      rewrite (last_join_by _ _ p) in Hl by done. apply Hc. by apply last_Some_elem_of. }
  rewrite split_join by (done || (intros ?%fmap_nil_inv; done) || done).
  destruct (set_fields_render items ∅ Hok) as (t & Ht & Hmem).
  destruct (render_item <$> items) as [|f fs] eqn:He; [by apply fmap_nil_inv in He|].
  exists t. split; [done|]. intros v. rewrite Hmem, Z.sub_add. set_solver.
Qed.
End denotation.

(** ** Expressions *)
Section expression.
Definition is_field_char (c : ascii) : bool := isdigit c || bool_decide (c ∈ [","%char; "*"%char; "-"%char; "/"%char]).
Lemma render_field_chars minval maxval items c :
  0 ≤ minval ≤ maxval → c ∈ render_field items → is_field_char c = true.
Proof.
  intros Hmin Hc. unfold is_field_char. apply orb_true_iff. rewrite bool_decide_eq_true.
  apply elem_of_join in Hc as [->|(p & (i & -> & _)%list_elem_of_fmap & Hc)]; [right; set_solver|].
  apply (render_item_chars minval maxval Hmin) in Hc as [?|[->|[->| ->]]]; [by left|right; set_solver..].
Qed.
Lemma to_upper_field text : Forall (λ c, is_field_char c = true) text → to_upper text = text.
Proof.
  induction 1 as [|c text Hc _ IH]; [done|]. unfold to_upper in *. cbn. rewrite IH. f_equal.
  pose proof (forall_bytes (λ c, negb (is_field_char c) || bool_decide (toupper c = c)) ltac:(by vm_compute) c) as Hb.
  cbn in Hb. rewrite Hc in Hb. by apply bool_decide_eq_true in Hb.
Qed.
(** A name is not found in a text without letters. *)
Lemma replace_ordinals_field names i text :
  Forall (λ r, ∃ c q, r = c :: q ∧ is_field_char c = false) names → Forall (λ c, is_field_char c = true) text →
  replace_ordinals_from i text names = text.
Proof.
  intros Hn Ht. revert i. induction Hn as [|r names (c & q & -> & Hc) _ IH]; intros i; [done|]. cbn [replace_ordinals_from].
  rewrite find_str_0, find_str_aux_absent; [apply IH|]. intros Hin. rewrite Forall_forall in Ht. specialize (Ht c Hin). congruence.
Qed.
Lemma names_ok : Forall (λ r, ∃ c q, r = c :: q ∧ is_field_char c = false) (DAYS cron_standard_traits ++ MONTHS cron_standard_traits).
Proof. repeat (apply Forall_cons; split; [eexists _, _; split; [reflexivity|by vm_compute]|]). by apply Forall_nil. Qed.
Lemma question_field text : Forall (λ c, is_field_char c = true) text → question_to_star text = text.
Proof.
  intros Ht. unfold question_to_star. rewrite bool_decide_eq_false_2; [done|]. intros ->.
  apply Forall_inv in Ht. by vm_compute in Ht.
Qed.
End expression.

(** The six fields, each with its range. *)
Record cron_syntax := mk_syntax {
  cs_second : list cron_item; cs_minute : list cron_item; cs_hour : list cron_item;
  cs_day : list cron_item; cs_month : list cron_item; cs_weekday : list cron_item }.
Definition field_ok (minval maxval : Z) (items : list cron_item) : Prop := items ≠ [] ∧ Forall (item_ok minval maxval) items.
Definition syntax_ok (s : cron_syntax) : Prop :=
  field_ok 0 59 (cs_second s) ∧ field_ok 0 59 (cs_minute s) ∧ field_ok 0 23 (cs_hour s) ∧
  field_ok 1 31 (cs_day s) ∧ field_ok 1 12 (cs_month s) ∧ field_ok 0 6 (cs_weekday s).
Definition render_cron (s : cron_syntax) : bytes :=
  join_by SP (render_field <$> [cs_second s; cs_minute s; cs_hour s; cs_day s; cs_month s; cs_weekday s]).
(** The values a field accepts. *)
Definition accepts (minval maxval : Z) (items : list cron_item) (set : gset Z) : Prop :=
  ∀ v, v - minval ∈ set ↔ Exists (λ i, denotes minval maxval i v) items.

Lemma field_text minval maxval items :
  0 ≤ minval ≤ maxval → field_ok minval maxval items →
  Forall (λ c, is_field_char c = true) (render_field items) ∧ render_field items ≠ [].
Proof.
  intros Hmin [Hne _]. split; [apply Forall_forall; intros c; by apply (render_field_chars minval maxval)|].
  destruct items as [|i [|j items]]; [done| |]; unfold render_field; cbn; pose proof (render_item_pieces minval maxval Hmin [i]) as Hp;
    apply Forall_inv in Hp as (_ & _ & Hp); [done|]. by intros [? _]%app_nil.
Qed.
Lemma field_parsed minval maxval items :
  0 ≤ minval ≤ maxval → maxval ≤ 59 → field_ok minval maxval items →
  ∃ set, set_cron_field (render_field items) minval maxval = Ret set ∧ accepts minval maxval items set.
Proof. intros ? ? [? ?]. apply set_cron_field_render; done || lia. Qed.

Lemma ends_bind {A} (P : gset Z → Prop) (r : result (gset Z)) (k : gset Z → result A) (Q : A → Prop) :
  (r ≠ Throw loop_bound ∧ ∀ t, r = Ret t → P t) →
  (∀ t, P t → k t ≠ Throw loop_bound ∧ ∀ e, k t = Ret e → Q e) →
  (r ≫= k) ≠ Throw loop_bound ∧ ∀ e, (r ≫= k) = Ret e → Q e.
Proof.
  intros [Hn Hp] Hk. destruct r as [t|e]; cbn [mbind outcome_bind]; [by apply Hk, Hp|].
  split; [|done]. intros [= ->]. by apply Hn.
Qed.
Ltac standard_traits :=
  cbn [cron_standard_traits CRON_MIN_SECONDS CRON_MAX_SECONDS CRON_MIN_MINUTES CRON_MAX_MINUTES CRON_MIN_HOURS CRON_MAX_HOURS
    CRON_MIN_DAYS_OF_WEEK CRON_MAX_DAYS_OF_WEEK CRON_MIN_DAYS_OF_MONTH CRON_MAX_DAYS_OF_MONTH CRON_MIN_MONTHS CRON_MAX_MONTHS DAYS MONTHS] in *.
Definition expr_in_range (e : cronexpr) : Prop :=
  in_field 0 59 (ce_seconds e) ∧ in_field 0 59 (ce_minutes e) ∧ in_field 0 23 (ce_hours e) ∧
  in_field 1 31 (ce_days_of_month e) ∧ in_field 1 12 (ce_months e) ∧ in_field 0 6 (ce_days_of_week e).
Lemma make_cron_total expr : make_cron expr ≠ Throw loop_bound ∧ ∀ e, make_cron expr = Ret e → expr_in_range e.
Proof.
  unfold make_cron, make_cron_with. case_bool_decide; [by split|].
  destruct (filter _ _) as [|f1 [|f2 [|f3 [|f4 [|f5 [|f6 [|]]]]]]]; try by split.
  eapply (ends_bind (in_field 0 59)); [apply set_cron_field_total; lia|]. intros t1 H1.
  eapply (ends_bind (in_field 0 59)); [apply set_cron_field_total; lia|]. intros t2 H2.
  eapply (ends_bind (in_field 0 23)); [apply set_cron_field_total; lia|]. intros t3 H3.
  eapply (ends_bind (in_field 0 6)); [apply set_cron_field_total; lia|]. intros t4 H4.
  eapply (ends_bind (in_field 1 31)); [apply set_cron_field_total; lia|]. intros t5 H5.
  eapply (ends_bind (in_field 1 12)); [apply set_cron_field_total; lia|]. intros t6 H6.
  split; [done|]. intros e [= <-]. by split_and!.
Qed.
Definition expr_nonempty (e : cronexpr) : Prop :=
  (∃ x, x ∈ ce_seconds e) ∧ (∃ x, x ∈ ce_minutes e) ∧ (∃ x, x ∈ ce_hours e) ∧
  (∃ x, x ∈ ce_days_of_month e) ∧ (∃ x, x ∈ ce_months e) ∧ (∃ x, x ∈ ce_days_of_week e).
Lemma make_cron_nonempty expr e : make_cron expr = Ret e → expr_nonempty e.
Proof.
  unfold make_cron, make_cron_with. case_bool_decide; [done|]. destruct (filter _ _) as [|f1 [|f2 [|f3 [|f4 [|f5 [|f6 [|]]]]]]]; try done.
  unfold set_cron_days_of_week, set_cron_days_of_month, set_cron_month. standard_traits.
  intros H0. apply bind_Ret_inv in H0 as (t1 & H1%set_cron_field_nonempty & H0); [|lia..].
  apply bind_Ret_inv in H0 as (t2 & H2%set_cron_field_nonempty & H0); [|lia..].
  apply bind_Ret_inv in H0 as (t3 & H3%set_cron_field_nonempty & H0); [|lia..].
  apply bind_Ret_inv in H0 as (t4 & H4%set_cron_field_nonempty & H0); [|lia..].
  apply bind_Ret_inv in H0 as (t5 & H5%set_cron_field_nonempty & H0); [|lia..].
  apply bind_Ret_inv in H0 as (t6 & H6%set_cron_field_nonempty & H0); [|lia..].
  injection H0 as <-. by split_and!.
Qed.
Lemma split_render_cron s : syntax_ok s → split (render_cron s) SP =
  render_field <$> [cs_second s; cs_minute s; cs_hour s; cs_day s; cs_month s; cs_weekday s].
Proof.
  intros (H1 & H2 & H3 & H4 & H5 & H6). apply split_join; [done|done|].
  assert (∀ lo hi items, 0 ≤ lo ≤ hi → field_ok lo hi items →
    SP ∉ render_field items ∧ NUL ∉ render_field items ∧ render_field items ≠ []) as Hf.
  { intros lo hi items Hr Ho. destruct (field_text lo hi items Hr Ho) as [Hc ?]. rewrite Forall_forall in Hc.
    split_and!; [intros Hx%Hc; by vm_compute in Hx..|done]. }
  cbn [fmap list_fmap]. repeat (apply Forall_cons; split; [by eapply Hf; [|eassumption]|]). by apply Forall_nil.
Qed.

(** C37: parsing ends for every text (the 8-bit loop counter always leaves its
    range, whatever the increment), and the fields of a result hold values of
    their ranges only (a number is cut to 8 bits before it is tested and the
    counter may wrap, so this is no promise that the text named only such values:
    [cron_value_truncated], [cron_step_wraps]). An expression written with stars, numbers, ranges, steps and lists
    within the ranges is accepted, and each field of the result holds exactly
    the values its items denote ([a-b/d]: from [a] to [b] by [d]; [*]/d and
    [n]/d run to the maximum). *)
Theorem make_cron_spec :
  (∀ expr, make_cron expr ≠ Throw loop_bound ∧ ∀ e, make_cron expr = Ret e → expr_in_range e) ∧
  (∀ s, syntax_ok s → ∃ e, make_cron (render_cron s) = Ret e ∧
     accepts 0 59 (cs_second s) (ce_seconds e) ∧ accepts 0 59 (cs_minute s) (ce_minutes e) ∧
     accepts 0 23 (cs_hour s) (ce_hours e) ∧ accepts 1 31 (cs_day s) (ce_days_of_month e) ∧
     accepts 1 12 (cs_month s) (ce_months e) ∧ accepts 0 6 (cs_weekday s) (ce_days_of_week e)).
Proof.
  split; [apply make_cron_total|]. intros s Hs. pose proof Hs as (H1 & H2 & H3 & H4 & H5 & H6).
  unfold make_cron, make_cron_with. rewrite split_render_cron by done.
  pose proof (field_text 0 59 _ ltac:(lia) H1) as [_ N1]. pose proof (field_text 0 59 _ ltac:(lia) H2) as [_ N2].
  pose proof (field_text 0 23 _ ltac:(lia) H3) as [_ N3]. pose proof (field_text 1 31 _ ltac:(lia) H4) as [C4 N4].
  pose proof (field_text 1 12 _ ltac:(lia) H5) as [C5 N5]. pose proof (field_text 0 6 _ ltac:(lia) H6) as [C6 N6].
  rewrite bool_decide_eq_false_2.
  2:{ unfold render_cron. cbn [fmap list_fmap]. intros [? _]%app_nil. done. }
  cbn [fmap list_fmap]. rewrite !filter_cons_True, filter_nil by done.
  pose proof names_ok as [HD HM]%Forall_app. unfold set_cron_days_of_week, set_cron_days_of_month, set_cron_month, replace_ordinals. standard_traits.
  rewrite !to_upper_field, !replace_ordinals_field, !question_field by done.
  destruct (field_parsed 0 59 _ ltac:(lia) ltac:(lia) H1) as (t1 & -> & A1). destruct (field_parsed 0 59 _ ltac:(lia) ltac:(lia) H2) as (t2 & -> & A2).
  destruct (field_parsed 0 23 _ ltac:(lia) ltac:(lia) H3) as (t3 & -> & A3). destruct (field_parsed 1 31 _ ltac:(lia) ltac:(lia) H4) as (t4 & -> & A4).
  destruct (field_parsed 1 12 _ ltac:(lia) ltac:(lia) H5) as (t5 & -> & A5). destruct (field_parsed 0 6 _ ltac:(lia) ltac:(lia) H6) as (t6 & -> & A6).
  eexists. split; [reflexivity|]. by split_and!.
Qed.

(** Values are reduced to 8 bits before the range is tested, and an increment
    past the 8-bit limit wraps: both are accepted as something else. *)
Theorem cron_value_truncated : set_cron_field (str "300") 0 59 = set_cron_field (str "44") 0 59.
Proof. by vm_compute. Qed.
Theorem cron_step_wraps : set_cron_field (str "50/210") 0 59 = set_cron_field (str "50,4") 0 59.
Proof. by vm_compute. Qed.
(** Only the first occurrence of a name is replaced. *)
Theorem cron_second_name_rejected :
  set_cron_days_of_week cron_standard_traits (str "MON-WED") = set_cron_days_of_week cron_standard_traits (str "1-3") ∧
  set_cron_days_of_week cron_standard_traits (str "MON,MON") = bad "stoul".
Proof. split; by vm_compute. Qed.
