(* ===== verification/CronText.v ===== *)
(** * Cron expressions as text, and their comparison ([cron/croncpp.hpp])

    [to_string] prints the six bitsets, [to_cronstr] the text an expression was
    made from; the comparison looks at the sets only. *)
From S2P Require Import Prelude Text Numbers Cron CronTheorems.
Set Default Proof Using "Type*".
#[local] Open Scope Z_scope.

(** [std::bitset<N>::to_string]: the highest position first. *)
Definition bitset_to_string (size : nat) (b : gset Z) : bytes :=
  (λ i : nat, if decide (Z.of_nat i ∈ b) then "1"%char else "0"%char) <$> reverse (seq 0 size).
Definition to_string (cex : cronexpr) : bytes :=
  bitset_to_string 60 (ce_seconds cex) ++ [SP] ++ bitset_to_string 60 (ce_minutes cex) ++ [SP] ++
  bitset_to_string 24 (ce_hours cex) ++ [SP] ++ bitset_to_string 31 (ce_days_of_month cex) ++ [SP] ++
  bitset_to_string 12 (ce_months cex) ++ [SP] ++ bitset_to_string 7 (ce_days_of_week cex).
Definition to_cronstr (cex : cronexpr) : bytes := ce_expr cex.
Definition equal (e1 e2 : cronexpr) : bool :=
  bool_decide (ce_seconds e1 = ce_seconds e2) && bool_decide (ce_minutes e1 = ce_minutes e2) &&
  bool_decide (ce_hours e1 = ce_hours e2) && bool_decide (ce_days_of_week e1 = ce_days_of_week e2) &&
  bool_decide (ce_days_of_month e1 = ce_days_of_month e2) && bool_decide (ce_months e1 = ce_months e2).

Lemma bitset_length size b : length (bitset_to_string size b) = size.
Proof. unfold bitset_to_string. by rewrite length_fmap, length_reverse, length_seq. Qed.
Lemma bitset_to_string_inj size a b :
  (∀ i, i ∈ a → 0 ≤ i < Z.of_nat size) → (∀ i, i ∈ b → 0 ≤ i < Z.of_nat size) →
  bitset_to_string size a = bitset_to_string size b → a = b.
Proof.
  intros Ha Hb He. apply set_eq. intros i.
  assert (∀ n : nat, (n < size)%nat → (Z.of_nat n ∈ a ↔ Z.of_nat n ∈ b)) as Hn.
  { intros n Hlt. unfold bitset_to_string in He.
    assert (n ∈ reverse (seq 0 size)) as (k & Hk)%list_elem_of_lookup by (apply elem_of_reverse, elem_of_seq; lia).
    apply (f_equal (lookup k)) in He. rewrite !list_lookup_fmap, Hk in He. cbn in He. destruct (decide (_ ∈ a)), (decide (_ ∈ b)); done. }
  split; intros Hi; [pose proof (Ha _ Hi)|pose proof (Hb _ Hi)]; specialize (Hn (Z.to_nat i)); rewrite Z2Nat.id in Hn by lia; apply Hn; done || lia.
Qed.
(** Two expressions compare equal exactly when they print the same sets; the
    texts they were made from do not matter. *)
Theorem equal_iff_same_text s1 s2 e1 e2 :
  make_cron s1 = Ret e1 → make_cron s2 = Ret e2 → equal e1 e2 = true ↔ to_string e1 = to_string e2.
Proof.
  intros H1%make_cron_total H2%make_cron_total. destruct H1 as (A1 & A2 & A3 & A4 & A5 & A6), H2 as (B1 & B2 & B3 & B4 & B5 & B6).
  unfold equal, to_string. rewrite !andb_true_iff, !bool_decide_eq_true. split.
  { intros (((((-> & ->) & ->) & ->) & ->) & ->). done. }
  intros He. apply app_inj_1 in He as [E1 He]; [|by rewrite !bitset_length]. apply (f_equal tail) in He. cbn [app tail] in He.
  apply app_inj_1 in He as [E2 He]; [|by rewrite !bitset_length]. apply (f_equal tail) in He. cbn [app tail] in He.
  apply app_inj_1 in He as [E3 He]; [|by rewrite !bitset_length]. apply (f_equal tail) in He. cbn [app tail] in He.
  apply app_inj_1 in He as [E4 He]; [|by rewrite !bitset_length]. apply (f_equal tail) in He. cbn [app tail] in He.
  apply app_inj_1 in He as [E5 E6]; [|by rewrite !bitset_length]. apply (f_equal tail) in E6. cbn [app tail] in E6.
  split_and!; (eapply bitset_to_string_inj; [| |eassumption]); intros i Hi;
    first [apply A1 in Hi|apply A2 in Hi|apply A3 in Hi|apply A4 in Hi|apply A5 in Hi|apply A6 in Hi|apply B1 in Hi|apply B2 in Hi|apply B3 in Hi|apply B4 in Hi|apply B5 in Hi|apply B6 in Hi]; lia.
Qed.
Theorem texts_do_not_matter :
  ∃ e1 e2, make_cron (str "0 0 12 ? JAN MON") = Ret e1 ∧ make_cron (str "0  0 12 * 1 1") = Ret e2 ∧
    equal e1 e2 = true ∧ to_cronstr e1 ≠ to_cronstr e2.
Proof. eexists _, _. split; [by vm_compute|]. split; [by vm_compute|]. by vm_compute. Qed.


(** ** The three traits *)
Definition same_result (a b : result (gset Z)) : bool :=
  match a, b with Ret x, Ret y => bool_decide (x = y) | Throw x, Throw y => bool_decide (x = y) | _, _ => false end.
Lemma same_result_eq a b : same_result a b = true → a = b.
Proof. destruct a, b; cbn; try done; by intros ->%bool_decide_eq_true_1. Qed.
(** A field setter reads names, alone and as ranges, as another does. *)
Definition names_agree (f g : bytes → result (gset Z)) (names : list bytes) : bool :=
  forallb (λ a, same_result (f a) (g a) && forallb (λ b, same_result (f (a ++ str "-" ++ b)) (g (a ++ str "-" ++ b))) names) names.
Lemma names_agree_spec f g names a b :
  names_agree f g names = true → a ∈ names → b ∈ names → f a = g a ∧ f (a ++ str "-" ++ b) = g (a ++ str "-" ++ b).
Proof.
  intros Hn Ha%list_elem_of_In Hb%list_elem_of_In. apply (proj1 (forallb_forall _ _) Hn) in Ha. apply andb_prop in Ha as [Ha Hab].
  split; apply same_result_eq; [done|]. by apply (proj1 (forallb_forall _ _) Hab) in Hb.
Qed.
Definition traits_agree (T : cron_traits) : bool :=
  names_agree (set_cron_days_of_week T) (set_cron_days_of_week cron_standard_traits) day_names &&
  names_agree (set_cron_month T) (set_cron_month cron_standard_traits) month_names.
Lemma oracle_agrees : traits_agree cron_oracle_traits = true.
Proof. vm_compute. reflexivity. Qed.
Lemma quartz_agrees : traits_agree cron_quartz_traits = true.
Proof. vm_compute. reflexivity. Qed.
(** Day and month names mean the same positions under every traits; only numbers
    are read differently. *)
Theorem traits_agree_on_names T a b :
  T = cron_oracle_traits ∨ T = cron_quartz_traits →
  (a ∈ day_names → b ∈ day_names →
     set_cron_days_of_week T a = set_cron_days_of_week cron_standard_traits a ∧
     set_cron_days_of_week T (a ++ str "-" ++ b) = set_cron_days_of_week cron_standard_traits (a ++ str "-" ++ b)) ∧
  (a ∈ month_names → b ∈ month_names →
     set_cron_month T a = set_cron_month cron_standard_traits a ∧
     set_cron_month T (a ++ str "-" ++ b) = set_cron_month cron_standard_traits (a ++ str "-" ++ b)).
Proof.
  intros HT. assert (traits_agree T = true) as [Hd Hm]%andb_prop by (destruct HT as [-> | ->]; [apply oracle_agrees|apply quartz_agrees]).
  split; intros Ha Hb; [by apply (names_agree_spec _ _ _ _ _ Hd)|by apply (names_agree_spec _ _ _ _ _ Hm)].
Qed.
Theorem traits_differ_on_numbers :
  set_cron_days_of_week cron_quartz_traits (str "1") = set_cron_days_of_week cron_standard_traits (str "0") ∧
  set_cron_days_of_week cron_quartz_traits (str "0") = bad "Specified range is less than minimum".
Proof. split; by vm_compute. Qed.
