(* ===== verification/CronNext.v ===== *)
(** * The next date of a cron expression ([cron/croncpp.hpp], standard traits)

    The search moves a [std::tm] forward field by field and starts again after
    a change. Every change normalises the date with [mktime]. *)
From S2P Require Import Prelude Text Cron Calendar.
Set Default Proof Using "Type*".
#[local] Open Scope Z_scope.

Definition INVALID_TIME : Z := -1.
Definition tm_to_time (date : tm) : Z * tm := let t := timegm date in (t, gmtime t).
Definition time_to_tm (t : Z) : tm := gmtime t.

(** ** Fields *)
Inductive cron_field := second | minute | hour_of_day | day_of_week | day_of_month | month | year.
#[export] Instance cron_field_eq_dec : EqDecision cron_field.
Proof. solve_decision. Defined.

Definition get_field (date : tm) (field : cron_field) : Z :=
  match field with
  | second => tm_sec date | minute => tm_min date | hour_of_day => tm_hour date
  | day_of_week => tm_wday date | day_of_month => tm_mday date | month => tm_mon date | year => tm_year date
  end.
Definition with_field (date : tm) (field : cron_field) (v : Z) : tm :=
  match date with
  | mk_tm s m h d mo y w =>
      match field with
      | second => mk_tm v m h d mo y w | minute => mk_tm s v h d mo y w | hour_of_day => mk_tm s m v d mo y w
      | day_of_week => mk_tm s m h d mo y v | day_of_month => mk_tm s m h v mo y w | month => mk_tm s m h d v y w
      | year => mk_tm s m h d mo v w
      end
  end.
(** The end of each of the three functions: normalise, or throw. *)
Definition renormalize (date : tm) : result tm :=
  let '(t, date) := tm_to_time date in
  if t =? INVALID_TIME then bad "Invalid time expression" else Ret date.
(** A day of the week is moved by moving the day of the month. *)
Definition add_to_field (date : tm) (field : cron_field) (val : Z) : result tm :=
  let field := match field with day_of_week => day_of_month | _ => field end in
  renormalize (with_field date field (get_field date field + val)).
Definition set_field (date : tm) (field : cron_field) (val : Z) : result tm := renormalize (with_field date field val).
Definition reset_field (date : tm) (field : cron_field) : result tm :=
  renormalize (with_field date field (if decide (field = day_of_month) then 1 else 0)).

(** [std::bitset<7>] of fields, reset in the order of their positions. *)
Definition all_fields : list cron_field := [second; minute; hour_of_day; day_of_week; day_of_month; month; year].
Fixpoint reset_fields (fields : list cron_field) (date : tm) (marked_fields : list cron_field) : result tm :=
  match fields with
  | [] => Ret date
  | f :: fields =>
      date ← (if decide (f ∈ marked_fields) then reset_field date f else Ret date);
      reset_fields fields date marked_fields
  end.
Definition reset_all_fields (date : tm) (marked_fields : list cron_field) : result tm := reset_fields all_fields date marked_fields.
Definition mark_field (orders : list cron_field) (field : cron_field) : list cron_field :=
  if decide (field ∈ orders) then orders else orders ++ [field].

(** ** Searching one field *)
Fixpoint next_set_bit_from (n : nat) (target : gset Z) (i : Z) : option Z :=
  match n with
  | O => None
  | S n => if decide (i ∈ target) then Some i else next_set_bit_from n target (i + 1)
  end.
(** [None] is [INVALID_INDEX]; [size] is the template argument [N]. *)
Definition next_set_bit (size : Z) (target : gset Z) (offset : Z) : option Z :=
  next_set_bit_from (Z.to_nat (size - offset)) target offset.
(** [static_cast<int>(INVALID_INDEX)] is -1. *)
Definition find_next_field (size : Z) (target : gset Z) (date : tm) (value : Z) (field next_field : cron_field)
    (marked_fields : list cron_field) : result (option Z * tm) :=
  carried ← (match next_set_bit size target value with
             | Some v => Ret (Some v, date)
             | None =>
                 date ← add_to_field date next_field 1;
                 date ← reset_field date field;
                 Ret (next_set_bit size target 0, date)
             end);
  let '(next_value, date) := carried in
  if bool_decide (next_value = Some value) then Ret (next_value, date)
  else
    date ← set_field date field (default (-1) next_value);
    date ← reset_all_fields date marked_fields;
    Ret (next_value, date).
(** [count]: the iterations left, at first 366. *)
Definition find_next_day_maximum : nat := 366.
Fixpoint find_next_day (count : nat) (date : tm) (days_of_month : gset Z) (mday : Z) (days_of_week : gset Z) (wday : Z)
    (marked_fields : list cron_field) : result (Z * tm) :=
  if bool_decide (mday - 1 ∈ days_of_month) && bool_decide (wday ∈ days_of_week) then Ret (mday, date)
  else match count with
  | O => Ret (mday, date)
  | S count =>
      date ← add_to_field date day_of_month 1;
      let mday := tm_mday date in
      let wday := tm_wday date in
      date ← reset_all_fields date marked_fields;
      find_next_day count date days_of_month mday days_of_week wday marked_fields
  end.

(** ** Searching a date *)
(** An unchanged field is marked; after a change the search starts again. *)
Definition settle (again : tm → result (bool * tm)) (unchanged : bool) (field : cron_field) (marked_fields : list cron_field)
    (date : tm) (rest : list cron_field → tm → result (bool * tm)) : result (bool * tm) :=
  if unchanged then rest (mark_field marked_fields field) date
  else
    r ← again date;
    let '(res, date) := r in
    if res : bool then rest marked_fields date else Ret (false, date).
Definition CRON_MAX_YEARS_DIFF : Z := 4.
(** [date.tm_year - dot] is unsigned: a negative difference is huge. *)
Definition years_exceeded (date : tm) (dot : Z) : bool :=
  let diff := tm_year date - dot in (diff <? 0) || (CRON_MAX_YEARS_DIFF <? diff).
Section stages.
Context (again : tm → result (bool * tm)) (cex : cronexpr) (dot : Z).
Definition find_next_month_stage (marked_fields : list cron_field) (date : tm) : result (bool * tm) :=
  let value := tm_mon date in
  found ← find_next_field 12 (ce_months cex) date value month year marked_fields;
  let '(updated, date) := found in
  if bool_decide (updated = Some value) then Ret (true, date)
  else if years_exceeded date dot then Ret (false, date)
  else again date.
Definition find_next_day_stage (marked_fields : list cron_field) (date : tm) : result (bool * tm) :=
  let value := tm_mday date in
  found ← find_next_day find_next_day_maximum date (ce_days_of_month cex) value (ce_days_of_week cex) (tm_wday date) marked_fields;
  let '(updated, date) := found in
  settle again (bool_decide (updated = value)) day_of_month marked_fields date find_next_month_stage.
Definition find_next_hour_stage (marked_fields : list cron_field) (date : tm) : result (bool * tm) :=
  let value := tm_hour date in
  found ← find_next_field 24 (ce_hours cex) date value hour_of_day day_of_week marked_fields;
  let '(updated, date) := found in
  settle again (bool_decide (updated = Some value)) hour_of_day marked_fields date find_next_day_stage.
Definition find_next_minute_stage (marked_fields : list cron_field) (date : tm) : result (bool * tm) :=
  let value := tm_min date in
  found ← find_next_field 60 (ce_minutes cex) date value minute hour_of_day marked_fields;
  let '(updated, date) := found in
  settle again (bool_decide (updated = Some value)) minute marked_fields date find_next_hour_stage.
End stages.
(** [fuel] bounds the depth of the recursion. *)
Fixpoint find_next (fuel : nat) (cex : cronexpr) (date : tm) (dot : Z) : result (bool * tm) :=
  match fuel with
  | O => Throw loop_bound
  | S fuel =>
      let value := tm_sec date in
      found ← find_next_field 60 (ce_seconds cex) date value second minute [];
      let '(updated, date) := found in
      let marked_fields := if bool_decide (updated = Some value) then mark_field [] second else [] in
      find_next_minute_stage (λ date, find_next fuel cex date dot) cex dot marked_fields date
  end.
(** At most five years of months, and 31 restarts within one. *)
Definition find_fuel : nat := 2048.

Definition cron_next (cex : cronexpr) (t : Z) : result Z :=
  let '(original, dt) := tm_to_time (time_to_tm t) in
  if original =? INVALID_TIME then Ret INVALID_TIME
  else
    found ← find_next find_fuel cex dt (tm_year dt);
    let '(res, dt) := found in
    if negb res then Ret INVALID_TIME
    else
      let '(calculated, dt) := tm_to_time dt in
      if calculated =? INVALID_TIME then Ret calculated
      else if calculated =? original then
        dt ← add_to_field dt second 1;
        found ← find_next find_fuel cex dt (tm_year dt);
        let '(res, dt) := found in
        if negb res then Ret INVALID_TIME else Ret (tm_to_time dt).1
      else Ret (tm_to_time dt).1.
(** The overload on [std::tm]; [{}] is a zeroed date. *)
Definition zero_tm : tm := mk_tm 0 0 0 0 0 0 0.
Definition cron_next_tm (cex : cronexpr) (date : tm) : result tm :=
  let '(original, date) := tm_to_time date in
  if original =? INVALID_TIME then Ret zero_tm
  else
    found ← find_next find_fuel cex date (tm_year date);
    let '(res, date) := found in
    if negb res then Ret zero_tm
    else
      let '(calculated, date) := tm_to_time date in
      if calculated =? INVALID_TIME then Ret zero_tm
      else if calculated =? original then
        date ← add_to_field date second 1;
        found ← find_next find_fuel cex date (tm_year date);
        let '(res, date) := found in
        if negb res then Ret zero_tm else Ret date
      else Ret date.
