(* ===== verification/CronNextSteps.v ===== *)
(** * The next date of a cron expression: the steps of the search

    The search is followed on seconds since the epoch: each step of the code
    rounds a time down and moves one of its fields to the next allowed value. *)
From S2P Require Import Prelude Text Cron Calendar CronNext.
Set Default Proof Using "Type*".
#[local] Open Scope Z_scope.
#[local] Ltac Zify.zify_post_hook ::= Z.to_euclidean_division_equations.

(** ** The least number with a property *)
Definition least (P : Z → Prop) (a b : Z) : Prop := a ≤ b ∧ P b ∧ ∀ q, a ≤ q < b → ¬ P q.
(** A property met within [k] steps has a least place. *)
Lemma least_exists (P : Z → Prop) `{∀ x, Decision (P x)} k a : P (a + Z.of_nat k) → ∃ b, least P a b ∧ b ≤ a + Z.of_nat k.
Proof.
  revert a. induction k as [|k IH]; intros a Hp.
  { exists a. rewrite Z.add_0_r in *. split; [|lia]. split; [lia|]. split; [done|lia]. }
  destruct (decide (P a)) as [Ha|Ha]; [exists a; split; [split; [lia|]; split; [done|lia]|lia]|].
  destruct (IH (a + 1)) as (b & (H1 & H2 & H3) & Hb); [by replace (a + 1 + Z.of_nat k) with (a + Z.of_nat (S k)) by lia|].
  exists b. split; [|lia]. split; [lia|]. split; [done|]. intros q Hq. destruct (decide (q = a)) as [->|]; [done|]. apply H3. lia.
Qed.
Lemma next_set_bit_spec size target offset :
  match next_set_bit size target offset with
  | Some w => offset ≤ w < size ∧ w ∈ target ∧ ∀ u, offset ≤ u < w → u ∉ target
  | None => ∀ u, offset ≤ u < size → u ∉ target
  end.
Proof.
  unfold next_set_bit. remember (Z.to_nat (size - offset)) as n eqn:Hn. revert offset Hn.
  induction n as [|n IH]; intros offset Hn; cbn [next_set_bit_from]; [intros; lia|].
  destruct (decide (offset ∈ target)) as [Hin|Hout]; [split_and!; [lia|lia|done|intros; lia]|].
  specialize (IH (offset + 1) ltac:(lia)). destruct (next_set_bit_from n target (offset + 1)) as [w|].
  - destruct IH as (H1 & H2 & H3). split_and!; [lia|lia|done|]. intros u Hu. destruct (decide (u = offset)) as [->|]; [done|apply H3; lia].
  - intros u Hu. destruct (decide (u = offset)) as [->|]; [done|apply IH; lia].
Qed.

(** ** Steps on times *)
Lemma renormalize_at x t : timegm x = t → t ≠ INVALID_TIME → renormalize x = Ret (gmtime t).
Proof. unfold renormalize, tm_to_time. intros -> Ht. by destruct (Z.eqb_spec t INVALID_TIME). Qed.
(** Moving a field of fixed length moves the time by its length. *)
Definition field_seconds (f : cron_field) : Z :=
  match f with second => 1 | minute => 60 | hour_of_day => 3600 | _ => 86400 end.
Definition fixed_length (f : cron_field) : bool := match f with second | minute | hour_of_day | day_of_month => true | _ => false end.
Lemma timegm_with x f v : fixed_length f = true → timegm (with_field x f v) = timegm x + (v - get_field x f) * field_seconds f.
Proof. intros Hf. destruct x as [s m h d mo y w]. destruct f; try done; unfold timegm; cbn -[Z.add Z.mul Z.sub]; lia. Qed.
Lemma timegm_with_field t f v :
  fixed_length f = true → timegm (with_field (gmtime t) f v) = t + (v - get_field (gmtime t) f) * field_seconds f.
Proof. intros Hf. by rewrite timegm_with, timegm_gmtime. Qed.
Lemma set_field_at t f v :
  fixed_length f = true → 0 ≤ t + (v - get_field (gmtime t) f) * field_seconds f →
  set_field (gmtime t) f v = Ret (gmtime (t + (v - get_field (gmtime t) f) * field_seconds f)).
Proof. intros Hf Ht. apply renormalize_at; [by apply timegm_with_field|]. unfold INVALID_TIME. lia. Qed.
Lemma add_to_field_at t f k :
  f ≠ month → f ≠ year → 0 ≤ t + k * field_seconds f → add_to_field (gmtime t) f k = Ret (gmtime (t + k * field_seconds f)).
Proof.
  intros H1 H2 Ht. unfold add_to_field. apply renormalize_at; [|unfold INVALID_TIME; lia].
  destruct f; try done; rewrite timegm_with_field by done; cbn [field_seconds]; lia.
Qed.
(** The fields of a time, as functions of it. *)
Lemma get_second t : get_field (gmtime t) second = t mod 60.
Proof. unfold gmtime. cbn. lia. Qed.
Lemma get_minute t : get_field (gmtime t) minute = t / 60 mod 60.
Proof. unfold gmtime. cbn. lia. Qed.
Lemma get_hour t : get_field (gmtime t) hour_of_day = t / 3600 mod 24.
Proof. unfold gmtime. cbn. lia. Qed.
(** Rounding down the marked fields. *)
Definition lowered_field (marked : list cron_field) (f : cron_field) (t : Z) : Z :=
  if decide (f ∈ marked) then
    match f with
    | second => t - t mod 60 | minute => t - t / 60 mod 60 * 60 | hour_of_day => t - t / 3600 mod 24 * 3600
    | day_of_month => t - (tm_mday (gmtime t) - 1) * 86400 | _ => t
    end
  else t.
Definition lowered (marked : list cron_field) (t : Z) : Z :=
  lowered_field marked day_of_month (lowered_field marked hour_of_day (lowered_field marked minute (lowered_field marked second t))).
Definition markable (marked : list cron_field) : Prop := day_of_week ∉ marked ∧ month ∉ marked ∧ year ∉ marked.
Lemma month_start_1970 y m : 0 ≤ m ≤ 11 → 0 ≤ month_start y m + 30 → 0 ≤ month_start y m.
Proof.
  intros Hm H. destruct (decide (70 ≤ y)).
  - rewrite month_start_small by lia. pose proof (days_before_year_mono 1970 (y + 1900)). assert (days_before_year 1970 = epoch_day) by done.
    pose proof (days_before_month_bounds (leap_day (y + 1900)) m (leap_day_bound _)). lia.
  - exfalso. pose proof (month_start_succ 69 11 ltac:(lia)). assert (month_start 69 11 = -31) by done.
    rewrite month_start_small in H by lia. pose proof (days_before_month_mono (leap_day (y + 1900)) m 11 (leap_day_bound _)) as Hmm.
    change (days_before_month (leap_day (y + 1900)) 11) with (334 + leap_day (y + 1900)) in Hmm.
    pose proof (days_before_year_mono (y + 1900 + 1) 1970). assert (days_before_year 1970 = epoch_day) by done.
    rewrite days_before_year_step in *. lia.
Qed.
Lemma reset_field_at marked f t :
  fixed_length f = true → 0 ≤ t →
  (if decide (f ∈ marked) then reset_field (gmtime t) f else Ret (gmtime t)) = Ret (gmtime (lowered_field marked f t)) ∧
  0 ≤ lowered_field marked f t ≤ t.
Proof.
  intros Hf Ht. unfold lowered_field. destruct (decide (f ∈ marked)); [|split; [done|lia]].
  pose proof (gmtime_spec t) as (_ & _ & _ & Hmo & _ & Hd & Hday & Hlt).
  assert (0 ≤ day_of t) by (unfold day_of; lia).
  pose proof (month_start_succ (tm_year (gmtime t)) (tm_mon (gmtime t)) Hmo) as Hsucc.
  pose proof (month_start_1970 (tm_year (gmtime t)) (tm_mon (gmtime t)) Hmo ltac:(lia)) as H70.
  unfold day_of in *. unfold reset_field.
  destruct f; try done; (split; [apply renormalize_at; [rewrite timegm_with_field by done|unfold INVALID_TIME]|]);
    rewrite ?get_second, ?get_minute, ?get_hour; try case_decide; try done; cbn [field_seconds get_field]; lia.
Qed.
Lemma reset_all_fields_at marked t :
  markable marked → 0 ≤ t → reset_all_fields (gmtime t) marked = Ret (gmtime (lowered marked t)) ∧ 0 ≤ lowered marked t ≤ t.
Proof.
  intros (Hw & Hm & Hy) Ht. unfold reset_all_fields, all_fields, lowered. cbn [reset_fields].
  destruct (reset_field_at marked second t eq_refl Ht) as [-> H1]. cbn [mbind outcome_bind].
  destruct (reset_field_at marked minute _ eq_refl (proj1 H1)) as [-> H2]. cbn [mbind outcome_bind].
  destruct (reset_field_at marked hour_of_day _ eq_refl (proj1 H2)) as [-> H3]. cbn [mbind outcome_bind].
  rewrite (decide_False (P := day_of_week ∈ marked)) by done. cbn [mbind outcome_bind].
  destruct (reset_field_at marked day_of_month _ eq_refl (proj1 H3)) as [-> H4]. cbn [mbind outcome_bind].
  rewrite (decide_False (P := month ∈ marked)) by done. cbn [mbind outcome_bind].
  rewrite (decide_False (P := year ∈ marked)) by done. split; [done|lia].
Qed.

(** ** Searching one field of the clock *)
(** A field, the next one, its unit in seconds and its number of values. *)
Definition clock_field (f next : cron_field) (u size : Z) : Prop :=
  (f = second ∧ next = minute ∧ u = 1 ∧ size = 60) ∨ (f = minute ∧ next = hour_of_day ∧ u = 60 ∧ size = 60) ∨
  (f = hour_of_day ∧ next = day_of_week ∧ u = 3600 ∧ size = 24).
Definition in_size (size : Z) (target : gset Z) : Prop := (∃ x, x ∈ target) ∧ ∀ x, x ∈ target → 0 ≤ x < size.
Lemma mod_shift a size k : 0 ≤ a mod size + k < size → (a + k) mod size = a mod size + k.
Proof.
  intros Hk. pose proof (Z.div_mod a size ltac:(lia)). symmetry. apply (Z.mod_unique_pos _ _ (a / size)); lia.
Qed.
Lemma mod_shift_carry a size k : 0 ≤ k < size → (a - a mod size + size + k) mod size = k.
Proof. intros Hk. pose proof (Z.div_mod a size ltac:(lia)). symmetry. apply (Z.mod_unique_pos _ _ (a / size + 1)); lia. Qed.
Lemma parts_div q u r : 0 ≤ r < u → (q * u + r) / u = q.
Proof. intros Hr. symmetry. apply (Z.div_unique_pos _ _ _ r); lia. Qed.
Lemma parts_mod q u r : 0 ≤ r < u → (q * u + r) mod u = r.
Proof. intros Hr. symmetry. apply (Z.mod_unique_pos _ _ q); lia. Qed.

Section clock.
Context (f next : cron_field) (u size : Z) (Hf : clock_field f next u size).
Ltac fields := destruct Hf as [(-> & -> & -> & ->)|[(-> & -> & -> & ->)|(-> & -> & -> & ->)]].
Lemma clock_unit : 0 < u ∧ 0 < size ∧ field_seconds f = u ∧ field_seconds next = size * u ∧ fixed_length f = true ∧
  next ≠ month ∧ next ≠ year ∧ f ≠ day_of_month.
Proof. by fields. Qed.
Lemma get_clock t : get_field (gmtime t) f = t / u mod size.
Proof. fields; [rewrite get_second|apply get_minute|apply get_hour]. by rewrite Z.div_1_r. Qed.
Lemma set_clock t w : 0 ≤ t → t / u mod size ≤ w →
  set_field (gmtime t) f w = Ret (gmtime ((t / u - t / u mod size + w) * u + t mod u)).
Proof.
  intros Ht Hw. destruct clock_unit as (Hu & Hs & Hfu & _ & Hlen & _). pose proof (Z.div_mod t u ltac:(lia)) as Hdm.
  rewrite set_field_at, get_clock, Hfu; [|done|rewrite get_clock, Hfu; nia]. do 2 f_equal. nia.
Qed.
(** A carry: the next field by one, this one to zero. *)
Lemma carry_clock t : 0 ≤ t →
  (date ← add_to_field (gmtime t) next 1; reset_field date f) = Ret (gmtime ((t / u - t / u mod size + size) * u + t mod u)).
Proof.
  intros Ht. destruct clock_unit as (Hu & Hs & Hfu & Hnu & Hlen & Hn1 & Hn2 & Hnd). pose proof (Z.div_mod t u ltac:(lia)) as Hdm.
  rewrite add_to_field_at, Hnu by (try done; rewrite Hnu; nia). rewrite bind_Ret. unfold reset_field. rewrite decide_False by done.
  assert ((t + 1 * (size * u)) / u mod size = t / u mod size) as Hg.
  { replace (t + 1 * (size * u)) with (t + size * u) by lia. rewrite Z.div_add by lia. replace (t / u + size) with (t / u + 1 * size) by lia. apply Z.mod_add. lia. }
  assert (0 ≤ t / u) by (apply Z.div_pos; lia). pose proof (Z.mod_le (t / u) size). pose proof (Z.mod_pos_bound t u Hu).
  apply renormalize_at; [rewrite timegm_with_field by done; rewrite get_clock, Hfu, Hg; nia|unfold INVALID_TIME; nia].
Qed.
Context (target : gset Z) (marked : list cron_field) (Hin : in_size size target) (Hm : markable marked).
Lemma set_and_reset t w : 0 ≤ t → t / u mod size ≤ w →
  (date ← set_field (gmtime t) f w; date ← reset_all_fields date marked; Ret (Some w, date)) =
  Ret (Some w, gmtime (lowered marked ((t / u - t / u mod size + w) * u + t mod u))).
Proof.
  intros Ht Hw. rewrite set_clock, bind_Ret by done. destruct clock_unit as (Hu & Hs & _).
  assert (0 ≤ t / u) by (apply Z.div_pos; lia). pose proof (Z.mod_le (t / u) size). pose proof (Z.mod_pos_bound t u Hu). pose proof (Z.mod_pos_bound (t / u) size Hs).
  destruct (reset_all_fields_at marked ((t / u - t / u mod size + w) * u + t mod u) Hm) as [-> _]; [nia|done].
Qed.
(** The field moves to the next allowed value, carrying into the next field. *)
Lemma find_next_field_clock t : 0 ≤ t →
  ∃ q, least (λ q, q mod size ∈ target) (t / u) q ∧ (q mod size = t / u mod size → q = t / u) ∧
    find_next_field size target (gmtime t) (get_field (gmtime t) f) f next marked =
      Ret (Some (q mod size), gmtime (if decide (t / u = q) then t else lowered marked (q * u + t mod u))).
Proof.
  intros Ht. destruct clock_unit as (Hu & Hs & _). destruct Hin as [[x Hx] Hsize]. rewrite get_clock. set (v := t / u mod size).
  assert (0 ≤ v < size) as Hv by (apply Z.mod_pos_bound; lia).
  assert (∀ k, 0 ≤ v + k < size → (t / u + k) mod size = v + k) as Hshift by (intros; by apply mod_shift).
  pose proof (next_set_bit_spec size target v) as Hnext. unfold find_next_field. destruct (next_set_bit size target v) as [w|].
  - destruct Hnext as (Hb & Hw & Hleast). rewrite bind_Ret. exists (t / u + (w - v)). rewrite Hshift by lia.
    replace (v + (w - v)) with w by lia. split; [|split; [lia|]].
    + split; [lia|]. rewrite Hshift by lia. replace (v + (w - v)) with w by lia. split; [done|]. intros q Hq.
      replace q with (t / u + (q - t / u)) by lia. rewrite Hshift by lia. apply Hleast. lia.
    + destruct (decide (w = v)) as [->|Hne].
      * by rewrite bool_decide_eq_true_2, decide_True by (done || lia).
      * rewrite bool_decide_eq_false_2 by congruence. rewrite decide_False by lia. cbn [default from_option id].
        rewrite set_and_reset; [|done|apply Hb]. fold v. by replace (t / u - v + w) with (t / u + (w - v)) by lia.
  - pose proof (carry_clock t Ht) as Hcarry. fold v in Hcarry. set (t1 := (t / u - v + size) * u + t mod u) in *.
    pose proof (Z.mod_pos_bound t u Hu) as Hr. assert (t1 / u = t / u - v + size) as Hd1 by (by apply parts_div).
    assert (t1 mod u = t mod u) as Hm1 by (by apply parts_mod). assert (0 ≤ t / u) by (apply Z.div_pos; lia). pose proof (Z.mod_le (t / u) size).
    assert (0 ≤ t1) by (unfold t1; nia). assert (∀ k, 0 ≤ k < size → (t / u - v + size + k) mod size = k) as Hq by (intros; by apply mod_shift_carry).
    revert Hcarry. destruct (add_to_field (gmtime t) next 1) as [d|]; [|done]. rewrite !bind_Ret. intros ->. rewrite !bind_Ret.
    pose proof (next_set_bit_spec size target 0) as Hfirst. destruct (next_set_bit size target 0) as [w|]; [|exfalso; apply (Hfirst x); [by apply Hsize|done]].
    destruct Hfirst as (Hb & Hw & Hleast). assert (w < v) as Hwv. { destruct (Z.lt_ge_cases w v); [done|]. exfalso. apply (Hnext w); [lia|done]. }
    exists (t / u - v + size + w). rewrite Hq by lia. split; [|split; [lia|]].
    + split; [lia|]. rewrite Hq by lia. split; [done|]. intros q Hq1. destruct (Z.lt_ge_cases q (t / u - v + size)) as [Hlt|Hge].
      * replace q with (t / u + (q - t / u)) by lia. rewrite Hshift by lia. apply Hnext. lia.
      * replace q with (t / u - v + size + (q - (t / u - v + size))) by lia. rewrite Hq by lia. apply Hleast. lia.
    + rewrite bool_decide_eq_false_2 by (intros [=]; lia). rewrite decide_False by lia. cbn [default from_option id].
      pose proof (Hq 0 ltac:(lia)) as Hq0. rewrite Z.add_0_r in Hq0.
      rewrite set_and_reset; [|done|rewrite Hd1, Hq0; apply Hb]. rewrite Hd1, Hm1, Hq0. by rewrite Z.sub_0_r.
Qed.
End clock.

(** ** Marked fields, as the search marks them *)
Definition marks (b : bool) (l : list cron_field) : list cron_field := (if b then [second] else []) ++ l.
(** What remains of the second. *)
Definition second_left (b : bool) (t : Z) : Z := if b then 0 else t mod 60.
Lemma second_left_bound b t : 0 ≤ second_left b t < 60.
Proof. unfold second_left. destruct b; lia. Qed.
Ltac not_marked := let H := fresh in intros H; repeat (apply elem_of_cons in H as [H|H]; [discriminate H|]); by apply not_elem_of_nil in H.
Ltac decide_marks :=
  repeat match goal with
  | |- context [decide (?f ∈ ?l)] =>
      first [rewrite (decide_True (P := f ∈ l)) by (by repeat constructor)|rewrite (decide_False (P := f ∈ l)) by not_marked]
  end.
Lemma marks_markable b l : markable l → markable (marks b l).
Proof. intros (H1 & H2 & H3). unfold markable, marks. destruct b; set_solver. Qed.
Lemma lowered_none b t : 0 ≤ t → lowered (marks b []) t = t / 60 * 60 + second_left b t.
Proof. intros Ht. unfold lowered, lowered_field, marks, second_left. destruct b; cbn [app]; decide_marks; lia. Qed.
Lemma lowered_minute b t : 0 ≤ t → lowered (marks b [minute]) t = t / 3600 * 3600 + second_left b t.
Proof. intros Ht. unfold lowered, lowered_field, marks, second_left. destruct b; cbn [app]; decide_marks; lia. Qed.
Lemma lowered_hour b t : 0 ≤ t → lowered (marks b [minute; hour_of_day]) t = day_of t * 86400 + second_left b t.
Proof. intros Ht. unfold lowered, lowered_field, marks, second_left, day_of. destruct b; cbn [app]; decide_marks; lia. Qed.
Lemma lowered_day b t : 0 ≤ t →
  lowered (marks b [minute; hour_of_day; day_of_month]) t = month_begin (month_index t) * 86400 + second_left b t.
Proof.
  intros Ht. pose proof (lowered_hour b t Ht) as Hh.
  assert (lowered (marks b [minute; hour_of_day; day_of_month]) t =
          lowered (marks b [minute; hour_of_day]) t - (tm_mday (gmtime (lowered (marks b [minute; hour_of_day]) t)) - 1) * 86400) as ->.
  { unfold lowered, lowered_field, marks. destruct b; cbn [app]; decide_marks; done. }
  rewrite Hh. pose proof (second_left_bound b t). assert (day_of (day_of t * 86400 + second_left b t) = day_of t) as Hd by (unfold day_of; lia).
  rewrite (mday_day _ t Hd), (proj2 (proj2 (month_index_fields t))). lia.
Qed.

(** ** Changing the month *)
(** The time in month [q] with the same day number, time of day and overflow. *)
Definition in_month (t q : Z) : Z := t + (month_begin q - month_begin (month_index t)) * 86400.
Lemma in_month_spec t q :
  q ≤ month_index (in_month t q) ∧ in_month t q mod 86400 = t mod 86400 ∧
  (tm_mday (gmtime t) ≤ 28 → month_index (in_month t q) = q ∧ tm_mday (gmtime (in_month t q)) = tm_mday (gmtime t)).
Proof.
  unfold in_month. rewrite !(proj2 (proj2 (month_index_fields _))). pose proof (month_index_spec t).
  set (k := month_begin q - month_begin (month_index t)).
  assert (day_of (t + k * 86400) = day_of t + k) as Hd by (unfold day_of; lia). split_and!.
  - apply month_index_ge. unfold k in *. lia.
  - lia.
  - intros Hm. assert (month_index (t + k * 86400) = q) as ->; [|unfold k in *; lia].
    apply month_index_unique. pose proof (month_begin_succ q). unfold k in *. lia.
Qed.
Lemma in_month_nonneg t q : 0 ≤ t → month_index t ≤ q → 0 ≤ in_month t q.
Proof. intros Ht Hq. unfold in_month. pose proof (month_begin_mono (month_index t) q). lia. Qed.
Lemma month_index_year t : month_index t = 12 * tm_year (gmtime t) + tm_mon (gmtime t).
Proof. unfold month_index. lia. Qed.
Lemma timegm_with_month x v :
  timegm (with_field x month v) = timegm x + (month_begin (12 * tm_year x + v) - month_begin (12 * tm_year x + tm_mon x)) * 86400.
Proof. destruct x as [s m h d mo y w]. unfold timegm. cbn -[Z.add Z.mul Z.sub month_start]. rewrite !month_start_begin. lia. Qed.
Lemma timegm_with_year x v :
  timegm (with_field x year v) = timegm x + (month_begin (12 * v + tm_mon x) - month_begin (12 * tm_year x + tm_mon x)) * 86400.
Proof. destruct x as [s m h d mo y w]. unfold timegm. cbn -[Z.add Z.mul Z.sub month_start]. rewrite !month_start_begin. lia. Qed.
Lemma set_month_at t v : 0 ≤ in_month t (12 * tm_year (gmtime t) + v) →
  renormalize (with_field (gmtime t) month v) = Ret (gmtime (in_month t (12 * tm_year (gmtime t) + v))).
Proof.
  intros H. apply renormalize_at; [|unfold INVALID_TIME; lia]. unfold in_month. by rewrite timegm_with_month, timegm_gmtime, month_index_year.
Qed.
Lemma next_year_at t : 0 ≤ t → add_to_field (gmtime t) year 1 = Ret (gmtime (in_month t (month_index t + 12))).
Proof.
  intros H. apply renormalize_at; [|pose proof (in_month_nonneg t (month_index t + 12)); unfold INVALID_TIME; lia].
  cbn [get_field]. unfold in_month. rewrite timegm_with_year, timegm_gmtime, <-month_index_year.
  by replace (12 * (tm_year (gmtime t) + 1) + tm_mon (gmtime t)) with (month_index t + 12) by (rewrite month_index_year; lia).
Qed.

(** Setting the month and resetting what is smaller. *)
Lemma set_month_and_reset b t v (w : option Z) : 0 ≤ in_month t (12 * tm_year (gmtime t) + v) →
  (date ← set_field (gmtime t) month v; date ← reset_all_fields date (marks b [minute; hour_of_day; day_of_month]); Ret (w, date)) =
  Ret (w, gmtime (month_begin (month_index (in_month t (12 * tm_year (gmtime t) + v))) * 86400 + second_left b t)).
Proof.
  intros H. unfold set_field. rewrite set_month_at, bind_Ret by done.
  destruct (reset_all_fields_at (marks b [minute; hour_of_day; day_of_month]) (in_month t (12 * tm_year (gmtime t) + v))) as [-> _];
    [apply marks_markable; split_and!; not_marked|done|]. rewrite bind_Ret, lowered_day by done.
  assert (second_left b (in_month t (12 * tm_year (gmtime t) + v)) = second_left b t) as ->; [|done].
  unfold second_left. destruct b; [done|]. pose proof (in_month_spec t (12 * tm_year (gmtime t) + v)) as (_ & Hm & _). lia.
Qed.
Lemma find_next_month_at b months t : in_size 12 months → 0 ≤ t →
  let found := find_next_field 12 months (gmtime t) (tm_mon (gmtime t)) month year (marks b [minute; hour_of_day; day_of_month]) in
  (month_index t mod 12 ∈ months → found = Ret (Some (tm_mon (gmtime t)), gmtime t)) ∧
  (month_index t mod 12 ∉ months → ∃ w q, w ≠ tm_mon (gmtime t) ∧ month_index t < q ∧
     found = Ret (Some w, gmtime (month_begin q * 86400 + second_left b t)) ∧
     (tm_mday (gmtime t) ≤ 28 → least (λ q, q mod 12 ∈ months) (month_index t) q)).
Proof.
  intros [[x Hx] Hsize] Ht. cbn zeta. unfold find_next_field. pose proof (gmtime_spec t) as (_ & _ & _ & Hm & _).
  pose proof (month_index_fields t) as (Hmon & Hyear & _). set (i := month_index t) in *. rewrite <-Hmon. set (m := tm_mon (gmtime t)) in *. set (y := tm_year (gmtime t)) in *.
  assert (∀ q, i ≤ q < i + (12 - m) → q mod 12 = m + (q - i)) as Hsame by lia.
  pose proof (next_set_bit_spec 12 months m) as Hnext. destruct (next_set_bit 12 months m) as [w|].
  - destruct Hnext as (Hb & Hw & Hleast). rewrite bind_Ret. split.
    + intros Hok. assert (w = m) as ->; [|by rewrite bool_decide_eq_true_2]. destruct (decide (w = m)); [done|]. exfalso. apply (Hleast m); [lia|done].
    + intros Hno. assert (w ≠ m) by congruence. rewrite bool_decide_eq_false_2 by congruence. cbn [default from_option id].
      pose proof (in_month_spec t (12 * y + w)) as (Hge & _ & Hexact). pose proof (in_month_nonneg t (12 * y + w) Ht).
      exists w, (month_index (in_month t (12 * y + w))). split_and!; [done|lia|apply set_month_and_reset; fold y; lia|].
      intros H28. destruct (Hexact H28) as [-> _]. split; [lia|]. split; [by rewrite Hsame by lia; replace (m + (12 * y + w - i)) with w by lia|].
      intros q Hq. rewrite Hsame by lia. apply Hleast. lia.
  - split; [intros Hok; exfalso; apply (Hnext m); [lia|done]|]. intros _.
    pose proof (in_month_spec t (i + 12)) as (Hge1 & Hmod1 & Hex1). pose proof (in_month_nonneg t (i + 12) Ht ltac:(fold i; lia)) as Hn1.
    rewrite next_year_at, bind_Ret by done. fold i. set (t1 := in_month t (i + 12)) in *.
    pose proof (month_index_year t1) as Hy1. pose proof (month_index_fields t1) as (Hmon1 & Hyear1 & _).
    set (q1 := 12 * tm_year (gmtime t1) + 0). pose proof (in_month_spec t1 q1) as (Hge2 & Hmod2 & Hex2).
    assert (0 ≤ in_month t1 q1) as Hn2.
    { unfold in_month. pose proof (month_index_spec t). pose proof (month_begin_mono (i + 1) q1). pose proof (month_index_spec t1). fold i in H.
      assert (0 ≤ day_of t) by (unfold day_of; lia). unfold day_of in *. unfold q1 in *. lia. }
    unfold reset_field. cbn [decide]. rewrite decide_False by done. rewrite set_month_at by done. fold q1. rewrite bind_Ret.
    assert (month_index (in_month t1 q1) = q1) as Hjan.
    { apply month_index_unique. pose proof (month_begin_31 (tm_year (gmtime t1) - 1) 12 ltac:(lia)) as H31.
      replace (12 * (tm_year (gmtime t1) - 1) + 12) with q1 in H31 by (unfold q1; lia). pose proof (month_index_spec t1).
      pose proof (month_begin_succ (month_index t1)). unfold in_month. unfold day_of in *. lia. }
    pose proof (next_set_bit_spec 12 months 0) as Hfirst. destruct (next_set_bit 12 months 0) as [w|]; [|exfalso; apply (Hfirst x); [by apply Hsize|done]].
    destruct Hfirst as (Hb & Hw & Hleast). rewrite bind_Ret. assert (w < m) as Hwm. { destruct (Z.lt_ge_cases w m); [done|]. exfalso. apply (Hnext w); [lia|done]. }
    rewrite bool_decide_eq_false_2 by (intros [=]; lia). cbn [default from_option id]. set (t2 := in_month t1 q1) in *.
    pose proof (month_index_year t2) as Hy2. pose proof (month_index_fields t2) as (Hmon2 & Hyear2 & _).
    pose proof (in_month_spec t2 (12 * tm_year (gmtime t2) + w)) as (Hge3 & _ & Hex3).
    exists w, (month_index (in_month t2 (12 * tm_year (gmtime t2) + w))).
    assert (second_left b t2 = second_left b t) as <- by (unfold second_left; destruct b; lia).
    split_and!; [lia|lia| |].
    + apply set_month_and_reset, in_month_nonneg; [done|lia].
    + intros H28. destruct (Hex1 H28) as [E1 M1]. destruct (Hex2 ltac:(lia)) as [E2 M2]. destruct (Hex3 ltac:(lia)) as [E3 _]. rewrite E3.
      assert (tm_year (gmtime t2) = y + 1) as -> by lia. split; [lia|].
      assert (∀ k, 0 ≤ k < 12 → (12 * (y + 1) + k) mod 12 = k) as Hk by lia. split; [by rewrite Hk by lia|].
      intros q Hq. destruct (Z.lt_ge_cases q (12 * (y + 1))); [rewrite Hsame by lia; apply Hnext; lia|].
      replace q with (12 * (y + 1) + (q - 12 * (y + 1))) by lia. rewrite Hk by lia. apply Hleast. lia.
Qed.

(** ** The search *)
Definition wf_cron (cex : cronexpr) : Prop :=
  in_size 60 (ce_seconds cex) ∧ in_size 60 (ce_minutes cex) ∧ in_size 24 (ce_hours cex) ∧
  in_size 7 (ce_days_of_week cex) ∧ in_size 31 (ce_days_of_month cex) ∧ in_size 12 (ce_months cex).
Definition every (size : Z) (target : gset Z) : Prop := ∀ x, 0 ≤ x < size → x ∈ target.

Section search.
Context (cex : cronexpr) (Hwf : wf_cron cex).
Definition sec_ok (t : Z) : Prop := t mod 60 ∈ ce_seconds cex.
Definition min_ok (t : Z) : Prop := t / 60 mod 60 ∈ ce_minutes cex.
Definition hour_ok (t : Z) : Prop := t / 3600 mod 24 ∈ ce_hours cex.
Definition day_ok (t : Z) : Prop := tm_mday (gmtime t) - 1 ∈ ce_days_of_month cex ∧ tm_wday (gmtime t) ∈ ce_days_of_week cex.
Definition mon_ok (t : Z) : Prop := month_index t mod 12 ∈ ce_months cex.
(** The time satisfies the expression. *)
Definition matches (t : Z) : Prop := sec_ok t ∧ min_ok t ∧ hour_ok t ∧ day_ok t ∧ mon_ok t.
#[global] Instance day_ok_dec t : Decision (day_ok t).
Proof. unfold day_ok. apply _. Defined.
Lemma day_ok_day t u : day_of t = day_of u → day_ok t → day_ok u.
Proof. intros H. unfold day_ok. by rewrite (mday_day t u H), !wday_day, H. Qed.

(** One of the two day fields is unrestricted. *)
Definition days_independent : Prop := every 31 (ce_days_of_month cex) ∨ every 7 (ce_days_of_week cex).
Definition day_time (n : Z) : Z := n * 86400.
Lemma day_of_time n r : 0 ≤ r < 86400 → day_of (n * 86400 + r) = n.
Proof. intros Hr. by apply parts_div. Qed.
Lemma mday_range t : 0 ≤ tm_mday (gmtime t) - 1 < 31.
Proof. rewrite (proj2 (proj2 (month_index_fields t))). pose proof (month_index_spec t). pose proof (month_begin_succ (month_index t)). lia. Qed.
(** A day of a given number is at most 366 days away. *)
Lemma mday_within n x : 0 ≤ x < 31 → ∃ k : nat, (k ≤ 366)%nat ∧ tm_mday (gmtime (day_time (n + Z.of_nat k))) = x + 1.
Proof.
  intros Hx. assert (∀ n q, month_begin q ≤ n < month_begin (q + 1) → tm_mday (gmtime (day_time n)) = n - month_begin q + 1) as Hmd.
  { intros n' q Hq. assert (day_of (day_time n') = n') as Hn by (unfold day_of, day_time; lia).
    rewrite (proj2 (proj2 (month_index_fields _))), Hn. by rewrite (month_index_unique _ q) by (by rewrite Hn). }
  pose proof (month_index_spec (day_time n)) as Hq. assert (day_of (day_time n) = n) as Hn by (unfold day_of, day_time; lia). rewrite Hn in Hq.
  set (y := month_index (day_time n) / 12). assert (month_begin (12 * y) ≤ n < month_begin (12 * y + 12)) as Hy.
  { split; [pose proof (month_begin_mono (12 * y) (month_index (day_time n)))|pose proof (month_begin_mono (month_index (day_time n) + 1) (12 * y + 12))]; lia. }
  pose proof (month_begin_31 y 11 ltac:(lia)) as Hdec. pose proof (month_begin_31 y 12 ltac:(lia)) as Hjan.
  replace (12 * y + 11 + 1) with (12 * y + 12) in Hdec by lia.
  pose proof (month_begin_december y) as Hlen. clearbody y.
  destruct (Z.le_gt_cases n (month_begin (12 * y + 11) + x)).
  - exists (Z.to_nat (month_begin (12 * y + 11) + x - n)). split; [lia|].
    rewrite (Hmd _ (12 * y + 11)) by (replace (12 * y + 11 + 1) with (12 * y + 12) by lia; lia). lia.
  - exists (Z.to_nat (month_begin (12 * y + 12) + x - n)). split; [lia|]. rewrite (Hmd _ (12 * y + 12)) by lia. lia.
Qed.
(** Two days less than 28 apart do not have the same number. *)
Lemma mday_differs t u : day_of t < day_of u < day_of t + 28 → tm_mday (gmtime t) ≠ tm_mday (gmtime u).
Proof.
  intros Hd. rewrite (proj2 (proj2 (month_index_fields t))), (proj2 (proj2 (month_index_fields u))).
  pose proof (month_index_spec t). pose proof (month_index_spec u). pose proof (month_begin_succ (month_index t)).
  destruct (decide (month_index u = month_index t)) as [->|]; [lia|].
  destruct (Z.lt_ge_cases (month_index u) (month_index t)).
  - pose proof (month_begin_mono (month_index u + 1) (month_index t)). lia.
  - pose proof (month_begin_mono (month_index t + 1) (month_index u)). lia.
Qed.
Context (Hdays : days_independent).
(** The next allowed day: within 366 days, and under another number. *)
Lemma next_day_exists n : ∃ n', least (λ n, day_ok (day_time n)) n n' ∧ n' ≤ n + 366 ∧
  (n' ≠ n → tm_mday (gmtime (day_time n')) ≠ tm_mday (gmtime (day_time n))).
Proof.
  destruct Hwf as (_ & _ & _ & [[w Hw] HwS] & [[x Hx] HxS] & _).
  assert (∀ n, day_of (day_time n) = n) as Hdt by (intros; unfold day_of, day_time; lia).
  destruct Hdays as [Hall|Hall].
  - assert (day_ok (day_time (n + Z.of_nat (Z.to_nat ((w - (n + 4)) mod 7))))) as Hok.
    { split; [apply Hall, mday_range|]. rewrite wday_day, Hdt. specialize (HwS w Hw). by replace ((n + Z.of_nat (Z.to_nat ((w - (n + 4)) mod 7)) + 4) mod 7) with w by lia. }
    destruct (least_exists (λ n, day_ok (day_time n)) _ _ Hok) as (b & Hb & Hle). exists b. split; [done|]. split; [lia|].
    intros Hne Heq. symmetry in Heq. revert Heq. apply mday_differs. rewrite !Hdt. destruct Hb. lia.
  - destruct (mday_within n x) as (k & Hk & Hmd); [by apply HxS|].
    assert (day_ok (day_time (n + Z.of_nat k))) as Hok.
    { split; [by rewrite Hmd, Z.add_simpl_r|]. apply Hall. rewrite wday_day. lia. }
    destruct (least_exists (λ n, day_ok (day_time n)) _ _ Hok) as (b & Hb & Hle). exists b. split; [done|]. split; [lia|].
    intros Hne Heq. destruct Hb as (Hb1 & [Hb2 _] & Hb3). apply (Hb3 n); [lia|]. split; [by rewrite <-Heq|]. apply Hall. rewrite wday_day. lia.
Qed.
Lemma day_ok_time t : day_ok t ↔ day_ok (day_time (day_of t)).
Proof. assert (day_of t = day_of (day_time (day_of t))) by (unfold day_of, day_time; lia). split; by apply day_ok_day. Qed.
Lemma find_next_day_at b n : ∀ count t, 0 ≤ t →
  least (λ n, day_ok (day_time n)) (day_of t) n → n ≤ day_of t + Z.of_nat count →
  find_next_day count (gmtime t) (ce_days_of_month cex) (tm_mday (gmtime t)) (ce_days_of_week cex) (tm_wday (gmtime t))
    (marks b [minute; hour_of_day]) =
  Ret (tm_mday (gmtime (day_time n)), gmtime (if decide (day_of t = n) then t else day_time n + second_left b t)).
Proof.
  assert (∀ count t, 0 ≤ t → day_of t = n → day_ok (day_time n) →
    find_next_day count (gmtime t) (ce_days_of_month cex) (tm_mday (gmtime t)) (ce_days_of_week cex) (tm_wday (gmtime t))
      (marks b [minute; hour_of_day]) = Ret (tm_mday (gmtime (day_time n)), gmtime t)) as Hhere.
  { intros count t Ht <- Hok. apply day_ok_time in Hok as [H1 H2].
    assert (day_of t = day_of (day_time (day_of t))) as Hd by (unfold day_of, day_time; lia). rewrite <-(mday_day _ _ Hd).
    destruct count; cbn [find_next_day]; by rewrite !bool_decide_eq_true_2 by done. }
  induction count as [|count IH]; intros t Ht Hn Hc.
  { destruct Hn as (H1 & H2 & H3). rewrite decide_True by lia. apply Hhere; [done|lia|done]. }
  destruct (decide (day_of t = n)) as [He|Hne]; [apply Hhere; [done|done|apply Hn]|].
  destruct Hn as (H1 & H2 & H3). assert (¬ day_ok t) as Hno. { rewrite day_ok_time. apply H3. lia. }
  cbn [find_next_day]. rewrite <-bool_decide_and, bool_decide_eq_false_2 by exact Hno.
  rewrite add_to_field_at by (done || cbn; lia). rewrite bind_Ret. cbn [field_seconds].
  destruct (reset_all_fields_at (marks b [minute; hour_of_day]) (t + 1 * 86400)) as [-> _];
    [apply marks_markable; split_and!; not_marked|lia|]. rewrite bind_Ret, lowered_hour by lia.
  assert (second_left b (t + 1 * 86400) = second_left b t) as Hs by (unfold second_left; destruct b; lia). rewrite Hs.
  assert (day_of (t + 1 * 86400) = day_of t + 1) as Hd1 by (unfold day_of; lia). rewrite Hd1.
  set (t1 := (day_of t + 1) * 86400 + second_left b t). pose proof (second_left_bound b t) as Hsb.
  assert (day_of t1 = day_of t + 1) as Hd by (apply day_of_time; lia).
  assert (day_of (t + 1 * 86400) = day_of t1) as Hsame by (by rewrite Hd, Hd1).
  assert (tm_wday (gmtime (t + 1 * 86400)) = tm_wday (gmtime t1)) as -> by (by rewrite !wday_day, Hsame). rewrite (mday_day _ t1 Hsame).
  assert (0 ≤ day_of t) by (unfold day_of; lia).
  rewrite IH; [|unfold t1; lia|split; [lia|]; split; [done|intros q Hq; apply H3; lia]|lia].
  do 3 f_equal. assert (second_left b t1 = second_left b t) as -> by (unfold t1, second_left; destruct b; lia).
  destruct (decide (day_of t1 = n)) as [He|]; [|done].
  unfold day_time. by rewrite <-He, Hd.
Qed.

End search.
