(* ===== verification/CronNextTheorems.v ===== *)
(** * The next date of a cron expression: theorems

    The search ends, and what it finds is a match later than the date it
    started from; for the usual expressions it is the earliest. *)
From S2P Require Import Prelude Text Cron CronTheorems Calendar CronNext CronNextSteps.
Set Default Proof Using "Type*".
#[local] Open Scope Z_scope.
#[local] Ltac Zify.zify_post_hook ::= Z.to_euclidean_division_equations.

Section search.
Context (cex : cronexpr) (Hwf : wf_cron cex) (Hdays : days_independent cex).
Abbreviation matches := (matches cex).
Abbreviation sec_ok := (sec_ok cex).
Abbreviation min_ok := (min_ok cex).
Abbreviation hour_ok := (hour_ok cex).
Abbreviation day_ok := (day_ok cex).
Abbreviation mon_ok := (mon_ok cex).
(** ** What the search promises *)
(** Under these restrictions the result is the earliest match: the seconds
    form one range, and no month is left out unless every allowed day exists in
    every month. *)
Definition earliest_mode : Prop :=
  (∀ a b s, a ∈ ce_seconds cex → b ∈ ce_seconds cex → a ≤ s ≤ b → s ∈ ce_seconds cex) ∧
  (every 12 (ce_months cex) ∨ ∀ d, d ∈ ce_days_of_month cex → d < 28).
Definition clear (t u : Z) : Prop := earliest_mode → ∀ v, t ≤ v < u → ¬ matches v.
Context (dot : Z).
Definition result_ok (t : Z) (r : result (bool * tm)) : Prop :=
  match r with
  | Ret (true, x) => ∃ u, x = gmtime u ∧ t ≤ u ∧ matches u ∧ clear t u
  | Ret (false, _) => earliest_mode → ∀ v, t ≤ v → month_index v / 12 ≤ dot + 4 → ¬ matches v
  | Throw _ => False
  end.
Lemma result_ok_extend t u r : t ≤ u → clear t u → result_ok u r → result_ok t r.
Proof.
  intros Hle Hc. destruct r as [[[] x]|e]; cbn [result_ok]; [| |done].
  - intros (v & -> & Hv & Hm & Hcl). exists v. split_and!; [done|lia|done|]. intros HE w Hw. destruct (Z.lt_ge_cases w u); [apply Hc|apply Hcl]; (done || lia).
  - intros H HE w Hw Hy. destruct (Z.lt_ge_cases w u); [apply Hc|apply H]; (done || lia).
Qed.
(** The order in which restarts make progress. *)
Definition safe (size : Z) (target : gset Z) (a : Z) : Prop := set_Exists (λ w, a mod size ≤ w) target.
Definition cost (P : Prop) `{Decision P} : Z := if decide P then 0 else 1.
#[global] Instance min_ok_dec t : Decision (min_ok t).
Proof. unfold min_ok. apply _. Defined.
#[global] Instance hour_ok_dec t : Decision (hour_ok t).
Proof. unfold hour_ok. apply _. Defined.
#[global] Instance mon_ok_dec t : Decision (mon_ok t).
Proof. unfold mon_ok. apply _. Defined.
#[global] Instance safe_dec size target a : Decision (safe size target a).
Proof. unfold safe. apply _. Defined.
Definition rank (t : Z) : Z :=
  cost (min_ok t) + 2 * cost (hour_ok t) + 4 * cost (day_ok t) + 8 * cost (safe 24 (ce_hours cex) (t / 3600)) + 16 * cost (safe 60 (ce_minutes cex) (t / 60)).
Definition measure (t : Z) : Z := 32 * Z.max 0 (12 * (dot + 5) - month_index t) + rank t.
Lemma cost_bound (P : Prop) `{Decision P} : 0 ≤ cost P ≤ 1.
Proof. unfold cost. destruct (decide P); lia. Qed.
Lemma cost_0 (P : Prop) `{Decision P} : P → cost P = 0.
Proof. intros. unfold cost. by rewrite decide_True. Qed.
Lemma cost_1 (P : Prop) `{Decision P} : ¬ P → cost P = 1.
Proof. intros. unfold cost. by rewrite decide_False. Qed.
Ltac costs := repeat match goal with |- context [cost ?P] => lazymatch goal with H : (0 ≤ cost P ≤ 1) |- _ => fail | _ => pose proof (cost_bound P) end end.
Lemma rank_bound t : 0 ≤ rank t ≤ 31.
Proof. unfold rank. costs. lia. Qed.
Lemma safe_ok size target a : a mod size ∈ target → safe size target a.
Proof. intros H. by exists (a mod size). Qed.
(** Without a carry, the next value is found under the same larger fields. *)
Lemma safe_same size target a q : in_size size target → 0 < size → least (λ q, q mod size ∈ target) a q → safe size target a → q / size = a / size.
Proof.
  intros [_ Hs] Hpos (H1 & H2 & H3) (w & Hw & Hle). specialize (Hs w Hw). cbn in Hle.
  assert (q ≤ a + (w - a mod size)) as Hq.
  { destruct (Z.le_gt_cases q (a + (w - a mod size))); [done|]. exfalso. apply (H3 (a + (w - a mod size))); [lia|].
    pose proof (Z.mod_pos_bound a size Hpos). rewrite mod_shift by lia. by replace (a mod size + (w - a mod size)) with w by lia. }
  pose proof (Z.mod_pos_bound a size Hpos). pose proof (Z.div_mod a size ltac:(lia)).
  symmetry. apply (Z.div_unique_pos _ _ _ (q - size * (a / size))); lia.
Qed.
Lemma cost_iff (P Q : Prop) `{Decision P, Decision Q} : (P ↔ Q) → cost P = cost Q.
Proof. intros [HP HQ]. unfold cost. destruct (decide P), (decide Q); tauto. Qed.
Lemma cost_day u t : day_of u = day_of t → cost (day_ok u) = cost (day_ok t).
Proof. intros Hd. apply cost_iff. split; [by apply (day_ok_day cex Hwf u)|by apply (day_ok_day cex Hwf t)]. Qed.

(** ** One stage after the other *)
(** The second is unmarked only when it has moved to the first allowed one. *)
Definition low (b : bool) (t : Z) : Prop := b = true ∨ (earliest_mode → ∀ s, s ∈ ce_seconds cex → t mod 60 ≤ s).
Lemma low_clear b t v : low b t → earliest_mode → v mod 60 < second_left b t → ¬ sec_ok v.
Proof.
  intros Hl HE Hv Hok. unfold second_left in Hv. destruct b; [lia|]. destruct Hl as [?|Hl]; [done|]. specialize (Hl HE _ Hok). lia.
Qed.
Lemma find_next_field_noop size target date value f next marked :
  0 ≤ value < size → value ∈ target → find_next_field size target date value f next marked = Ret (Some value, date).
Proof.
  intros Hv Hin. unfold find_next_field. pose proof (next_set_bit_spec size target value) as Hn. destruct (next_set_bit size target value) as [w|].
  - assert (w = value) as ->. { destruct (decide (w = value)); [done|]. exfalso. apply Hn with value; [lia|done]. }
    rewrite bind_Ret. by rewrite bool_decide_eq_true_2.
  - exfalso. apply (Hn value); [lia|done].
Qed.
Section stages.
Context (again : tm → result (bool * tm)).
Lemma noop_month marked t : mon_ok t → find_next_month_stage again cex dot marked (gmtime t) = Ret (true, gmtime t).
Proof.
  intros Hok. unfold find_next_month_stage. rewrite (proj1 (month_index_fields t)). rewrite find_next_field_noop by (lia || done).
  rewrite bind_Ret. by rewrite bool_decide_eq_true_2.
Qed.
Lemma noop_day marked t : day_ok t → mon_ok t → find_next_day_stage again cex dot marked (gmtime t) = Ret (true, gmtime t).
Proof.
  intros [H1 H2] Hok. unfold find_next_day_stage, find_next_day_maximum. cbn [find_next_day].
  rewrite !bool_decide_eq_true_2 by done. cbn [andb]. rewrite bind_Ret. rewrite bool_decide_eq_true_2 by done. by apply noop_month.
Qed.
Lemma noop_hour marked t : hour_ok t → day_ok t → mon_ok t → find_next_hour_stage again cex dot marked (gmtime t) = Ret (true, gmtime t).
Proof.
  intros Hh Hd Hok. unfold find_next_hour_stage. replace (tm_hour (gmtime t)) with (t / 3600 mod 24) by (symmetry; apply get_hour).
  rewrite find_next_field_noop by (lia || done). rewrite bind_Ret. rewrite bool_decide_eq_true_2 by done. by apply noop_day.
Qed.
Lemma settle_restart u f marked rest :
  result_ok u (again (gmtime u)) → (∀ v, matches v → rest marked (gmtime v) = Ret (true, gmtime v)) →
  result_ok u (settle again false f marked (gmtime u) rest).
Proof.
  intros Hr Hrest. unfold settle. destruct (again (gmtime u)) as [[[] x]|e]; [|done|done].
  rewrite bind_Ret. destruct Hr as (v & -> & Hv). rewrite Hrest; [exists v|]; tauto.
Qed.
Context (bound : Z).
(** What a restart may rely on. *)
Definition restartable (t : Z) : Prop := 0 ≤ t ∧ dot ≤ month_index t / 12 ∧ safe 60 (ce_seconds cex) t.
Context (Hagain : ∀ u, restartable u → measure u < bound → result_ok u (again (gmtime u))).
Lemma safe_second b t : sec_ok t → safe 60 (ce_seconds cex) (second_left b t).
Proof.
  intros Hok. exists (t mod 60). split; [done|]. unfold second_left. destruct b; cbn; lia.
Qed.
Lemma month_stage_ok b t :
  restartable t → measure t ≤ bound → sec_ok t → min_ok t → hour_ok t → day_ok t → low b t →
  result_ok t (find_next_month_stage again cex dot (marks b [minute; hour_of_day; day_of_month]) (gmtime t)).
Proof.
  intros (Ht & Hdot & _) Hb Hs Hmi Hh Hd Hlow. destruct (decide (mon_ok t)) as [Hok|Hno].
  { rewrite noop_month by done. exists t. split_and!; [done|lia|done|]. intros _ v Hv. lia. }
  destruct Hwf as (_ & _ & _ & _ & _ & Hmon). destruct (find_next_month_at b (ce_months cex) t Hmon Ht) as [_ Hf].
  destruct (Hf Hno) as (w & q & Hw & Hq & Hfound & Hleast). unfold find_next_month_stage. rewrite Hfound, bind_Ret.
  rewrite bool_decide_eq_false_2 by congruence. pose proof (second_left_bound b t) as Hsl. set (u := month_begin q * 86400 + second_left b t).
  assert (month_index u = q) as Hmu. { apply month_index_unique. unfold u. rewrite day_of_time by lia. pose proof (month_begin_succ q). lia. }
  assert (t ≤ u) as Htu. { destruct (Z.le_gt_cases t u); [done|]. pose proof (month_index_mono u t). lia. }
  assert (clear t u) as Hclear.
  { intros HE v Hv Hm. destruct (Z.lt_ge_cases (month_index v) q) as [Hlt|Hge].
    - assert (tm_mday (gmtime t) ≤ 28) as H28.
      { destruct HE as [_ [Hall|H28]]; [exfalso; apply Hno, Hall; lia|]. destruct Hd as [Hd _]. specialize (H28 _ Hd). lia. }
      destruct (Hleast H28) as (_ & _ & Hl). apply (Hl (month_index v)); [pose proof (month_index_mono t v); lia|apply Hm].
    - apply (low_clear b t v Hlow HE); [|apply Hm]. pose proof (month_index_spec v). pose proof (month_begin_mono q (month_index v)). unfold day_of, u in *. lia. }
  apply (result_ok_extend t u); [done|done|]. pose proof (month_index_fields u) as (_ & Hyu & _).
  unfold years_exceeded, CRON_MAX_YEARS_DIFF. rewrite Hyu, Hmu. destruct (Z.ltb_spec (q / 12 - dot) 0); [lia|].
  destruct (Z.ltb_spec 4 (q / 12 - dot)); cbn [orb].
  - intros _ v Hv Hy. pose proof (month_index_mono u v). lia.
  - apply Hagain.
    + split_and!; [lia|lia|]. unfold safe, u. replace ((month_begin q * 86400 + second_left b t) mod 60) with (second_left b t mod 60) by lia. by apply safe_second.
    + pose proof (rank_bound u). pose proof (rank_bound t). unfold measure in *. lia.
Qed.
(** A restart at [u], a time with the same date up to the field that moved. *)
Lemma restart_ok b t u f marked rest :
  restartable t → t ≤ u → clear t u → u mod 60 = second_left b t → sec_ok t → measure u < bound →
  (∀ v, matches v → rest marked (gmtime v) = Ret (true, gmtime v)) →
  result_ok t (settle again false f marked (gmtime u) rest).
Proof.
  intros (Ht & Hdot & _) Htu Hcl Hr Hs Hm Hrest. apply (result_ok_extend t u); [done|done|]. apply settle_restart; [|done]. apply Hagain; [|done].
  split_and!; [lia| |].
  - pose proof (month_index_mono t u Htu). lia.
  - unfold safe. rewrite Hr. pose proof (second_left_bound b t). rewrite <-(Z.mod_small (second_left b t) 60) by lia. by apply safe_second.
Qed.
Lemma mark_marks b l f : f ∉ marks b l → mark_field (marks b l) f = marks b (l ++ [f]).
Proof. intros Hf. unfold mark_field. rewrite decide_False by done. unfold marks. by rewrite app_assoc. Qed.
Ltac settle_unchanged :=
  unfold settle; rewrite mark_marks by (unfold marks; match goal with b : bool |- _ => destruct b end; cbn [app]; not_marked); cbn [app].
Lemma day_stage_ok b t :
  restartable t → measure t ≤ bound → sec_ok t → min_ok t → hour_ok t → low b t →
  result_ok t (find_next_day_stage again cex dot (marks b [minute; hour_of_day]) (gmtime t)).
Proof.
  intros Hre Hb Hs Hmi Hh Hlow. pose proof Hre as (Ht & Hdot & _). destruct (next_day_exists cex Hwf Hdays (day_of t)) as (n & Hn & Hle & Hdiff).
  unfold find_next_day_stage, find_next_day_maximum.
  rewrite (find_next_day_at cex Hwf Hdays b n) by (done || lia). rewrite bind_Ret.
  assert (day_of t = day_of (day_time (day_of t))) as Hdt by (unfold day_of, day_time; lia). rewrite (mday_day t _ Hdt).
  destruct (decide (day_of t = n)) as [<-|Hne].
  { rewrite bool_decide_eq_true_2 by done. settle_unchanged. apply month_stage_ok; try done. apply (day_ok_time cex Hwf Hdays), Hn. }
  rewrite bool_decide_eq_false_2 by (apply Hdiff; lia). pose proof (second_left_bound b t) as Hsl. destruct Hn as (H1 & H2 & H3).
  set (u := day_time n + second_left b t). assert (day_of u = n) as Hdu by (apply day_of_time; lia).
  assert (t ≤ u) as Htu by (unfold u, day_time, day_of in *; lia).
  assert (day_ok u) as Hdayu. { apply (day_ok_time cex Hwf Hdays). by rewrite Hdu. }
  assert (¬ day_ok t) as Hno. { rewrite (day_ok_time cex Hwf Hdays). apply H3. lia. }
  apply (restart_ok b); try done.
  - intros HE v Hv (Hvs & _ & _ & Hvd & _). destruct (Z.lt_ge_cases (day_of v) n) as [Hlt|Hge].
    + apply (day_ok_time cex Hwf Hdays) in Hvd. revert Hvd. apply H3. unfold day_of in *. lia.
    + apply (low_clear b t v Hlow HE); [|done]. unfold u, day_time, day_of in *. lia.
  - unfold u, day_time. lia.
  - pose proof (month_index_mono t u Htu). unfold measure, rank in *.
    rewrite (cost_0 (min_ok t)), (cost_0 (hour_ok t)), (cost_1 (day_ok t)), (cost_0 (safe 24 _ (t / 3600))), (cost_0 (safe 60 _ (t / 60))) in Hb by (done || by apply safe_ok).
    rewrite (cost_0 (day_ok u)) by done. destruct Hwf as (_ & [[x Hx] HxS] & [[y Hy] HyS] & _).
    rewrite (cost_0 (safe 24 _ (u / 3600))), (cost_0 (safe 60 _ (u / 60))); [costs; lia| |].
    + exists x. split; [done|]. specialize (HxS x Hx). unfold u, day_time. cbn. lia.
    + exists y. split; [done|]. specialize (HyS y Hy). unfold u, day_time. cbn. lia.
  - intros v Hv. apply noop_month, Hv.
Qed.
Lemma hour_stage_ok b t :
  restartable t → measure t ≤ bound → sec_ok t → min_ok t → low b t →
  result_ok t (find_next_hour_stage again cex dot (marks b [minute]) (gmtime t)).
Proof.
  intros Hre Hb Hs Hmi Hlow. pose proof Hre as (Ht & Hdot & _). pose proof (second_left_bound b t) as Hsl.
  pose proof Hwf as (_ & [[x Hx] HxS] & HhS & _).
  assert (clock_field hour_of_day day_of_week 3600 24) as Hclock by (unfold clock_field; tauto).
  destruct (find_next_field_clock _ _ _ _ Hclock (ce_hours cex) (marks b [minute]) HhS ltac:(apply marks_markable; split_and!; not_marked) t Ht)
    as (q & Hq & Hsame & Hfound).
  unfold find_next_hour_stage. change (tm_hour (gmtime t)) with (get_field (gmtime t) hour_of_day). rewrite Hfound, bind_Ret.
  rewrite (get_clock _ _ _ _ Hclock t). destruct (decide (t / 3600 = q)) as [<-|Hne].
  { rewrite bool_decide_eq_true_2 by done. settle_unchanged. apply day_stage_ok; try done. apply Hq. }
  rewrite bool_decide_eq_false_2 by (intros [= He]; apply Hne; symmetry; by apply Hsame). pose proof Hq as (H1 & H2 & H3). rewrite lowered_minute by lia.
  replace ((q * 3600 + t mod 3600) / 3600) with q by lia.
  assert (second_left b (q * 3600 + t mod 3600) = second_left b t) as -> by (unfold second_left; destruct b; lia).
  set (u := q * 3600 + second_left b t). assert (u / 3600 = q) as Huq by (unfold u; lia).
  apply (restart_ok b); try done.
  - unfold u. lia.
  - intros HE v Hv (Hvs & _ & Hvh & _). destruct (Z.lt_ge_cases (v / 3600) q) as [Hlt|Hge].
    + revert Hvh. apply H3. lia.
    + apply (low_clear b t v Hlow HE); [|done]. unfold u in *. lia.
  - unfold u. lia.
  - assert (t ≤ u) as Htu by (unfold u; lia). pose proof (month_index_mono t u Htu). unfold measure, rank in *.
    rewrite (cost_0 (min_ok t)), (cost_1 (hour_ok t)), (cost_0 (safe 60 _ (t / 60))) in Hb;
      [|by apply safe_ok|intros Hh; revert Hh; apply H3; lia|done].
    assert (hour_ok u) as Hhu by (unfold hour_ok; by rewrite Huq).
    assert (safe 60 (ce_minutes cex) (u / 60)) as Hmu. { exists x. split; [done|]. specialize (HxS x Hx). unfold u. cbn. lia. }
    rewrite (cost_0 (hour_ok u)), (cost_0 (safe 60 _ (u / 60))), (cost_0 (safe 24 _ (u / 3600))) by (done || by apply safe_ok).
    destruct (decide (safe 24 (ce_hours cex) (t / 3600))) as [Hsafe|Hsafe].
    + pose proof (safe_same 24 _ _ _ HhS ltac:(lia) Hq Hsafe) as Hday.
      assert (day_of u = day_of t) as Hd by (unfold day_of; lia).
      rewrite (cost_day u t Hd).
      revert Hb. costs. lia.
    + rewrite (cost_1 (safe 24 _ _)) in Hb by done. revert Hb. costs. lia.
  - intros v (_ & _ & _ & ? & ?). by apply noop_day.
Qed.
Lemma minute_stage_ok b t :
  restartable t → measure t ≤ bound → sec_ok t → low b t →
  result_ok t (find_next_minute_stage again cex dot (marks b []) (gmtime t)).
Proof.
  intros Hre Hb Hs Hlow. pose proof Hre as (Ht & Hdot & _). pose proof (second_left_bound b t) as Hsl. pose proof Hwf as (_ & HmS & HhS & _).
  assert (clock_field minute hour_of_day 60 60) as Hclock by (unfold clock_field; tauto).
  destruct (find_next_field_clock _ _ _ _ Hclock (ce_minutes cex) (marks b []) HmS ltac:(apply marks_markable; split_and!; not_marked) t Ht)
    as (q & Hq & Hsame & Hfound).
  unfold find_next_minute_stage. change (tm_min (gmtime t)) with (get_field (gmtime t) minute). rewrite Hfound, bind_Ret.
  rewrite (get_clock _ _ _ _ Hclock t). destruct (decide (t / 60 = q)) as [<-|Hne].
  { rewrite bool_decide_eq_true_2 by done. settle_unchanged. apply hour_stage_ok; try done. apply Hq. }
  rewrite bool_decide_eq_false_2 by (intros [= He]; apply Hne; symmetry; by apply Hsame). pose proof Hq as (H1 & H2 & H3). rewrite lowered_none by lia.
  replace ((q * 60 + t mod 60) / 60) with q by lia.
  assert (second_left b (q * 60 + t mod 60) = second_left b t) as -> by (unfold second_left; destruct b; lia).
  set (u := q * 60 + second_left b t). assert (u / 60 = q) as Huq by (unfold u; lia).
  apply (restart_ok b); try done.
  - unfold u. lia.
  - intros HE v Hv (Hvs & Hvm & _). destruct (Z.lt_ge_cases (v / 60) q) as [Hlt|Hge].
    + revert Hvm. apply H3. lia.
    + apply (low_clear b t v Hlow HE); [|done]. unfold u in *. lia.
  - unfold u. lia.
  - assert (t ≤ u) as Htu by (unfold u; lia). pose proof (month_index_mono t u Htu). unfold measure, rank in *.
    rewrite (cost_1 (min_ok t)) in Hb by (intros Hh; revert Hh; apply H3; lia).
    assert (min_ok u) as Hmu by (unfold min_ok; by rewrite Huq).
    rewrite (cost_0 (min_ok u)), (cost_0 (safe 60 _ (u / 60))) by (done || by apply safe_ok).
    destruct (decide (safe 60 (ce_minutes cex) (t / 60))) as [Hsafe|Hsafe].
    + pose proof (safe_same 60 _ _ _ HmS ltac:(lia) Hq Hsafe) as Hhour.
      assert (u / 3600 = t / 3600) as Hh by lia. assert (day_of u = day_of t) as Hd by (unfold day_of; lia).
      rewrite (cost_day u t Hd).
      assert (cost (hour_ok u) = cost (hour_ok t)) as -> by (apply cost_iff; unfold hour_ok; by rewrite Hh). rewrite Hh. revert Hb. costs. lia.
    + rewrite (cost_1 (safe 60 _ _)) in Hb by done. revert Hb. costs. lia.
  - intros v (_ & _ & ? & ? & ?). by apply noop_hour.
Qed.
End stages.

(** ** The whole search *)
Lemma measure_minute u t : u / 60 = t / 60 → measure u = measure t.
Proof.
  intros H. assert (u / 3600 = t / 3600) as Hh by lia. assert (day_of u = day_of t) as Hd by (unfold day_of; lia). unfold measure, rank.
  rewrite (cost_day u t Hd), (month_index_day u t Hd), H, Hh. do 2 f_equal.
  by rewrite (cost_iff (min_ok u) (min_ok t)), (cost_iff (hour_ok u) (hour_ok t)) by (unfold min_ok, hour_ok; by rewrite ?H, ?Hh).
Qed.
(** A second that moves, moves to the first one of the range. *)
Lemma moved_second_low t q : least sec_ok t q → t ≠ q → earliest_mode → ∀ s, s ∈ ce_seconds cex → q mod 60 ≤ s.
Proof.
  intros (H1 & H2 & H3) Hne [Hconvex _] s Hs. destruct Hwf as [[_ HS] _]. specialize (HS s Hs). destruct (Z.le_gt_cases (q mod 60) s) as [|Hlt]; [done|exfalso].
  destruct (Z.le_gt_cases t (q / 60 * 60 + s)).
  - apply (H3 (q / 60 * 60 + s)); [lia|]. unfold sec_ok. by rewrite parts_mod by lia.
  - apply (H3 t); [lia|]. apply (Hconvex s (q mod 60)); [done|done|lia].
Qed.
Lemma find_next_step n t :
  (∀ u, restartable u → measure u < Z.of_nat n → result_ok u (find_next n cex (gmtime u) dot)) →
  0 ≤ t → dot ≤ month_index t / 12 → (∀ q, least sec_ok t q → measure q ≤ Z.of_nat n) →
  result_ok t (find_next (S n) cex (gmtime t) dot).
Proof.
  intros Hagain Ht Hdot Hm. pose proof Hwf as (HsS & _).
  assert (clock_field second minute 1 60) as Hclock by (unfold clock_field; tauto).
  destruct (find_next_field_clock _ _ _ _ Hclock (ce_seconds cex) [] HsS ltac:(split_and!; not_marked) t Ht) as (q & Hq & Hsame & Hfound).
  cbn [find_next]. change (tm_sec (gmtime t)) with (get_field (gmtime t) second). rewrite Hfound, bind_Ret, get_second.
  rewrite Z.div_1_r in *. replace (t mod 1) with 0 by lia. replace (q * 1 + 0) with q by lia.
  assert ((if decide (t = q) then t else lowered [] q) = q) as ->.
  { destruct (decide (t = q)); [done|]. unfold lowered, lowered_field. by decide_marks. }
  set (b := bool_decide (Some (q mod 60) = Some (t mod 60))).
  replace (if b then mark_field [] second else []) with (marks b []) by (by destruct b).
  pose proof Hq as (H1 & H2 & H3). apply (result_ok_extend t q); [done| |].
  { intros _ v Hv (Hvs & _). by apply (H3 v). }
  apply (minute_stage_ok _ (Z.of_nat n)); [done| |by apply Hm|done|].
  - split_and!; [lia|pose proof (month_index_mono t q H1); lia|by apply safe_ok].
  - destruct (decide (t = q)) as [<-|Hne]; [left; by apply bool_decide_eq_true_2|]. right. by apply (moved_second_low t).
Qed.
Lemma find_next_ok n : ∀ t, restartable t → measure t < Z.of_nat n → result_ok t (find_next n cex (gmtime t) dot).
Proof.
  induction n as [|n IH]; intros t Hre Hm.
  { exfalso. pose proof (rank_bound t). unfold measure in Hm. lia. }
  pose proof Hre as (Ht & Hdot & Hsafe). apply find_next_step; [done|done|done|].
  intros q Hq. rewrite (measure_minute q t); [lia|]. apply (safe_same 60 (ce_seconds cex)); [apply Hwf|lia|done|done].
Qed.
Lemma find_next_total t : 0 ≤ t → dot = month_index t / 12 → result_ok t (find_next find_fuel cex (gmtime t) dot).
Proof.
  intros Ht Hdot. unfold find_fuel. apply find_next_step; [apply find_next_ok|done|lia|].
  intros q (Hq & _). pose proof (rank_bound q). pose proof (month_index_mono t q Hq). unfold measure. lia.
Qed.
End search.

(** ** The result of [cron_next] *)
Lemma make_cron_wf expr cex : make_cron expr = Ret cex → wf_cron cex.
Proof.
  intros H. destruct (proj2 (make_cron_total expr) cex H) as (R1 & R2 & R3 & R4 & R5 & R6).
  destruct (make_cron_nonempty expr cex H) as (N1 & N2 & N3 & N4 & N5 & N6).
  split_and!; (split; [done|]); intros x Hx; [specialize (R1 x Hx)|specialize (R2 x Hx)|specialize (R3 x Hx)|specialize (R6 x Hx)|specialize (R4 x Hx)|specialize (R5 x Hx)]; lia.
Qed.
Definition year_of (t : Z) : Z := tm_year (gmtime t).
(** No match after [t] until [n]. *)
Definition none_between (cex : cronexpr) (t n : Z) : Prop := ∀ v, t < v < n → ¬ matches cex v.
Lemma cron_next_found cex t :
  wf_cron cex → days_independent cex → 0 ≤ t →
  (cron_next cex t = Ret INVALID_TIME ∧ (earliest_mode cex → ∀ v, t < v → year_of v ≤ year_of t + 4 → ¬ matches cex v)) ∨
  (∃ n, cron_next cex t = Ret n ∧ t < n ∧ matches cex n ∧ (earliest_mode cex → none_between cex t n)).
Proof.
  intros Hwf Hdays Ht. assert (∀ v, year_of v = month_index v / 12) as Hyear by (intros v; apply month_index_fields).
  assert (∀ v, 0 ≤ v → result_ok cex (year_of v) v (find_next find_fuel cex (gmtime v) (tm_year (gmtime v)))) as Hfind.
  { intros v Hv. by apply (find_next_total cex Hwf Hdays (year_of v) v). }
  unfold cron_next, tm_to_time, time_to_tm. rewrite timegm_gmtime. destruct (Z.eqb_spec t INVALID_TIME); [unfold INVALID_TIME in *; lia|].
  pose proof (Hfind t Ht) as Hr. destruct (find_next find_fuel cex (gmtime t) _) as [[[] x]|e]; [| |done]; rewrite bind_Ret; cbn [negb].
  2:{ left. split; [done|]. intros HE v Hv Hy. apply Hr; [done|lia|]. rewrite <-Hyear. lia. }
  destruct Hr as (u & -> & Hu & Hm & Hcl). rewrite timegm_gmtime. destruct (Z.eqb_spec u INVALID_TIME); [unfold INVALID_TIME in *; lia|].
  destruct (Z.eqb_spec u t) as [->|Hne].
  2:{ right. exists u. cbn [fst]. rewrite ?timegm_gmtime. split_and!; [done|lia|done|]. intros HE v Hv. apply Hcl; [done|lia]. }
  rewrite add_to_field_at by (done || cbn; lia). rewrite bind_Ret. cbn [field_seconds]. replace (t + 1 * 1) with (t + 1) by lia.
  pose proof (Hfind (t + 1) ltac:(lia)) as Hr. destruct (find_next find_fuel cex (gmtime (t + 1)) _) as [[[] x]|e]; [| |done]; rewrite bind_Ret; cbn [negb].
  - destruct Hr as (w & -> & Hw & Hmw & Hclw). rewrite timegm_gmtime. right. exists w. cbn [fst]. rewrite ?timegm_gmtime. split_and!; [done|lia|done|].
    intros HE v Hv. apply Hclw; [done|lia].
  - left. split; [done|]. intros HE v Hv Hy. apply Hr; [done|lia|]. rewrite <-Hyear. pose proof (month_index_mono t (t + 1)). rewrite !Hyear in *. lia.
Qed.
(** C14: the next date of an expression with [*] for the day of the month or for
    the day of the week, from any date since 1970. The search always ends,
    without an exception. Its result is a later date that satisfies the
    expression, or [INVALID_TIME]. When the seconds form one range and no month
    is excluded (or no day after the 28th is allowed), the result is the
    earliest such date, and [INVALID_TIME] means that there is none until the
    end of the fourth year ahead. *)
Theorem cron_next_spec expr cex t :
  make_cron expr = Ret cex → days_independent cex → 0 ≤ t →
  (cron_next cex t = Ret INVALID_TIME ∧ (earliest_mode cex → ∀ v, t < v → year_of v ≤ year_of t + 4 → ¬ matches cex v)) ∨
  (∃ n, cron_next cex t = Ret n ∧ t < n ∧ matches cex n ∧ (earliest_mode cex → none_between cex t n)).
Proof. intros H. apply cron_next_found. by eapply make_cron_wf. Qed.
(** The two overloads agree. *)
Lemma cron_next_tm_agrees cex t n :
  wf_cron cex → days_independent cex → 0 ≤ t → cron_next cex t = Ret n →
  cron_next_tm cex (gmtime t) = Ret (if n =? INVALID_TIME then zero_tm else gmtime n).
Proof.
  intros Hwf Hdays Ht. unfold cron_next, cron_next_tm, tm_to_time, time_to_tm. rewrite ?timegm_gmtime.
  destruct (Z.eqb_spec t INVALID_TIME); [unfold INVALID_TIME in *; lia|].
  pose proof (find_next_total cex Hwf Hdays (year_of t) t Ht (proj1 (proj2 (month_index_fields t)))) as Hr. unfold year_of in Hr.
  destruct (find_next find_fuel cex (gmtime t) _) as [[[] x]|e]; [| |done]; rewrite !bind_Ret; cbn [negb]; [|by intros [= <-]].
  destruct Hr as (u & -> & Hu & _). rewrite ?timegm_gmtime. destruct (Z.eqb_spec u INVALID_TIME); [unfold INVALID_TIME in *; lia|].
  destruct (Z.eqb_spec u t) as [->|Hne].
  2:{ cbn [fst]. rewrite ?timegm_gmtime. intros [= <-]. by destruct (Z.eqb_spec u INVALID_TIME). }
  rewrite add_to_field_at by (done || cbn; lia). rewrite !bind_Ret. cbn [field_seconds]. replace (t + 1 * 1) with (t + 1) by lia.
  pose proof (find_next_total cex Hwf Hdays (year_of (t + 1)) (t + 1) ltac:(lia) (proj1 (proj2 (month_index_fields (t + 1))))) as Hr. unfold year_of in Hr.
  destruct (find_next find_fuel cex (gmtime (t + 1)) _) as [[[] x]|e]; [| |done]; rewrite !bind_Ret; cbn [negb]; [|by intros [= <-]].
  destruct Hr as (w & -> & Hw & _). cbn [fst]. rewrite ?timegm_gmtime. intros [= <-]. destruct (Z.eqb_spec w INVALID_TIME); [unfold INVALID_TIME in *; lia|done].
Qed.

(** ** Concrete dates *)
Lemma every_spec size target : forallb (λ x, bool_decide (x ∈ target)) (Z.of_nat <$> seq 0 (Z.to_nat size)) = true → every size target.
Proof.
  rewrite forallb_forall. intros H x Hx. apply (bool_decide_eq_true_1 _), H, list_elem_of_In, list_elem_of_fmap. exists (Z.to_nat x).
  split; [lia|]. apply elem_of_seq. lia.
Qed.
Definition utc (y mon d h m s : Z) : Z := timegm (mk_tm s m h d (mon - 1) (y - 1900) 0).
Definition empty_expr : cronexpr := mk_cronexpr ∅ ∅ ∅ ∅ ∅ ∅ [].
Definition parsed (expr : string) : cronexpr := match make_cron (str expr) with Ret cex => cex | Throw _ => empty_expr end.
#[global] Instance matches_dec cex t : Decision (matches cex t).
Proof. unfold matches, sec_ok, min_ok, hour_ok, mon_ok. apply _. Defined.
Theorem cron_next_spec_witness :
  make_cron (str "0 30 9 * * *") = Ret (parsed "0 30 9 * * *") ∧
  ∃ n, cron_next (parsed "0 30 9 * * *") (utc 2024 2 28 10 0 20) = Ret n ∧ matches (parsed "0 30 9 * * *") n ∧ n = utc 2024 2 29 9 30 0.
Proof.
  assert (make_cron (str "0 30 9 * * *") = Ret (parsed "0 30 9 * * *")) as Hp by (by vm_compute). split; [exact Hp|].
  assert (days_independent (parsed "0 30 9 * * *")) as Hd by (left; apply every_spec; by vm_compute).
  assert (0 ≤ utc 2024 2 28 10 0 20) as Ht by (by vm_compute).
  assert (cron_next (parsed "0 30 9 * * *") (utc 2024 2 28 10 0 20) = Ret (utc 2024 2 29 9 30 0)) as Hn by (by vm_compute).
  destruct (cron_next_spec _ _ _ Hp Hd Ht) as [[Hi _]|(n & Hc & _ & Hm & _)].
  - rewrite Hn in Hi. exfalso. injection Hi as Hi. by vm_compute in Hi.
  - exists n. rewrite Hn in Hc. injection Hc as <-. split; [exact Hn|]. split; [exact Hm|reflexivity].
Defined.
(** The second is not moved back when the minute moves on: 08:05:30 is found
    although 08:05:10 is allowed. *)
Lemma second_not_reset :
  cron_next (parsed "10,30 5 * * * *") (utc 2024 8 13 8 0 20) = Ret (utc 2024 8 13 8 5 30) ∧
  bool_decide (matches (parsed "10,30 5 * * * *") (utc 2024 8 13 8 5 10)) = true.
Proof. split; by vm_compute. Qed.
(** The month is set while the day is the 31st: the date runs over into March,
    and February is left out for a year. *)
Lemma month_skipped :
  cron_next (parsed "0 0 0 * 2 *") (utc 2024 1 31 0 0 0) = Ret (utc 2025 2 1 0 0 0) ∧
  bool_decide (matches (parsed "0 0 0 * 2 *") (utc 2024 2 1 0 0 0)) = true.
Proof. split; by vm_compute. Qed.
(** The day search gives up after 366 days, which may end on the same day of
    the month: the result is a Friday although only Mondays are allowed. *)
Lemma day_search_gives_up :
  cron_next (parsed "0 0 0 31 * 1") (utc 2024 1 31 0 0 0) = Ret (utc 2025 1 31 0 0 0) ∧
  bool_decide (matches (parsed "0 0 0 31 * 1") (utc 2025 1 31 0 0 0)) = false.
Proof. split; by vm_compute. Qed.
(** A day found in a later month under the same number is taken for unchanged:
    the time, reset on the way, is not searched again. *)
Lemma same_number_taken_for_unchanged :
  cron_next (parsed "0 30 9 13 * 5") (utc 2024 8 13 9 30 0) = Ret (utc 2024 9 13 0 0 0) ∧
  bool_decide (matches (parsed "0 30 9 13 * 5") (utc 2024 9 13 0 0 0)) = false.
Proof. split; by vm_compute. Qed.
