(* ===== verification/CronJob.v ===== *)
(** * Cron jobs and their scheduler ([cron/CronJob.hpp], [cron/CronScheduler.hpp])

    A job is a timer that runs a task at the dates of its expression. The
    handlers of the timer run on any thread of the pool. Each call of the owner is
    one step; the handler of an expired timer is three: it tests [is_running_],
    it begins the task ([run()]), which takes time, and it schedules the next
    date. *)
From S2P Require Import Prelude Text Cron CronTheorems Calendar CronNext CronNextSteps CronNextTheorems.
Set Default Proof Using "Type*".
#[local] Open Scope Z_scope.

(** ** [CronJob] *)
Module CronJob.
(** What a wait is for, and the date it was armed for (seconds; the delayed
    start has none). *)
Inductive wait_kind := Delay | Next (expiry : Z).
#[global] Instance wait_kind_eq_dec : EqDecision wait_kind.
Proof. solve_decision. Defined.
Inductive timer_error := operation_aborted | timer_failed.
#[global] Instance timer_error_eq_dec : EqDecision timer_error.
Proof. solve_decision. Defined.
(** A wait is armed until the timer expires or is cancelled; its completion is
    then queued and can no longer be cancelled. *)
Inductive wait := Armed (k : wait_kind) | Queued (k : wait_kind) (ec : option timer_error).
Record t := mk {
  cron_expr_ : cronexpr; is_running_ : bool;
  waits : list wait;
  entering : list Z;                      (** handlers past the test of [is_running_], before [run()] *)
  in_task : list Z }.                     (** tasks in [run()], with their dates *)
Definition create (expression : bytes) : result t :=
  cex ← make_cron expression;
  Ret (mk cex false [] [] []).
Definition with_running (b : bool) (j : t) : t := mk (cron_expr_ j) b (waits j) (entering j) (in_task j).
Definition with_waits (w : list wait) (j : t) : t := mk (cron_expr_ j) (is_running_ j) w (entering j) (in_task j).
(** [timer_.cancel()], which setting a new expiry does as well. *)
Definition cancel_wait (w : wait) : wait := match w with Armed k => Queued k (Some operation_aborted) | _ => w end.
Definition cancel (j : t) : t := with_waits (cancel_wait <$> waits j) j.
Definition arm (k : wait_kind) (j : t) : t := let j := cancel j in with_waits (waits j ++ [Armed k]) j.

(** [now] is [std::time(nullptr)]. *)
Definition schedule_next (now : Z) (j : t) : result t :=
  if negb (is_running_ j) then Ret j
  else
    next ← cron_next (cron_expr_ j) now;
    Ret (arm (Next next) j).
Definition start (delay_ms now : Z) (j : t) : result t :=
  if is_running_ j then Ret j
  else
    let j := with_running true j in
    if 0 <? delay_ms then Ret (arm Delay j) else schedule_next now j.
Definition stop (j : t) : t := cancel (with_running false j).
(** The handler of a completed wait. *)
Definition on_delay (ec : option timer_error) (now : Z) (j : t) : result t :=
  if bool_decide (ec = None) && is_running_ j then schedule_next now j else Ret j.
Definition on_timer (expiry : Z) (ec : option timer_error) (j : t) : t :=
  if bool_decide (ec = Some operation_aborted) then j
  else if negb (is_running_ j) then j
  else match ec with
  | Some _ => j
  | None => mk (cron_expr_ j) (is_running_ j) (waits j) (entering j ++ [expiry]) (in_task j)
  end.
(** The handler goes on: [run()] begins; [rest] are the other handlers that are
    about to. *)
Definition begin_task (expiry : Z) (rest : list Z) (j : t) : t :=
  mk (cron_expr_ j) (is_running_ j) (waits j) rest (in_task j ++ [expiry]).
Definition handle (k : wait_kind) (ec : option timer_error) (now : Z) (j : t) : result t :=
  match k with Delay => on_delay ec now j | Next expiry => Ret (on_timer expiry ec j) end.
(** [run()] has returned or thrown a [std::exception], which is only logged. *)
Definition after_task (now : Z) (j : t) : result t := if is_running_ j then schedule_next now j else Ret j.
End CronJob.

(** ** [CronScheduler]

    The jobs live in a store; the scheduler lists the ones it holds. *)
Module CronScheduler.
Record scheduler := mk { store : gmap N CronJob.t; jobs_ : list N }.
Definition with_job (id : N) (j : CronJob.t) (s : scheduler) : scheduler := mk (<[id:=j]> (store s)) (jobs_ s).
(** [schedule]: the job is created and started, then listed under the lock. *)
Definition schedule_start (id : N) (expression : bytes) (delay_ms now : Z) (s : scheduler) : result scheduler :=
  j ← CronJob.create expression;
  j ← CronJob.start delay_ms now j;
  Ret (with_job id j s).
Definition schedule_push (id : N) (s : scheduler) : scheduler := mk (store s) (jobs_ s ++ [id]).
Definition stop_one (id : N) (s : scheduler) : scheduler :=
  match store s !! id with Some j => with_job id (CronJob.stop j) s | None => s end.
Definition stop_all (s : scheduler) : scheduler := foldl (λ s id, stop_one id s) (mk (store s) []) (jobs_ s).
(** [job] is [None] for a null pointer. *)
Definition unschedule (job : option N) (s : scheduler) : scheduler :=
  match job with
  | None => s
  | Some id => let s := stop_one id s in mk (store s) (filter (λ i, i ≠ id) (jobs_ s))
  end.
Definition is_running (s : scheduler) (id : N) : bool := match store s !! id with Some j => CronJob.is_running_ j | None => false end.
Definition prune_stopped (s : scheduler) : scheduler := mk (store s) (filter (λ id, is_running s id = true) (jobs_ s)).
Definition job_count (s : scheduler) : nat := length (jobs_ s).
End CronScheduler.

(** ** Properties of a job *)
Section job.
Import CronJob.
(** A job with the clock, the dates its task was begun for, each with the time
    it was begun at, and whether a wait failed. *)
Record job_run := mk_job_run { jr_job : t; jr_now : Z; jr_begun : list (Z * Z); jr_failed : bool }.
Definition due (k : wait_kind) (now : Z) : Prop := match k with Delay => True | Next expiry => expiry ≤ now end.
Inductive job_step : job_run → job_run → Prop :=
| job_tick j now b f k : 0 ≤ k → job_step (mk_job_run j now b f) (mk_job_run j (now + k) b f)
| job_start j now b f delay j' :
    start delay now j = Ret j' → job_step (mk_job_run j now b f) (mk_job_run j' now b f)
| job_stop j now b f : job_step (mk_job_run j now b f) (mk_job_run (stop j) now b f)
| job_expire j now b f l1 k l2 :
    waits j = l1 ++ Armed k :: l2 → due k now →
    job_step (mk_job_run j now b f) (mk_job_run (with_waits (l1 ++ Queued k None :: l2) j) now b f)
| job_fail j now b f l1 k l2 :
    waits j = l1 ++ Armed k :: l2 →
    job_step (mk_job_run j now b f) (mk_job_run (with_waits (l1 ++ Queued k (Some timer_failed) :: l2) j) now b true)
| job_handle j now b f l1 k ec l2 j' :
    waits j = l1 ++ Queued k ec :: l2 → handle k ec now (with_waits (l1 ++ l2) j) = Ret j' →
    job_step (mk_job_run j now b f) (mk_job_run j' now b f)
| job_begin j now b f l1 d l2 :
    entering j = l1 ++ d :: l2 → job_step (mk_job_run j now b f) (mk_job_run (begin_task d (l1 ++ l2) j) now (b ++ [(d, now)]) f)
| job_task_done j now b f l1 d l2 j' :
    in_task j = l1 ++ d :: l2 → after_task now (mk (cron_expr_ j) (is_running_ j) (waits j) (entering j) (l1 ++ l2)) = Ret j' →
    job_step (mk_job_run j now b f) (mk_job_run j' now b f).

Definition is_good (w : wait) : bool := match w with Queued _ None => true | _ => false end.
Definition good (l : list wait) : nat := length (List.filter is_good l).
Lemma good_cancel l : good (cancel_wait <$> l) = good l.
Proof. induction l as [|[|k []] l IH]; [done|exact IH|exact IH|]. unfold good in *. cbn. by rewrite IH. Qed.

Context (cex : cronexpr) (Hwf : wf_cron cex) (Hdays : days_independent cex).
(** With these expressions scheduling does not throw. *)
Lemma schedule_next_total j now : cron_expr_ j = cex → 0 ≤ now → ∃ j', schedule_next now j = Ret j'.
Proof.
  intros Hcex Hn. unfold schedule_next. destruct (negb _); [by eexists|]. rewrite Hcex.
  destruct (cron_next_found cex now Hwf Hdays Hn) as [[-> _]|(m & -> & _)]; by eexists.
Qed.
End job.
(** An expression without a date in the next years: the timer is set to
    [INVALID_TIME], a second before the epoch, and is due at once, so the task
    runs again and again without a pause. *)
Definition no_date_job : CronJob.t := CronJob.mk (parsed "0 0 0 30 2 *") true [] [] [].
Lemma invalid_time_due_at_once :
  CronJob.schedule_next (utc 2024 1 1 0 0 0) no_date_job = Ret (CronJob.arm (CronJob.Next INVALID_TIME) no_date_job) ∧
  due (CronJob.Next INVALID_TIME) (utc 2024 1 1 0 0 0).
Proof. split; by vm_compute. Qed.
(** A failed wait is only logged: the job stays "running" with no timer, and
    [start] does nothing. *)
Lemma failed_timer_stays_running j now delay d :
  CronJob.is_running_ j = true → CronJob.waits j = [] →
  CronJob.handle (CronJob.Next d) (Some CronJob.timer_failed) now j = Ret j ∧ CronJob.start delay now j = Ret j.
Proof. intros Hr Hw. cbn. unfold CronJob.on_timer, CronJob.start. by rewrite Hr. Qed.

(** A [stop] between the test and the task does not prevent it: the task begins
    although the job is stopped. *)
Lemma task_begins_after_stop j now b f d :
  CronJob.is_running_ j = true → CronJob.entering j = [] →
  let j1 := CronJob.on_timer d None j in
  job_step (mk_job_run j1 now b f) (mk_job_run (CronJob.stop j1) now b f) ∧
  CronJob.is_running_ (CronJob.stop j1) = false ∧
  job_step (mk_job_run (CronJob.stop j1) now b f) (mk_job_run (CronJob.begin_task d [] (CronJob.stop j1)) now (b ++ [(d, now)]) f).
Proof.
  intros Hr He j1. split_and!; [apply job_stop|done|]. refine (job_begin _ _ _ _ [] d [] _).
  unfold j1, CronJob.on_timer. rewrite Hr. cbn. by rewrite He.
Qed.

(** ** Properties of the scheduler *)
Section scheduler.
Import CronScheduler.
Lemma stop_one_store id s i :
  store (stop_one id s) !! i = if decide (i = id) then CronJob.stop <$> store s !! i else store s !! i.
Proof.
  unfold stop_one. destruct (store s !! id) as [j|] eqn:Hj; cbn [store with_job].
  - destruct (decide (i = id)) as [->|]; [by rewrite lookup_insert_eq, Hj|by rewrite lookup_insert_ne].
  - destruct (decide (i = id)) as [->|]; [by rewrite Hj|done].
Qed.
Lemma stop_one_jobs id s : jobs_ (stop_one id s) = jobs_ s.
Proof. unfold stop_one. by destruct (store s !! id). Qed.
Lemma stop_twice j : CronJob.stop (CronJob.stop j) = CronJob.stop j.
Proof.
  unfold CronJob.stop, CronJob.cancel, CronJob.with_waits, CronJob.with_running. cbn. f_equal. rewrite <-list_fmap_compose.
  apply list_fmap_ext. by intros ? [].
Qed.
Lemma stop_list_spec ids s :
  jobs_ (foldl (λ s id, stop_one id s) s ids) = jobs_ s ∧
  ∀ i, store (foldl (λ s id, stop_one id s) s ids) !! i = if decide (i ∈ ids) then CronJob.stop <$> store s !! i else store s !! i.
Proof.
  revert s. induction ids as [|id ids IH]; intros s; cbn [foldl]; [by split|].
  destruct (IH (stop_one id s)) as [Hj Hs]. rewrite Hj, stop_one_jobs. split; [done|]. intros i. rewrite Hs, stop_one_store.
  destruct (decide (i ∈ ids)), (decide (i = id)), (decide (i ∈ id :: ids)) as [Hi|Hi]; try done.
  all: try (by exfalso; apply Hi; set_solver). all: try (by exfalso; apply elem_of_cons in Hi as [?|?]).
  destruct (store s !! i) as [j|]; [|done]. cbn. by rewrite stop_twice.
Qed.
(** The operations of the scheduler. [stop_all] empties the list and stops
    every job it held, and no other; [unschedule] stops one job and takes it
    alone off the list, a null pointer changes nothing; [prune_stopped] keeps
    exactly the running jobs, in order, and stops none. *)
Theorem scheduler_spec s :
  (jobs_ (stop_all s) = [] ∧
   ∀ i, store (stop_all s) !! i = if decide (i ∈ jobs_ s) then CronJob.stop <$> store s !! i else store s !! i) ∧
  (∀ id, (∀ i, i ∈ jobs_ (unschedule (Some id) s) ↔ i ∈ jobs_ s ∧ i ≠ id) ∧ is_running (unschedule (Some id) s) id = false ∧
         ∀ i, i ≠ id → store (unschedule (Some id) s) !! i = store s !! i) ∧
  unschedule None s = s ∧
  ((∀ i, i ∈ jobs_ (prune_stopped s) ↔ i ∈ jobs_ s ∧ is_running s i = true) ∧ store (prune_stopped s) = store s ∧
   sublist (jobs_ (prune_stopped s)) (jobs_ s) ∧ (job_count (prune_stopped s) ≤ job_count s)%nat).
Proof.
  split_and!; try done.
  - apply (proj1 (stop_list_spec (jobs_ s) (mk (store s) []))).
  - apply (proj2 (stop_list_spec (jobs_ s) (mk (store s) []))).
  - intros id. unfold unschedule. cbn [jobs_ store]. rewrite stop_one_jobs. split_and!.
    + intros i. rewrite list_elem_of_filter. tauto.
    + unfold is_running. cbn [store]. rewrite stop_one_store, decide_True by done. by destruct (store s !! id).
    + intros i Hi. by rewrite stop_one_store, decide_False.
  - intros i. unfold prune_stopped. cbn [jobs_]. rewrite list_elem_of_filter. tauto.
  - apply sublist_filter.
  - unfold job_count, prune_stopped. cbn [jobs_]. apply length_filter.
Qed.
(** [schedule] starts the job before it lists it: a [stop_all] in between
    misses the job, which runs on. *)
Lemma schedule_races_stop_all :
  ∃ s1, schedule_start 1 (str "* * * * * *") 0 0 (mk ∅ []) = Ret s1 ∧
    let s2 := schedule_push 1 (stop_all s1) in is_running s2 1 = true ∧ jobs_ s2 = [1%N].
Proof.
  exists (mk {[1%N := CronJob.mk (parsed "* * * * * *") true [CronJob.Armed (CronJob.Next 1)] [] []]} []).
  split; [by vm_compute|]. split; [|done]. unfold is_running. cbn. by rewrite lookup_singleton_eq.
Qed.
End scheduler.
