(* ===== verification/Server.v ===== *)
(** * Server and thread pool ([server.cpp], [server.hpp], [io_context_pool.hpp])

    The pool is a process-wide singleton: one [io_context], its work guard and
    its worker threads. The server accepts on it. Sockets and threads are
    numbers; what the operating system answers is an argument. *)
From S2P Require Import Prelude Text.
Set Default Proof Using "Type*".

(** ** [IoContextPool] *)
Module IoContextPool.
Record pool_state := mk {
  ioc_stopped : bool; work_guard_ : bool; stopped_ : bool;
  threads_ : list N;                     (** the workers, each in [ioc_.run()] *)
  joined : list N }.
Inductive error := join_self (thread : N).   (** [std::system_error], resource_deadlock_would_occur *)

(** [unsigned int] counts. *)
Definition u32 (z : Z) : Z := (z mod 2 ^ 32)%Z.
Definition thread_count (num_threads hardware : Z) : Z :=
  if bool_decide (u32 num_threads = 0)%Z then (if bool_decide (hardware = 0)%Z then 1 else hardware)%Z else u32 num_threads.
Definition create (count : Z) : pool_state :=
  mk false true false (N.of_nat <$> seq 1 (Z.to_nat (if bool_decide (count <= 0)%Z then 1 else count)%Z)) [].
(** The static local of [instance]: only the first call decides. *)
Definition instance (pool : option pool_state) (num_threads hardware : Z) : pool_state :=
  match pool with Some p => p | None => create (thread_count num_threads hardware) end.
Definition get_thread_count (p : pool_state) : nat := length (threads_ p).
Definition stop_pool (p : pool_state) : pool_state :=
  if stopped_ p then p else mk true false true (threads_ p) (joined p).
(** [self]: the thread that calls; a worker cannot join itself. *)
Definition shutdown (self : N) (p : pool_state) : outcome error pool_state :=
  let p := stop_pool p in
  if bool_decide (self ∈ threads_ p) then Throw (join_self self)
  else Ret (mk (ioc_stopped p) (work_guard_ p) (stopped_ p) [] (joined p ++ threads_ p)).
(** [ioc_.run()] blocks unless the context is stopped. *)
Definition run_blocks (p : pool_state) : bool := negb (ioc_stopped p).
End IoContextPool.

(** ** [Server] *)
Module Server.
Definition default_max_buffered_request_body_size : Z := 16 * 1024 * 1024.
Record t := mk {
  acceptor_open : bool;
  accepting : nat;                       (** [async_accept]s in flight *)
  signal_wait : bool;
  web_root_ : bytes; canonical_web_root_ : bytes;
  max_buffered_request_body_size_ : Z;
  sessions : list (N * Z);               (** sockets handed to an [HttpSession], with its limit *)
  pool : IoContextPool.pool_state;
  in_run : bool; returned : bool }.

(** The constructor: the answers of open, set_option, bind and listen, and the
    canonical form of the web root. *)
Definition step_error (ec : option bytes) (what : string) : outcome bytes unit :=
  match ec with Some message => Throw (str what ++ message) | None => Ret tt end.
Definition construct (open_ec reuse_ec bind_ec listen_ec : option bytes) (web_root : bytes) (canonical : option bytes)
    (p : IoContextPool.pool_state) : outcome bytes t :=
  _ ← step_error open_ec "Failed to open acceptor: ";
  _ ← step_error reuse_ec "Failed to set reuse_address: ";
  _ ← step_error bind_ec "Failed to bind acceptor: ";
  _ ← step_error listen_ec "Failed to listen: ";
  Ret (mk true 0 false web_root (if bool_decide (web_root = []) then [] else default [] canonical)
         default_max_buffered_request_body_size [] p false false).

Definition with_pool (p : IoContextPool.pool_state) (s : t) : t :=
  mk (acceptor_open s) (accepting s) (signal_wait s) (web_root_ s) (canonical_web_root_ s) (max_buffered_request_body_size_ s)
     (sessions s) p (in_run s) (returned s).
Definition set_max_buffered_request_body_size (n : Z) (s : t) : t :=
  mk (acceptor_open s) (accepting s) (signal_wait s) (web_root_ s) (canonical_web_root_ s) n (sessions s) (pool s) (in_run s) (returned s).
Definition do_accept (s : t) : t :=
  mk (acceptor_open s) (S (accepting s)) (signal_wait s) (web_root_ s) (canonical_web_root_ s) (max_buffered_request_body_size_ s)
     (sessions s) (pool s) (in_run s) (returned s).
(** [run] up to [io_context::run]. *)
Definition run_begin (s : t) : t :=
  do_accept (mk (acceptor_open s) (accepting s) true (web_root_ s) (canonical_web_root_ s) (max_buffered_request_body_size_ s)
               (sessions s) (pool s) true (returned s)).
(** [io_context::run] has returned on thread [self]. *)
Definition run_end (self : N) (s : t) : outcome IoContextPool.error t :=
  p ← IoContextPool.shutdown self (pool s);
  Ret (mk (acceptor_open s) (accepting s) (signal_wait s) (web_root_ s) (canonical_web_root_ s) (max_buffered_request_body_size_ s)
         (sessions s) p false true).
(** [acceptor_.close] closes even when it reports an error. *)
Definition stop (s : t) : t :=
  with_pool (IoContextPool.stop_pool (pool s))
    (mk false (accepting s) (signal_wait s) (web_root_ s) (canonical_web_root_ s) (max_buffered_request_body_size_ s)
       (sessions s) (pool s) (in_run s) (returned s)).
(** The completion of one accept: an error, or a socket. *)
Definition on_accept (result : option N) (s : t) : t :=
  let s := mk (acceptor_open s) (pred (accepting s)) (signal_wait s) (web_root_ s) (canonical_web_root_ s) (max_buffered_request_body_size_ s)
              (match result with Some socket => sessions s ++ [(socket, max_buffered_request_body_size_ s)] | None => sessions s end)
              (pool s) (in_run s) (returned s) in
  if acceptor_open s then do_accept s else s.
Definition handle_signal (error : bool) (s : t) : t :=
  let s := mk (acceptor_open s) (accepting s) false (web_root_ s) (canonical_web_root_ s) (max_buffered_request_body_size_ s)
              (sessions s) (pool s) (in_run s) (returned s) in
  if error then s else stop s.
End Server.

(** ** Properties *)
Section server.
Import Server.
(** [run] is called once, on thread [main]; handlers run while the context is
    not stopped (one may still be running when it is). *)
Record server_run := mk_server_run { sr_state : t; sr_called : bool; sr_accepted : list N; sr_stops : nat }.
Inductive server_step (main : N) : server_run → server_run → Prop :=
| server_call_run s a k : server_step main (mk_server_run s false a k) (mk_server_run (run_begin s) true a k)
| server_accept s c a k result :
    0 < accepting s → in_run s = true →
    server_step main (mk_server_run s c a k)
      (mk_server_run (on_accept result s) c (a ++ match result with Some socket => [socket] | None => [] end) k)
| server_signal s c a k error :
    signal_wait s = true → in_run s = true →
    server_step main (mk_server_run s c a k) (mk_server_run (handle_signal error s) c a (if error then k else S k))
| server_stop s c a k : server_step main (mk_server_run s c a k) (mk_server_run (stop s) c a (S k))
| server_limit s c a k n :
    server_step main (mk_server_run s c a k) (mk_server_run (set_max_buffered_request_body_size n s) c a k)
| server_return s c a k s' :
    in_run s = true → IoContextPool.run_blocks (pool s) = false → run_end main s = Ret s' →
    server_step main (mk_server_run s c a k) (mk_server_run s' c a k).

Definition server_inv (r : server_run) : Prop :=
  let s := sr_state r in
  accepting s ≤ 1 ∧ (sr_called r = false → accepting s = 0 ∧ in_run s = false ∧ returned s = false) ∧
  (sr_called r = true → acceptor_open s = true → accepting s = 1) ∧
  (sessions s).*1 = sr_accepted r ∧
  (in_run s = true → sr_called r = true) ∧
  (sr_stops r = 0 → acceptor_open s = true ∧ IoContextPool.ioc_stopped (pool s) = false ∧ IoContextPool.stopped_ (pool s) = false ∧ returned s = false) ∧
  (0 < sr_stops r → acceptor_open s = false ∧ IoContextPool.ioc_stopped (pool s) = true ∧ IoContextPool.stopped_ (pool s) = true) ∧
  (returned s = true → IoContextPool.threads_ (pool s) = []).
Lemma pool_stop_twice p : IoContextPool.stopped_ p = true → IoContextPool.stop_pool p = p.
Proof. intros Hs. unfold IoContextPool.stop_pool. by rewrite Hs. Qed.
Lemma pool_stop_threads p : IoContextPool.threads_ (IoContextPool.stop_pool p) = IoContextPool.threads_ p.
Proof. unfold IoContextPool.stop_pool. by destruct (IoContextPool.stopped_ p). Qed.
Lemma pool_stop_stops p :
  IoContextPool.ioc_stopped p = IoContextPool.stopped_ p →
  IoContextPool.ioc_stopped (IoContextPool.stop_pool p) = true ∧ IoContextPool.stopped_ (IoContextPool.stop_pool p) = true.
Proof. unfold IoContextPool.stop_pool. intros He. destruct (IoContextPool.stopped_ p) eqn:Hs; [by rewrite He, Hs|done]. Qed.
Lemma server_stop_inv s c a k k' : k' = S k → server_inv (mk_server_run s c a k) → server_inv (mk_server_run (stop s) c a k').
Proof.
  intros -> (H1 & H2 & H3 & H4 & H5 & H6 & H7 & H8). unfold server_inv in *. cbn [sr_state sr_called sr_accepted sr_stops] in *.
  assert (IoContextPool.ioc_stopped (pool s) = IoContextPool.stopped_ (pool s)) as He.
  { destruct k; [destruct (H6 eq_refl) as (_ & -> & -> & _); done|destruct (H7 ltac:(lia)) as (_ & -> & ->); done]. }
  destruct (pool_stop_stops _ He). cbn. split_and!; try done. intros Hr. rewrite pool_stop_threads. auto.
Qed.
Lemma server_step_inv main r r' : server_inv r → server_step main r r' → server_inv r'.
Proof.
  intros Hi Hs. destruct Hs as [s a k|s c a k result Hacc Hrun|s c a k error Hsig Hrun|s c a k|s c a k n|s c a k s' Hrun Hb Hend].
  - destruct Hi as (H1 & H2 & H3 & H4 & H5 & H6 & H7 & H8). unfold server_inv in *. cbn [sr_state sr_called sr_accepted sr_stops] in *.
    destruct (H2 eq_refl) as (Ha & _ & Hret). cbn. rewrite Ha. by split_and!.
  - destruct Hi as (H1 & H2 & H3 & H4 & H5 & H6 & H7 & H8). unfold server_inv in *. cbn [sr_state sr_called sr_accepted sr_stops] in *.
    assert (accepting s = 1) as Ha by lia. unfold on_accept. rewrite Ha. cbn.
    assert ((match result with Some socket => sessions s ++ [(socket, max_buffered_request_body_size_ s)] | None => sessions s end).*1
      = a ++ match result with Some socket => [socket] | None => [] end) as Hse by (destruct result; rewrite ?fmap_app, ?app_nil_r; by rewrite H4).
    specialize (H5 Hrun). destruct (acceptor_open s) eqn:Ho; cbn; rewrite ?Ho; split_and!; try done; try congruence; lia.
  - assert (server_inv (mk_server_run (handle_signal true s) c a k)) as Ht by exact Hi.
    destruct error; [exact Ht|]. exact (server_stop_inv _ _ _ _ _ eq_refl Ht).
  - by eapply server_stop_inv.
  - exact Hi.
  - destruct Hi as (H1 & H2 & H3 & H4 & H5 & H6 & H7 & H8). unfold server_inv in *. cbn [sr_state sr_called sr_accepted sr_stops] in *.
    assert (0 < k) as Hk. { destruct k; [|lia]. destruct (H6 eq_refl) as (_ & Hio & _). unfold IoContextPool.run_blocks in Hb. by rewrite Hio in Hb. }
    destruct (H7 Hk) as (Ho & Hio & Hst). unfold run_end, IoContextPool.shutdown in Hend. rewrite (pool_stop_twice _ Hst) in Hend.
    case_bool_decide; [done|]. injection Hend as <-. cbn. specialize (H5 Hrun). split_and!; try done; try lia; congruence.
Qed.
(** C40: the accept loop and the shutdown. Whatever is accepted, fails, is
    signalled or called: at most one accept is in flight, and a server that runs
    and was not stopped always has exactly one, so it never stops listening;
    every accepted socket got exactly one session, in order; a stopped server
    has closed its acceptor and stopped the pool; and [run] returns only after
    every worker thread was joined. *)
Theorem server_accepts main s0 r :
  server_inv (mk_server_run s0 false [] 0) → rtc (server_step main) (mk_server_run s0 false [] 0) r →
  let s := sr_state r in
  accepting s ≤ 1 ∧
  (in_run s = true → sr_stops r = 0 → acceptor_open s = true ∧ accepting s = 1) ∧
  (sessions s).*1 = sr_accepted r ∧
  (0 < sr_stops r → acceptor_open s = false ∧ IoContextPool.ioc_stopped (pool s) = true) ∧
  (returned s = true → 0 < sr_stops r ∧ IoContextPool.threads_ (pool s) = []).
Proof.
  intros H0 Hr s. assert (server_inv r) as (H1 & H2 & H3 & H4 & H5 & H6 & H7 & H8).
  { refine (rtc_invariant (server_step main) server_inv _ _ _ Hr H0). intros ? ? ? ?. by eapply server_step_inv. }
  split_and!; [done| |done|intros Hk; by destruct (H7 Hk) as (? & ? & _)|].
  - intros Hin Hk. destruct (H6 Hk) as (Ho & _). split; [done|]. by apply H3; [apply H5|].
  - intros Hret. split; [|by apply H8]. destruct (sr_stops r) eqn:Hk; [|lia]. destruct (H6 eq_refl) as (_ & _ & _ & Hx). unfold s in Hret. congruence.
Qed.
(** A constructed server on a fresh pool starts in the invariant. *)
Lemma constructed_ok o1 o2 o3 o4 root canonical n s :
  construct o1 o2 o3 o4 root canonical (IoContextPool.create n) = Ret s → server_inv (mk_server_run s false [] 0).
Proof.
  unfold construct, step_error. destruct o1, o2, o3, o4; try done. intros [= <-]. unfold server_inv. cbn. split_and!; try done; lia.
Qed.
Definition sample_server : t :=
  match construct None None None None [] None (IoContextPool.create 2) with Ret s => s | Throw _ => mk false 0 false [] [] 0 [] (IoContextPool.create 0) false false end.
Theorem server_accepts_witness :
  ∃ r, rtc (server_step 99) (mk_server_run sample_server false [] 0) r ∧ returned (sr_state r) = true ∧
       (sessions (sr_state r)).*1 = [7%N] ∧ IoContextPool.threads_ (pool (sr_state r)) = [].
Proof.
  assert (server_inv (mk_server_run sample_server false [] 0)) as H0 by (by apply (constructed_ok None None None None [] None 2)).
  eassert (rtc (server_step 99) (mk_server_run sample_server false [] 0) _) as Hr.
  { eapply rtc_l; [apply server_call_run|]. eapply rtc_l; [apply (server_accept 99 _ _ _ _ (Some 7%N)); [cbn; lia|done]|].
    eapply rtc_l; [apply server_stop|]. eapply rtc_l; [apply server_return; [done|done|reflexivity]|]. apply rtc_refl. }
  destruct (server_accepts 99 _ _ H0 Hr) as (_ & _ & Hs & _ & Hret).
  eexists. split; [exact Hr|]. split; [done|]. split; [exact Hs|]. by apply Hret.
Defined.
(** The pool is a singleton and is never restarted: on a pool that some server
    stopped, a new server is constructed without an error, but its [run] does
    not block, so it returns without having accepted anything. *)
Lemma second_server_does_not_run p s :
  IoContextPool.stopped_ p = true → IoContextPool.ioc_stopped p = true →
  construct None None None None [] None (IoContextPool.instance (Some p) 4 8) = Ret s →
  IoContextPool.run_blocks (pool (run_begin s)) = false ∧ sessions (run_begin s) = [].
Proof. intros Hst Hio [= <-]. cbn. unfold IoContextPool.run_blocks. by rewrite Hio. Qed.
(** The number of threads a server asks for is ignored when the pool exists. *)
Lemma thread_request_ignored p num hardware :
  IoContextPool.get_thread_count (IoContextPool.instance (Some p) num hardware) = IoContextPool.get_thread_count p.
Proof. done. Qed.
End server.
